(** * Service-mesh traffic graph: builder, merger, classifier, reducer and
      response-time appender of [handlers/graph.go] and
      [graph/appender/response_time.go], as a shallow embedding.

    Conventions of the embedding.
    - Go pointers ([*graph.Node], [*graph.Edge]) are references into a
      heap of node objects and a heap of edge objects; every read and
      write goes through the heap, so two references to one object see
      each other's updates.
    - [map[string]interface{}] is a [gmap string value]; a failed type
      assertion, a nil dereference, the comparison of two map-typed
      interface values and [graph.Error] all panic, which is the [Panic]
      outcome of the [result] monad.
    - [float64] is idealised as an exact rational ([Qc]): rounding,
      infinities and NaN are outside this model. What it says of a
      single addition carries over to the program; an equation between
      sums taken in different orders holds in exact arithmetic only.
      The HTTP half of the builder is given a second time, in the
      module [binary64], with the rounded addition of IEEE 754 binary64.
    - Go leaves the iteration order of [range] over a map unspecified: a
      loop over a map takes the order it visits the keys in as an
      argument. *)

From Stdlib Require Import QArith Qcanon.
From Stdlib Require Floats.
From stdpp Require Import base option list strings gmap numbers.

Local Open Scope Qc_scope.

(** ** Panics *)

Inductive failure :=
  | GraphError (msg : string)
  | NilPointer
  | TypeAssertion
  | Uncomparable.

Inductive result (A : Type) :=
  | Ok (a : A)
  | Panic (f : failure).
Arguments Ok {A} a.
Arguments Panic {A} f.

#[global] Instance failure_eq_dec : EqDecision failure.
Proof. solve_decision. Defined.
#[global] Instance result_eq_dec `{EqDecision A} : EqDecision (result A).
Proof. solve_decision. Defined.

#[global] Instance result_ret : MRet result := fun A a => Ok a.
#[global] Instance result_bind : MBind result := fun A B k m =>
  match m with
  | Ok a => k a
  | Panic f => Panic f
  end.

(** [for _, x := range xs { s = body(s, x) }] over a slice, stopping at
    the first panic. *)
Fixpoint forM {A S : Type} (body : S → A → result S) (xs : list A) (s : S)
  : result S :=
  match xs with
  | [] => Ok s
  | x :: xs' => s' ← body s x; forM body xs' s'
  end.

(** ** Metadata values *)

Inductive value :=
  | VFloat (x : Qc)
  | VBool (b : bool)
  | VString (s : string)
  | VStringSet (m : gmap string bool).

#[global] Instance value_eq_dec : EqDecision value.
Proof. solve_decision. Defined.

Abbreviation metadata := (gmap string value).

(** [v.(float64)], [v.(bool)], [v.(map[string]bool)] *)
Definition asFloat (v : value) : result Qc :=
  match v with VFloat x => Ok x | _ => Panic TypeAssertion end.
Definition asBool (v : value) : result bool :=
  match v with VBool b => Ok b | _ => Panic TypeAssertion end.
Definition asStringSet (v : value) : result (gmap string bool) :=
  match v with VStringSet m => Ok m | _ => Panic TypeAssertion end.

(** [a == b] on two [interface{}] values ([None] is the nil interface):
    equal dynamic types are compared by value, two maps panic. *)
Definition ifaceEq (a b : option value) : result bool :=
  match a, b with
  | None, None => Ok true
  | Some (VFloat x), Some (VFloat y) => Ok (bool_decide (x = y))
  | Some (VBool x), Some (VBool y) => Ok (bool_decide (x = y))
  | Some (VString x), Some (VString y) => Ok (bool_decide (x = y))
  | Some (VStringSet _), Some (VStringSet _) => Panic Uncomparable
  | _, _ => Ok false
  end.

(** [a == "lit"]: an interface value against a string constant. *)
Definition ifaceIsString (a : option value) (s : string) : bool :=
  match a with
  | Some (VString x) => bool_decide (x = s)
  | _ => false
  end.

(** ** The [graph] package

    [handlers/graph.go] is written against the package [graph] (node and
    edge types, identities, constants, [graph.Error]), which is not part
    of the sources at hand. *)

Module graph.

(** References to node and edge objects. *)
Abbreviation nref := nat.
Abbreviation eref := nat.

(** Modelled from the spec: the node of section 3 (id, kind, the five
    attribution strings, the ordered outgoing edges, the metadata map);
    [Edges] holds references to edge objects, as the Go slice
    [[]*Edge] does. *)
Record Node := mkNode {
  ID : string;
  NodeType : string;
  Namespace : string;
  Workload : string;
  App : string;
  Version : string;
  Service : string;
  Edges : list eref;
  Metadata : metadata
}.

(** Modelled from the spec: the edge of section 3, with its two
    back-references and its metadata map. *)
Record Edge := mkEdge {
  Source : nref;
  Dest : nref;
  EdgeMetadata : metadata
}.

(** The objects the pointers of one request point to. *)
Record Heap := mkHeap {
  nodes : list Node;
  edges : list Edge
}.

#[global] Instance Node_eq_dec : EqDecision Node.
Proof. solve_decision. Defined.
#[global] Instance Edge_eq_dec : EqDecision Edge.
Proof. solve_decision. Defined.
#[global] Instance Heap_eq_dec : EqDecision Heap.
Proof. solve_decision. Defined.

Definition emptyHeap : Heap := mkHeap [] [].

(** Modelled from the spec: the node-kind and graph-type constants of
    the missing package, and the sentinel namespace of untraceable
    sources. *)
Definition NodeTypeApp : string := "app".
Definition NodeTypeService : string := "service".
Definition NodeTypeUnknown : string := "unknown".
Definition NodeTypeWorkload : string := "workload".
Definition GraphTypeApp : string := "app".
Definition GraphTypeService : string := "service".
Definition GraphTypeVersionedApp : string := "versionedApp".
Definition GraphTypeWorkload : string := "workload".
Definition Unknown : string := "unknown".

(** Modelled from the spec: [graph.Error] aborts the request by a panic
    that carries the message (section 7, section 9). *)
Definition Error {A} (msg : string) : result A := Panic (GraphError msg).

Definition withEdges (n : Node) (es : list eref) : Node :=
  mkNode (ID n) (NodeType n) (Namespace n) (Workload n) (App n) (Version n)
         (Service n) es (Metadata n).
Definition withMetadata (n : Node) (md : metadata) : Node :=
  mkNode (ID n) (NodeType n) (Namespace n) (Workload n) (App n) (Version n)
         (Service n) (Edges n) md.
Definition withAppVersion (n : Node) (app version : string) : Node :=
  mkNode (ID n) (NodeType n) (Namespace n) (Workload n) app version
         (Service n) (Edges n) (Metadata n).
Definition withEdgeMetadata (e : Edge) (md : metadata) : Edge :=
  mkEdge (Source e) (Dest e) md.

(** [*n] and [*e]: a reference outside the heap is a nil pointer. *)
Definition getNode (h : Heap) (r : nref) : result Node :=
  match nodes h !! r with
  | Some n => Ok n
  | None => Panic NilPointer
  end.
Definition getEdge (h : Heap) (r : eref) : result Edge :=
  match edges h !! r with
  | Some e => Ok e
  | None => Panic NilPointer
  end.
Definition setNode (h : Heap) (r : nref) (n : Node) : Heap :=
  mkHeap (<[r := n]> (nodes h)) (edges h).
Definition setEdge (h : Heap) (r : eref) (e : Edge) : Heap :=
  mkHeap (nodes h) (<[r := e]> (edges h)).
Definition allocNode (h : Heap) (n : Node) : Heap * nref :=
  (mkHeap (nodes h ++ [n]) (edges h), length (nodes h)).
Definition allocEdge (h : Heap) (e : Edge) : Heap * eref :=
  (mkHeap (nodes h) (edges h ++ [e]), length (edges h)).

(** Modelled from the spec: [graph.NewNodeExplicit] makes a node with the
    identity, kind and attribution fields it is given, no outgoing edge
    and an empty metadata map. *)
Definition NewNodeExplicit
    (id namespace workload app version service nodeType graphType : string)
  : Node :=
  mkNode id nodeType namespace workload app version service [] ∅.

(** Modelled from the spec: [Node.AddEdge] makes an edge from the node
    to [dest] with an empty metadata map, appends it to the node's
    outgoing edges (which the node owns) and returns it. *)
Definition AddEdge (h : Heap) (s dest : nref) : result (Heap * eref) :=
  n ← getNode h s;
  let '(h, e) := allocEdge h (mkEdge s dest ∅) in
  Ok (setNode h s (withEdges n (Edges n ++ [e])), e).

(** Modelled from the spec: the identity resolver of section 4.1, its
    four rules in priority order; a field is set when it is not empty,
    and [f] joins the kind's fields with ["_"] after a tag for the
    kind.  A versioned application is a node of type [NodeTypeApp] that
    carries its version, as [handleMisconfiguredLabels] reads it. *)
Definition IdSpec
    (namespace workload app version service graphType : string)
  : string * string :=
  let isSet (s : string) := negb (bool_decide (s = "")) in
  if bool_decide (namespace = Unknown) then
    (Unknown, NodeTypeUnknown)
  else if isSet service
          && negb (isSet workload || isSet app || isSet version) then
    ("svc_" +:+ namespace +:+ "_" +:+ service, NodeTypeService)
  else if bool_decide (graphType = GraphTypeApp)
          || bool_decide (graphType = GraphTypeVersionedApp) then
    if isSet version && bool_decide (graphType = GraphTypeVersionedApp) then
      ("vapp_" +:+ namespace +:+ "_" +:+ app +:+ "_" +:+ version,
       NodeTypeApp)
    else
      ("app_" +:+ namespace +:+ "_" +:+ app, NodeTypeApp)
  else
    ("wl_" +:+ namespace +:+ "_" +:+ workload, NodeTypeWorkload).

(** Modelled from the spec: [graph.IsOK], a label value that is set. *)
Definition IsOKSpec (s : string) : bool := negb (bool_decide (s = "")).

Record NamespaceInfo := mkNamespaceInfo {
  Name : string;
  Duration : Z
}.

End graph.

Abbreviation TrafficMap := (gmap string graph.nref).

(** A telemetry sample of [model.Vector]: its label set and its value. *)
Record Sample := mkSample {
  Metric : gmap string string;
  Value : Qc
}.

(** The entries a [range] over [tm] visits when it takes the keys in the
    order [order]. *)
Definition rangeMap {V} (tm : gmap string V) (order : list string)
  : list (string * V) :=
  omap (fun k => pair k <$> tm !! k) order.

(** ** [handlers/graph.go] *)

Module handlers.
Import graph.

(** *** Metric aggregation primitives *)

Definition addToMetadataValue (md : metadata) (k : string) (v : Qc)
  : result metadata :=
  match md !! k with
  | Some curr => c ← asFloat curr; Ok (<[k := VFloat (c + v)]> md)
  | None => Ok (<[k := VFloat v]> md)
  end.

Definition averageMetadataValue (md : metadata) (k : string) (v : Qc)
  : result metadata :=
  let total := v in
  let count := 1 in
  let kTotal := k +:+ "_total" in
  let kCount := k +:+ "_count" in
  total ← match md !! kTotal with
          | Some prevTotal => p ← asFloat prevTotal; Ok (total + p)
          | None => Ok total
          end;
  count ← match md !! kCount with
          | Some prevCount => p ← asFloat prevCount; Ok (count + p)
          | None => Ok count
          end;
  Ok (<[k := VFloat (total / count)]>
      (<[kCount := VFloat count]> (<[kTotal := VFloat total]> md))).

Definition addToDestServices (md : metadata) (destService : string)
  : result metadata :=
  match md !! "destServices" with
  | None =>
      Ok (<["destServices" := VStringSet (<[destService := true]> ∅)]> md)
  | Some destServices =>
      s ← asStringSet destServices;
      Ok (<["destServices" := VStringSet (<[destService := true]> s)]> md)
  end.


(** *** Request options *)

Record Options := mkOptions {
  GraphType : string;
  InjectServiceNodes : bool;
  IncludeIstio : bool;
  VendorGraphType : string;          (* o.VendorOptions.GraphType *)
  Namespaces : gmap string NamespaceInfo;
  AccessibleNamespaces : gmap string Z
}.

(** *** Updates through a pointer *)

(** [n.Metadata[k] = v] *)
Definition setNodeMetadata (h : Heap) (r : nref) (k : string) (v : value)
  : result Heap :=
  n ← getNode h r;
  Ok (setNode h r (withMetadata n (<[k := v]> (Metadata n)))).

(** [e.Metadata[k] = v] *)
Definition setEdgeMetadata (h : Heap) (r : eref) (k : string) (v : value)
  : result Heap :=
  e ← getEdge h r;
  Ok (setEdge h r (withEdgeMetadata e (<[k := v]> (EdgeMetadata e)))).

(** [addToMetadataValue(n.Metadata, k, v)] *)
Definition addToNodeMetadata (h : Heap) (r : nref) (k : string) (v : Qc)
  : result Heap :=
  n ← getNode h r;
  md ← addToMetadataValue (Metadata n) k v;
  Ok (setNode h r (withMetadata n md)).

(** [addToMetadataValue(e.Metadata, k, v)] *)
Definition addToEdgeMetadata (h : Heap) (r : eref) (k : string) (v : Qc)
  : result Heap :=
  e ← getEdge h r;
  md ← addToMetadataValue (EdgeMetadata e) k v;
  Ok (setEdge h r (withEdgeMetadata e md)).

(** [e.Dest.ID] *)
Definition destID (h : Heap) (e : Edge) : result string :=
  d ← getNode h (Dest e); Ok (ID d).

(** *** Traffic map builder *)

Section Builder.
(** [graph.Id] and [graph.IsOK] of the missing package. *)
Variable Id : string → string → string → string → string → string
              → string * string.
Variable IsOK : string → bool.

Definition addNode (h : Heap) (trafficMap : TrafficMap)
    (namespace workload app version service : string) (o : Options)
  : Heap * TrafficMap * nref * bool :=
  let '(id, nodeType) :=
    Id namespace workload app version service (GraphType o) in
  match trafficMap !! id with
  | Some node => (h, trafficMap, node, true)
  | None =>
      let newNode := NewNodeExplicit id namespace workload app version
                       service nodeType (GraphType o) in
      let '(h, node) := allocNode h newNode in
      (h, <[id := node]> trafficMap, node, false)
  end.

Definition handleMisconfiguredLabels (h : Heap) (node : nref)
    (app version : string) (rate : Qc) (o : Options) : result Heap :=
  n ← getNode h node;
  let isVersionedAppGraph :=
    bool_decide (VendorGraphType o = GraphTypeVersionedApp) in
  let isWorkloadNode := bool_decide (NodeType n = NodeTypeWorkload) in
  let isVersionedAppNode :=
    bool_decide (NodeType n = NodeTypeApp) && isVersionedAppGraph in
  if isWorkloadNode || isVersionedAppNode then
    let labels :=
      (if bool_decide (App n ≠ app) then ["app"] else [])
      ++ (if bool_decide (Version n ≠ version) then ["version"] else []) in
    if bool_decide (0 < length labels)%nat then
      let n := withMetadata n
        (<["isMisconfigured" :=
             VString ("labels=[" +:+ String.concat " " labels +:+ "]")]>
           (Metadata n)) in
      let n := if bool_decide (0 < rate) then withAppVersion n app version
               else n in
      Ok (setNode h node n)
    else Ok h
  else Ok h.

(** The search of [source.Edges] for an edge to [destId] whose metadata
    entry [protocolKey] is the string [protocol]. *)
Fixpoint findEdge (h : Heap) (es : list eref) (destId : string)
    (protocolKey protocol : string) : result (option eref) :=
  match es with
  | [] => Ok None
  | e :: es' =>
      E ← getEdge h e;
      d ← destID h E;
      if bool_decide (destId = d)
         && ifaceIsString (EdgeMetadata E !! protocolKey) protocol
      then Ok (Some e)
      else findEdge h es' destId protocolKey protocol
  end.

Definition addHttpTraffic (h : Heap) (trafficMap : TrafficMap) (val : Qc)
    (code sourceWlNs sourceWl sourceApp sourceVer sourceSvcName
     destSvcNs destWl destApp destVer destSvcName : string) (o : Options)
  : result (Heap * TrafficMap) :=
  let '(h, trafficMap, source, sourceFound) :=
    addNode h trafficMap sourceWlNs sourceWl sourceApp sourceVer
            sourceSvcName o in
  let '(h, trafficMap, dest, destFound) :=
    addNode h trafficMap destSvcNs destWl destApp destVer destSvcName o in
  d ← getNode h dest;
  md ← addToDestServices (Metadata d) destSvcName;
  let h := setNode h dest (withMetadata d md) in
  s ← getNode h source;
  d ← getNode h dest;
  found ← findEdge h (Edges s) (ID d) "protocol" "http";
  '(h, edge) ← match found with
               | Some e => Ok (h, e)
               | None =>
                   '(h, e) ← AddEdge h source dest;
                   h ← setEdgeMetadata h e "protocol" (VString "http");
                   Ok (h, e)
               end;
  h ← (if sourceFound
       then handleMisconfiguredLabels h source sourceApp sourceVer val o
       else Ok h);
  h ← (if destFound
       then handleMisconfiguredLabels h dest destApp destVer val o
       else Ok h);
  h ← addToNodeMetadata h source "httpOut" val;
  h ← addToNodeMetadata h dest "httpIn" val;
  h ← addToEdgeMetadata h edge "http" val;
  h ← (if String.prefix "3" code then
         h ← addToNodeMetadata h dest "httpIn3xx" val;
         addToEdgeMetadata h edge "http3xx" val
       else if String.prefix "4" code then
         h ← addToNodeMetadata h dest "httpIn4xx" val;
         addToEdgeMetadata h edge "http4xx" val
       else if String.prefix "5" code then
         h ← addToNodeMetadata h dest "httpIn5xx" val;
         addToEdgeMetadata h edge "http5xx" val
       else Ok h);
  Ok (h, trafficMap).

Definition populateHttpSample (o : Options) (st : Heap * TrafficMap)
    (s : Sample) : result (Heap * TrafficMap) :=
  let '(h, trafficMap) := st in
  let m := Metric s in
  match m !! "namespace", m !! "deployment", m !! "dst_namespace",
        m !! "dst_service", m !! "dst_deployment" with
  | Some sourceWlNs, Some sourceWl, Some destSvcNs, Some destSvcName,
    Some destWl =>
      let sourceApp := "Unknown" in
      let sourceVer := "Unknown" in
      let destApp := "Unknown" in
      let destVer := "Unknown" in
      let code := "200" in
      let val := Value s in
      if InjectServiceNodes o then
        let '(_, destNodeType) :=
          Id destSvcNs destWl destApp destVer destSvcName (GraphType o) in
        if bool_decide (destNodeType ≠ NodeTypeService) then
          '(h, trafficMap) ←
            addHttpTraffic h trafficMap val code sourceWlNs sourceWl
              sourceApp sourceVer "" destSvcNs "" "" "" destSvcName o;
          addHttpTraffic h trafficMap val code destSvcNs "" "" ""
            destSvcName destSvcNs destWl destApp destVer destSvcName o
        else
          addHttpTraffic h trafficMap val code sourceWlNs sourceWl
            sourceApp sourceVer "" destSvcNs destWl destApp destVer
            destSvcName o
      else
        addHttpTraffic h trafficMap val code sourceWlNs sourceWl sourceApp
          sourceVer "" destSvcNs destWl destApp destVer destSvcName o
  | _, _, _, _, _ => Ok (h, trafficMap)     (* logged and skipped *)
  end.

Definition populateTrafficMapHttp (h : Heap) (trafficMap : TrafficMap)
    (vector : list Sample) (o : Options) : result (Heap * TrafficMap) :=
  forM (populateHttpSample o) vector (h, trafficMap).

Definition addTcpTraffic (h : Heap) (trafficMap : TrafficMap) (val : Qc)
    (sourceWlNs sourceWl sourceApp sourceVer sourceSvcName
     destSvcNs destWl destApp destVer destSvcName : string) (o : Options)
  : result (Heap * TrafficMap) :=
  let '(h, trafficMap, source, sourceFound) :=
    addNode h trafficMap sourceWlNs sourceWl sourceApp sourceVer
            sourceSvcName o in
  let '(h, trafficMap, dest, destFound) :=
    addNode h trafficMap destSvcNs destWl destApp destVer destSvcName o in
  d ← getNode h dest;
  md ← addToDestServices (Metadata d) destSvcName;
  let h := setNode h dest (withMetadata d md) in
  s ← getNode h source;
  d ← getNode h dest;
  found ← findEdge h (Edges s) (ID d) "procotol" "tcp";
  '(h, edge) ← match found with
               | Some e => Ok (h, e)
               | None =>
                   '(h, e) ← AddEdge h source dest;
                   h ← setEdgeMetadata h e "protocol" (VString "tcp");
                   Ok (h, e)
               end;
  h ← (if sourceFound
       then handleMisconfiguredLabels h source sourceApp sourceVer val o
       else Ok h);
  h ← (if destFound
       then handleMisconfiguredLabels h dest destApp destVer val o
       else Ok h);
  h ← addToNodeMetadata h source "tcpOut" val;
  h ← addToNodeMetadata h dest "tcpIn" val;
  h ← addToEdgeMetadata h edge "tcp" val;
  Ok (h, trafficMap).

Definition populateTcpSample (o : Options) (st : Heap * TrafficMap)
    (s : Sample) : result (Heap * TrafficMap) :=
  let '(h, trafficMap) := st in
  let m := Metric s in
  let lDestSvcNs :=
    match m !! "destination_service_namespace" with
    | Some l => Some l
    | None => m !! "destination_workload_namespace"
    end in
  match m !! "source_workload_namespace", m !! "source_workload",
        m !! "source_app", m !! "source_version", lDestSvcNs,
        m !! "destination_service_name", m !! "destination_workload",
        m !! "destination_app", m !! "destination_version" with
  | Some sourceWlNs, Some sourceWl, Some sourceApp, Some sourceVer,
    Some destSvcNs, Some destSvcName, Some destWl, Some destApp,
    Some destVer =>
      let val := Value s in
      if InjectServiceNodes o then
        let destSvcNameOk := IsOK destSvcName in
        let '(_, destNodeType) :=
          Id destSvcNs destWl destApp destVer destSvcName (GraphType o) in
        if destSvcNameOk && bool_decide (destNodeType ≠ NodeTypeService)
        then
          '(h, trafficMap) ←
            addTcpTraffic h trafficMap val sourceWlNs sourceWl sourceApp
              sourceVer "" destSvcNs "" "" "" destSvcName o;
          addTcpTraffic h trafficMap val destSvcNs "" "" "" destSvcName
            destSvcNs destWl destApp destVer destSvcName o
        else
          addTcpTraffic h trafficMap val sourceWlNs sourceWl sourceApp
            sourceVer "" destSvcNs destWl destApp destVer destSvcName o
      else
        addTcpTraffic h trafficMap val sourceWlNs sourceWl sourceApp
          sourceVer "" destSvcNs destWl destApp destVer destSvcName o
  | _, _, _, _, _, _, _, _, _ => Ok (h, trafficMap)  (* logged and skipped *)
  end.

Definition populateTrafficMapTcp (h : Heap) (trafficMap : TrafficMap)
    (vector : list Sample) (o : Options) : result (Heap * TrafficMap) :=
  forM (populateTcpSample o) vector (h, trafficMap).

(** [buildNamespaceTrafficMap], given the vectors its telemetry queries
    return: the HTTP vectors in the order they are populated (the
    in-namespace one, then the control-plane ones when requested), then
    the three TCP vectors. *)
Definition buildNamespaceTrafficMap (httpVectors tcpVectors : list (list Sample))
    (o : Options) : result (Heap * TrafficMap) :=
  st ← forM (fun '(h, tm) v => populateTrafficMapHttp h tm v o)
            httpVectors (emptyHeap, ∅);
  forM (fun '(h, tm) v => populateTrafficMapTcp h tm v o) tcpVectors st.
End Builder.

(** *** Namespace merger *)

(** The inner loop of [mergeTrafficMaps]: is there an edge in [es] with
    the destination id and the protocol of [nsEdge]? *)
Fixpoint isDupEdge (h : Heap) (es : list eref) (nsEdge : eref)
  : result bool :=
  match es with
  | [] => Ok false
  | e :: es' =>
      NE ← getEdge h nsEdge;
      nd ← destID h NE;
      E ← getEdge h e;
      d ← destID h E;
      same ← (if bool_decide (nd = d)
              then ifaceEq (EdgeMetadata NE !! "protocol")
                           (EdgeMetadata E !! "protocol")
              else Ok false);
      if (same : bool) then Ok true else isDupEdge h es' nsEdge
  end.

(** One turn of the loop over [nsNode.Edges]. *)
Definition mergeEdge (node : nref) (h : Heap) (nsEdge : eref)
  : result Heap :=
  n ← getNode h node;
  dup ← isDupEdge h (Edges n) nsEdge;
  if (dup : bool) then Ok h
  else Ok (setNode h node (withEdges n (Edges n ++ [nsEdge]))).

(** One turn of the loop over [nsTrafficMap]. *)
Definition mergeNode (ns : string) (st : Heap * TrafficMap)
    (entry : string * nref) : result (Heap * TrafficMap) :=
  let '(h, trafficMap) := st in
  let '(nsId, nsNode) := entry in
  match trafficMap !! nsId with
  | Some node =>
      N ← getNode h nsNode;
      let '(trafficMap, node, nsNode) :=
        if bool_decide (Namespace N = ns)
        then (<[nsId := nsNode]> trafficMap, nsNode, node)
        else (trafficMap, node, nsNode) in
      L ← getNode h nsNode;
      h ← forM (mergeEdge node) (Edges L) h;
      Ok (h, trafficMap)
  | None => Ok (h, <[nsId := nsNode]> trafficMap)
  end.

Definition mergeTrafficMaps (order : list string) (h : Heap)
    (trafficMap : TrafficMap) (ns : string) (nsTrafficMap : TrafficMap)
  : result (Heap * TrafficMap) :=
  forM (mergeNode ns) (rangeMap nsTrafficMap order) (h, trafficMap).

(** *** Node classifier *)

Definition isOutside (n : Node) (namespaces : gmap string NamespaceInfo)
  : bool :=
  if bool_decide (Namespace n = Unknown) then false
  else negb (existsb (fun ns => bool_decide (Namespace n = Name ns.2))
                     (map_to_list namespaces)).

Definition isInaccessible (n : Node) (accessibleNamespaces : gmap string Z)
  : bool :=
  match accessibleNamespaces !! Namespace n with
  | None => true
  | Some _ => false
  end.

(** The [switch n.NodeType] of [markOutsideOrInaccessible]. *)
Definition markNodeSwitch (o : Options) (h : Heap) (r : nref)
  : result Heap :=
  n ← getNode h r;
  if bool_decide (NodeType n = NodeTypeUnknown) then
    setNodeMetadata h r "isInaccessible" (VBool true)
  else if bool_decide (NodeType n = NodeTypeService) then
    match Metadata n !! "isServiceEntry" with
    | Some _ => setNodeMetadata h r "isInaccessible" (VBool true)
    | None =>
        if isOutside n (Namespaces o)
        then setNodeMetadata h r "isOutside" (VBool true)
        else Ok h
    end
  else
    if isOutside n (Namespaces o)
    then setNodeMetadata h r "isOutside" (VBool true)
    else Ok h.

(** The [if] that follows it: an outsider that is not yet inaccessible. *)
Definition markNodeOutsider (o : Options) (h : Heap) (r : nref)
  : result Heap :=
  n ← getNode h r;
  match Metadata n !! "isOutside" with
  | Some isOutsider =>
      b ← asBool isOutsider;
      if (b : bool) then
        match Metadata n !! "isInaccessible" with
        | None =>
            if isInaccessible n (AccessibleNamespaces o)
            then setNodeMetadata h r "isInaccessible" (VBool true)
            else Ok h
        | Some _ => Ok h
        end
      else Ok h
  | None => Ok h
  end.

(** One turn of the loop of [markOutsideOrInaccessible]. *)
Definition markNode (o : Options) (h : Heap) (entry : string * nref)
  : result Heap :=
  h ← markNodeSwitch o h entry.2;
  markNodeOutsider o h entry.2.

Definition markOutsideOrInaccessible (order : list string) (h : Heap)
    (trafficMap : TrafficMap) (o : Options) : result Heap :=
  forM (markNode o) (rangeMap trafficMap order) h.

(** The first loop of [markTrafficGenerators] collects the ids of all
    edge destinations. *)
Definition collectDests (h : Heap) (destMap : gmap string nref)
    (entry : string * nref) : result (gmap string nref) :=
  n ← getNode h entry.2;
  forM (fun destMap e =>
          E ← getEdge h e;
          d ← destID h E;
          Ok (<[d := Dest E]> destMap))
       (Edges n) destMap.

Definition markRoot (destMap : gmap string nref) (h : Heap)
    (entry : string * nref) : result Heap :=
  n ← getNode h entry.2;
  if bool_decide (length (Edges n) = 0%nat) then Ok h
  else match destMap !! ID n with
       | Some _ => Ok h
       | None => setNodeMetadata h entry.2 "isRoot" (VBool true)
       end.

Definition markTrafficGenerators (order1 order2 : list string) (h : Heap)
    (trafficMap : TrafficMap) : result Heap :=
  destMap ← forM (collectDests h) (rangeMap trafficMap order1) ∅;
  forM (markRoot destMap) (rangeMap trafficMap order2) h.

(** *** Graph reducer *)

(** The messages of the two [graph.Error] calls of the reducer are cut
    down to their constant part: the formatted node and edge are left
    out. *)
Definition checkNodeType (h : Heap) (expected : string) (n : nref)
  : result unit :=
  N ← getNode h n;
  if bool_decide (expected ≠ NodeType N)
  then Error ("Expected nodeType [" +:+ expected +:+ "]")
  else Ok ().

Definition addServiceGraphTraffic (h : Heap) (target source : eref)
  : result Heap :=
  T ← getEdge h target;
  let protocol := EdgeMetadata T !! "protocol" in
  h ← (if ifaceIsString protocol "http" then
         S ← getEdge h source;
         v ← match EdgeMetadata S !! "http" with
             | Some v => asFloat v
             | None => Panic TypeAssertion
             end;
         h ← addToEdgeMetadata h target "http" v;
         S ← getEdge h source;
         h ← match EdgeMetadata S !! "http3xx" with
             | Some val => v ← asFloat val;
                           addToEdgeMetadata h target "http3xx" v
             | None => Ok h
             end;
         S ← getEdge h source;
         h ← match EdgeMetadata S !! "http4xx" with
             | Some val => v ← asFloat val;
                           addToEdgeMetadata h target "http4xx" v
             | None => Ok h
             end;
         S ← getEdge h source;
         match EdgeMetadata S !! "http5xx" with
         | Some val => v ← asFloat val;
                       addToEdgeMetadata h target "http5xx" v
         | None => Ok h
         end
       else if ifaceIsString protocol "tcp" then
         S ← getEdge h source;
         v ← match EdgeMetadata S !! "tcp" with
             | Some v => asFloat v
             | None => Panic TypeAssertion
             end;
         addToEdgeMetadata h target "tcp" v
       else
         Error "Unexpected edge protocol");
  S ← getEdge h source;
  match EdgeMetadata S !! "responseTime" with
  | Some responseTime =>
      v ← asFloat responseTime;
      T ← getEdge h target;
      md ← averageMetadataValue (EdgeMetadata T) "responseTime" v;
      Ok (setEdge h target (withEdgeMetadata T md))
  | None => Ok h
  end.

(** The search of [n.Edges] for an edge to [childId] with the protocol
    of [serviceEdge]. *)
Fixpoint findServiceEdge (h : Heap) (es : list eref) (childId : string)
    (protocol : option value) : result (option eref) :=
  match es with
  | [] => Ok None
  | e :: es' =>
      E ← getEdge h e;
      d ← destID h E;
      same ← (if bool_decide (childId = d)
              then ifaceEq protocol (EdgeMetadata E !! "protocol")
              else Ok false);
      if (same : bool) then Ok (Some e)
      else findServiceEdge h es' childId protocol
  end.

(** One turn of the loop over [workload.Edges]. *)
Definition reduceServiceEdge (n : nref) (h : Heap) (serviceEdge : eref)
  : result Heap :=
  SE ← getEdge h serviceEdge;
  let childService := Dest SE in
  _ ← checkNodeType h NodeTypeService childService;
  C ← getNode h childService;
  N ← getNode h n;
  edge ← findServiceEdge h (Edges N) (ID C) (EdgeMetadata SE !! "protocol");
  match edge with
  | None => Ok (setNode h n (withEdges N (Edges N ++ [serviceEdge])))
  | Some edge => addServiceGraphTraffic h edge serviceEdge
  end.

(** One turn of the loop over [workloadEdges]. *)
Definition reduceWorkloadEdge (n : nref) (h : Heap) (workloadEdge : eref)
  : result Heap :=
  WE ← getEdge h workloadEdge;
  let workload := Dest WE in
  _ ← checkNodeType h NodeTypeWorkload workload;
  W ← getNode h workload;
  forM (reduceServiceEdge n) (Edges W) h.

(** One turn of the loop over [trafficMap]. *)
Definition reduceNode (st : Heap * TrafficMap) (entry : string * nref)
  : result (Heap * TrafficMap) :=
  let '(h, reducedTrafficMap) := st in
  let '(id, n) := entry in
  N ← getNode h n;
  if bool_decide (NodeType N ≠ NodeTypeService) then
    match Metadata N !! "isRoot" with
    | Some val =>
        b ← asBool val;
        if (b : bool) then Ok (h, <[id := n]> reducedTrafficMap)
        else Ok (h, reducedTrafficMap)
    | None => Ok (h, reducedTrafficMap)
    end
  else
    let reducedTrafficMap := <[id := n]> reducedTrafficMap in
    let workloadEdges := Edges N in
    let h := setNode h n (withEdges N []) in
    h ← forM (reduceWorkloadEdge n) workloadEdges h;
    Ok (h, reducedTrafficMap).

Definition reduceToServiceGraph (order : list string) (h : Heap)
    (trafficMap : TrafficMap) : result (Heap * TrafficMap) :=
  forM reduceNode (rangeMap trafficMap order) (h, ∅).

End handlers.

(** ** [graph/appender/response_time.go] *)

Module appender.
Import graph.

(** [averageResponseTime] of [graph/appender/response_time.go], on a
    [map[string]float64]. *)
Definition averageResponseTime (responseTimeMap : gmap string Qc)
    (key : string) (val : Qc) : gmap string Qc :=
  let total := val in
  let count := 1 in
  let keyTotal := key +:+ "_total" in
  let keyCount := key +:+ "_count" in
  let total := match responseTimeMap !! keyTotal with
               | Some prevTotal => total + prevTotal
               | None => total
               end in
  let count := match responseTimeMap !! keyCount with
               | Some prevCount => count + prevCount
               | None => count
               end in
  <[key := total / count]>
    (<[keyCount := count]> (<[keyTotal := total]> responseTimeMap)).

Record ResponseTimeAppender := mkResponseTimeAppender {
  GraphType : string;
  InjectServiceNodes : bool;
  IncludeIstio : bool;
  Namespaces : gmap string NamespaceInfo;
  Quantile : Qc;
  QueryTime : Z
}.

Definition DefaultQuantile : Qc := Q2Qc (95 # 100).

(** A percentile query: [histogram_quantile(quantile, sum(rate(
    metric{filters}[range s])) by (groupBy))]. A filter is a label, a
    comparison and a value. *)
Record Query := mkQuery {
  quantile : Qc;
  metric : string;
  filters : list (string * string * string);
  rangeSeconds : Z;
  groupBy : string
}.

(** The quantile [appendGraph] computes percentiles with. *)
Definition effectiveQuantile (a : ResponseTimeAppender) : Qc :=
  if bool_decide (Quantile a ≤ 0) || bool_decide (Q2Qc 100 ≤ Quantile a)
  then DefaultQuantile
  else Quantile a.

Definition applyResponseTimeEdge (responseTimeMap : gmap string Qc)
    (h : Heap) (e : eref) : result Heap :=
  E ← getEdge h e;
  s ← getNode h (Source E);
  d ← getNode h (Dest E);
  let key := ID s +:+ " " +:+ ID d in
  Ok (setEdge h e
        (withEdgeMetadata E
           (<["responseTime" := VFloat (default 0 (responseTimeMap !! key))]>
              (EdgeMetadata E)))).

Definition applyResponseTimeNode (responseTimeMap : gmap string Qc)
    (h : Heap) (entry : string * nref) : result Heap :=
  n ← getNode h entry.2;
  forM (applyResponseTimeEdge responseTimeMap) (Edges n) h.

Definition applyResponseTime (order : list string) (h : Heap)
    (trafficMap : TrafficMap) (responseTimeMap : gmap string Qc)
  : result Heap :=
  forM (applyResponseTimeNode responseTimeMap) (rangeMap trafficMap order) h.

Section Appender.
Variable Id : string → string → string → string → string → string
              → string * string.
(** [config.Get().IstioNamespace] and the telemetry backend. *)
Variable istioNamespace : string.
Variable promQuery : Query → list Sample.

Definition addResponseTime (a : ResponseTimeAppender)
    (responseTimeMap : gmap string Qc) (val : Qc)
    (sourceWlNs sourceWl sourceApp sourceVer sourceSvcName
     destSvcNs destWl destApp destVer destSvcName : string)
  : gmap string Qc :=
  let '(sourceId, _) :=
    Id sourceWlNs sourceWl sourceApp sourceVer sourceSvcName (GraphType a) in
  let '(destId, _) :=
    Id destSvcNs destWl destApp destVer destSvcName (GraphType a) in
  let key := sourceId +:+ " " +:+ destId in
  averageResponseTime responseTimeMap key val.

(** One turn of the loop of [populateResponseTimeMap]. The test
    [math.IsNaN(val)] never holds of a rational and is left out. *)
Definition populateResponseTimeSample (a : ResponseTimeAppender)
    (responseTimeMap : gmap string Qc) (s : Sample) : gmap string Qc :=
  let m := Metric s in
  match m !! "namespace", m !! "deployment", m !! "dst_namespace",
        m !! "dst_service", m !! "dst_deployment" with
  | Some sourceWlNs, Some sourceWl, Some destSvcNs, Some destSvcName,
    Some destWl =>
      let sourceApp := "Unknown" in
      let sourceVer := "Unknown" in
      let destApp := "Unknown" in
      let destVer := "Unknown" in
      let val := Value s * Q2Qc 1000 in
      if InjectServiceNodes a then
        let '(_, destNodeType) :=
          Id destSvcNs destWl destApp destVer destSvcName (GraphType a) in
        if bool_decide (destNodeType ≠ NodeTypeService) then
          let responseTimeMap :=
            addResponseTime a responseTimeMap val sourceWlNs sourceWl
              sourceApp sourceVer "" destSvcNs "" "" "" destSvcName in
          addResponseTime a responseTimeMap val destSvcNs "" "" ""
            destSvcName destSvcNs destWl destApp destVer destSvcName
        else
          addResponseTime a responseTimeMap val sourceWlNs sourceWl
            sourceApp sourceVer "" destSvcNs destWl destApp destVer
            destSvcName
      else
        addResponseTime a responseTimeMap val sourceWlNs sourceWl sourceApp
          sourceVer "" destSvcNs destWl destApp destVer destSvcName
  | _, _, _, _, _ => responseTimeMap     (* logged and skipped *)
  end.

Definition populateResponseTimeMap (a : ResponseTimeAppender)
    (responseTimeMap : gmap string Qc) (vector : list Sample)
  : gmap string Qc :=
  foldl (populateResponseTimeSample a) responseTimeMap vector.

(** The queries [appendGraph] sends, in the order it sends them. *)
Definition queries (a : ResponseTimeAppender) (namespace : string)
  : list Query :=
  let quantile := effectiveQuantile a in
  let duration :=
    match Namespaces a !! namespace with
    | Some i => Duration i
    | None => 0%Z
    end in
  let groupBy :=
    "le,namespace,deployment,dst_namespace,dst_service,dst_deployment" in
  [mkQuery quantile "response_latency_ms_bucket"
     [("namespace", "=", namespace)] duration groupBy]
  ++ (if IncludeIstio a then
        (if bool_decide (namespace = istioNamespace) then
           [mkQuery quantile "istio_request_duration_seconds_bucket"
              [("reporter", "=", "destination");
               ("source_workload_namespace", "!=", namespace);
               ("destination_service_namespace", "=", namespace);
               ("response_code", "=~", "2[0-9]{2}")]
              duration groupBy]
         else [])
        ++ [mkQuery quantile "istio_request_duration_seconds_bucket"
              [("reporter", "=", "destination");
               ("source_workload_namespace", "=", namespace);
               ("destination_service_namespace", "=", istioNamespace);
               ("response_code", "=~", "2[0-9]{2}")]
              duration groupBy]
      else []).

(** The response-time map [appendGraph] fills from the results of its
    queries. *)
Definition responseTimes (a : ResponseTimeAppender) (namespace : string)
  : gmap string Qc :=
  foldl (fun m q => populateResponseTimeMap a m (promQuery q))
        ∅ (queries a namespace).

Definition appendGraph (a : ResponseTimeAppender) (order : list string)
    (h : Heap) (trafficMap : TrafficMap) (namespace : string)
  : result Heap :=
  let responseTimeMap := responseTimes a namespace in
  applyResponseTime order h trafficMap responseTimeMap.

(** [AppendGraph]: nothing is done for an empty traffic map. *)
Definition AppendGraph (a : ResponseTimeAppender) (order : list string)
    (h : Heap) (trafficMap : TrafficMap) (namespace : string)
  : result Heap :=
  if bool_decide (size trafficMap = 0%nat) then Ok h
  else appendGraph a order h trafficMap namespace.
End Appender.

End appender.

(** ** Vocabulary of the statements *)

Import graph handlers.

Definition Qcsum (vs : list Qc) : Qc := foldr Qcplus 0 vs.

Definition Qcnat (n : nat) : Qc := Q2Qc (inject_Z (Z.of_nat n)).

(** The values [v1..vn] handed to one key, one call after the other. *)
Definition averageAll (md : metadata) (k : string) (vs : list Qc)
  : result metadata :=
  forM (fun md v => handlers.averageMetadataValue md k v) vs md.

Definition averageResponseTimeAll (m : gmap string Qc) (key : string)
    (vs : list Qc) : gmap string Qc :=
  foldl (fun m v => appender.averageResponseTime m key v) m vs.

(** The three entries the running average keeps for the key [k]. *)
Definition averaged (k : string) (md : metadata) (t c : Qc) : Prop :=
  md !! (k +:+ "_total") = Some (VFloat t) ∧
  md !! (k +:+ "_count") = Some (VFloat c) ∧
  md !! k = Some (VFloat (t / c)).

Definition averagedRT (k : string) (m : gmap string Qc) (t c : Qc) : Prop :=
  m !! (k +:+ "_total") = Some t ∧
  m !! (k +:+ "_count") = Some c ∧
  m !! k = Some (t / c).

(** *** Reading an outcome *)

(** What [read] sees in the state a run ends in; nothing after a panic. *)
Definition outcome {A B} (r : result A) (read : A → B) : option B :=
  match r with
  | Ok a => Some (read a)
  | Panic _ => None
  end.

(** *** Sample vectors *)

Definition workloadGraph : Options :=
  mkOptions GraphTypeWorkload false false GraphTypeWorkload ∅ ∅.

(** A TCP series from workload [productpage-v1] to workload [mongodb-v1]
    through the service [svc]. *)
Definition tcpLabels (svc : string) : gmap string string :=
  list_to_map
    [("source_workload_namespace", "bookinfo");
     ("source_workload", "productpage-v1");
     ("source_app", "productpage");
     ("source_version", "v1");
     ("destination_service_namespace", "bookinfo");
     ("destination_service_name", svc);
     ("destination_workload", "mongodb-v1");
     ("destination_app", "mongodb");
     ("destination_version", "v1")].

(** Two series between one pair of workloads, told apart by the service
    the destination workload was reached through. *)
Definition tcpVector : list Sample :=
  [mkSample (tcpLabels "mongodb") (Qcnat 5);
   mkSample (tcpLabels "mongodb-alt") (Qcnat 7)].

(** An HTTP series from [productpage-v1] to [reviews-v1] through the
    service [svc], with the response code [code]. *)
Definition httpLabels (svc code : string) : gmap string string :=
  list_to_map
    [("namespace", "bookinfo");
     ("deployment", "productpage-v1");
     ("dst_namespace", "bookinfo");
     ("dst_service", svc);
     ("dst_deployment", "reviews-v1");
     ("response_code", code)].

Definition httpVector : list Sample :=
  [mkSample (httpLabels "reviews" "200") (Qcnat 5);
   mkSample (httpLabels "reviews-alt" "200") (Qcnat 7)].

Definition httpVector500 : list Sample :=
  [mkSample (httpLabels "reviews" "500") (Qcnat 3)].

Definition quantile50 : appender.ResponseTimeAppender :=
  appender.mkResponseTimeAppender GraphTypeWorkload false false ∅ (Q2Qc 50) 0.

(** *** Ranging over a map *)

(** [order] is an order in which a [range] over [tm] may visit its
    keys: each key once. *)
Definition visits {V} (tm : gmap string V) (order : list string) : Prop :=
  order ≡ₚ (map_to_list tm).*1.

(** *** Graphs for the reducer *)

Definition serviceNode (name : string) (es : list eref) : Node :=
  mkNode ("svc_bookinfo_" +:+ name) NodeTypeService "bookinfo" "" "" "" name
         es ∅.

Definition workloadNode (name : string) (es : list eref) : Node :=
  mkNode ("wl_bookinfo_" +:+ name) NodeTypeWorkload "bookinfo" name "" "" ""
         es ∅.

(** An edge [s → d] of protocol [protocol] whose counter [counter]
    reads [rate]. *)
Definition edgeOf (s d : nref) (protocol counter : string) (rate : Qc)
  : Edge :=
  mkEdge s d (<[counter := VFloat rate]> (<["protocol" := VString protocol]> ∅)).

(** Service S1 → Workload W → Service S2, [protocol] traffic of rate 100. *)
Definition onePath (protocol : string) : Heap :=
  mkHeap [serviceNode "s1" [0%nat]; workloadNode "w" [1%nat];
          serviceNode "s2" []]
         [edgeOf 0 1 protocol protocol (Qcnat 100);
          edgeOf 1 2 protocol protocol (Qcnat 100)].

Definition onePathMap : TrafficMap :=
  list_to_map [("svc_bookinfo_s1", 0%nat); ("wl_bookinfo_w", 1%nat);
               ("svc_bookinfo_s2", 2%nat)].

(** The same with a second path S1 → W' → S2 of rate 50. *)
Definition twoPaths (protocol : string) : Heap :=
  mkHeap [serviceNode "s1" [0%nat; 2%nat]; workloadNode "w" [1%nat];
          serviceNode "s2" []; workloadNode "w'" [3%nat]]
         [edgeOf 0 1 protocol protocol (Qcnat 100);
          edgeOf 1 2 protocol protocol (Qcnat 100);
          edgeOf 0 3 protocol protocol (Qcnat 50);
          edgeOf 3 2 protocol protocol (Qcnat 50)].

Definition twoPathsMap : TrafficMap :=
  list_to_map [("svc_bookinfo_s1", 0%nat); ("wl_bookinfo_w", 1%nat);
               ("svc_bookinfo_s2", 2%nat); ("wl_bookinfo_w'", 3%nat)].

(** [twoPaths] while S1 is being reduced: the edge of W has been taken
    over, the edge of W' is next. *)
Definition twoPathsMid (protocol : string) : Heap :=
  mkHeap [serviceNode "s1" [1%nat]; workloadNode "w" [1%nat];
          serviceNode "s2" []; workloadNode "w'" [3%nat]]
         (edges (twoPaths protocol)).

(** What is left of either graph: the two services. *)
Definition servicesOnly : TrafficMap :=
  list_to_map [("svc_bookinfo_s1", 0%nat); ("svc_bookinfo_s2", 2%nat)].

(** *** Well-formed inputs of the classifier *)

(** The [isOutside] entry of a node, when there is one, is a boolean. *)
Definition outsideFlagOk (n : Node) : bool :=
  match Metadata n !! "isOutside" with
  | None | Some (VBool _) => true
  | Some _ => false
  end.

(** Every entry of the traffic map points to a node of the heap whose
    [isOutside] entry is well typed. *)
Definition classifiable (h : Heap) (tm : TrafficMap) : Prop :=
  map_Forall (fun _ r => from_option outsideFlagOk false (nodes h !! r)) tm.

(** What a turn of the classifier keeps of a node. *)
Definition evolves (n0 n : Node) : Prop :=
  NodeType n = NodeType n0 ∧
  (outsideFlagOk n0 → outsideFlagOk n) ∧
  (NodeType n0 = NodeTypeUnknown →
     Metadata n !! "isOutside" = Metadata n0 !! "isOutside" ∧
     (Metadata n0 !! "isInaccessible" = Some (VBool true) →
      Metadata n !! "isInaccessible" = Some (VBool true))).

(** Traffic from outside the mesh into one workload. *)
Definition unknownNode : Node :=
  mkNode Unknown NodeTypeUnknown Unknown Unknown Unknown Unknown "" [0%nat] ∅.

Definition ingressHeap : Heap :=
  mkHeap [unknownNode; workloadNode "productpage-v1" []]
         [edgeOf 0 1 "http" "http" (Qcnat 5)].

Definition ingressMap : TrafficMap :=
  list_to_map [("unknown", 0%nat); ("wl_bookinfo_productpage-v1", 1%nat)].

(** No namespace requested, none accessible. *)
Definition noNamespaces : Options :=
  mkOptions GraphTypeWorkload false false GraphTypeWorkload ∅ ∅.

(** *** Well-formed inputs of the response-time appender *)

(** The edge reference [e] is in the heap, and so are its two ends. *)
Definition edgeOk (h : Heap) (e : eref) : bool :=
  from_option
    (fun E => bool_decide (is_Some (nodes h !! Source E))
              && bool_decide (is_Some (nodes h !! Dest E)))
    false (edges h !! e).

(** Every pointer reachable from the traffic map is in the heap. *)
Definition closed (h : Heap) (tm : TrafficMap) : Prop :=
  map_Forall
    (fun _ r => from_option (fun n => forallb (edgeOk h) (Edges n)) false
                  (nodes h !! r))
    tm.

(** The edge [E] carries the response time recorded for its two ends,
    and 0 when nothing is recorded for them. *)
Definition stamped (responseTimeMap : gmap string Qc) (h : Heap) (E : Edge)
  : Prop :=
  ∃ s d, nodes h !! Source E = Some s ∧ nodes h !! Dest E = Some d ∧
    EdgeMetadata E !! "responseTime"
    = Some (VFloat (default 0 (responseTimeMap !! (ID s +:+ " " +:+ ID d)))).

(** *** Well-formed inputs of the merger *)

(** What [mergeTrafficMaps] tells two edges apart by: the id of the
    destination and the protocol. *)
Definition edgeKey (h : Heap) (e : eref) : option (string * option value) :=
  E ← edges h !! e;
  d ← nodes h !! Dest E;
  Some (ID d, EdgeMetadata E !! "protocol").

(** An interface value that [==] compares without a panic. *)
Definition comparable (v : option value) : bool :=
  match v with
  | Some (VStringSet _) => false
  | _ => true
  end.

(** No outgoing edge of a node is a nil or dangling pointer, nor is its
    destination, and the protocol of an edge is never a map. *)
Definition heapOk (h : Heap) : Prop :=
  Forall (fun n => Forall (fun e => is_Some (edgeKey h e)) (Edges n))
         (nodes h) ∧
  Forall (fun E => comparable (EdgeMetadata E !! "protocol")) (edges h).

(** Every key of the traffic map is the id of the node it points to. *)
Definition keyed (h : Heap) (tm : TrafficMap) : Prop :=
  map_Forall
    (fun k r => from_option (fun n => bool_decide (ID n = k)) false
                  (nodes h !! r))
    tm.

(** [es'] is [es] followed by edges of pairwise distinct keys, none of
    which is the key of an edge of [es]. *)
Definition appendsNew (h : Heap) (es es' : list eref) : Prop :=
  ∃ extra, es' = es ++ extra ∧
    Forall (fun e => is_Some (edgeKey h e)) extra ∧
    NoDup (edgeKey h <$> extra) ∧
    ∀ e, e ∈ extra → edgeKey h e ∉ (edgeKey h <$> es).

(** From [h] to [h1] nothing changed but the outgoing edges of some
    nodes, which were appended to. *)
Definition grows (h h1 : Heap) : Prop :=
  edges h1 = edges h ∧
  length (nodes h1) = length (nodes h) ∧
  ∀ (r : nref) n, nodes h !! r = Some n →
    ∃ n1, nodes h1 !! r = Some n1 ∧ n1 = withEdges n (Edges n1) ∧
          appendsNew h (Edges n) (Edges n1).

(** The entry [(k, p)] of a namespace map has been merged into the
    global map [tm]: [tm] has a node [s] for [k], which is [p] itself
    when [p] is of the namespace [ns], and every edge of [p] has its key
    among the edges of [s]. *)
Definition merged (ns : string) (h : Heap) (tm : TrafficMap)
    (k : string) (p : nref) : Prop :=
  ∃ s N S, tm !! k = Some s ∧ nodes h !! p = Some N ∧ nodes h !! s = Some S ∧
    (Namespace N = ns → s = p) ∧
    ∀ e, e ∈ Edges N → edgeKey h e ∈ (edgeKey h <$> Edges S).

(** *** Maps for the merger *)

Definition workloadNodeIn (namespace name : string) (es : list eref) : Node :=
  mkNode ("wl_" +:+ namespace +:+ "_" +:+ name) NodeTypeWorkload namespace
         name "" "" "" es ∅.

(** The case the comment of [mergeTrafficMaps] describes. The graph of
    [ns1] is [unknown -> ns1:A -> ns2:B] (nodes 0, 1, 2) and is already
    in the global map; the graph of [ns2] is [ns1:A -> ns2:B -> ns2:C]
    (nodes 3, 4, 5). *)
Definition twoNamespaces : Heap :=
  mkHeap [unknownNode; workloadNodeIn "ns1" "A" [1%nat];
          workloadNodeIn "ns2" "B" [];
          workloadNodeIn "ns1" "A" [2%nat]; workloadNodeIn "ns2" "B" [3%nat];
          workloadNodeIn "ns2" "C" []]
         [edgeOf 0 1 "http" "http" (Qcnat 5);
          edgeOf 1 2 "http" "http" (Qcnat 5);
          edgeOf 3 4 "http" "http" (Qcnat 5);
          edgeOf 4 5 "http" "http" (Qcnat 2)].

Definition globalMap : TrafficMap :=
  list_to_map [("unknown", 0%nat); ("wl_ns1_A", 1%nat); ("wl_ns2_B", 2%nat)].

Definition ns2Map : TrafficMap :=
  list_to_map [("wl_ns1_A", 3%nat); ("wl_ns2_B", 4%nat); ("wl_ns2_C", 5%nat)].

(** *** Counters of a traffic map *)

(** The number an entry of a metadata map stands for; 0 when there is
    none. *)
Definition num (v : option value) : Qc :=
  match v with
  | Some (VFloat x) => x
  | _ => 0
  end.

(** The counter [k] of the node [r], and of the edge [e]. *)
Definition nodeCounter (h : Heap) (k : string) (r : nref) : Qc :=
  from_option (fun n => num (Metadata n !! k)) 0 (nodes h !! r).

Definition edgeCounter (h : Heap) (k : string) (e : eref) : Qc :=
  from_option (fun E => num (EdgeMetadata E !! k)) 0 (edges h !! e).

(** The sum of the counter [k] over the nodes of the traffic map, and
    over the outgoing edges of the nodes of the traffic map. *)
Definition sumNodes (h : Heap) (tm : TrafficMap) (k : string) : Qc :=
  Qcsum (nodeCounter h k <$> (map_to_list tm).*2).

Definition sumEdges (h : Heap) (tm : TrafficMap) (k : string) : Qc :=
  Qcsum ((fun r => from_option
                     (fun n => Qcsum (edgeCounter h k <$> Edges n)) 0
                     (nodes h !! r))
         <$> (map_to_list tm).*2).

(** *** Invariants of the builder *)

(** The same sums over all node objects and over all edge objects. *)
Definition totalN (h : Heap) (k : string) : Qc :=
  Qcsum ((fun n => num (Metadata n !! k)) <$> nodes h).

Definition totalE (h : Heap) (k : string) : Qc :=
  Qcsum ((fun E => num (EdgeMetadata E !! k)) <$> edges h).

Definition floatAt (md : metadata) (k : string) : bool :=
  match md !! k with
  | None | Some (VFloat _) => true
  | Some _ => false
  end.

Definition nodeCounterKeys : list string :=
  ["httpOut"; "httpIn"; "httpIn3xx"; "httpIn4xx"; "httpIn5xx";
   "tcpOut"; "tcpIn"].

Definition edgeCounterKeys : list string :=
  ["http"; "http3xx"; "http4xx"; "http5xx"; "tcp"].

(** The counters of a node are numbers and its [destServices] is a set. *)
Definition nodeTyped (md : metadata) : Prop :=
  Forall (fun k => floatAt md k) nodeCounterKeys ∧
  match md !! "destServices" with
  | None | Some (VStringSet _) => True
  | Some _ => False
  end.

Definition edgeTyped (md : metadata) : Prop :=
  Forall (fun k => floatAt md k) edgeCounterKeys.

Definition typed (h : Heap) : Prop :=
  Forall (fun n => nodeTyped (Metadata n)) (nodes h) ∧
  Forall (fun E => edgeTyped (EdgeMetadata E)) (edges h).

(** The traffic map and the node objects are in one-to-one
    correspondence by node id, every edge object is an outgoing edge of
    exactly one node, and no edge dangles. *)
Definition structured (h : Heap) (tm : TrafficMap) : Prop :=
  keyed h tm ∧
  (∀ (r : nref) n, nodes h !! r = Some n → tm !! ID n = Some r) ∧
  concat (Edges <$> nodes h) ≡ₚ seq 0 (length (edges h)) ∧
  Forall (fun E => (Source E < length (nodes h))%nat
                   ∧ (Dest E < length (nodes h))%nat) (edges h).

(** What each node sent, what each node received and what each edge
    carried add up to the same. *)
Definition conserved (h : Heap) : Prop :=
  totalN h "httpOut" = totalE h "http" ∧
  totalN h "httpIn" = totalE h "http".

(** Two heaps with the same pointers: node for node the same id and
    outgoing edges, edge for edge the same ends. *)
Definition sameShape (h h' : Heap) : Prop :=
  (fun n => (ID n, Edges n)) <$> nodes h'
  = (fun n => (ID n, Edges n)) <$> nodes h ∧
  (fun E => (Source E, Dest E)) <$> edges h'
  = (fun E => (Source E, Dest E)) <$> edges h.

(** The state of the builder is well formed and its counters are
    conserved. *)
Definition builderInv (st : Heap * TrafficMap) : Prop :=
  structured st.1 st.2 ∧ typed st.1 ∧ conserved st.1.

(** *** Repeated calls of the aggregation primitives *)

(** The values [v1..vn] added to one counter, one call after the other. *)
Definition addAll (md : metadata) (k : string) (vs : list Qc)
  : result metadata :=
  forM (fun md v => addToMetadataValue md k v) vs md.

(** The services [s1..sn] recorded on one node, one call after the
    other. *)
Definition addAllDestServices (md : metadata) (ss : list string)
  : result metadata :=
  forM addToDestServices ss md.

(** The [destServices] set of a metadata map; empty when there is
    none. *)
Definition destServicesOf (md : metadata) : gmap string bool :=
  match md !! "destServices" with
  | Some (VStringSet m) => m
  | _ => ∅
  end.

(** The [destServices] entry, when there is one, is a set. *)
Definition destServicesOk (md : metadata) : bool :=
  match md !! "destServices" with
  | None | Some (VStringSet _) => true
  | Some _ => false
  end.

(** [handleMisconfiguredLabels] looks at the labels of this node: a
    workload, or an application of a versioned-app graph. *)
Definition labelsChecked (n : Node) (o : Options) : Prop :=
  NodeType n = NodeTypeWorkload
  ∨ (NodeType n = NodeTypeApp ∧ VendorGraphType o = GraphTypeVersionedApp).

#[global] Instance labelsChecked_dec n o : Decision (labelsChecked n o).
Proof. unfold labelsChecked. apply _. Defined.

(** *** Samples as the builder reads them *)

(** The sample carries the five labels [populateTrafficMapHttp] and
    [populateResponseTimeMap] ask for. *)
Definition completeHttp (s : Sample) : bool :=
  bool_decide (Forall (fun l => is_Some (Metric s !! l))
                 ["namespace"; "deployment"; "dst_namespace"; "dst_service";
                  "dst_deployment"]).

(** The sample carries the nine labels [populateTrafficMapTcp] asks
    for, the namespace of the destination under either of its two
    names. *)
Definition completeTcp (s : Sample) : bool :=
  bool_decide (Forall (fun l => is_Some (Metric s !! l))
                 ["source_workload_namespace"; "source_workload";
                  "source_app"; "source_version";
                  "destination_service_name"; "destination_workload";
                  "destination_app"; "destination_version"])
  && bool_decide (is_Some (Metric s !! "destination_service_namespace")
                  ∨ is_Some (Metric s !! "destination_workload_namespace")).

(** The labels of [m] among [ls]. *)
Definition restrictTo (ls : list string) (m : gmap string string)
  : gmap string string :=
  filter (fun kv => kv.1 ∈ ls) m.

(** The sample with the namespace of the destination workload standing
    in for a missing namespace of the destination service. *)
Definition withServiceNamespace (s : Sample) : Sample :=
  match Metric s !! "destination_service_namespace",
        Metric s !! "destination_workload_namespace" with
  | None, Some ns =>
      mkSample (<["destination_service_namespace" := ns]> (Metric s)) (Value s)
  | _, _ => s
  end.

(** *** What the builder keeps *)

(** The metadata entries the builder writes on a node. *)
Definition nodeKeys : list string :=
  ["destServices"; "isMisconfigured"; "httpOut"; "httpIn"; "tcpOut"; "tcpIn"].

(** A node carries nothing but what the builder writes. *)
Definition builtNode (md : metadata) : Prop :=
  ∀ k, k ∉ nodeKeys → md !! k = None.

(** An edge of protocol [p] carries its protocol and nothing else but,
    at most, the entry [p]. *)
Definition pendingEdge (p : string) (md : metadata) : Prop :=
  md !! "protocol" = Some (VString p) ∧
  ∀ k, k ≠ "protocol" → k ≠ p → md !! k = None.

(** The metadata of a finished edge: the protocol, ["http"] or ["tcp"],
    the counter of that name, and nothing else. *)
Definition builtEdge (md : metadata) : Prop :=
  ∃ p x, (p = "http" ∨ p = "tcp") ∧ pendingEdge p md ∧
         md !! p = Some (VFloat x).

(** What the edges connect: the outgoing edges of each node and, of
    each edge, the two ends and the protocol. *)
Definition wiring (h : Heap)
  : list (list eref) * list (nref * nref * option value) :=
  (Edges <$> nodes h,
   (fun E => (Source E, Dest E, EdgeMetadata E !! "protocol")) <$> edges h).

(** The destinations of the edges among [es] whose protocol is
    ["http"]. *)
Definition httpDests (w : list (nref * nref * option value))
    (es : list eref) : list nref :=
  omap (fun e => t ← w !! e;
                 if ifaceIsString t.2 "http" then Some t.1.2 else None) es.

(** Every outgoing edge of a node has that node for its source, and no
    two of the ["http"] edges of a node have the same destination. *)
Definition wired (w : list (list eref) * list (nref * nref * option value))
  : Prop :=
  (∀ (r : nref) es (e : eref) t,
     w.1 !! r = Some es → e ∈ es → w.2 !! e = Some t → t.1.1 = r) ∧
  Forall (fun es => NoDup (httpDests w.2 es)) w.1.

(** The number of edges of protocol ["tcp"]. *)
Definition tcpEdges (h : Heap) : nat :=
  length (List.filter
            (fun E => ifaceIsString (EdgeMetadata E !! "protocol") "tcp")
            (edges h)).

(** The state of the builder between two samples. *)
Definition built (st : Heap * TrafficMap) : Prop :=
  structured st.1 st.2 ∧ typed st.1 ∧ wired (wiring st.1) ∧
  Forall (fun n => builtNode (Metadata n)) (nodes st.1) ∧
  Forall (fun E => builtEdge (EdgeMetadata E)) (edges st.1).

(** From [h] to [h'] nothing changed but entries of [nodeKeys] in the
    metadata of nodes, and their [App] and [Version]. *)
Definition nodeStep (h h' : Heap) : Prop :=
  edges h' = edges h ∧ length (nodes h') = length (nodes h) ∧
  ∀ (r : nref) n, nodes h !! r = Some n →
    ∃ n', nodes h' !! r = Some n' ∧ ID n' = ID n ∧ Edges n' = Edges n ∧
      ∀ k, k ∉ nodeKeys → Metadata n' !! k = Metadata n !! k.

(** The value of the label [l] of a sample; empty when it has none. *)
Definition label (s : Sample) (l : string) : string :=
  default "" (Metric s !! l).

Section Hops.
Variable Id : string → string → string → string → string → string
              → string * string.
Variable IsOK : string → bool.

(** The number of edges an HTTP sample is counted on: none when it is
    skipped, two when a service node is injected before its
    destination, one otherwise. *)
Definition httpHops (o : Options) (s : Sample) : nat :=
  if completeHttp s then
    if InjectServiceNodes o
       && bool_decide ((Id (label s "dst_namespace") (label s "dst_deployment")
                           "Unknown" "Unknown" (label s "dst_service")
                           (GraphType o)).2 ≠ NodeTypeService)
    then 2 else 1
  else 0.

(** The same for a TCP sample. *)
Definition tcpHops (o : Options) (s : Sample) : nat :=
  if completeTcp s then
    let s := withServiceNamespace s in
    if InjectServiceNodes o
       && (IsOK (label s "destination_service_name")
           && bool_decide ((Id (label s "destination_service_namespace")
                               (label s "destination_workload")
                               (label s "destination_app")
                               (label s "destination_version")
                               (label s "destination_service_name")
                               (GraphType o)).2 ≠ NodeTypeService))
    then 2 else 1
  else 0.
End Hops.

(** The traffic of a vector: the value of each sample, once for each
    edge it is counted on. *)
Definition traffic (hops : Sample → nat) (vector : list Sample) : Qc :=
  Qcsum ((fun s => Qcnat (hops s) * Value s) <$> vector).

(** From [h] to [h'] the HTTP counters went up by [http], the TCP
    counters by [tcp] and the number of TCP edges by [n]. *)
Definition adds (h h' : Heap) (http tcp : Qc) (n : nat) : Prop :=
  totalN h' "httpOut" = totalN h "httpOut" + http ∧
  totalN h' "httpIn" = totalN h "httpIn" + http ∧
  totalE h' "http" = totalE h "http" + http ∧
  totalN h' "tcpOut" = totalN h "tcpOut" + tcp ∧
  totalN h' "tcpIn" = totalN h "tcpIn" + tcp ∧
  totalE h' "tcp" = totalE h "tcp" + tcp ∧
  tcpEdges h' = (tcpEdges h + n)%nat.

(** *** What the merger and the reducer keep *)

(** From [h] to [h'] nothing changed in the node objects but their
    outgoing edges. *)
Definition edgesOnly (h h' : Heap) : Prop :=
  length (nodes h') = length (nodes h) ∧
  ∀ (r : nref) n, nodes h !! r = Some n →
    ∃ n', nodes h' !! r = Some n' ∧ n' = withEdges n (Edges n').

(** The node the merged map holds for a key: the one of the namespace
    map when the global map has none or when it is of the namespace
    that is merged in, the one of the global map otherwise. *)
Definition mergedEntry (h : Heap) (ns : string) (global nsEntry : option nref)
  : option nref :=
  match nsEntry, global with
  | Some p, Some g =>
      if bool_decide (Namespace <$> nodes h !! p = Some ns) then Some p
      else Some g
  | Some p, None => Some p
  | None, g => g
  end.

(** The result of [twoNamespaces], [globalMap] and [ns2Map]. *)
Definition mergedMap : TrafficMap :=
  list_to_map [("unknown", 0%nat); ("wl_ns1_A", 1%nat); ("wl_ns2_B", 4%nat);
               ("wl_ns2_C", 5%nat)].

(** *** What the classifier decides *)

(** What the [switch] of [markOutsideOrInaccessible] leaves in the
    metadata of a node, and what the [if] after it does. *)
Definition classifySwitch (o : Options) (n : Node) : metadata :=
  if bool_decide (NodeType n = NodeTypeUnknown) then
    <["isInaccessible" := VBool true]> (Metadata n)
  else if bool_decide (NodeType n = NodeTypeService) then
    match Metadata n !! "isServiceEntry" with
    | Some _ => <["isInaccessible" := VBool true]> (Metadata n)
    | None =>
        if isOutside n (Namespaces o)
        then <["isOutside" := VBool true]> (Metadata n)
        else Metadata n
    end
  else
    if isOutside n (Namespaces o)
    then <["isOutside" := VBool true]> (Metadata n)
    else Metadata n.

Definition classifyOutsider (o : Options) (n : Node) : metadata :=
  match Metadata n !! "isOutside" with
  | Some (VBool true) =>
      match Metadata n !! "isInaccessible" with
      | None =>
          if isInaccessible n (AccessibleNamespaces o)
          then <["isInaccessible" := VBool true]> (Metadata n)
          else Metadata n
      | Some _ => Metadata n
      end
  | _ => Metadata n
  end.

Definition classify (o : Options) (n : Node) : metadata :=
  classifyOutsider o (withMetadata n (classifySwitch o n)).

(** A service node that stands for a service entry. *)
Definition serviceEntry (n : Node) : bool :=
  bool_decide (NodeType n = NodeTypeService)
  && bool_decide (is_Some (Metadata n !! "isServiceEntry")).

(** A node the classifier marks as an outsider: neither of kind Unknown
    nor a service entry, and [isOutside] of the requested namespaces. *)
Definition outsider (o : Options) (n : Node) : bool :=
  negb (bool_decide (NodeType n = NodeTypeUnknown))
  && negb (serviceEntry n)
  && isOutside n (Namespaces o).

(** From [n] to [n'] nothing changed but the two flags of the
    classifier, and a flag that changed was set. *)
Definition flagged (n n' : Node) : Prop :=
  n' = withMetadata n (Metadata n') ∧
  ∀ k, (k ≠ "isOutside" → k ≠ "isInaccessible" →
        Metadata n' !! k = Metadata n !! k) ∧
       (Metadata n' !! k = Metadata n !! k
        ∨ Metadata n' !! k = Some (VBool true)).

(** *** Traffic generators *)

(** The ids of the nodes an edge of one of the nodes [rs] leads to. *)
Definition destIdsOf (h : Heap) (rs : list nref) : list string :=
  r ← rs;
  n ← option_list (nodes h !! r);
  e ← Edges n;
  E ← option_list (edges h !! e);
  d ← option_list (nodes h !! Dest E);
  [ID d].

(** The ids of the nodes an edge of a node of the traffic map leads
    to. *)
Definition destIds (h : Heap) (tm : TrafficMap) : list string :=
  destIdsOf h (map_to_list tm).*2.

(** A node of the traffic map that sends traffic and receives none. *)
Definition generator (h : Heap) (tm : TrafficMap) (r : nref) (n : Node)
  : bool :=
  bool_decide (r ∈ (map_to_list tm).*2)
  && negb (bool_decide (Edges n = []))
  && negb (bool_decide (ID n ∈ destIds h tm)).

(** What [markTrafficGenerators] leaves in the metadata of a node,
    given the ids it collected. *)
Definition rootMetadata (destMap : gmap string nref) (n : Node) : metadata :=
  if bool_decide (length (Edges n) = 0%nat) then Metadata n
  else match destMap !! ID n with
       | Some _ => Metadata n
       | None => <["isRoot" := VBool true]> (Metadata n)
       end.

(** *** What the reducer keeps *)

(** From [h] to [h'] nothing changed but the outgoing edges of service
    nodes and the metadata of edges. *)
Definition reduced (h h' : Heap) : Prop :=
  length (nodes h') = length (nodes h) ∧
  (∀ (r : nref) n, nodes h !! r = Some n →
     ∃ n', nodes h' !! r = Some n' ∧ n' = withEdges n (Edges n') ∧
           (NodeType n ≠ NodeTypeService → n' = n)) ∧
  length (edges h') = length (edges h) ∧
  ∀ (e : eref) E, edges h !! e = Some E →
    ∃ E', edges h' !! e = Some E' ∧ E' = withEdgeMetadata E (EdgeMetadata E').

(** A node the reducer keeps: a service, or a root. *)
Definition kept (n : Node) : bool :=
  bool_decide (NodeType n = NodeTypeService)
  || bool_decide (Metadata n !! "isRoot" = Some (VBool true)).

(** The edge [e] leads to a service. *)
Definition serviceBound (h : Heap) (e : eref) : Prop :=
  ∃ E d, edges h !! e = Some E ∧ nodes h !! Dest E = Some d ∧
         NodeType d = NodeTypeService.

(** The edge [e] is an outgoing edge of a workload that an outgoing edge
    of [N] leads to. *)
Definition viaWorkload (h : Heap) (N : Node) (e : eref) : Prop :=
  ∃ (we : eref) WE W, we ∈ Edges N ∧ edges h !! we = Some WE ∧
    nodes h !! Dest WE = Some W ∧ NodeType W = NodeTypeWorkload ∧
    e ∈ Edges W.

(** From [h] to [h'] nothing changed but the traffic counters of the
    edge [t]. *)
Definition counted (t : eref) (h h' : Heap) : Prop :=
  nodes h' = nodes h ∧ length (edges h') = length (edges h) ∧
  (∀ e : eref, e ≠ t → edges h' !! e = edges h !! e) ∧
  ∀ T, edges h !! t = Some T →
    ∃ T', edges h' !! t = Some T' ∧
      T' = withEdgeMetadata T (EdgeMetadata T') ∧
      ∀ k, k ∉ edgeCounterKeys → EdgeMetadata T' !! k = EdgeMetadata T !! k.

(** [twoPathsMid "http"] once the appender has stamped its edges: 10 ms
    on the edge of W that S1 has taken over, 30 ms on the edge of W'. *)
Definition timedPaths : Heap :=
  mkHeap (nodes (twoPathsMid "http"))
         (zip_with
            (fun E rt =>
               withEdgeMetadata E
                 (<["responseTime" := VFloat rt]> (EdgeMetadata E)))
            (edges (twoPaths "http"))
            [Qcnat 5; Qcnat 10; Qcnat 5; Qcnat 30]).

(** *** What the response-time appender keeps *)

(** From [h] to [h'] nothing changed but the [responseTime] of edges. *)
Definition timed (h h' : Heap) : Prop :=
  nodes h' = nodes h ∧ length (edges h') = length (edges h) ∧
  ∀ (e : eref) E, edges h !! e = Some E →
    ∃ E', edges h' !! e = Some E' ∧ Source E' = Source E ∧
      Dest E' = Dest E ∧
      ∀ k, k ≠ "responseTime" → EdgeMetadata E' !! k = EdgeMetadata E !! k.

(** ** The generic graph service

    The handlers [GenericGraphAdapters] and [GenericGraph] of
    [handlers/graph.go] answer from the service [GenericGraphService] of
    the package [business]. Its functions return an error where the
    builder panics. *)

Module business.

Inductive fallible (A : Type) :=
  | Success (a : A)
  | Failure (err : string).
Arguments Success {A} a.
Arguments Failure {A} err.

(** [kubernetes.GraphAdapterMetric], [GraphAdapterAggregation],
    [GraphAdapterSpec] and [GraphAdapter] of [kubernetes/metrics_adapter.go].
    The service reads neither [ErrorEvaluation] nor [IntermediateNodes],
    which are left out; the three [Name] fields are told apart by a
    prefix. *)
Record GraphAdapterMetric := mkGraphAdapterMetric {
  MetricName : string;
  Query : string;
  Filters : string;
  Function : string;
  Unit : string;
  UnitScale : Qc;
  GeneratesGraph : bool;
  EdgeLabels : bool
}.

Record GraphAdapterAggregation := mkGraphAdapterAggregation {
  AggregationName : string;
  SourceLabels : list string;
  DestLabels : list string;
  SourceNamespaceLabel : string;
  DestNamespaceLabel : string;
  Shape : string
}.

Record GraphAdapterSpec := mkGraphAdapterSpec {
  Title : string;
  Metrics : list GraphAdapterMetric;
  Aggregations : list GraphAdapterAggregation
}.

Record GraphAdapter := mkGraphAdapter {
  AdapterName : string;
  Spec : GraphAdapterSpec
}.

(** The [models] package. A nil slice is the empty list. *)
Record GraphQuery := mkGraphQuery {
  Time : Z;
  Duration : Z;
  Namespace : string;
  QueryGraphAdapter : string;
  AggregationLevel : string
}.

Record EdgeLabel := mkEdgeLabel {
  LabelName : string;
  LabelUnit : string;
  LabelValue : Qc
}.

Record Edge := mkEdge {
  SourceID : string;
  DestID : string;
  Labels : list EdgeLabel
}.

Record GraphResponse := mkGraphResponse {
  Adapter : GraphAdapterSpec;
  Edges : list Edge
}.

Record AdaptersInfo := mkAdaptersInfo {
  List : list (string * string);      (* title and name *)
  First : option GraphResponse
}.

(** [for _, x := range xs] with an early [return nil, err]. *)
Fixpoint forF {A S : Type} (body : S → A → fallible S) (xs : list A) (s : S)
  : fallible S :=
  match xs with
  | [] => Success s
  | x :: xs' =>
      match body s x with
      | Success s' => forF body xs' s'
      | Failure err => Failure err
      end
  end.

(** The double quote of the filters. *)
Definition quote : string := String (Ascii.ascii_of_nat 34) EmptyString.

Section Service.
(** The two methods of the Kubernetes client the service calls, the
    telemetry client, the configured [IstioNamespace], the constant
    [v1alpha1.Rate] of the missing package, and the order a [range]
    takes the keys of the edge map in. *)
Variable k8sGetGraphAdapter : string → string → fallible GraphAdapter.
Variable k8sGetGraphAdapters : string → fallible (list GraphAdapter).
Variable IstioNamespace : string.
Variable Rate : string.
Variable FetchRatePoint : string → string → string → Z → Z
                          → fallible (list Sample).
Variable rangeEdges : gmap string Edge → list string.

Definition loadGraphAdapter (namespace name : string)
  : fallible GraphAdapter :=
  match k8sGetGraphAdapter namespace name with
  | Failure err =>
      if negb (bool_decide (IstioNamespace = EmptyString))
      then k8sGetGraphAdapter IstioNamespace name
      else Failure err
  | Success adapter => Success adapter
  end.

(** One turn of the loop over [globals]. *)
Definition addGlobal (adapters : list GraphAdapter) (a1 : GraphAdapter)
  : list GraphAdapter :=
  if existsb (fun a2 => bool_decide (AdapterName a1 = AdapterName a2)) adapters
  then adapters
  else adapters ++ [a1].

Definition loadAllGraphAdapters (namespace : string)
  : fallible (list GraphAdapter) :=
  match k8sGetGraphAdapters namespace with
  | Failure err => Failure err
  | Success adapters =>
      if negb (bool_decide (IstioNamespace = EmptyString))
         && negb (bool_decide (namespace = IstioNamespace))
      then
        match k8sGetGraphAdapters IstioNamespace with
        | Failure err => Failure err
        | Success globals => Success (foldl addGlobal adapters globals)
        end
      else Success adapters
  end.

Definition buildID (sample : Sample) (labels : list string) : string :=
  String.concat ","
    ((fun label => default EmptyString (Metric sample !! label)) <$> labels).

(** One turn of the loop of [processPromResult]. *)
Definition processPromItem (metric : GraphAdapterMetric)
    (agg : GraphAdapterAggregation)
    (st : gmap string Edge * gmap string (list EdgeLabel)) (item : Sample)
  : gmap string Edge * gmap string (list EdgeLabel) :=
  let '(allEdges, allEdgeLabels) := st in
  let scale := if bool_decide (UnitScale metric = 0) then 1
               else UnitScale metric in
  let sourceID := buildID item (SourceLabels agg ++ [SourceNamespaceLabel agg]) in
  let destID := buildID item (DestLabels agg ++ [DestNamespaceLabel agg]) in
  let edgeID := sourceID +:+ "~" +:+ destID in
  let allEdges :=
    if GeneratesGraph metric
    then <[edgeID := mkEdge sourceID destID []]> allEdges
    else allEdges in
  let allEdgeLabels :=
    if EdgeLabels metric then
      let val := Value item * scale in
      <[edgeID := default [] (allEdgeLabels !! edgeID)
                  ++ [mkEdgeLabel (MetricName metric) (Unit metric) val]]>
        allEdgeLabels
    else allEdgeLabels in
  (allEdges, allEdgeLabels).

Definition processPromResult (v : list Sample) (metric : GraphAdapterMetric)
    (agg : GraphAdapterAggregation)
    (st : gmap string Edge * gmap string (list EdgeLabel))
  : gmap string Edge * gmap string (list EdgeLabel) :=
  foldl (processPromItem metric agg) st v.

Definition concatFilters (first second : string) : string :=
  if bool_decide (second = EmptyString) then "{" +:+ first +:+ "}"
  else "{" +:+ first +:+ "," +:+ second +:+ "}".

Definition filterFromInside (q : GraphQuery) (agg : GraphAdapterAggregation)
  : string :=
  SourceNamespaceLabel agg +:+ "=" +:+ quote +:+ Namespace q +:+ quote.

Definition filterFromOutside (q : GraphQuery) (agg : GraphAdapterAggregation)
  : string :=
  SourceNamespaceLabel agg +:+ "!=" +:+ quote +:+ Namespace q +:+ quote
  +:+ "," +:+ DestNamespaceLabel agg +:+ "=" +:+ quote +:+ Namespace q
  +:+ quote.

Definition groupBy (agg : GraphAdapterAggregation) : string :=
  String.concat ","
    (((SourceLabels agg ++ DestLabels agg) ++ [SourceNamespaceLabel agg])
     ++ [DestNamespaceLabel agg]).

(** One turn of the loop over [adapter.Metrics]. *)
Definition generateMetric (q : GraphQuery) (agg : GraphAdapterAggregation)
    (st : gmap string Edge * gmap string (list EdgeLabel))
    (metric : GraphAdapterMetric)
  : fallible (gmap string Edge * gmap string (list EdgeLabel)) :=
  if bool_decide (Function metric = Rate) then
    match FetchRatePoint (Query metric)
            (concatFilters (filterFromInside q agg) (Filters metric))
            (groupBy agg) (Time q) (Duration q) with
    | Failure errInside =>
        Failure ("could not generate graph, fetching 'from inside': "
                 +:+ errInside)
    | Success fromInside =>
        let st := processPromResult fromInside metric agg st in
        match FetchRatePoint (Query metric)
                (concatFilters (filterFromOutside q agg) (Filters metric))
                (groupBy agg) (Time q) (Duration q) with
        | Failure errOutside =>
            Failure ("could not generate graph, fetching 'from outside': "
                     +:+ errOutside)
        | Success fromOutside =>
            Success (processPromResult fromOutside metric agg st)
        end
    end
  else Success st.

Definition generateGraph (q : GraphQuery) (adapter : GraphAdapterSpec)
    (agg : GraphAdapterAggregation) : fallible GraphResponse :=
  match forF (generateMetric q agg) (Metrics adapter) (∅, ∅) with
  | Failure err => Failure err
  | Success (allEdges, allEdgeLabels) =>
      Success
        (mkGraphResponse adapter
           ((fun entry : string * Edge =>
               mkEdge (SourceID entry.2) (DestID entry.2)
                      (default [] (allEdgeLabels !! entry.1)))
              <$> rangeMap allEdges (rangeEdges allEdges)))
  end.

Definition GetGraphAdapters (q : GraphQuery) : fallible AdaptersInfo :=
  match loadAllGraphAdapters (Namespace q) with
  | Failure err => Failure err
  | Success all =>
      match all with
      | [] => Success (mkAdaptersInfo [] None)
      | a0 :: _ =>
          let list := (fun adapter => (Title (Spec adapter), AdapterName adapter))
                        <$> all in
          let first := Spec a0 in
          match Aggregations first with
          | [] => Success (mkAdaptersInfo list (Some (mkGraphResponse first [])))
          | firstAgg :: _ =>
              match generateGraph q first firstAgg with
              | Failure err => Failure err
              | Success g => Success (mkAdaptersInfo list (Some g))
              end
          end
      end
  end.

Definition GetGraph (q : GraphQuery) : fallible GraphResponse :=
  match loadGraphAdapter (Namespace q) (QueryGraphAdapter q) with
  | Failure err => Failure err
  | Success adapter =>
      if bool_decide (length (Aggregations (Spec adapter)) = 0%nat) then
        Success (mkGraphResponse (Spec adapter) [])
      else
        match List.find
                (fun agg => bool_decide (AggregationName agg = AggregationLevel q))
                (Aggregations (Spec adapter)) with
        | Some agg => generateGraph q (Spec adapter) agg
        | None => Success (mkGraphResponse (Spec adapter) [])
        end
  end.

(** *** What the service fetched *)

(** The samples a successful [generateGraph] reads, each with the
    metric it was fetched for, in the order they are processed. *)
Definition fetchedFor (q : GraphQuery) (agg : GraphAdapterAggregation)
    (metric : GraphAdapterMetric) : list (GraphAdapterMetric * Sample) :=
  if bool_decide (Function metric = Rate) then
    pair metric
      <$> (match FetchRatePoint (Query metric)
                   (concatFilters (filterFromInside q agg) (Filters metric))
                   (groupBy agg) (Time q) (Duration q) with
           | Success v => v
           | Failure _ => []
           end
           ++ match FetchRatePoint (Query metric)
                      (concatFilters (filterFromOutside q agg) (Filters metric))
                      (groupBy agg) (Time q) (Duration q) with
              | Success v => v
              | Failure _ => []
              end)
  else [].

Definition fetched (q : GraphQuery) (adapter : GraphAdapterSpec)
    (agg : GraphAdapterAggregation) : list (GraphAdapterMetric * Sample) :=
  metric ← Metrics adapter; fetchedFor q agg metric.

End Service.

(** The two ends of the edge a sample stands for, and the key of the
    edge. *)
Definition sourceOf (agg : GraphAdapterAggregation) (item : Sample) : string :=
  buildID item (SourceLabels agg ++ [SourceNamespaceLabel agg]).

Definition destOf (agg : GraphAdapterAggregation) (item : Sample) : string :=
  buildID item (DestLabels agg ++ [DestNamespaceLabel agg]).

Definition edgeKeyOf (source dest : string) : string :=
  source +:+ "~" +:+ dest.

(** The label a sample of an edge-labelling metric gives. *)
Definition labelOf (mi : GraphAdapterMetric * Sample) : EdgeLabel :=
  mkEdgeLabel (MetricName mi.1) (Unit mi.1)
    (Value mi.2 * (if bool_decide (UnitScale mi.1 = 0) then 1
                   else UnitScale mi.1)).

(** The labels of the edge of key [id]: one for each sample of that
    key fetched for an edge-labelling metric, in the order they were
    fetched. *)
Definition labelsOf (agg : GraphAdapterAggregation) (id : string)
    (l : list (GraphAdapterMetric * Sample)) : list EdgeLabel :=
  labelOf
    <$> List.filter
          (fun mi => EdgeLabels mi.1
                     && bool_decide
                          (edgeKeyOf (sourceOf agg mi.2) (destOf agg mi.2) = id))
          l.

End business.


(** *** A cluster for the generic graph service

    One adapter in the namespace [bookinfo], two in the global
    namespace [istio-system], one of them of the same name; the
    telemetry answers every query with [tcpVector]. *)

Definition workloadAggregation (name : string)
  : business.GraphAdapterAggregation :=
  business.mkGraphAdapterAggregation name
    ["source_workload"] ["destination_workload"]
    "source_workload_namespace" "destination_workload_namespace" "ellipse".

Definition bytesSent : business.GraphAdapterMetric :=
  business.mkGraphAdapterMetric "Bytes sent" "istio_tcp_sent_bytes_total"
    EmptyString "rate" "B/s" 0 true true.

Definition adapterOf (name title : string) : business.GraphAdapter :=
  business.mkGraphAdapter name
    (business.mkGraphAdapterSpec title [bytesSent]
       [workloadAggregation "workload"; workloadAggregation "app"]).

Definition clusterAdapters (namespace : string)
  : business.fallible (list business.GraphAdapter) :=
  if bool_decide (namespace = "bookinfo") then
    business.Success [adapterOf "tcp" "TCP of bookinfo"]
  else if bool_decide (namespace = "istio-system") then
    business.Success [adapterOf "tcp" "TCP"; adapterOf "http" "HTTP"]
  else business.Failure "namespace not found".

Definition clusterAdapter (namespace name : string)
  : business.fallible business.GraphAdapter :=
  match clusterAdapters namespace with
  | business.Success l =>
      match List.find (fun a => bool_decide (business.AdapterName a = name)) l with
      | Some a => business.Success a
      | None => business.Failure "adapter not found"
      end
  | business.Failure err => business.Failure err
  end.

Definition clusterRate (query filters groupBy : string) (time duration : Z)
  : business.fallible (list Sample) :=
  business.Success tcpVector.

Definition keysOf (m : gmap string business.Edge) : list string :=
  (map_to_list m).*1.

Definition bookinfoQuery (level : string) : business.GraphQuery :=
  business.mkGraphQuery 0 60 "bookinfo" "tcp" level.

(** *** A workload reached over HTTP and over TCP *)

(** The options of a service graph: service nodes are injected, and
    the graph is reduced at the end. *)
Definition serviceGraph : Options :=
  mkOptions GraphTypeService true false GraphTypeService ∅ ∅.

(** An HTTP series from the workload [source] to the workload [dest]
    through the service [svc]. *)
Definition httpSeries (source svc dest : string) : gmap string string :=
  list_to_map
    [("namespace", "bookinfo");
     ("deployment", source);
     ("dst_namespace", "bookinfo");
     ("dst_service", svc);
     ("dst_deployment", dest)].

(** [productpage-v1] calls [reviews-v1] through the service [reviews] at
    a rate of 7, and [reviews-v1] calls [ratings-v1] through the service
    [ratings] at a rate of 100. *)
Definition reviewsHttp : list Sample :=
  [mkSample (httpSeries "productpage-v1" "reviews" "reviews-v1") (Qcnat 7);
   mkSample (httpSeries "reviews-v1" "ratings" "ratings-v1") (Qcnat 100)].

(** [productpage-v1] also sends TCP traffic to [reviews-v1] through the
    service [reviews], at a rate of 5. *)
Definition reviewsTcp : list Sample :=
  [mkSample
     (list_to_map
        [("source_workload_namespace", "bookinfo");
         ("source_workload", "productpage-v1");
         ("source_app", "productpage");
         ("source_version", "v1");
         ("destination_service_namespace", "bookinfo");
         ("destination_service_name", "reviews");
         ("destination_workload", "reviews-v1");
         ("destination_app", "reviews");
         ("destination_version", "v1")])
     (Qcnat 5)].

(** The graph the builder makes of the two vectors: the service
    [reviews] has an ["http"] and a ["tcp"] edge to the workload
    [reviews-v1], whose one edge leads to the service [ratings] with
    [http] = 100. *)
Definition reviewsHeap : Heap :=
  mkHeap
    [mkNode "wl_bookinfo_productpage-v1" NodeTypeWorkload "bookinfo"
       "productpage-v1" "productpage" "v1" "" [0%nat; 4%nat]
       (list_to_map
          [("httpOut", VFloat (Qcnat 7)); ("tcpOut", VFloat (Qcnat 5));
           ("isMisconfigured", VString "labels=[app version]")]);
     mkNode "svc_bookinfo_reviews" NodeTypeService "bookinfo" "" "" ""
       "reviews" [1%nat; 5%nat]
       (list_to_map
          [("destServices", VStringSet {["reviews" := true]});
           ("httpIn", VFloat (Qcnat 7)); ("httpOut", VFloat (Qcnat 7));
           ("tcpIn", VFloat (Qcnat 5)); ("tcpOut", VFloat (Qcnat 5))]);
     mkNode "wl_bookinfo_reviews-v1" NodeTypeWorkload "bookinfo"
       "reviews-v1" "reviews" "v1" "reviews" [2%nat]
       (list_to_map
          [("destServices", VStringSet {["reviews" := true]});
           ("httpIn", VFloat (Qcnat 7)); ("httpOut", VFloat (Qcnat 100));
           ("tcpIn", VFloat (Qcnat 5));
           ("isMisconfigured", VString "labels=[app version]")]);
     mkNode "svc_bookinfo_ratings" NodeTypeService "bookinfo" "" "" ""
       "ratings" [3%nat]
       (list_to_map
          [("destServices", VStringSet {["ratings" := true]});
           ("httpIn", VFloat (Qcnat 100)); ("httpOut", VFloat (Qcnat 100))]);
     mkNode "wl_bookinfo_ratings-v1" NodeTypeWorkload "bookinfo"
       "ratings-v1" "Unknown" "Unknown" "ratings" []
       (list_to_map
          [("destServices", VStringSet {["ratings" := true]});
           ("httpIn", VFloat (Qcnat 100))])]
    [edgeOf 0 1 "http" "http" (Qcnat 7);
     edgeOf 1 2 "http" "http" (Qcnat 7);
     edgeOf 2 3 "http" "http" (Qcnat 100);
     edgeOf 3 4 "http" "http" (Qcnat 100);
     edgeOf 0 1 "tcp" "tcp" (Qcnat 5);
     edgeOf 1 2 "tcp" "tcp" (Qcnat 5)].

Definition reviewsMap : TrafficMap :=
  list_to_map
    [("wl_bookinfo_productpage-v1", 0%nat); ("svc_bookinfo_reviews", 1%nat);
     ("wl_bookinfo_reviews-v1", 2%nat); ("svc_bookinfo_ratings", 3%nat);
     ("wl_bookinfo_ratings-v1", 4%nat)].

(** *** Response-code classes *)


(** The metadata entry [k] of the node object [r], and of the edge
    object [e]; none when there is no such object. *)
Definition nodeEntry (h : Heap) (r : nref) (k : string) : option value :=
  n ← nodes h !! r; Metadata n !! k.

Definition edgeEntry (h : Heap) (e : eref) (k : string) : option value :=
  E ← edges h !! e; EdgeMetadata E !! k.

(** From [h] to [h'] no metadata entry has changed but, on nodes, those
    of the keys [nk] and, on edges, those of the keys [ek]. *)
Definition sameEntries (nk ek : list string) (h h' : Heap) : Prop :=
  (∀ (r : nref) k, k ∉ nk → nodeEntry h' r k = nodeEntry h r k) ∧
  (∀ (e : eref) k, k ∉ ek → edgeEntry h' e k = edgeEntry h e k).

(** ** The HTTP half of the builder in binary64

    The same functions once more, the metadata numbers now being
    [float64] values with the addition of IEEE 754 binary64 (round to
    nearest, ties to even), which is what Go's [+] on [float64] computes;
    everything else is as above. *)

Module binary64.

Abbreviation float64 := PrimFloat.float.

Inductive value :=
  | VFloat (x : float64)
  | VBool (b : bool)
  | VString (s : string)
  | VStringSet (m : gmap string bool).

Abbreviation metadata := (gmap string value).

Definition asFloat (v : value) : result float64 :=
  match v with VFloat x => Ok x | _ => Panic TypeAssertion end.
Definition asStringSet (v : value) : result (gmap string bool) :=
  match v with VStringSet m => Ok m | _ => Panic TypeAssertion end.

Definition ifaceIsString (a : option value) (s : string) : bool :=
  match a with
  | Some (VString x) => bool_decide (x = s)
  | _ => false
  end.

Record Node := mkNode {
  ID : string;
  NodeType : string;
  Namespace : string;
  Workload : string;
  App : string;
  Version : string;
  Service : string;
  Edges : list eref;
  Metadata : metadata
}.

Record Edge := mkEdge {
  Source : nref;
  Dest : nref;
  EdgeMetadata : metadata
}.

Record Heap := mkHeap {
  nodes : list Node;
  edges : list Edge
}.

Definition emptyHeap : Heap := mkHeap [] [].

Definition withEdges (n : Node) (es : list eref) : Node :=
  mkNode (ID n) (NodeType n) (Namespace n) (Workload n) (App n) (Version n)
         (Service n) es (Metadata n).
Definition withMetadata (n : Node) (md : metadata) : Node :=
  mkNode (ID n) (NodeType n) (Namespace n) (Workload n) (App n) (Version n)
         (Service n) (Edges n) md.
Definition withAppVersion (n : Node) (app version : string) : Node :=
  mkNode (ID n) (NodeType n) (Namespace n) (Workload n) app version
         (Service n) (Edges n) (Metadata n).
Definition withEdgeMetadata (e : Edge) (md : metadata) : Edge :=
  mkEdge (Source e) (Dest e) md.

Definition getNode (h : Heap) (r : nref) : result Node :=
  match nodes h !! r with
  | Some n => Ok n
  | None => Panic NilPointer
  end.
Definition getEdge (h : Heap) (r : eref) : result Edge :=
  match edges h !! r with
  | Some e => Ok e
  | None => Panic NilPointer
  end.
Definition setNode (h : Heap) (r : nref) (n : Node) : Heap :=
  mkHeap (<[r := n]> (nodes h)) (edges h).
Definition setEdge (h : Heap) (r : eref) (e : Edge) : Heap :=
  mkHeap (nodes h) (<[r := e]> (edges h)).
Definition allocNode (h : Heap) (n : Node) : Heap * nref :=
  (mkHeap (nodes h ++ [n]) (edges h), length (nodes h)).
Definition allocEdge (h : Heap) (e : Edge) : Heap * eref :=
  (mkHeap (nodes h) (edges h ++ [e]), length (edges h)).

Definition NewNodeExplicit
    (id namespace workload app version service nodeType graphType : string)
  : Node :=
  mkNode id nodeType namespace workload app version service [] ∅.

Definition AddEdge (h : Heap) (s dest : nref) : result (Heap * eref) :=
  n ← getNode h s;
  let '(h, e) := allocEdge h (mkEdge s dest ∅) in
  Ok (setNode h s (withEdges n (Edges n ++ [e])), e).

(** A telemetry sample whose value is a [float64]. *)
Record Sample := mkSample {
  Metric : gmap string string;
  Value : float64
}.

(** [curr.(float64) + v] is the rounded sum. *)
Definition addToMetadataValue (md : metadata) (k : string) (v : float64)
  : result metadata :=
  match md !! k with
  | Some curr => c ← asFloat curr; Ok (<[k := VFloat (PrimFloat.add c v)]> md)
  | None => Ok (<[k := VFloat v]> md)
  end.

Definition addToDestServices (md : metadata) (destService : string)
  : result metadata :=
  match md !! "destServices" with
  | None =>
      Ok (<["destServices" := VStringSet (<[destService := true]> ∅)]> md)
  | Some destServices =>
      s ← asStringSet destServices;
      Ok (<["destServices" := VStringSet (<[destService := true]> s)]> md)
  end.

Definition setEdgeMetadata (h : Heap) (r : eref) (k : string) (v : value)
  : result Heap :=
  e ← getEdge h r;
  Ok (setEdge h r (withEdgeMetadata e (<[k := v]> (EdgeMetadata e)))).

Definition addToNodeMetadata (h : Heap) (r : nref) (k : string) (v : float64)
  : result Heap :=
  n ← getNode h r;
  md ← addToMetadataValue (Metadata n) k v;
  Ok (setNode h r (withMetadata n md)).

Definition addToEdgeMetadata (h : Heap) (r : eref) (k : string) (v : float64)
  : result Heap :=
  e ← getEdge h r;
  md ← addToMetadataValue (EdgeMetadata e) k v;
  Ok (setEdge h r (withEdgeMetadata e md)).

Definition destID (h : Heap) (e : Edge) : result string :=
  d ← getNode h (Dest e); Ok (ID d).

Section Builder.
Variable Id : string → string → string → string → string → string
              → string * string.

Definition addNode (h : Heap) (trafficMap : TrafficMap)
    (namespace workload app version service : string) (o : Options)
  : Heap * TrafficMap * nref * bool :=
  let '(id, nodeType) :=
    Id namespace workload app version service (GraphType o) in
  match trafficMap !! id with
  | Some node => (h, trafficMap, node, true)
  | None =>
      let newNode := NewNodeExplicit id namespace workload app version
                       service nodeType (GraphType o) in
      let '(h, node) := allocNode h newNode in
      (h, <[id := node]> trafficMap, node, false)
  end.

(** [rate > 0.0] is the comparison of binary64. *)
Definition handleMisconfiguredLabels (h : Heap) (node : nref)
    (app version : string) (rate : float64) (o : Options) : result Heap :=
  n ← getNode h node;
  let isVersionedAppGraph :=
    bool_decide (VendorGraphType o = GraphTypeVersionedApp) in
  let isWorkloadNode := bool_decide (NodeType n = NodeTypeWorkload) in
  let isVersionedAppNode :=
    bool_decide (NodeType n = NodeTypeApp) && isVersionedAppGraph in
  if isWorkloadNode || isVersionedAppNode then
    let labels :=
      (if bool_decide (App n ≠ app) then ["app"] else [])
      ++ (if bool_decide (Version n ≠ version) then ["version"] else []) in
    if bool_decide (0 < length labels)%nat then
      let n := withMetadata n
        (<["isMisconfigured" :=
             VString ("labels=[" +:+ String.concat " " labels +:+ "]")]>
           (Metadata n)) in
      let n := if PrimFloat.ltb PrimFloat.zero rate
               then withAppVersion n app version
               else n in
      Ok (setNode h node n)
    else Ok h
  else Ok h.

Fixpoint findEdge (h : Heap) (es : list eref) (destId : string)
    (protocolKey protocol : string) : result (option eref) :=
  match es with
  | [] => Ok None
  | e :: es' =>
      E ← getEdge h e;
      d ← destID h E;
      if bool_decide (destId = d)
         && ifaceIsString (EdgeMetadata E !! protocolKey) protocol
      then Ok (Some e)
      else findEdge h es' destId protocolKey protocol
  end.

Definition addHttpTraffic (h : Heap) (trafficMap : TrafficMap)
    (val : float64)
    (code sourceWlNs sourceWl sourceApp sourceVer sourceSvcName
     destSvcNs destWl destApp destVer destSvcName : string) (o : Options)
  : result (Heap * TrafficMap) :=
  let '(h, trafficMap, source, sourceFound) :=
    addNode h trafficMap sourceWlNs sourceWl sourceApp sourceVer
            sourceSvcName o in
  let '(h, trafficMap, dest, destFound) :=
    addNode h trafficMap destSvcNs destWl destApp destVer destSvcName o in
  d ← getNode h dest;
  md ← addToDestServices (Metadata d) destSvcName;
  let h := setNode h dest (withMetadata d md) in
  s ← getNode h source;
  d ← getNode h dest;
  found ← findEdge h (Edges s) (ID d) "protocol" "http";
  '(h, edge) ← match found with
               | Some e => Ok (h, e)
               | None =>
                   '(h, e) ← AddEdge h source dest;
                   h ← setEdgeMetadata h e "protocol" (VString "http");
                   Ok (h, e)
               end;
  h ← (if sourceFound
       then handleMisconfiguredLabels h source sourceApp sourceVer val o
       else Ok h);
  h ← (if destFound
       then handleMisconfiguredLabels h dest destApp destVer val o
       else Ok h);
  h ← addToNodeMetadata h source "httpOut" val;
  h ← addToNodeMetadata h dest "httpIn" val;
  h ← addToEdgeMetadata h edge "http" val;
  h ← (if String.prefix "3" code then
         h ← addToNodeMetadata h dest "httpIn3xx" val;
         addToEdgeMetadata h edge "http3xx" val
       else if String.prefix "4" code then
         h ← addToNodeMetadata h dest "httpIn4xx" val;
         addToEdgeMetadata h edge "http4xx" val
       else if String.prefix "5" code then
         h ← addToNodeMetadata h dest "httpIn5xx" val;
         addToEdgeMetadata h edge "http5xx" val
       else Ok h);
  Ok (h, trafficMap).

Definition populateHttpSample (o : Options) (st : Heap * TrafficMap)
    (s : Sample) : result (Heap * TrafficMap) :=
  let '(h, trafficMap) := st in
  let m := Metric s in
  match m !! "namespace", m !! "deployment", m !! "dst_namespace",
        m !! "dst_service", m !! "dst_deployment" with
  | Some sourceWlNs, Some sourceWl, Some destSvcNs, Some destSvcName,
    Some destWl =>
      let sourceApp := "Unknown" in
      let sourceVer := "Unknown" in
      let destApp := "Unknown" in
      let destVer := "Unknown" in
      let code := "200" in
      let val := Value s in
      if InjectServiceNodes o then
        let '(_, destNodeType) :=
          Id destSvcNs destWl destApp destVer destSvcName (GraphType o) in
        if bool_decide (destNodeType ≠ NodeTypeService) then
          '(h, trafficMap) ←
            addHttpTraffic h trafficMap val code sourceWlNs sourceWl
              sourceApp sourceVer "" destSvcNs "" "" "" destSvcName o;
          addHttpTraffic h trafficMap val code destSvcNs "" "" ""
            destSvcName destSvcNs destWl destApp destVer destSvcName o
        else
          addHttpTraffic h trafficMap val code sourceWlNs sourceWl
            sourceApp sourceVer "" destSvcNs destWl destApp destVer
            destSvcName o
      else
        addHttpTraffic h trafficMap val code sourceWlNs sourceWl sourceApp
          sourceVer "" destSvcNs destWl destApp destVer destSvcName o
  | _, _, _, _, _ => Ok (h, trafficMap)     (* logged and skipped *)
  end.

Definition populateTrafficMapHttp (h : Heap) (trafficMap : TrafficMap)
    (vector : list Sample) (o : Options) : result (Heap * TrafficMap) :=
  forM (populateHttpSample o) vector (h, trafficMap).
End Builder.





End binary64.



(* ================================================================== *)
(** * Properties *)

(** A closed decidable statement is settled by evaluating its decision
    procedure. *)
Ltac by_evaluation := apply (bool_decide_unpack _); vm_compute; exact I.

Lemma bind_Ok {A B} (m : result A) (k : A → result B) b :
  (m ≫= k) = Ok b ↔ ∃ a, m = Ok a ∧ k a = Ok b.
Proof.
  destruct m; simpl; split.
  - eauto.
  - intros (? & [= <-] & ?); done.
  - done.
  - intros (? & ? & ?); done.
Qed.

(** ** Shadow keys *)

Lemma append_ne_self (k s : string) : s ≠ "" → k +:+ s ≠ k.
Proof.
  intros Hs. induction k as [|c k IH]; simpl.
  - done.
  - intros [= H]. by apply IH.
Qed.

Lemma shadow_keys_distinct (k : string) :
  k +:+ "_total" ≠ k ∧ k +:+ "_count" ≠ k ∧ k +:+ "_total" ≠ k +:+ "_count".
Proof.
  split_and!; try by apply append_ne_self.
  intros H. by apply (inj (String.app k)) in H.
Qed.

Lemma Qcnat_S (n : nat) : Qcnat (S n) = 1 + Qcnat n.
Proof.
  unfold Qcnat. apply Qc_is_canon. simpl.
  rewrite !Qred_correct. rewrite Nat2Z.inj_succ. unfold Z.succ.
  rewrite inject_Z_plus. ring.
Qed.

Lemma Qcnat_pos (n : nat) : Qcnat (S n) ≠ 0.
Proof.
  unfold Qcnat. intros H. apply Q2Qc_eq_iff in H.
  unfold Qeq in H. simpl in H. lia.
Qed.

Lemma Qcnat_0 : Qcnat 0 = 0.
Proof. by apply Qc_is_canon. Qed.

(** ** Running average *)

Section RunningAverage.
Variable k : string.

Lemma averageMetadataValue_first md v :
  md !! (k +:+ "_total") = None → md !! (k +:+ "_count") = None →
  ∃ md', averageMetadataValue md k v = Ok md' ∧ averaged k md' v 1.
Proof.
  intros Ht Hc. destruct (shadow_keys_distinct k) as (H1 & H2 & H3).
  unfold averageMetadataValue. rewrite Ht, Hc. simpl.
  eexists; split; [done|]. unfold averaged.
  by simplify_map_eq.
Qed.

Lemma averageMetadataValue_next md v t c :
  averaged k md t c →
  ∃ md', averageMetadataValue md k v = Ok md' ∧ averaged k md' (v + t) (1 + c).
Proof.
  intros (Ht & Hc & _). destruct (shadow_keys_distinct k) as (H1 & H2 & H3).
  unfold averageMetadataValue. rewrite Ht, Hc. simpl.
  eexists; split; [done|]. unfold averaged.
  by simplify_map_eq.
Qed.

Lemma averageAll_next vs : ∀ md t c,
  averaged k md t c →
  ∃ md', averageAll md k vs = Ok md' ∧
         averaged k md' (Qcsum vs + t) (Qcnat (length vs) + c).
Proof.
  induction vs as [|v vs IH]; intros md t c Hmd.
  - exists md. split; [done|]. simpl. rewrite Qcnat_0.
    by rewrite !Qcplus_0_l.
  - destruct (averageMetadataValue_next md v t c Hmd) as (md1 & E1 & H1).
    destruct (IH _ _ _ H1) as (md2 & E2 & H2).
    exists md2. split.
    + unfold averageAll in *. simpl. by rewrite E1.
    + simpl length. rewrite Qcnat_S. simpl Qcsum.
      replace (v + Qcsum vs + t) with (Qcsum vs + (v + t)) by ring.
      by replace (1 + Qcnat (length vs) + c)
        with (Qcnat (length vs) + (1 + c)) by ring.
Qed.

Lemma averageResponseTime_first (m : gmap string Qc) v :
  m !! (k +:+ "_total") = None → m !! (k +:+ "_count") = None →
  averagedRT k (appender.averageResponseTime m k v) v 1.
Proof.
  intros Ht Hc. destruct (shadow_keys_distinct k) as (H1 & H2 & H3).
  unfold appender.averageResponseTime, averagedRT. rewrite Ht, Hc.
  by simplify_map_eq.
Qed.

Lemma averageResponseTime_next (m : gmap string Qc) v t c :
  averagedRT k m t c →
  averagedRT k (appender.averageResponseTime m k v) (v + t) (1 + c).
Proof.
  intros (Ht & Hc & _). destruct (shadow_keys_distinct k) as (H1 & H2 & H3).
  unfold appender.averageResponseTime, averagedRT. rewrite Ht, Hc.
  by simplify_map_eq.
Qed.

Lemma averageResponseTimeAll_next vs : ∀ (m : gmap string Qc) t c,
  averagedRT k m t c →
  averagedRT k (averageResponseTimeAll m k vs)
             (Qcsum vs + t) (Qcnat (length vs) + c).
Proof.
  induction vs as [|v vs IH]; intros m t c Hm.
  - simpl. rewrite Qcnat_0. by rewrite !Qcplus_0_l.
  - simpl length. rewrite Qcnat_S. simpl Qcsum.
    replace (v + Qcsum vs + t) with (Qcsum vs + (v + t)) by ring.
    replace (1 + Qcnat (length vs) + c)
      with (Qcnat (length vs) + (1 + c)) by ring.
    apply IH. by apply averageResponseTime_next.
Qed.
End RunningAverage.

(** C4. Running-average correctness: feeding [v1..vn] (n ≥ 1) to
    [averageMetadataValue], and likewise to [averageResponseTime], under
    one key [k] whose shadow keys are not yet in the map leaves
    [(v1+...+vn)/n] at [k], [v1+...+vn] at [k_total] and [n] at
    [k_count]. *)
Theorem running_average_correct (k : string) (vs : list Qc)
    (md : metadata) (rtm : gmap string Qc) :
  vs ≠ [] →
  md !! (k +:+ "_total") = None → md !! (k +:+ "_count") = None →
  rtm !! (k +:+ "_total") = None → rtm !! (k +:+ "_count") = None →
  (∃ md', averageAll md k vs = Ok md' ∧
     md' !! k = Some (VFloat (Qcsum vs / Qcnat (length vs))) ∧
     md' !! (k +:+ "_total") = Some (VFloat (Qcsum vs)) ∧
     md' !! (k +:+ "_count") = Some (VFloat (Qcnat (length vs)))) ∧
  (averageResponseTimeAll rtm k vs !! k
     = Some (Qcsum vs / Qcnat (length vs)) ∧
   averageResponseTimeAll rtm k vs !! (k +:+ "_total") = Some (Qcsum vs) ∧
   averageResponseTimeAll rtm k vs !! (k +:+ "_count")
     = Some (Qcnat (length vs))).
Proof.
  intros Hvs Ht Hc Ht' Hc'. destruct vs as [|v vs]; [done|].
  assert (Hs : Qcsum vs + v = Qcsum (v :: vs)) by (simpl; ring).
  assert (Hn : Qcnat (length vs) + 1 = Qcnat (length (v :: vs)))
    by (simpl length; rewrite Qcnat_S; ring).
  split.
  - destruct (averageMetadataValue_first k md v Ht Hc) as (md1 & E1 & H1).
    destruct (averageAll_next k vs _ _ _ H1) as (md2 & E2 & H2).
    rewrite Hs, Hn in H2. destruct H2 as (? & ? & ?).
    exists md2. split_and!; try done.
    unfold averageAll in *. simpl forM. by rewrite E1.
  - pose proof (averageResponseTime_first k rtm v Ht' Hc') as H1.
    apply (averageResponseTimeAll_next k vs) in H1.
    rewrite Hs, Hn in H1. destruct H1 as (? & ? & ?).
    by split_and!.
Qed.

Lemma running_average_correct_witness :
  averageResponseTimeAll ∅ "responseTime" [Qcnat 10; Qcnat 20] !! "responseTime"
    = Some (Qcsum [Qcnat 10; Qcnat 20] / Qcnat 2).
Proof.
  refine (proj1 (proj2 (running_average_correct "responseTime"
    [Qcnat 10; Qcnat 20] ∅ ∅ _ _ _ _ _))); done.
Defined.

(** ** Edge reuse in the builder *)

(** The HTTP path finds the edge it made for the first series and adds the
    second series to it. *)
Example http_edge_reused :
  outcome
    (populateTrafficMapHttp IdSpec emptyHeap ∅ httpVector workloadGraph)
    (fun '(h, tm) =>
       (tm !! "wl_bookinfo_productpage-v1", tm !! "wl_bookinfo_reviews-v1",
        Edges <$> nodes h !! 0%nat, edges h))
  = Some (Some 0%nat, Some 1%nat, Some [0%nat],
          [edgeOf 0 1 "http" "http" (Qcnat 12)]).
Proof. by_evaluation. Qed.

(** C1. At most one edge per (source, dest id, protocol): it fails for
    TCP. [addTcpTraffic] looks for the protocol under the misspelt key
    [procotol], finds no edge, and appends a second [tcp] edge between
    the same two workloads instead of adding 7 to the first. *)
Theorem tcp_edge_duplicated :
  outcome
    (populateTrafficMapTcp IdSpec IsOKSpec emptyHeap ∅ tcpVector
       workloadGraph)
    (fun '(h, tm) =>
       (tm !! "wl_bookinfo_productpage-v1", tm !! "wl_bookinfo_mongodb-v1",
        Edges <$> nodes h !! 0%nat, edges h))
  = Some (Some 0%nat, Some 1%nat, Some [0%nat; 1%nat],
          [edgeOf 0 1 "tcp" "tcp" (Qcnat 5);
           edgeOf 0 1 "tcp" "tcp" (Qcnat 7)]).
Proof. by_evaluation. Qed.

(** ** Response-code classes *)

(** [addHttpTraffic] itself buckets by the class of the code it is
    given. *)
Example addHttpTraffic_buckets_5xx :
  outcome
    (addHttpTraffic IdSpec emptyHeap ∅ (Qcnat 3) "500"
       "bookinfo" "productpage-v1" "Unknown" "Unknown" ""
       "bookinfo" "reviews-v1" "Unknown" "Unknown" "reviews" workloadGraph)
    (fun '(h, tm) =>
       (tm !! "wl_bookinfo_reviews-v1",
        n ← nodes h !! 1%nat; Metadata n !! "httpIn5xx",
        e ← edges h !! 0%nat; EdgeMetadata e !! "http5xx"))
  = Some (Some 1%nat, Some (VFloat (Qcnat 3)), Some (VFloat (Qcnat 3))).
Proof. by_evaluation. Qed.

(** The builder never reads the response code of a sample: with or
    without the label, the sample is processed alike. *)
Lemma populateHttpSample_ignores_response_code Id o st (s : Sample) :
  populateHttpSample Id o st s
  = populateHttpSample Id o st
      (mkSample (delete "response_code" (Metric s)) (Value s)).
Proof.
  unfold populateHttpSample. destruct st as [h tm]. simpl.
  by rewrite !lookup_delete_ne.
Qed.

(** ** Quantile of the response-time appender *)

(** The quantile is replaced exactly when it is at most 0 or at least
    100. *)
Lemma effectiveQuantile_spec (a : appender.ResponseTimeAppender) :
  appender.effectiveQuantile a
  = if decide (0 < appender.Quantile a ∧ appender.Quantile a < Q2Qc 100)
    then appender.Quantile a else appender.DefaultQuantile.
Proof.
  unfold appender.effectiveQuantile.
  destruct (decide _) as [[H1 H2]|H].
  - rewrite !bool_decide_eq_false_2; [done| |].
    + by apply Qclt_not_le.
    + by apply Qclt_not_le.
  - destruct (bool_decide (appender.Quantile a ≤ 0)) eqn:E1; [done|].
    destruct (bool_decide (Q2Qc 100 ≤ appender.Quantile a)) eqn:E2; [done|].
    apply bool_decide_eq_false in E1, E2.
    apply Qcnot_le_lt in E1, E2. by destruct H.
Qed.

(** C7. Fallback to the default quantile outside (0,1): it fails. A
    quantile of 50 passes the check against the bounds 0 and 100 and
    every query is sent with 50, not with 0.95. *)
Theorem quantile_50_not_replaced (istioNamespace namespace : string) :
  appender.effectiveQuantile quantile50 = Q2Qc 50 ∧
  appender.effectiveQuantile quantile50 ≠ appender.DefaultQuantile ∧
  Forall (fun q => appender.quantile q = Q2Qc 50)
         (appender.queries istioNamespace quantile50 namespace).
Proof.
  split_and!; [done|done|].
  unfold appender.queries. simpl. by repeat constructor.
Qed.


(** ** Reduction to the service graph *)

(** A decidable property of the visiting order holds for every order
    once it holds for each permutation of the keys. *)
Lemma for_all_orders {V} (tm : gmap string V) (P : list string → Prop)
    `{!∀ order, Decision (P order)} :
  bool_decide (Forall P (permutations (map_to_list tm).*1)) = true →
  ∀ order, visits tm order → P order.
Proof.
  intros HP%bool_decide_eq_true order Hord.
  rewrite list.Forall_forall in HP. apply HP.
  by apply permutations_Permutation.
Qed.

(** On the graph that is nothing but the path, and on the graph that is
    nothing but the two paths: whatever the order the nodes are visited
    in, reducing S1 → W → S2 with http = 100 leaves S1 with exactly one
    outgoing edge, to S2, reading http = 100; with the second path
    S1 → W' → S2 of http = 50, S1 has exactly one outgoing edge, to S2,
    reading http = 150. (The edge is the object that was W's edge.) *)
Lemma two_paths_reduced (order1 order2 : list string) :
  visits onePathMap order1 → visits twoPathsMap order2 →
  outcome (reduceToServiceGraph order1 (onePath "http") onePathMap)
    (fun '(h, reduced) =>
       (reduced, ID <$> nodes h !! 2%nat, Edges <$> nodes h !! 0%nat,
        edges h !! 1%nat))
  = Some (servicesOnly, Some "svc_bookinfo_s2", Some [1%nat],
          Some (edgeOf 1 2 "http" "http" (Qcnat 100))) ∧
  outcome (reduceToServiceGraph order2 (twoPaths "http") twoPathsMap)
    (fun '(h, reduced) =>
       (reduced, ID <$> nodes h !! 2%nat, Edges <$> nodes h !! 0%nat,
        edges h !! 1%nat))
  = Some (servicesOnly, Some "svc_bookinfo_s2", Some [1%nat],
          Some (edgeOf 1 2 "http" "http" (Qcnat 150))).
Proof.
  intros H1 H2. split.
  - revert order1 H1.
    unshelve eapply for_all_orders. by vm_compute.
  - revert order2 H2.
    unshelve eapply for_all_orders. by vm_compute.
Qed.

(** ** Unexpected protocols in the reducer *)

Lemma ifaceEq_true (a b : option value) : ifaceEq a b = Ok true → a = b.
Proof.
  destruct a as [[]|], b as [[]|]; simpl; try done;
    intros [= H%bool_decide_eq_true]; by subst.
Qed.

Lemma findServiceEdge_Some h es childId protocol e :
  findServiceEdge h es childId protocol = Ok (Some e) →
  ∃ E, getEdge h e = Ok E ∧ EdgeMetadata E !! "protocol" = protocol ∧
       destID h E = Ok childId ∧ e ∈ es.
Proof.
  induction es as [|e' es IH]; simpl; [done|]. intros H.
  apply bind_Ok in H as (E & HE & H).
  apply bind_Ok in H as (d & Hd & H).
  apply bind_Ok in H as (same & Hsame & H).
  destruct same.
  - injection H as ->. case_bool_decide; [|done].
    apply ifaceEq_true in Hsame. subst d.
    exists E. split_and!; try done. by left.
  - destruct (IH H) as (E' & ? & ? & ? & ?).
    exists E'. split_and!; try done. by right.
Qed.

(** The edge of [onePath] is taken over whatever its protocol: nothing
    checks it. *)
Lemma unexpected_protocol_adopted :
  outcome (reduceToServiceGraph (map_to_list onePathMap).*1 (onePath "grpc")
             onePathMap)
    (fun '(h, reduced) =>
       (reduced, Edges <$> nodes h !! 0%nat, edges h !! 1%nat))
  = Some (servicesOnly, Some [1%nat],
          Some (edgeOf 1 2 "grpc" "grpc" (Qcnat 100))).
Proof. by_evaluation. Qed.

(** With a second path the same protocol is fatal. *)
Example unexpected_protocol_second_path :
  reduceToServiceGraph (map_to_list twoPathsMap).*1 (twoPaths "grpc")
    twoPathsMap
  = Panic (GraphError "Unexpected edge protocol").
Proof. by_evaluation. Qed.

(** C8 (amended). When the reducer meets an edge to a child service whose
    protocol is neither ["http"] nor ["tcp"]: if the service node already
    has an edge to that child with that protocol, [addServiceGraphTraffic]
    aborts with a [graph.Error] and nothing is accumulated; otherwise the
    edge is taken over as it is. *)
Theorem unexpected_protocol_fatal_on_merge
    (n : nref) (h : Heap) (serviceEdge : eref) (SE : Edge) (C N : Node)
    (found : option eref) :
  getEdge h serviceEdge = Ok SE →
  getNode h (Dest SE) = Ok C →
  NodeType C = NodeTypeService →
  getNode h n = Ok N →
  ifaceIsString (EdgeMetadata SE !! "protocol") "http" = false →
  ifaceIsString (EdgeMetadata SE !! "protocol") "tcp" = false →
  findServiceEdge h (Edges N) (ID C) (EdgeMetadata SE !! "protocol")
    = Ok found →
  reduceServiceEdge n h serviceEdge
  = match found with
    | Some _ => Panic (GraphError "Unexpected edge protocol")
    | None => Ok (setNode h n (withEdges N (Edges N ++ [serviceEdge])))
    end.
Proof.
  intros HSE HC HCt HN Hhttp Htcp Hfound.
  unfold reduceServiceEdge, checkNodeType.
  rewrite HSE. simpl. rewrite HC. simpl. rewrite HCt. simpl.
  rewrite HN. simpl. rewrite Hfound. simpl.
  destruct found as [edge|]; [|done].
  apply findServiceEdge_Some in Hfound as (T & HT & Hproto & _ & _).
  unfold addServiceGraphTraffic. rewrite HT. simpl.
  by rewrite Hproto, Hhttp, Htcp.
Qed.

Lemma unexpected_protocol_fatal_on_merge_witness :
  reduceServiceEdge 0%nat (twoPathsMid "grpc") 3%nat
  = Panic (GraphError "Unexpected edge protocol").
Proof.
  refine (unexpected_protocol_fatal_on_merge 0%nat (twoPathsMid "grpc") 3%nat
            (edgeOf 3 2 "grpc" "grpc" (Qcnat 50)) (serviceNode "s2" [])
            (serviceNode "s1" [1%nat]) (Some 1%nat) _ _ _ _ _ _ _);
    vm_compute; reflexivity.
Defined.

(** ** Ranging over a map *)

Lemma elem_of_rangeMap {V} (tm : gmap string V) (order : list string) k v :
  (k, v) ∈ rangeMap tm order ↔ k ∈ order ∧ tm !! k = Some v.
Proof.
  unfold rangeMap. rewrite list_elem_of_omap. split.
  - intros (k' & Hk & H). destruct (tm !! k') eqn:E; simplify_eq/=. done.
  - intros [Hk H]. exists k. by rewrite H.
Qed.

Lemma visits_elem_of {V} (tm : gmap string V) (order : list string) k :
  visits tm order → k ∈ order ↔ is_Some (tm !! k).
Proof.
  unfold visits. intros ->. rewrite list_elem_of_fmap. split.
  - intros ([k' v] & -> & H%elem_of_map_to_list). by eexists.
  - intros [v H]. exists (k, v). by rewrite elem_of_map_to_list.
Qed.

Lemma visits_rangeMap {V} (tm : gmap string V) (order : list string) k v :
  visits tm order → tm !! k = Some v → (k, v) ∈ rangeMap tm order.
Proof.
  intros Hord H. apply elem_of_rangeMap. split; [|done].
  apply (visits_elem_of tm); [done|by eexists].
Qed.

(** ** Classifier *)

Lemma evolves_refl n : evolves n n.
Proof. by unfold evolves. Qed.

Lemma evolves_trans n0 n1 n2 : evolves n0 n1 → evolves n1 n2 → evolves n0 n2.
Proof.
  unfold evolves. intros (T1 & O1 & U1) (T2 & O2 & U2). split_and!.
  - congruence.
  - auto.
  - intros HU. destruct (U1 HU) as [A1 B1].
    rewrite <- T1 in HU. destruct (U2 HU) as [A2 B2].
    split; [congruence|auto].
Qed.


Lemma setNodeMetadata_Ok h r n k v :
  nodes h !! r = Some n →
  setNodeMetadata h r k v
  = Ok (setNode h r (withMetadata n (<[k := v]> (Metadata n)))).
Proof. intros Hn. unfold setNodeMetadata, getNode. by rewrite Hn. Qed.

Lemma outsideFlagOk_insert_other n k v :
  k ≠ "isOutside" → outsideFlagOk n →
  outsideFlagOk (withMetadata n (<[k := v]> (Metadata n))).
Proof. intros Hk. unfold outsideFlagOk. simpl. by rewrite lookup_insert_ne. Qed.

Lemma markNodeSwitch_step o h r n :
  nodes h !! r = Some n → outsideFlagOk n →
  ∃ h' n', markNodeSwitch o h r = Ok h' ∧
    nodes h' = <[r := n']> (nodes h) ∧ edges h' = edges h ∧
    evolves n n' ∧
    (NodeType n = NodeTypeUnknown →
     Metadata n' !! "isInaccessible" = Some (VBool true)).
Proof.
  intros Hn Hok.
  assert (Hsame : ∃ h' n', Ok h = Ok h' ∧ nodes h' = <[r := n']> (nodes h) ∧
            edges h' = edges h ∧ evolves n n').
  { exists h, n. split_and!; try done. by rewrite list_insert_id. }
  assert (Hina : ∃ h' n',
            setNodeMetadata h r "isInaccessible" (VBool true) = Ok h' ∧
            nodes h' = <[r := n']> (nodes h) ∧ edges h' = edges h ∧
            evolves n n' ∧
            Metadata n' !! "isInaccessible" = Some (VBool true)).
  { eexists _, _. split; [by apply setNodeMetadata_Ok|].
    split_and!; try done.
    - unfold evolves. split_and!; try done.
      + by apply outsideFlagOk_insert_other.
      + intros _. simpl. by simplify_map_eq.
    - simpl. by simplify_map_eq. }
  assert (Hout : NodeType n ≠ NodeTypeUnknown → ∃ h' n',
            setNodeMetadata h r "isOutside" (VBool true) = Ok h' ∧
            nodes h' = <[r := n']> (nodes h) ∧ edges h' = edges h ∧
            evolves n n').
  { intros HU. eexists _, _. split; [by apply setNodeMetadata_Ok|].
    split_and!; try done.
    unfold evolves. split_and!; try done.
    intros _. unfold outsideFlagOk. simpl. by simplify_map_eq. }
  unfold markNodeSwitch, getNode. rewrite Hn. simpl.
  case_bool_decide as HU.
  { destruct Hina as (h' & n' & ? & ? & ? & ? & ?). by exists h', n'. }
  specialize (Hout HU).
  assert (Hout' : ∃ h' n',
            setNodeMetadata h r "isOutside" (VBool true) = Ok h' ∧
            nodes h' = <[r := n']> (nodes h) ∧ edges h' = edges h ∧
            evolves n n' ∧
            (NodeType n = NodeTypeUnknown →
             Metadata n' !! "isInaccessible" = Some (VBool true))).
  { destruct Hout as (h' & n' & ? & ? & ? & ?). by exists h', n'. }
  assert (Hsame' : ∃ h' n', Ok h = Ok h' ∧ nodes h' = <[r := n']> (nodes h) ∧
            edges h' = edges h ∧ evolves n n' ∧
            (NodeType n = NodeTypeUnknown →
             Metadata n' !! "isInaccessible" = Some (VBool true))).
  { destruct Hsame as (h' & n' & ? & ? & ? & ?). by exists h', n'. }
  case_bool_decide.
  - destruct (Metadata n !! "isServiceEntry").
    + destruct Hina as (h' & n' & ? & ? & ? & ? & ?). by exists h', n'.
    + by destruct (isOutside n (Namespaces o)).
  - by destruct (isOutside n (Namespaces o)).
Qed.

Lemma markNodeOutsider_step o h r n :
  nodes h !! r = Some n → outsideFlagOk n →
  ∃ h' n', markNodeOutsider o h r = Ok h' ∧
    nodes h' = <[r := n']> (nodes h) ∧ edges h' = edges h ∧
    evolves n n'.
Proof.
  intros Hn Hok.
  assert (Hsame : ∃ h' n', Ok h = Ok h' ∧ nodes h' = <[r := n']> (nodes h) ∧
            edges h' = edges h ∧ evolves n n').
  { exists h, n. split_and!; try done. by rewrite list_insert_id. }
  unfold markNodeOutsider, getNode. rewrite Hn. simpl.
  unfold outsideFlagOk in Hok.
  destruct (Metadata n !! "isOutside") as [[| [] | |]|] eqn:Eo; try done; simpl.
  destruct (Metadata n !! "isInaccessible") eqn:Ei; [done|].
  destruct (isInaccessible n (AccessibleNamespaces o)); [|done].
  eexists _, _. split; [by apply setNodeMetadata_Ok|].
  split_and!; try done.
  unfold evolves. split_and!; try done.
  - by apply outsideFlagOk_insert_other.
  - intros _. simpl. by simplify_map_eq.
Qed.

Lemma markNode_step o h k r n :
  nodes h !! r = Some n → outsideFlagOk n →
  ∃ h' n', markNode o h (k, r) = Ok h' ∧
    nodes h' = <[r := n']> (nodes h) ∧ edges h' = edges h ∧
    evolves n n' ∧
    (NodeType n = NodeTypeUnknown →
     Metadata n' !! "isInaccessible" = Some (VBool true)).
Proof.
  intros Hn Hok.
  assert (Hr : (r < length (nodes h))%nat) by by eapply lookup_lt_Some.
  destruct (markNodeSwitch_step o h r n Hn Hok)
    as (h1 & n1 & E1 & N1 & Ed1 & Ev1 & I1).
  assert (Hn1 : nodes h1 !! r = Some n1)
    by (rewrite N1; by apply list_lookup_insert_eq).
  destruct (markNodeOutsider_step o h1 r n1 Hn1 (proj1 (proj2 Ev1) Hok))
    as (h2 & n2 & E2 & N2 & Ed2 & Ev2).
  exists h2, n2. unfold markNode. simpl. rewrite E1. simpl.
  split_and!; try done.
  - by rewrite N2, N1, list_insert_insert_eq.
  - congruence.
  - by eapply evolves_trans.
  - intros HU. destruct Ev2 as (T2 & _ & U2).
    destruct Ev1 as (T1 & _ & _). rewrite <- T1 in HU.
    by apply U2; [|apply I1; congruence].
Qed.

Lemma markNodes_loop o entries : ∀ h,
  (∀ k r, (k, r) ∈ entries →
     ∃ n, nodes h !! r = Some n ∧ outsideFlagOk n) →
  ∃ h', forM (markNode o) entries h = Ok h' ∧
    ∀ r n, nodes h !! r = Some n →
      ∃ n', nodes h' !! r = Some n' ∧ evolves n n' ∧
        (r ∈ entries.*2 → NodeType n = NodeTypeUnknown →
         Metadata n' !! "isInaccessible" = Some (VBool true)).
Proof.
  induction entries as [|[k r] entries IH]; intros h Hpre.
  - exists h. split; [done|]. intros r n Hn. exists n.
    split_and!; [done|apply evolves_refl|]. by intros ?%elem_of_nil.
  - destruct (Hpre k r) as (n & Hn & Hok); [by left|].
    destruct (markNode_step o h k r n Hn Hok)
      as (h1 & n1 & E1 & N1 & _ & Ev1 & I1).
    assert (Hr : (r < length (nodes h))%nat) by by eapply lookup_lt_Some.
    assert (Hstep : ∀ r' m, nodes h !! r' = Some m →
              ∃ m1, nodes h1 !! r' = Some m1 ∧ evolves m m1 ∧
                (r' = r → NodeType m = NodeTypeUnknown →
                 Metadata m1 !! "isInaccessible" = Some (VBool true))).
    { intros r' m Hm. rewrite N1. destruct (decide (r' = r)) as [->|Hne].
      - exists n1. rewrite list_lookup_insert_eq by done.
        assert (m = n) as -> by congruence. by split_and!.
      - exists m. rewrite list_lookup_insert_ne by done.
        split_and!; [done|apply evolves_refl|done]. }
    destruct (IH h1) as (h' & E' & Hpost).
    { intros k' r' Hin. destruct (Hpre k' r') as (m & Hm & Hmok); [by right|].
      destruct (Hstep r' m Hm) as (m1 & Hm1 & Ev & _).
      exists m1. split; [done|]. by apply Ev. }
    exists h'. split; [simpl; by rewrite E1|].
    intros r' m Hm. destruct (Hstep r' m Hm) as (m1 & Hm1 & Ev & I).
    destruct (Hpost r' m1 Hm1) as (m' & Hm' & Ev' & I').
    exists m'. split_and!; [done|by eapply evolves_trans|].
    intros Hin HU. rewrite fmap_cons, elem_of_cons in Hin. simpl in Hin.
    destruct Hin as [->|Hin].
    + destruct Ev' as (_ & _ & U'). destruct Ev as (T & _ & _).
      apply U'; [congruence|by apply I].
    + apply I'; [done|]. destruct Ev as (T & _ & _). congruence.
Qed.

(** C9. Every node of kind Unknown is marked [isInaccessible = true],
    whatever the requested and the accessible namespaces are, and its
    [isOutside] entry is left as it was (so the classifier never marks it
    outside). *)
Theorem unknown_nodes_inaccessible
    (order : list string) (h : Heap) (tm : TrafficMap) (o : Options) :
  visits tm order → classifiable h tm →
  ∃ h', markOutsideOrInaccessible order h tm o = Ok h' ∧
    ∀ id r n, tm !! id = Some r → nodes h !! r = Some n →
      NodeType n = NodeTypeUnknown →
      ∃ n', nodes h' !! r = Some n' ∧
        Metadata n' !! "isInaccessible" = Some (VBool true) ∧
        Metadata n' !! "isOutside" = Metadata n !! "isOutside".
Proof.
  intros Hord Hcl. unfold markOutsideOrInaccessible.
  destruct (markNodes_loop o (rangeMap tm order) h) as (h' & E & Hpost).
  { intros k r [_ Hk]%elem_of_rangeMap.
    specialize (Hcl k r Hk). simpl in Hcl.
    destruct (nodes h !! r) as [n|]; [|done]. by exists n. }
  exists h'. split; [done|]. intros id r n Hid Hn HU.
  destruct (Hpost r n Hn) as (n' & Hn' & Ev & I).
  exists n'. split_and!; [done| |].
  - apply I; [|done]. apply list_elem_of_fmap.
    exists (id, r). split; [done|]. by apply visits_rangeMap.
  - destruct Ev as (_ & _ & U). by apply U.
Qed.

Lemma unknown_nodes_inaccessible_witness :
  ∃ h', markOutsideOrInaccessible (map_to_list ingressMap).*1 ingressHeap
          ingressMap noNamespaces = Ok h' ∧
    ∀ id r n, ingressMap !! id = Some r → nodes ingressHeap !! r = Some n →
      NodeType n = NodeTypeUnknown →
      ∃ n', nodes h' !! r = Some n' ∧
        Metadata n' !! "isInaccessible" = Some (VBool true) ∧
        Metadata n' !! "isOutside" = Metadata n !! "isOutside".
Proof.
  apply (unknown_nodes_inaccessible (map_to_list ingressMap).*1 ingressHeap
           ingressMap noNamespaces).
  - unfold visits. reflexivity.
  - by_evaluation.
Defined.

(** ** Response times on the edges *)

Lemma edgeOk_Some h e :
  edgeOk h e →
  ∃ E s d, edges h !! e = Some E ∧ nodes h !! Source E = Some s ∧
           nodes h !! Dest E = Some d.
Proof.
  unfold edgeOk. destruct (edges h !! e) as [E|]; [|done]. simpl.
  intros [[s Hs]%bool_decide_unpack [d Hd]%bool_decide_unpack]%andb_True.
  by exists E, s, d.
Qed.

Lemma applyResponseTimeEdge_step rtm h e :
  edgeOk h e →
  ∃ h' E E', appender.applyResponseTimeEdge rtm h e = Ok h' ∧
    nodes h' = nodes h ∧ edges h !! e = Some E ∧
    edges h' = <[e := E']> (edges h) ∧
    Source E' = Source E ∧ Dest E' = Dest E ∧ stamped rtm h E'.
Proof.
  intros (E & s & d & HE & Hs & Hd)%edgeOk_Some.
  unfold appender.applyResponseTimeEdge, getEdge, getNode.
  rewrite HE. simpl. rewrite Hs. simpl. rewrite Hd. simpl.
  eexists _, E, _. split_and!; try done.
  exists s, d. simpl. split_and!; try done. by simplify_map_eq.
Qed.

Lemma applyResponseTimeEdges_loop rtm es : ∀ h,
  Forall (fun e => edgeOk h e) es →
  ∃ h', forM (appender.applyResponseTimeEdge rtm) es h = Ok h' ∧
    nodes h' = nodes h ∧
    ∀ (e : eref) E, edges h !! e = Some E →
      ∃ E', edges h' !! e = Some E' ∧
        Source E' = Source E ∧ Dest E' = Dest E ∧
        (stamped rtm h E → stamped rtm h E') ∧
        (e ∈ es → stamped rtm h E').
Proof.
  induction es as [|e es IH]; intros h Hpre.
  - exists h. split_and!; try done. intros e E HE. exists E.
    split_and!; try done. by intros ?%elem_of_nil.
  - apply list.Forall_cons in Hpre as [He Hes].
    destruct (applyResponseTimeEdge_step rtm h e He)
      as (h1 & E0 & E1 & Eq1 & N1 & HE0 & Ed1 & S1 & D1 & St1).
    assert (Hlt : (e < length (edges h))%nat) by by eapply lookup_lt_Some.
    assert (Hstep : ∀ (e' : eref) E, edges h !! e' = Some E →
              ∃ E', edges h1 !! e' = Some E' ∧
                Source E' = Source E ∧ Dest E' = Dest E ∧
                (stamped rtm h E → stamped rtm h E') ∧
                (e' = e → stamped rtm h E')).
    { intros e' E HE. rewrite Ed1. destruct (decide (e' = e)) as [->|Hne].
      - exists E1. rewrite list_lookup_insert_eq by done.
        assert (E = E0) as -> by congruence. by split_and!.
      - exists E. rewrite list_lookup_insert_ne by done. by split_and!. }
    assert (Hst : ∀ E, stamped rtm h1 E ↔ stamped rtm h E).
    { intros E. unfold stamped. by rewrite N1. }
    destruct (IH h1) as (h' & E' & N' & Hpost).
    { eapply list.Forall_impl; [exact Hes|]. intros e' He'. simpl in *.
      unfold edgeOk in *. destruct (edges h !! e') as [E|] eqn:HE; [|done].
      destruct (Hstep e' E HE) as (E2 & -> & S2 & D2 & _). simpl in *.
      by rewrite N1, S2, D2. }
    exists h'. split_and!; [simpl; by rewrite Eq1|congruence|].
    intros e' E HE. destruct (Hstep e' E HE) as (E2 & HE2 & S2 & D2 & K2 & I2).
    destruct (Hpost e' E2 HE2) as (E3 & HE3 & S3 & D3 & K3 & I3).
    exists E3. split_and!; try congruence.
    + intros H. apply Hst, K3, Hst, K2, H.
    + intros [->|Hin]%elem_of_cons.
      * apply Hst, K3, Hst, I2. done.
      * apply Hst, I3, Hin.
Qed.

Lemma edgeOk_preserved h h1 e :
  nodes h1 = nodes h →
  (∀ (e : eref) E, edges h !! e = Some E →
     ∃ E', edges h1 !! e = Some E' ∧ Source E' = Source E ∧ Dest E' = Dest E) →
  edgeOk h e → edgeOk h1 e.
Proof.
  intros N Hsh. unfold edgeOk. destruct (edges h !! e) as [E|] eqn:HE; [|done].
  destruct (Hsh e E HE) as (E' & -> & S' & D'). simpl. by rewrite N, S', D'.
Qed.

Lemma applyResponseTimeNodes_loop rtm entries : ∀ h,
  (∀ k r, (k, r) ∈ entries →
     ∃ n, nodes h !! r = Some n ∧ Forall (fun e => edgeOk h e) (Edges n)) →
  ∃ h', forM (appender.applyResponseTimeNode rtm) entries h = Ok h' ∧
    nodes h' = nodes h ∧
    ∀ (e : eref) E, edges h !! e = Some E →
      ∃ E', edges h' !! e = Some E' ∧
        Source E' = Source E ∧ Dest E' = Dest E ∧
        (stamped rtm h E → stamped rtm h E') ∧
        (∀ k r n, (k, r) ∈ entries → nodes h !! r = Some n →
                  e ∈ Edges n → stamped rtm h E').
Proof.
  induction entries as [|[k r] entries IH]; intros h Hpre.
  - exists h. split_and!; try done. intros e E HE. exists E.
    split_and!; try done. by intros ??? ?%elem_of_nil.
  - destruct (Hpre k r) as (n & Hn & Hes); [by left|].
    destruct (applyResponseTimeEdges_loop rtm (Edges n) h Hes)
      as (h1 & Eq1 & N1 & Hstep).
    assert (Hst : ∀ E, stamped rtm h1 E ↔ stamped rtm h E).
    { intros E. unfold stamped. by rewrite N1. }
    destruct (IH h1) as (h' & E' & N' & Hpost).
    { intros k' r' Hin. destruct (Hpre k' r') as (m & Hm & Hmes); [by right|].
      exists m. rewrite N1. split; [done|].
      eapply list.Forall_impl; [exact Hmes|]. intros e' He'. simpl in *.
      eapply edgeOk_preserved; [done| |done].
      intros e2 E2 HE2. destruct (Hstep e2 E2 HE2) as (E3 & ? & ? & ? & _).
      by exists E3. }
    exists h'. split_and!.
    + assert (appender.applyResponseTimeNode rtm h (k, r) = Ok h1) as Hnode.
      { unfold appender.applyResponseTimeNode, getNode. simpl.
        by rewrite Hn. }
      simpl. by rewrite Hnode.
    + congruence.
    + intros e E HE. destruct (Hstep e E HE) as (E2 & HE2 & S2 & D2 & K2 & I2).
      destruct (Hpost e E2 HE2) as (E3 & HE3 & S3 & D3 & K3 & I3).
      exists E3. split_and!; try congruence.
      * intros H. apply Hst, K3, Hst, K2, H.
      * intros k' r' m [[= -> ->]|Hin]%elem_of_cons Hm Hem.
        -- assert (m = n) as -> by congruence.
           apply Hst, K3, Hst, I2, Hem.
        -- apply Hst, (I3 k' r' m); [done|by rewrite N1|done].
Qed.

(** C10. After the response-time appender has run, every edge of every
    node of the traffic map has a [responseTime] entry: the value recorded
    for the key ["{sourceId} {destId}"], and 0 when there is none,
    whatever the entry held before. *)
Theorem response_time_on_every_edge
    (Id : string → string → string → string → string → string
          → string * string)
    (istioNamespace : string) (promQuery : appender.Query → list Sample)
    (a : appender.ResponseTimeAppender) (order : list string) (h : Heap)
    (tm : TrafficMap) (namespace : string) :
  visits tm order → closed h tm →
  let responseTimeMap :=
    appender.responseTimes Id istioNamespace promQuery a namespace in
  ∃ h', appender.AppendGraph Id istioNamespace promQuery a order h tm
          namespace = Ok h' ∧
    nodes h' = nodes h ∧
    ∀ id r n e, tm !! id = Some r → nodes h' !! r = Some n → e ∈ Edges n →
      ∃ E s d, edges h' !! e = Some E ∧
        nodes h' !! Source E = Some s ∧ nodes h' !! Dest E = Some d ∧
        EdgeMetadata E !! "responseTime"
        = Some (VFloat (default 0
                  (responseTimeMap !! (ID s +:+ " " +:+ ID d)))) ∧
        (responseTimeMap !! (ID s +:+ " " +:+ ID d) = None →
         EdgeMetadata E !! "responseTime" = Some (VFloat 0)).
Proof.
  intros Hord Hcl rtm. unfold appender.AppendGraph.
  case_bool_decide as Hsz.
  { apply map_size_empty_iff in Hsz. subst tm. exists h.
    by split_and!. }
  unfold appender.appendGraph, appender.applyResponseTime. fold rtm.
  destruct (applyResponseTimeNodes_loop rtm (rangeMap tm order) h)
    as (h' & Eq & N & Hpost).
  { intros k r [_ Hk]%elem_of_rangeMap. specialize (Hcl k r Hk). simpl in Hcl.
    destruct (nodes h !! r) as [n|]; [|done]. exists n. split; [done|].
    simpl in Hcl. apply list.Forall_forall. intros e He.
    apply Is_true_true, forallb_forall with (x := e) in Hcl;
      [by apply Is_true_true|by apply list_elem_of_In]. }
  exists h'. split_and!; try done.
  intros id r n e Hid Hn He. rewrite N in Hn.
  assert (Hin : (id, r) ∈ rangeMap tm order) by by apply visits_rangeMap.
  assert (HeOk : edgeOk h e).
  { specialize (Hcl id r Hid). simpl in Hcl. rewrite Hn in Hcl. simpl in Hcl.
    apply Is_true_true, forallb_forall with (x := e) in Hcl;
      [by apply Is_true_true|by apply list_elem_of_In]. }
  apply edgeOk_Some in HeOk as (E & _ & _ & HE & _ & _).
  destruct (Hpost e E HE) as (E' & HE' & _ & _ & _ & I).
  destruct (I id r n Hin Hn He) as (s & d & Hs & Hd & Hrt).
  exists E', s, d. rewrite N. split_and!; try done.
  intros Hnone. by rewrite Hrt, Hnone.
Qed.

Lemma response_time_on_every_edge_witness :
  ∃ h', appender.AppendGraph IdSpec "istio-system" (fun _ => httpVector)
          quantile50 (map_to_list ingressMap).*1 ingressHeap ingressMap
          "bookinfo" = Ok h' ∧
        nodes h' = nodes ingressHeap.
Proof.
  destruct (response_time_on_every_edge IdSpec "istio-system"
              (fun _ => httpVector) quantile50 (map_to_list ingressMap).*1
              ingressHeap ingressMap "bookinfo")
    as (h' & E & N & _).
  - unfold visits. reflexivity.
  - by_evaluation.
  - exists h'. exact (conj E N).
Defined.

(** ** Merging namespace maps *)

Lemma ifaceEq_comparable (a b : option value) :
  comparable b → ifaceEq a b = Ok (bool_decide (a = b)).
Proof.
  destruct a as [[]|], b as [[]|]; simpl; try done; intros _; f_equal;
    try (by rewrite bool_decide_eq_false_2);
    try (by rewrite bool_decide_eq_true_2);
    apply bool_decide_ext; split; congruence.
Qed.

Lemma edgeKey_Some h e k :
  edgeKey h e = Some k ↔
  ∃ E D, edges h !! e = Some E ∧ nodes h !! Dest E = Some D ∧
         k = (ID D, EdgeMetadata E !! "protocol").
Proof.
  unfold edgeKey. split.
  - intros H. destruct (edges h !! e) as [E|]; [|done]. simpl in H.
    destruct (nodes h !! Dest E) as [D|] eqn:HD; [|done]. simpl in H.
    exists E, D. split_and!; congruence.
  - intros (E & D & -> & HD & ->). simpl. by rewrite HD.
Qed.

Lemma isDupEdge_spec h es nsEdge destId protocol :
  Forall (fun e => is_Some (edgeKey h e)) es →
  Forall (fun E => comparable (EdgeMetadata E !! "protocol")) (edges h) →
  edgeKey h nsEdge = Some (destId, protocol) →
  isDupEdge h es nsEdge
  = Ok (bool_decide (Some (destId, protocol) ∈ edgeKey h <$> es)).
Proof.
  intros Hes Hcmp Hns. pose proof Hns as Hns'.
  apply edgeKey_Some in Hns' as (NE & ND & HNE & HND & [= -> ->]).
  induction Hes as [|e es [k Hk] Hes IH]; simpl.
  - done.
  - pose proof Hk as Hk'.
    apply edgeKey_Some in Hk' as (E & D & HE & HD & ->).
    unfold getEdge, destID, getNode. rewrite HNE. simpl. rewrite HND. simpl.
    rewrite HE. simpl. rewrite HD. simpl.
    assert (HEc : comparable (EdgeMetadata E !! "protocol")).
    { rewrite list.Forall_forall in Hcmp. apply Hcmp.
      by eapply list_elem_of_lookup_2. }
    rewrite Hk, IH. clear IH.
    set (p := EdgeMetadata NE !! "protocol") in *.
    set (p' := EdgeMetadata E !! "protocol") in *.
    assert (Hiff : Some (ID ND, p) ∈ Some (ID D, p') :: (edgeKey h <$> es)
              ↔ (ID ND = ID D ∧ p = p')
                ∨ Some (ID ND, p) ∈ edgeKey h <$> es).
    { rewrite elem_of_cons. split; (intros [H|H]; [left|by right]).
      - by injection H.
      - by destruct H as [-> ->]. }
    destruct (decide (ID ND = ID D)) as [Hd|Hd].
    + rewrite (bool_decide_eq_true_2 (ID ND = ID D)) by done.
      rewrite ifaceEq_comparable by done. simpl.
      destruct (decide (p = p')) as [Hp|Hp].
      * rewrite (bool_decide_eq_true_2 (p = p')) by done.
        f_equal. symmetry. apply bool_decide_eq_true_2, Hiff. by left.
      * rewrite (bool_decide_eq_false_2 (p = p')) by done.
        f_equal. apply bool_decide_ext. rewrite Hiff. tauto.
    + rewrite (bool_decide_eq_false_2 (ID ND = ID D)) by done. simpl.
      f_equal. apply bool_decide_ext. rewrite Hiff. tauto.
Qed.

Lemma mergeEdge_spec node h e n :
  heapOk h → nodes h !! node = Some n → is_Some (edgeKey h e) →
  mergeEdge node h e
  = Ok (if bool_decide (edgeKey h e ∈ edgeKey h <$> Edges n) then h
        else setNode h node (withEdges n (Edges n ++ [e]))).
Proof.
  intros [Hok Hcmp] Hn [[d p] Hk].
  unfold mergeEdge, getNode. rewrite Hn. simpl.
  rewrite (isDupEdge_spec h (Edges n) e d p); [| |done|done].
  - simpl. rewrite Hk. by case_bool_decide.
  - rewrite list.Forall_forall in Hok. apply Hok.
    by eapply list_elem_of_lookup_2.
Qed.

Lemma appendsNew_refl h es : appendsNew h es es.
Proof.
  exists []. rewrite app_nil_r. split_and!; try done.
  - constructor.
  - by intros e ?%elem_of_nil.
Qed.

Lemma appendsNew_snoc h es e :
  is_Some (edgeKey h e) → edgeKey h e ∉ (edgeKey h <$> es) →
  appendsNew h es (es ++ [e]).
Proof.
  intros He Hnew. exists [e]. split_and!; try done.
  - by constructor.
  - simpl. apply NoDup_singleton.
  - by intros e' ->%list_elem_of_singleton.
Qed.

Lemma appendsNew_trans h es1 es2 es3 :
  appendsNew h es1 es2 → appendsNew h es2 es3 → appendsNew h es1 es3.
Proof.
  intros (x1 & -> & F1 & N1 & D1) (x2 & -> & F2 & N2 & D2).
  exists (x1 ++ x2). rewrite <- app_assoc. split_and!; try done.
  - by apply list.Forall_app.
  - rewrite fmap_app. apply list.NoDup_app. split_and!; try done.
    intros k Hk1 Hk2. apply list_elem_of_fmap in Hk2 as (e & -> & He).
    apply (D2 e He). rewrite fmap_app, elem_of_app. by right.
  - intros e [He|He]%elem_of_app; [by apply D1|].
    intros Hin. apply (D2 e He). rewrite fmap_app, elem_of_app. by left.
Qed.

Lemma edgeKey_grows h h1 e : grows h h1 → edgeKey h1 e = edgeKey h e.
Proof.
  intros (Hed & Hlen & Hn). unfold edgeKey. rewrite Hed.
  destruct (edges h !! e) as [E|]; [|done]. simpl.
  destruct (nodes h !! Dest E) as [D|] eqn:HD.
  - destruct (Hn _ _ HD) as (D1 & HD1 & Heq & _). rewrite HD1. simpl.
    by rewrite Heq.
  - apply lookup_ge_None in HD. rewrite <- Hlen in HD.
    assert (nodes h1 !! Dest E = None) as -> by by apply lookup_ge_None.
    done.
Qed.

Lemma appendsNew_grows h h1 es es' :
  grows h h1 → appendsNew h1 es es' ↔ appendsNew h es es'.
Proof.
  intros Hg. unfold appendsNew.
  assert (Hk : ∀ l : list eref, edgeKey h1 <$> l = edgeKey h <$> l).
  { intros l. apply list_fmap_ext. intros ???. by apply edgeKey_grows. }
  split; intros (x & -> & F & N & D); exists x; split_and!; try done.
  - eapply list.Forall_impl; [done|]. intros e. simpl.
    by rewrite (edgeKey_grows h h1).
  - by rewrite <- Hk.
  - intros e He. rewrite <- Hk, <- (edgeKey_grows h h1) by done. by apply D.
  - eapply list.Forall_impl; [done|]. intros e. simpl.
    by rewrite (edgeKey_grows h h1).
  - by rewrite Hk.
  - intros e He. rewrite Hk, (edgeKey_grows h h1) by done. by apply D.
Qed.

Lemma grows_refl h : grows h h.
Proof.
  split_and!; try done. intros r n Hn. exists n. split_and!; try done.
  - by destruct n.
  - apply appendsNew_refl.
Qed.

Lemma grows_trans h1 h2 h3 : grows h1 h2 → grows h2 h3 → grows h1 h3.
Proof.
  intros G12 G23. pose proof G12 as (E1 & L1 & N1).
  pose proof G23 as (E2 & L2 & N2). split_and!; try congruence.
  intros r n Hn. destruct (N1 r n Hn) as (n2 & Hn2 & Eq2 & A2).
  destruct (N2 r n2 Hn2) as (n3 & Hn3 & Eq3 & A3).
  exists n3. split_and!; try done.
  - rewrite Eq3, Eq2. by destruct n.
  - eapply appendsNew_trans; [done|]. by apply (appendsNew_grows h1 h2).
Qed.

Lemma heapOk_grows h h1 : heapOk h → grows h h1 → heapOk h1.
Proof.
  intros [Hok Hcmp] Hg. pose proof Hg as (Hed & Hlen & Hn). split.
  - apply list.Forall_forall. intros n1 Hn1.
    apply list_elem_of_lookup in Hn1 as [r Hr].
    assert (is_Some (nodes h !! r)) as [n Hrn].
    { apply lookup_lt_is_Some. rewrite <- Hlen. by eapply lookup_lt_Some. }
    destruct (Hn r n Hrn) as (n1' & Hn1' & _ & (x & Hx & F & _)).
    assert (n1' = n1) as -> by congruence. rewrite Hx.
    apply list.Forall_app. split.
    + rewrite list.Forall_forall in Hok.
      eapply list.Forall_impl; [apply Hok; by eapply list_elem_of_lookup_2|].
      intros e. simpl. by rewrite (edgeKey_grows h h1).
    + eapply list.Forall_impl; [done|]. intros e. simpl.
      by rewrite (edgeKey_grows h h1).
  - by rewrite Hed.
Qed.

Lemma keyed_grows h h1 tm : keyed h tm → grows h h1 → keyed h1 tm.
Proof.
  intros Hk (_ & _ & Hn) k r Hr. specialize (Hk k r Hr). simpl in *.
  destruct (nodes h !! r) as [n|] eqn:E; [|done].
  destruct (Hn r n E) as (n1 & Hn1 & Heq & _). rewrite Hn1. simpl.
  by rewrite Heq.
Qed.

Lemma keyed_lookup h tm k r :
  keyed h tm → tm !! k = Some r → ∃ n, nodes h !! r = Some n ∧ ID n = k.
Proof.
  intros Hk Hr. specialize (Hk k r Hr). simpl in Hk.
  destruct (nodes h !! r) as [n|]; [|done]. exists n. split; [done|].
  by apply bool_decide_unpack in Hk.
Qed.

Lemma grows_setEdges h node n es :
  nodes h !! node = Some n → appendsNew h (Edges n) es →
  grows h (setNode h node (withEdges n es)).
Proof.
  intros Hn Ha. assert (node < length (nodes h))%nat by by eapply lookup_lt_Some.
  split_and!; simpl; [done|by rewrite length_insert|].
  intros r n0 Hn0. destruct (decide (r = node)) as [->|Hne].
  - rewrite list_lookup_insert_eq by done. assert (n0 = n) as -> by congruence.
    eexists. by split_and!.
  - rewrite list_lookup_insert_ne by done. exists n0. split_and!; try done.
    + by destruct n0.
    + apply appendsNew_refl.
Qed.

Lemma grows_covered h h1 (r : nref) n n1 k :
  grows h h1 → nodes h !! r = Some n → nodes h1 !! r = Some n1 →
  k ∈ edgeKey h <$> Edges n → k ∈ edgeKey h <$> Edges n1.
Proof.
  intros (_ & _ & Hn) Hr Hr1 Hk.
  destruct (Hn r n Hr) as (n1' & ? & _ & x & Hx & _).
  assert (n1' = n1) as -> by congruence.
  rewrite Hx, fmap_app, elem_of_app. by left.
Qed.

Lemma mergeEdge_step node h e n :
  heapOk h → nodes h !! node = Some n → is_Some (edgeKey h e) →
  ∃ h1 n1, mergeEdge node h e = Ok h1 ∧ grows h h1 ∧
    (∀ r : nref, r ≠ node → nodes h1 !! r = nodes h !! r) ∧
    nodes h1 !! node = Some n1 ∧
    edgeKey h e ∈ edgeKey h <$> Edges n1.
Proof.
  intros Hok Hn He. rewrite (mergeEdge_spec node h e n) by done.
  assert (node < length (nodes h))%nat by by eapply lookup_lt_Some.
  case_bool_decide as Hdup.
  - exists h, n. split_and!; try done. apply grows_refl.
  - eexists _, _. split_and!; [done| | | |].
    + apply grows_setEdges; [done|]. by apply appendsNew_snoc.
    + intros r Hr. simpl. by rewrite list_lookup_insert_ne.
    + simpl. by apply list_lookup_insert_eq.
    + simpl. rewrite fmap_app, elem_of_app. right. by left.
Qed.

Lemma mergeEdges_loop node es : ∀ h n,
  heapOk h → nodes h !! node = Some n →
  Forall (fun e => is_Some (edgeKey h e)) es →
  ∃ h' n', forM (mergeEdge node) es h = Ok h' ∧ grows h h' ∧
    (∀ r : nref, r ≠ node → nodes h' !! r = nodes h !! r) ∧
    nodes h' !! node = Some n' ∧
    ∀ e, e ∈ es → edgeKey h e ∈ edgeKey h <$> Edges n'.
Proof.
  induction es as [|e es IH]; intros h n Hok Hn Hes.
  - exists h, n. split_and!; try done; [apply grows_refl|].
    by intros e ?%elem_of_nil.
  - apply list.Forall_cons in Hes as [He Hes].
    destruct (mergeEdge_step node h e n Hok Hn He)
      as (h1 & n1 & E1 & G1 & O1 & N1 & C1).
    destruct (IH h1 n1) as (h' & n' & E' & G' & O' & N' & C').
    { by eapply heapOk_grows. }
    { done. }
    { eapply list.Forall_impl; [done|]. intros e'. simpl.
      by rewrite (edgeKey_grows h h1). }
    exists h', n'. split_and!.
    + simpl. by rewrite E1.
    + by eapply grows_trans.
    + intros r Hr. by rewrite O', O1.
    + done.
    + intros e' [->|Hin]%elem_of_cons.
      * rewrite <- (edgeKey_grows h h1 e) by done.
        assert (Hk : ∀ l : list eref, edgeKey h1 <$> l = edgeKey h <$> l).
        { intros l. apply list_fmap_ext. intros ???. by apply edgeKey_grows. }
        rewrite <- Hk. eapply (grows_covered h1 h'); [done..|].
        rewrite Hk. by rewrite (edgeKey_grows h h1).
      * rewrite <- (edgeKey_grows h h1 e') by done.
        assert (Hk : ∀ l : list eref, edgeKey h1 <$> l = edgeKey h <$> l).
        { intros l. apply list_fmap_ext. intros ???. by apply edgeKey_grows. }
        rewrite <- Hk. by apply C'.
Qed.

Lemma mergeEdges_noop node es : ∀ h n,
  heapOk h → nodes h !! node = Some n →
  (∀ e, e ∈ es → is_Some (edgeKey h e) ∧
                 edgeKey h e ∈ edgeKey h <$> Edges n) →
  forM (mergeEdge node) es h = Ok h.
Proof.
  induction es as [|e es IH]; intros h n Hok Hn Hes; [done|].
  destruct (Hes e) as [He Hc]; [by left|].
  simpl. rewrite (mergeEdge_spec node h e n) by done.
  rewrite bool_decide_eq_true_2 by done. simpl.
  apply (IH h n); try done. intros e' He'. apply Hes. by right.
Qed.

Lemma getNode_Ok h (r : nref) n : nodes h !! r = Some n → getNode h r = Ok n.
Proof. intros H. unfold getNode. by rewrite H. Qed.

Lemma heapOk_edges h (r : nref) n :
  heapOk h → nodes h !! r = Some n →
  Forall (fun e => is_Some (edgeKey h e)) (Edges n).
Proof.
  intros [Hok _] Hn. rewrite list.Forall_forall in Hok. apply Hok.
  by eapply list_elem_of_lookup_2.
Qed.

Lemma merged_self ns h (tm : TrafficMap) k p N :
  tm !! k = Some p → nodes h !! p = Some N → merged ns h tm k p.
Proof.
  intros Hk Hp. exists p, N, N. split_and!; try done.
  intros e He. by apply list_elem_of_fmap_2.
Qed.

Lemma keyed_insert h (tm : TrafficMap) k (p : nref) N :
  keyed h tm → nodes h !! p = Some N → ID N = k → keyed h (<[k := p]> tm).
Proof.
  intros Hk Hp HN. apply map_Forall_insert_2; [|done].
  rewrite Hp. simpl. by apply bool_decide_pack.
Qed.

Lemma mergeNode_step ns h (G M : TrafficMap) k p :
  heapOk h → keyed h G → keyed h M → M !! k = Some p →
  ∃ h' G', mergeNode ns (h, G) (k, p) = Ok (h', G') ∧
    grows h h' ∧ keyed h' G' ∧ merged ns h' G' k p ∧
    (∀ k', k' ≠ k → G' !! k' = G !! k') ∧
    (∀ (r : nref) n, nodes h !! r = Some n → ID n ≠ k →
                     nodes h' !! r = Some n).
Proof.
  intros Hok HG HM Hp.
  destruct (keyed_lookup h M k p HM Hp) as (N & HN & HNid).
  unfold mergeNode. destruct (G !! k) as [q|] eqn:Hq.
  - destruct (keyed_lookup h G k q HG Hq) as (Q & HQ & HQid).
    rewrite (getNode_Ok h p N HN). simpl.
    case_bool_decide as Hns.
    + (* the node of the namespace replaces the global one *)
      rewrite (getNode_Ok h q Q HQ). simpl.
      destruct (mergeEdges_loop p (Edges Q) h N Hok HN)
        as (h' & n' & E' & G' & O' & N' & C'); [by eapply heapOk_edges|].
      rewrite E'. simpl. exists h', (<[k := p]> G).
      pose proof G' as (_ & _ & Hg). destruct (Hg p N HN) as (n1 & Hn1 & Heq & _).
      assert (n1 = n') as -> by congruence.
      split_and!; try done.
      * eapply keyed_insert; [by eapply keyed_grows|done|]. rewrite Heq.
        by destruct N.
      * eapply merged_self; [by rewrite lookup_insert_eq|done].
      * intros k' Hk'. by rewrite lookup_insert_ne.
      * intros r n Hr Hid. rewrite O'; [done|]. intros ->. congruence.
    + (* the global node stays and takes the edges it lacks *)
      rewrite (getNode_Ok h p N HN). simpl.
      destruct (mergeEdges_loop q (Edges N) h Q Hok HQ)
        as (h' & n' & E' & G' & O' & N' & C'); [by eapply heapOk_edges|].
      rewrite E'. simpl. exists h', G.
      split_and!; try done.
      * by eapply keyed_grows.
      * destruct (decide (p = q)) as [->|Hpq].
        -- by eapply merged_self.
        -- exists q, N, n'. split_and!; try done.
           ++ by rewrite O'.
           ++ intros e He. rewrite (edgeKey_grows h h') by done.
              assert (Hk : ∀ l : list eref, edgeKey h' <$> l = edgeKey h <$> l).
              { intros l. apply list_fmap_ext. intros ???.
                by apply edgeKey_grows. }
              rewrite Hk. by apply C'.
      * intros r n Hr Hid. rewrite O'; [done|]. intros ->. congruence.
  - exists h, (<[k := p]> G). split_and!; try done.
    + apply grows_refl.
    + by eapply keyed_insert.
    + eapply merged_self; [by rewrite lookup_insert_eq|done].
    + intros k' Hk'. by rewrite lookup_insert_ne.
Qed.

Lemma merged_preserved ns h h' (G G' : TrafficMap) k p :
  merged ns h G k p → keyed h G →
  (∃ N, nodes h !! p = Some N ∧ ID N = k) →
  grows h h' → G' !! k = G !! k →
  (∀ (r : nref) n, nodes h !! r = Some n → ID n = k → nodes h' !! r = Some n) →
  merged ns h' G' k p.
Proof.
  intros (s & N & S & Hs & HN & HS & Hns & Hcov) HG (N0 & HN0 & Hid) Hg HG' Hsame.
  assert (N0 = N) as -> by congruence.
  destruct (keyed_lookup h G k s HG Hs) as (S0 & HS0 & HSid).
  assert (S0 = S) as -> by congruence.
  exists s, N, S. split_and!; try done.
  - by rewrite HG'.
  - by apply Hsame.
  - by apply Hsame.
  - intros e He. rewrite (edgeKey_grows h h') by done.
    assert (Hk : ∀ l : list eref, edgeKey h' <$> l = edgeKey h <$> l).
    { intros l. apply list_fmap_ext. intros ???. by apply edgeKey_grows. }
    rewrite Hk. by apply Hcov.
Qed.

Lemma merged_noop ns h (G : TrafficMap) k p :
  heapOk h → merged ns h G k p → mergeNode ns (h, G) (k, p) = Ok (h, G).
Proof.
  intros Hok (s & N & S & Hs & HN & HS & Hns & Hcov).
  unfold mergeNode. rewrite Hs, (getNode_Ok h p N HN). simpl.
  assert (Hkeys : ∀ e, e ∈ Edges N → is_Some (edgeKey h e)).
  { intros e He. pose proof (heapOk_edges h p N Hok HN) as HF.
    rewrite list.Forall_forall in HF. by apply HF. }
  case_bool_decide as HNns.
  - specialize (Hns HNns). subst s. assert (S = N) as -> by congruence.
    rewrite (getNode_Ok h p N HN). simpl.
    rewrite (mergeEdges_noop p (Edges N) h N); try done; [|naive_solver].
    simpl. by rewrite insert_id.
  - rewrite (getNode_Ok h p N HN). simpl.
    rewrite (mergeEdges_noop s (Edges N) h S); try done. naive_solver.
Qed.

Lemma forM_cons {A S} (body : S → A → result S) x xs s :
  forM body (x :: xs) s = body s x ≫= forM body xs.
Proof. done. Qed.

Lemma merge_loop ns (M : TrafficMap) entries :
  NoDup entries.*1 →
  (∀ k p, (k, p) ∈ entries → M !! k = Some p) →
  ∀ h (G : TrafficMap), heapOk h → keyed h G → keyed h M →
  ∃ h' G', forM (mergeNode ns) entries (h, G) = Ok (h', G') ∧
    grows h h' ∧ heapOk h' ∧ keyed h' G' ∧
    (∀ k p, (k, p) ∈ entries → merged ns h' G' k p) ∧
    (∀ k p, k ∉ entries.*1 → M !! k = Some p →
            merged ns h G k p → merged ns h' G' k p).
Proof.
  induction entries as [|[k p] entries IH]; intros Hnd HM h G Hok HG HkM.
  - exists h, G. split_and!; try done; [apply grows_refl|].
    by intros ?? ?%elem_of_nil.
  - rewrite fmap_cons in Hnd. apply list.NoDup_cons in Hnd as [Hk Hnd].
    assert (Hp : M !! k = Some p) by (apply HM; by left).
    destruct (mergeNode_step ns h G M k p Hok HG HkM Hp)
      as (h1 & G1 & E1 & Gr1 & K1 & M1 & O1 & S1).
    destruct (IH Hnd) with (h := h1) (G := G1)
      as (h' & G' & E' & Gr' & Ok' & K' & A' & P').
    { intros k' p' Hin. apply HM. by right. }
    { by eapply heapOk_grows. }
    { done. }
    { by eapply keyed_grows. }
    exists h', G'. split_and!; try done.
    + by rewrite forM_cons, E1.
    + by eapply grows_trans.
    + intros k' p' [[= -> ->]|Hin]%elem_of_cons; [|by apply A'].
      by apply P'.
    + intros k' p' Hk' Hp' Hm. rewrite fmap_cons, not_elem_of_cons in Hk'.
      destruct Hk' as [Hne Hk']. simpl in Hne. apply P'; [done..|].
      eapply (merged_preserved ns h h1 G G1); try done.
      * by apply (keyed_lookup h M).
      * by apply O1.
      * intros r n Hr Hid. apply S1; [done|]. congruence.
Qed.

Lemma merge_noop_loop ns entries h (G : TrafficMap) :
  heapOk h → (∀ k p, (k, p) ∈ entries → merged ns h G k p) →
  forM (mergeNode ns) entries (h, G) = Ok (h, G).
Proof.
  intros Hok. induction entries as [|[k p] entries IH]; intros Hm; [done|].
  rewrite forM_cons, merged_noop; [|done|apply Hm; by left]. simpl.
  apply IH. intros k' p' Hin. apply Hm. by right.
Qed.

Lemma rangeMap_NoDup {V} (tm : gmap string V) (order : list string) :
  NoDup order → NoDup (rangeMap tm order).*1.
Proof.
  induction 1 as [|k order Hk Hnd IH]; simpl; [constructor|].
  unfold rangeMap in *. simpl. destruct (tm !! k) as [v|]; simpl; [|done].
  constructor; [|done]. intros Hin. apply Hk.
  apply list_elem_of_fmap in Hin as ([k' v'] & -> & Hin).
  apply list_elem_of_omap in Hin as (k'' & Hk'' & Heq).
  destruct (tm !! k''); simplify_eq/=. done.
Qed.

Lemma visits_NoDup {V} (tm : gmap string V) (order : list string) :
  visits tm order → NoDup order.
Proof. unfold visits. intros ->. apply NoDup_fst_map_to_list. Qed.

(** C3. Merging a namespace map a second time changes nothing: no node,
    no edge, no counter; and whenever the merge appends edges to a node
    they have pairwise distinct (dest id, protocol) keys that no edge of
    the node had. Holds for all visiting orders of the two merges, for
    maps keyed by node id over a heap without dangling edges whose
    protocols are comparable. *)
Theorem merge_idempotent
    (order1 order2 : list string) (h : Heap) (trafficMap : TrafficMap)
    (ns : string) (nsTrafficMap : TrafficMap) :
  visits nsTrafficMap order1 → visits nsTrafficMap order2 →
  heapOk h → keyed h trafficMap → keyed h nsTrafficMap →
  ∃ h1 tm1,
    mergeTrafficMaps order1 h trafficMap ns nsTrafficMap = Ok (h1, tm1) ∧
    mergeTrafficMaps order2 h1 tm1 ns nsTrafficMap = Ok (h1, tm1) ∧
    edges h1 = edges h ∧
    ∀ (r : nref) n, nodes h !! r = Some n →
      ∃ n1, nodes h1 !! r = Some n1 ∧ n1 = withEdges n (Edges n1) ∧
            appendsNew h (Edges n) (Edges n1).
Proof.
  intros Ho1 Ho2 Hok HG HM. unfold mergeTrafficMaps.
  destruct (merge_loop ns nsTrafficMap (rangeMap nsTrafficMap order1))
    with (h := h) (G := trafficMap)
    as (h1 & tm1 & E1 & Gr & Hok1 & K1 & A1 & _); try done.
  { apply rangeMap_NoDup. by eapply visits_NoDup. }
  { by intros k p [_ ?]%elem_of_rangeMap. }
  exists h1, tm1. split_and!; try done.
  - apply merge_noop_loop; [done|]. intros k p [_ Hp]%elem_of_rangeMap.
    apply A1. by apply visits_rangeMap.
  - by destruct Gr.
  - by destruct Gr as (_ & _ & ?).
Qed.

Lemma merge_idempotent_witness :
  ∃ h1 tm1,
    mergeTrafficMaps (map_to_list ns2Map).*1 twoNamespaces globalMap "ns2"
      ns2Map = Ok (h1, tm1) ∧
    mergeTrafficMaps (map_to_list ns2Map).*1 h1 tm1 "ns2" ns2Map
      = Ok (h1, tm1) ∧
    edges h1 = edges twoNamespaces ∧
    ∀ (r : nref) n, nodes twoNamespaces !! r = Some n →
      ∃ n1, nodes h1 !! r = Some n1 ∧ n1 = withEdges n (Edges n1) ∧
            appendsNew twoNamespaces (Edges n) (Edges n1).
Proof.
  apply (merge_idempotent (map_to_list ns2Map).*1 (map_to_list ns2Map).*1
           twoNamespaces globalMap "ns2" ns2Map).
  - unfold visits. reflexivity.
  - unfold visits. reflexivity.
  - unfold heapOk. by_evaluation.
  - unfold keyed. by_evaluation.
  - unfold keyed. by_evaluation.
Defined.

(** The merge of the comment's example: the global [ns1:A] stays and
    keeps its one edge to [ns2:B]; the [ns2:B] of the namespace replaces
    the global one; [ns2:C] is added. *)
Example merge_two_namespaces :
  outcome
    (mergeTrafficMaps (map_to_list ns2Map).*1 twoNamespaces globalMap "ns2"
       ns2Map)
    (fun '(h, tm) => (tm, Edges <$> nodes h))
  = Some (list_to_map [("unknown", 0%nat); ("wl_ns1_A", 1%nat);
                       ("wl_ns2_B", 4%nat); ("wl_ns2_C", 5%nat)],
          [[0%nat]; [1%nat]; []; [2%nat]; [3%nat]; []]).
Proof. by_evaluation. Qed.

(** ** Counter conservation in the builder *)

Lemma Qcsum_app (l1 l2 : list Qc) : Qcsum (l1 ++ l2) = Qcsum l1 + Qcsum l2.
Proof.
  induction l1 as [|x l1 IH]; simpl; [by rewrite Qcplus_0_l|].
  rewrite IH. ring.
Qed.

Lemma Qcsum_Permutation (l1 l2 : list Qc) : l1 ≡ₚ l2 → Qcsum l1 = Qcsum l2.
Proof.
  induction 1 as [|x l1 l2 _ IH|x y l|l1 l2 l3 _ IH1 _ IH2]; simpl.
  - done.
  - by rewrite IH.
  - ring.
  - congruence.
Qed.

Lemma Qcsum_insert (l : list Qc) (i : nat) (x y : Qc) :
  l !! i = Some x → Qcsum (<[i := y]> l) = Qcsum l - x + y.
Proof.
  revert i. induction l as [|z l IH]; intros [|i] H; simplify_eq/=.
  - ring.
  - rewrite (IH i H). ring.
Qed.

Lemma Qcsum_fmap_insert {A} (f : A → Qc) (l : list A) (i : nat) (x y : A) :
  l !! i = Some x →
  Qcsum (f <$> <[i := y]> l) = Qcsum (f <$> l) - f x + f y.
Proof.
  intros H. rewrite list_fmap_insert. apply Qcsum_insert.
  by rewrite list_lookup_fmap, H.
Qed.

Lemma Qcsum_concat (ls : list (list Qc)) :
  Qcsum (concat ls) = Qcsum (Qcsum <$> ls).
Proof.
  induction ls as [|l ls IH]; simpl; [done|]. by rewrite Qcsum_app, IH.
Qed.

Lemma Qcsum_fmap_seq {A} (f : A → Qc) (l : list A) :
  Qcsum ((fun i => from_option f 0 (l !! i)) <$> seq 0 (length l))
  = Qcsum (f <$> l).
Proof.
  induction l as [|x l IH] using rev_ind; [done|].
  rewrite length_app. simpl length. rewrite Nat.add_1_r, seq_S.
  rewrite !fmap_app, !Qcsum_app. simpl. rewrite <- IH. f_equal.
  - f_equal. apply list_fmap_ext. intros i j Hj.
    apply lookup_seq in Hj as [-> Hj]. simpl.
    by rewrite lookup_app_l.
  - rewrite lookup_app_r by done. by rewrite Nat.sub_diag.
Qed.

(** *** Heaps of the same shape *)

Lemma sameShape_refl h : sameShape h h.
Proof. done. Qed.

Lemma sameShape_trans h1 h2 h3 :
  sameShape h1 h2 → sameShape h2 h3 → sameShape h1 h3.
Proof. intros [A B] [C D]. split; congruence. Qed.

Lemma sameShape_lengths h h' :
  sameShape h h' →
  length (nodes h') = length (nodes h) ∧ length (edges h') = length (edges h).
Proof.
  intros [A B]. split.
  - apply (f_equal length) in A. by rewrite !length_fmap in A.
  - apply (f_equal length) in B. by rewrite !length_fmap in B.
Qed.

Lemma sameShape_node h h' (r : nref) n' :
  sameShape h h' → nodes h' !! r = Some n' →
  ∃ n, nodes h !! r = Some n ∧ ID n = ID n' ∧ Edges n = Edges n'.
Proof.
  intros [A _] Hr. apply (f_equal (fun l => l !! r)) in A.
  rewrite !list_lookup_fmap, Hr in A. simpl in A.
  destruct (nodes h !! r) as [n|]; simplify_eq/=. by exists n.
Qed.

Lemma sameShape_edge h h' (e : eref) E' :
  sameShape h h' → edges h' !! e = Some E' →
  ∃ E, edges h !! e = Some E ∧ Source E = Source E' ∧ Dest E = Dest E'.
Proof.
  intros [_ B] He. apply (f_equal (fun l => l !! e)) in B.
  rewrite !list_lookup_fmap, He in B. simpl in B.
  destruct (edges h !! e) as [E|]; simplify_eq/=. by exists E.
Qed.

Lemma sameShape_Edges h h' :
  sameShape h h' → Edges <$> nodes h' = Edges <$> nodes h.
Proof.
  intros [A _]. apply (f_equal (fmap snd)) in A.
  by rewrite <- !list_fmap_compose in A.
Qed.

Lemma structured_sameShape h h' (tm : TrafficMap) :
  structured h tm → sameShape h h' → structured h' tm.
Proof.
  intros (K & S & P & D) Hs. destruct (sameShape_lengths h h' Hs) as [Ln Le].
  split_and!.
  - intros k r Hr. simpl.
    destruct (keyed_lookup h tm k r K Hr) as (n & Hn & Hid).
    assert (is_Some (nodes h' !! r)) as [n' Hn'].
    { apply lookup_lt_is_Some. rewrite Ln. by eapply lookup_lt_Some. }
    rewrite Hn'. simpl. apply bool_decide_pack.
    destruct (sameShape_node h h' r n' Hs Hn') as (n0 & ? & ? & _). congruence.
  - intros r n' Hn'.
    destruct (sameShape_node h h' r n' Hs Hn') as (n & Hn & <- & _).
    by apply S.
  - by rewrite (sameShape_Edges h h'), Le.
  - apply list.Forall_forall. intros E' [e He]%list_elem_of_lookup.
    destruct (sameShape_edge h h' e E' Hs He) as (E & HE & <- & <-).
    rewrite Ln. rewrite list.Forall_forall in D. apply D.
    by eapply list_elem_of_lookup_2.
Qed.

Lemma sameShape_setNode h (r : nref) n n' :
  nodes h !! r = Some n → ID n' = ID n → Edges n' = Edges n →
  sameShape h (setNode h r n').
Proof.
  intros Hn Hid Hes. split; [|done]. simpl.
  rewrite list_fmap_insert, Hid, Hes. apply list_insert_id.
  by rewrite list_lookup_fmap, Hn.
Qed.

Lemma sameShape_setEdge h (e : eref) E E' :
  edges h !! e = Some E → Source E' = Source E → Dest E' = Dest E →
  sameShape h (setEdge h e E').
Proof.
  intros HE Hs Hd. split; [done|]. simpl.
  rewrite list_fmap_insert, Hs, Hd. apply list_insert_id.
  by rewrite list_lookup_fmap, HE.
Qed.

(** *** Typing and totals under an update *)

Lemma typed_setNode h (r : nref) n' :
  typed h → nodeTyped (Metadata n') → typed (setNode h r n').
Proof. intros [A B] H. split; [|done]. simpl. by apply Forall_insert. Qed.

Lemma typed_setEdge h (e : eref) E' :
  typed h → edgeTyped (EdgeMetadata E') → typed (setEdge h e E').
Proof. intros [A B] H. split; [done|]. simpl. by apply Forall_insert. Qed.

Lemma typed_node h (r : nref) n :
  typed h → nodes h !! r = Some n → nodeTyped (Metadata n).
Proof.
  intros [A _] Hn. rewrite list.Forall_forall in A. apply A.
  by eapply list_elem_of_lookup_2.
Qed.

Lemma typed_edge h (e : eref) E :
  typed h → edges h !! e = Some E → edgeTyped (EdgeMetadata E).
Proof.
  intros [_ B] HE. rewrite list.Forall_forall in B. apply B.
  by eapply list_elem_of_lookup_2.
Qed.

Lemma totalN_setNode h (r : nref) n n' k :
  nodes h !! r = Some n →
  totalN (setNode h r n') k
  = totalN h k - num (Metadata n !! k) + num (Metadata n' !! k).
Proof.
  intros Hn. unfold totalN. simpl.
  by rewrite (Qcsum_fmap_insert _ _ _ n).
Qed.

Lemma totalE_setEdge h (e : eref) E E' k :
  edges h !! e = Some E →
  totalE (setEdge h e E') k
  = totalE h k - num (EdgeMetadata E !! k) + num (EdgeMetadata E' !! k).
Proof.
  intros HE. unfold totalE. simpl.
  by rewrite (Qcsum_fmap_insert _ _ _ E).
Qed.

Lemma floatAt_insert_float md k k' x :
  floatAt md k' → floatAt (<[k := VFloat x]> md) k'.
Proof.
  unfold floatAt. destruct (decide (k = k')) as [->|Hne].
  - by rewrite lookup_insert_eq.
  - by rewrite lookup_insert_ne.
Qed.

Lemma floatAt_insert_ne md k k' v :
  k ≠ k' → floatAt md k' → floatAt (<[k := v]> md) k'.
Proof. intros Hne. unfold floatAt. by rewrite lookup_insert_ne. Qed.

Lemma nodeTyped_empty : nodeTyped ∅.
Proof. split; [|done]. by repeat constructor. Qed.

Lemma edgeTyped_empty : edgeTyped ∅.
Proof. by repeat constructor. Qed.

Lemma nodeTyped_insert_float md k x :
  nodeTyped md → k ≠ "destServices" → nodeTyped (<[k := VFloat x]> md).
Proof.
  intros [A B] Hk. split.
  - eapply list.Forall_impl; [done|]. intros k'. simpl.
    apply floatAt_insert_float.
  - by rewrite lookup_insert_ne.
Qed.

Lemma nodeTyped_insert_other md k v :
  nodeTyped md → k ∉ nodeCounterKeys → k ≠ "destServices" →
  nodeTyped (<[k := v]> md).
Proof.
  intros [A B] Hk Hd. split.
  - rewrite list.Forall_forall in A. apply list.Forall_forall.
    intros k' Hk'. apply floatAt_insert_ne; [|by apply A]. by intros ->.
  - by rewrite lookup_insert_ne.
Qed.

Lemma nodeTyped_insert_destServices md s :
  nodeTyped md → nodeTyped (<["destServices" := VStringSet s]> md).
Proof.
  intros [A B]. split.
  - rewrite list.Forall_forall in A. apply list.Forall_forall.
    intros k' Hk'. apply floatAt_insert_ne; [|by apply A].
    intros <-. revert Hk'.
    by apply (bool_decide_eq_false_1 ("destServices" ∈ nodeCounterKeys)).
  - by rewrite lookup_insert_eq.
Qed.

Lemma edgeTyped_insert_float md k x :
  edgeTyped md → edgeTyped (<[k := VFloat x]> md).
Proof.
  intros A. eapply list.Forall_impl; [done|]. intros k'. simpl.
  apply floatAt_insert_float.
Qed.

Lemma edgeTyped_insert_other md k v :
  edgeTyped md → k ∉ edgeCounterKeys → edgeTyped (<[k := v]> md).
Proof.
  intros A Hk. unfold edgeTyped in *. rewrite list.Forall_forall in A.
  apply list.Forall_forall.
  intros k' Hk'. apply floatAt_insert_ne; [|by apply A]. by intros ->.
Qed.

Lemma addToMetadataValue_ok md k v :
  floatAt md k →
  addToMetadataValue md k v = Ok (<[k := VFloat (num (md !! k) + v)]> md).
Proof.
  unfold floatAt, addToMetadataValue.
  destruct (md !! k) as [[]|]; simpl; try done. intros _.
  by rewrite Qcplus_0_l.
Qed.

Lemma num_insert (md : metadata) (k k' : string) v :
  num (<[k := v]> md !! k')
  = if decide (k = k') then num (Some v) else num (md !! k').
Proof.
  destruct (decide (k = k')) as [->|Hne].
  - by rewrite lookup_insert_eq.
  - by rewrite lookup_insert_ne.
Qed.

(** *** The steps of [addHttpTraffic] and [addTcpTraffic] *)

Lemma addToNodeMetadata_ok h (r : nref) k v :
  typed h → (r < length (nodes h))%nat → k ∈ nodeCounterKeys →
  ∃ h', addToNodeMetadata h r k v = Ok h' ∧ sameShape h h' ∧ typed h' ∧
    (∀ k', totalN h' k' = totalN h k' + (if decide (k = k') then v else 0)) ∧
    (∀ k', totalE h' k' = totalE h k').
Proof.
  intros Ht [n Hn]%lookup_lt_is_Some Hk.
  pose proof (typed_node h r n Ht Hn) as Hnt.
  assert (Hf : floatAt (Metadata n) k).
  { destruct Hnt as [A _]. rewrite list.Forall_forall in A. by apply A. }
  assert (Hd : k ≠ "destServices").
  { intros ->. revert Hk.
    by apply (bool_decide_eq_false_1 ("destServices" ∈ nodeCounterKeys)). }
  unfold addToNodeMetadata. rewrite (getNode_Ok h r n Hn). simpl.
  rewrite addToMetadataValue_ok by done. simpl.
  eexists. split_and!; [done| | | |done].
  - by eapply sameShape_setNode.
  - apply typed_setNode; [done|]. simpl. by apply nodeTyped_insert_float.
  - intros k'. rewrite (totalN_setNode h r n) by done. simpl.
    rewrite num_insert. destruct (decide (k = k')) as [->|]; simpl; ring.
Qed.

Lemma addToEdgeMetadata_ok h (e : eref) k v :
  typed h → (e < length (edges h))%nat → k ∈ edgeCounterKeys →
  ∃ h', addToEdgeMetadata h e k v = Ok h' ∧ sameShape h h' ∧ typed h' ∧
    (∀ k', totalE h' k' = totalE h k' + (if decide (k = k') then v else 0)) ∧
    (∀ k', totalN h' k' = totalN h k').
Proof.
  intros Ht [E HE]%lookup_lt_is_Some Hk.
  pose proof (typed_edge h e E Ht HE) as Het.
  assert (Hf : floatAt (EdgeMetadata E) k).
  { unfold edgeTyped in Het. rewrite list.Forall_forall in Het. by apply Het. }
  unfold addToEdgeMetadata, getEdge. rewrite HE. simpl.
  rewrite addToMetadataValue_ok by done. simpl.
  eexists. split_and!; [done| | | |done].
  - by eapply sameShape_setEdge.
  - apply typed_setEdge; [done|]. simpl. by apply edgeTyped_insert_float.
  - intros k'. rewrite (totalE_setEdge h e E) by done. simpl.
    rewrite num_insert. destruct (decide (k = k')) as [->|]; simpl; ring.
Qed.

Lemma addToDestServices_ok md destService :
  nodeTyped md →
  ∃ md', addToDestServices md destService = Ok md' ∧ nodeTyped md' ∧
    ∀ k, num (md' !! k) = num (md !! k).
Proof.
  intros Ht. pose proof Ht as [_ B]. unfold addToDestServices.
  destruct (md !! "destServices") as [[]|] eqn:E; try done; simpl.
  - eexists. split_and!; [done|by apply nodeTyped_insert_destServices|].
    intros k. rewrite num_insert. case_decide; [subst; by rewrite E|done].
  - eexists. split_and!; [done|by apply nodeTyped_insert_destServices|].
    intros k. rewrite num_insert. case_decide; [subst; by rewrite E|done].
Qed.

Lemma destServices_step h (dest : nref) destSvcName :
  typed h → (dest < length (nodes h))%nat →
  ∃ d md, getNode h dest = Ok d ∧
    addToDestServices (Metadata d) destSvcName = Ok md ∧
    sameShape h (setNode h dest (withMetadata d md)) ∧
    typed (setNode h dest (withMetadata d md)) ∧
    (∀ k, totalN (setNode h dest (withMetadata d md)) k = totalN h k) ∧
    (∀ k, totalE (setNode h dest (withMetadata d md)) k = totalE h k).
Proof.
  intros Ht [d Hd]%lookup_lt_is_Some.
  destruct (addToDestServices_ok (Metadata d) destSvcName)
    as (md & E & Hmd & Hnum); [by eapply typed_node|].
  exists d, md. split_and!; try done.
  - by apply getNode_Ok.
  - by eapply sameShape_setNode.
  - by apply typed_setNode.
  - intros k. rewrite (totalN_setNode h dest d) by done. simpl.
    rewrite Hnum. ring.
Qed.

Lemma handleMisconfiguredLabels_ok h (node : nref) app version rate o :
  typed h → (node < length (nodes h))%nat →
  ∃ h', handleMisconfiguredLabels h node app version rate o = Ok h' ∧
    sameShape h h' ∧ typed h' ∧
    (∀ k, k ≠ "isMisconfigured" → totalN h' k = totalN h k) ∧
    (∀ k, totalE h' k = totalE h k).
Proof.
  intros Ht [n Hn]%lookup_lt_is_Some.
  pose proof (typed_node h node n Ht Hn) as Hnt.
  assert (Hsame : ∃ h', Ok h = Ok h' ∧ sameShape h h' ∧ typed h' ∧
            (∀ k, k ≠ "isMisconfigured" → totalN h' k = totalN h k) ∧
            (∀ k, totalE h' k = totalE h k)).
  { exists h. by split_and!. }
  unfold handleMisconfiguredLabels. rewrite (getNode_Ok h node n Hn). simpl.
  destruct (_ || _); [|done]. destruct (bool_decide (0 < _)%nat); [|done].
  set (md := <["isMisconfigured" := _]> (Metadata n)).
  assert (Hmd : nodeTyped md).
  { apply nodeTyped_insert_other; [done| |done].
    by apply (bool_decide_eq_false_1 ("isMisconfigured" ∈ nodeCounterKeys)). }
  eexists. split_and!; [done| | | |done].
  - eapply sameShape_setNode; [done| |]; by destruct (bool_decide (0 < rate)).
  - apply typed_setNode; [done|]. by destruct (bool_decide (0 < rate)).
  - intros k Hk. rewrite (totalN_setNode h node n) by done.
    assert (num (Metadata (if bool_decide (0 < rate)
                then withAppVersion (withMetadata n md) app version
                else withMetadata n md) !! k) = num (Metadata n !! k)) as ->.
    { destruct (bool_decide (0 < rate)); simpl; unfold md;
        by rewrite lookup_insert_ne. }
    ring.
Qed.

Lemma structured_edge_lt h (tm : TrafficMap) (s : nref) S (e : eref) :
  structured h tm → nodes h !! s = Some S → e ∈ Edges S →
  (e < length (edges h))%nat.
Proof.
  intros (_ & _ & P & _) HS He.
  assert (Hin : e ∈ concat (Edges <$> nodes h)).
  { apply list_elem_of_In, in_concat. exists (Edges S).
    split; apply list_elem_of_In; [|done].
    apply list_elem_of_fmap. exists S. split; [done|].
    by eapply list_elem_of_lookup_2. }
  rewrite P in Hin. apply elem_of_seq in Hin. lia.
Qed.

Lemma findEdge_ok h (tm : TrafficMap) es destId protocolKey protocol :
  structured h tm → Forall (fun e => (e < length (edges h))%nat) es →
  ∃ found, findEdge h es destId protocolKey protocol = Ok found ∧
    ∀ e, found = Some e → (e < length (edges h))%nat.
Proof.
  intros Hs Hes. induction Hes as [|e es He Hes IH]; simpl.
  - by exists None.
  - apply lookup_lt_is_Some in He as [E HE].
    assert (is_Some (nodes h !! Dest E)) as [D HD].
    { apply lookup_lt_is_Some. destruct Hs as (_ & _ & _ & F).
      rewrite list.Forall_forall in F.
      by apply (F E); eapply list_elem_of_lookup_2. }
    unfold getEdge, destID. rewrite HE. simpl.
    rewrite (getNode_Ok h (Dest E) D HD). simpl.
    destruct (_ && _); [|done].
    exists (Some e). split; [done|]. intros ? [= <-]. by eapply lookup_lt_Some.
Qed.

Lemma addNode_ok Id h (tm : TrafficMap) namespace workload app version
    service o :
  structured h tm → typed h →
  ∃ h' tm' r found,
    addNode Id h tm namespace workload app version service o
    = (h', tm', r, found) ∧
    structured h' tm' ∧ typed h' ∧ (r < length (nodes h'))%nat ∧
    (length (nodes h) ≤ length (nodes h'))%nat ∧ edges h' = edges h ∧
    (∀ k, totalN h' k = totalN h k) ∧ (∀ k, totalE h' k = totalE h k).
Proof.
  intros Hs Ht. unfold addNode.
  destruct (Id _ _ _ _ _ _) as [id nodeType].
  destruct (tm !! id) as [node|] eqn:Hid.
  - exists h, tm, node, true. split_and!; try done.
    destruct Hs as (K & _).
    destruct (keyed_lookup h tm id node K Hid) as (n & Hn & _).
    by eapply lookup_lt_Some.
  - simpl. eexists _, _, _, _. split; [done|].
    destruct Hs as (K & S & P & D). destruct Ht as [Tn Te].
    split_and!; simpl.
    + (* structured *)
      split_and!; simpl.
      * apply map_Forall_insert_2.
        -- simpl. rewrite lookup_app_r by done. rewrite Nat.sub_diag. simpl.
           by apply bool_decide_pack.
        -- intros k r Hr. simpl.
           destruct (keyed_lookup h tm k r K Hr) as (n & Hn & Hnid).
           rewrite lookup_app_l by by eapply lookup_lt_Some.
           rewrite Hn. simpl. by apply bool_decide_pack.
      * intros r n Hn. apply lookup_app_Some in Hn as [Hn|[Hge Hn]].
        -- pose proof (S r n Hn) as Hr. rewrite lookup_insert_ne; [done|].
           intros Heq. rewrite Heq in Hid. congruence.
        -- apply list_lookup_singleton_Some in Hn as [Hz <-]. simpl.
           rewrite lookup_insert_eq. f_equal. lia.
      * rewrite fmap_app, concat_app. simpl. by rewrite app_nil_r.
      * rewrite length_app. eapply list.Forall_impl; [exact D|].
        intros E HE. simpl in *. lia.
    + split; [|done]. simpl. apply list.Forall_app. split; [done|].
      constructor; [|done]. apply nodeTyped_empty.
    + rewrite length_app. simpl. lia.
    + rewrite length_app. lia.
    + done.
    + intros k. unfold totalN. simpl. rewrite fmap_app, Qcsum_app. simpl.
      rewrite lookup_empty. simpl. ring.
    + done.
Qed.

Lemma concat_insert_snoc {A} (ls : list (list A)) (i : nat) l x :
  ls !! i = Some l → concat (<[i := l ++ [x]]> ls) ≡ₚ concat ls ++ [x].
Proof.
  revert i. induction ls as [|l' ls IH]; intros [|i] H; simplify_eq/=.
  - rewrite <- !app_assoc. apply Permutation_app_head, Permutation_app_comm.
  - rewrite (IH i H). by rewrite app_assoc.
Qed.

Lemma AddEdge_ok h (tm : TrafficMap) (s dest : nref) :
  structured h tm → typed h →
  (s < length (nodes h))%nat → (dest < length (nodes h))%nat →
  ∃ h1, AddEdge h s dest = Ok (h1, length (edges h)) ∧
    structured h1 tm ∧ typed h1 ∧
    length (nodes h1) = length (nodes h) ∧
    length (edges h1) = Datatypes.S (length (edges h)) ∧
    (∀ k, totalN h1 k = totalN h k) ∧ (∀ k, totalE h1 k = totalE h k).
Proof.
  intros (K & S & P & D) [Tn Te] [n Hn]%lookup_lt_is_Some Hd.
  assert (Hs : (s < length (nodes h))%nat) by by eapply lookup_lt_Some.
  unfold AddEdge. rewrite (getNode_Ok h s n Hn). simpl.
  eexists. split; [done|]. split_and!; simpl.
  - split_and!; simpl.
    + intros k r Hr. simpl.
      destruct (keyed_lookup h tm k r K Hr) as (m & Hm & Hmid).
      destruct (decide (r = s)) as [->|Hne].
      * rewrite list_lookup_insert_eq by done. simpl.
        apply bool_decide_pack. congruence.
      * rewrite list_lookup_insert_ne by done. rewrite Hm. simpl.
        by apply bool_decide_pack.
    + intros r m Hm. destruct (decide (r = s)) as [->|Hne].
      * rewrite list_lookup_insert_eq in Hm by done. simplify_eq/=.
        by apply S.
      * rewrite list_lookup_insert_ne in Hm by done. by apply S.
    + rewrite list_fmap_insert. simpl.
      rewrite (concat_insert_snoc _ _ (Edges n))
        by by rewrite list_lookup_fmap, Hn.
      rewrite P, length_app. simpl. rewrite Nat.add_1_r, seq_S. done.
    + rewrite length_insert. apply list.Forall_app. split; [done|].
      by constructor.
  - split; simpl.
    + apply Forall_insert; [done|]. simpl.
      rewrite list.Forall_forall in Tn. apply Tn.
      by eapply list_elem_of_lookup_2.
    + apply list.Forall_app. split; [done|]. constructor; [|done].
      apply edgeTyped_empty.
  - by rewrite length_insert.
  - rewrite length_app. simpl. lia.
  - intros k. unfold totalN. simpl.
    rewrite (Qcsum_fmap_insert _ _ _ n) by done. simpl. ring.
  - intros k. unfold totalE. simpl. rewrite fmap_app, Qcsum_app. simpl.
    rewrite lookup_empty. simpl. ring.
Qed.

Lemma setEdgeMetadata_ok h (e : eref) k v :
  typed h → (e < length (edges h))%nat → k ∉ edgeCounterKeys →
  ∃ h', setEdgeMetadata h e k v = Ok h' ∧ sameShape h h' ∧ typed h' ∧
    (∀ k', totalN h' k' = totalN h k') ∧
    (∀ k', k' ≠ k → totalE h' k' = totalE h k').
Proof.
  intros Ht [E HE]%lookup_lt_is_Some Hk.
  unfold setEdgeMetadata, getEdge. rewrite HE. simpl.
  eexists. split_and!; [done| | |done|].
  - by eapply sameShape_setEdge.
  - apply typed_setEdge; [done|]. simpl.
    apply edgeTyped_insert_other; [|done]. by eapply typed_edge.
  - intros k' Hk'. rewrite (totalE_setEdge h e E) by done. simpl.
    rewrite lookup_insert_ne by done. ring.
Qed.

Lemma newEdge_ok h (tm : TrafficMap) (source dest : nref) protocol :
  structured h tm → typed h →
  (source < length (nodes h))%nat → (dest < length (nodes h))%nat →
  ∃ h' e,
    ('(h, e) ← AddEdge h source dest;
     h ← setEdgeMetadata h e "protocol" (VString protocol);
     Ok (h, e)) = Ok (h', e) ∧
    structured h' tm ∧ typed h' ∧
    length (nodes h') = length (nodes h) ∧
    (e < length (edges h'))%nat ∧
    (∀ k, totalN h' k = totalN h k) ∧
    (∀ k, k ≠ "protocol" → totalE h' k = totalE h k).
Proof.
  intros Hs Ht Hsrc Hdst.
  destruct (AddEdge_ok h tm source dest Hs Ht Hsrc Hdst)
    as (h1 & E1 & S1 & T1 & Ln1 & Le1 & N1 & Ed1).
  destruct (setEdgeMetadata_ok h1 (length (edges h)) "protocol"
              (VString protocol) T1)
    as (h2 & E2 & Sh2 & T2 & N2 & Ed2).
  { lia. }
  { by apply (bool_decide_eq_false_1 ("protocol" ∈ edgeCounterKeys)). }
  destruct (sameShape_lengths h1 h2 Sh2) as [Ln2 Le2].
  exists h2, (length (edges h)). rewrite E1. simpl. rewrite E2. simpl.
  split_and!; try done.
  - by eapply structured_sameShape.
  - congruence.
  - lia.
  - intros k. by rewrite N2, N1.
  - intros k Hk. by rewrite Ed2, Ed1.
Qed.

Lemma ok_bind {A B} (a : A) (k : A → result B) : (Ok a ≫= k) = k a.
Proof. done. Qed.

Lemma optional_misconfigured_ok (found : bool) h (node : nref) app version
    rate o :
  typed h → (node < length (nodes h))%nat →
  ∃ h', (if found then handleMisconfiguredLabels h node app version rate o
         else Ok h) = Ok h' ∧
    sameShape h h' ∧ typed h' ∧
    (∀ k, k ≠ "isMisconfigured" → totalN h' k = totalN h k) ∧
    (∀ k, totalE h' k = totalE h k).
Proof.
  intros Ht Hn. destruct found.
  - by apply handleMisconfiguredLabels_ok.
  - exists h. by split_and!.
Qed.

Lemma bucket_ok h (dest : nref) (edge : eref) kn ke val :
  typed h → (dest < length (nodes h))%nat → (edge < length (edges h))%nat →
  kn ∈ nodeCounterKeys → ke ∈ edgeCounterKeys →
  ∃ h', (h ← addToNodeMetadata h dest kn val;
         addToEdgeMetadata h edge ke val) = Ok h' ∧
    sameShape h h' ∧ typed h' ∧
    (∀ k, k ≠ kn → totalN h' k = totalN h k) ∧
    (∀ k, k ≠ ke → totalE h' k = totalE h k).
Proof.
  intros Ht Hd He Hkn Hke.
  destruct (addToNodeMetadata_ok h dest kn val Ht Hd Hkn)
    as (h1 & E1 & S1 & T1 & N1 & Ed1).
  destruct (sameShape_lengths h h1 S1) as [Ln1 Le1].
  destruct (addToEdgeMetadata_ok h1 edge ke val T1) as (h2 & E2 & S2 & T2 & Ed2 & N2);
    [lia|done|].
  exists h2. rewrite E1, ok_bind, E2. split_and!; try done.
  - by eapply sameShape_trans.
  - intros k Hk. rewrite N2, N1. rewrite decide_False by done. ring.
  - intros k Hk. rewrite Ed2, Ed1. rewrite decide_False by done. ring.
Qed.

Lemma buckets_ok h (dest : nref) (edge : eref) code val :
  typed h → (dest < length (nodes h))%nat → (edge < length (edges h))%nat →
  ∃ h', (if String.prefix "3" code then
           h ← addToNodeMetadata h dest "httpIn3xx" val;
           addToEdgeMetadata h edge "http3xx" val
         else if String.prefix "4" code then
           h ← addToNodeMetadata h dest "httpIn4xx" val;
           addToEdgeMetadata h edge "http4xx" val
         else if String.prefix "5" code then
           h ← addToNodeMetadata h dest "httpIn5xx" val;
           addToEdgeMetadata h edge "http5xx" val
         else Ok h) = Ok h' ∧
    sameShape h h' ∧ typed h' ∧
    totalN h' "httpOut" = totalN h "httpOut" ∧
    totalN h' "httpIn" = totalN h "httpIn" ∧
    totalE h' "http" = totalE h "http".
Proof.
  intros Ht Hd He.
  assert (Hb : ∀ kn ke, kn ∈ nodeCounterKeys → ke ∈ edgeCounterKeys →
            kn ≠ "httpOut" → kn ≠ "httpIn" → ke ≠ "http" →
            ∃ h', (h ← addToNodeMetadata h dest kn val;
                   addToEdgeMetadata h edge ke val) = Ok h' ∧
              sameShape h h' ∧ typed h' ∧
              totalN h' "httpOut" = totalN h "httpOut" ∧
              totalN h' "httpIn" = totalN h "httpIn" ∧
              totalE h' "http" = totalE h "http").
  { intros kn ke Hkn Hke H1 H2 H3.
    destruct (bucket_ok h dest edge kn ke val Ht Hd He Hkn Hke)
      as (h' & E & S & T & N & Ed).
    exists h'. split_and!; try done; [by apply N|by apply N|by apply Ed]. }
  destruct (String.prefix "3" code);
    [apply Hb; try done; by apply (bool_decide_unpack _)|].
  destruct (String.prefix "4" code);
    [apply Hb; try done; by apply (bool_decide_unpack _)|].
  destruct (String.prefix "5" code);
    [apply Hb; try done; by apply (bool_decide_unpack _)|].
  exists h. by split_and!.
Qed.

Lemma edge_step_ok h (tm : TrafficMap) (source dest : nref) protocol
    (found : option eref) :
  structured h tm → typed h →
  (source < length (nodes h))%nat → (dest < length (nodes h))%nat →
  (∀ e, found = Some e → (e < length (edges h))%nat) →
  ∃ h' edge,
    match found with
    | Some e => Ok (h, e)
    | None =>
        '(h, e) ← AddEdge h source dest;
        h ← setEdgeMetadata h e "protocol" (VString protocol);
        Ok (h, e)
    end = Ok (h', edge) ∧
    structured h' tm ∧ typed h' ∧
    length (nodes h') = length (nodes h) ∧
    (edge < length (edges h'))%nat ∧
    (∀ k, totalN h' k = totalN h k) ∧
    (∀ k, k ≠ "protocol" → totalE h' k = totalE h k).
Proof.
  intros Hs Ht Hsrc Hdst Hf. destruct found as [e|].
  - exists h, e. split_and!; try done. by apply Hf.
  - by apply newEdge_ok.
Qed.

(** What the common tail of [addHttpTraffic] and [addTcpTraffic] does
    to a well-formed state: the two label reconciliations and the three
    counters. *)
Lemma counters_ok h (tm : TrafficMap) (source dest : nref) (edge : eref)
    (sourceFound destFound : bool) sourceApp sourceVer destApp destVer val o
    kOut kIn kEdge :
  structured h tm → typed h →
  (source < length (nodes h))%nat → (dest < length (nodes h))%nat →
  (edge < length (edges h))%nat →
  kOut ∈ nodeCounterKeys → kIn ∈ nodeCounterKeys → kEdge ∈ edgeCounterKeys →
  kOut ≠ kIn →
  ∃ h',
    (∀ B (K : Heap → result B),
       (h ← (if sourceFound
             then handleMisconfiguredLabels h source sourceApp sourceVer val o
             else Ok h);
        h ← (if destFound
             then handleMisconfiguredLabels h dest destApp destVer val o
             else Ok h);
        h ← addToNodeMetadata h source kOut val;
        h ← addToNodeMetadata h dest kIn val;
        h ← addToEdgeMetadata h edge kEdge val;
        K h) = K h') ∧
    sameShape h h' ∧ typed h' ∧
    (∀ k, k ≠ "isMisconfigured" →
       totalN h' k
       = totalN h k + (if decide (kOut = k) then val else 0)
         + (if decide (kIn = k) then val else 0)) ∧
    (∀ k, totalE h' k
          = totalE h k + (if decide (kEdge = k) then val else 0)).
Proof.
  intros Hs Ht Hsrc Hdst Hedge HkOut HkIn HkEdge Hne.
  destruct (optional_misconfigured_ok sourceFound h source sourceApp
              sourceVer val o Ht Hsrc) as (h1 & E1 & S1 & T1 & N1 & Ed1).
  destruct (sameShape_lengths h h1 S1) as [Ln1 Le1].
  destruct (optional_misconfigured_ok destFound h1 dest destApp destVer val o
              T1) as (h2 & E2 & S2 & T2 & N2 & Ed2); [lia|].
  destruct (sameShape_lengths h1 h2 S2) as [Ln2 Le2].
  destruct (addToNodeMetadata_ok h2 source kOut val T2)
    as (h3 & E3 & S3 & T3 & N3 & Ed3); [lia|done|].
  destruct (sameShape_lengths h2 h3 S3) as [Ln3 Le3].
  destruct (addToNodeMetadata_ok h3 dest kIn val T3)
    as (h4 & E4 & S4 & T4 & N4 & Ed4); [lia|done|].
  destruct (sameShape_lengths h3 h4 S4) as [Ln4 Le4].
  destruct (addToEdgeMetadata_ok h4 edge kEdge val T4)
    as (h5 & E5 & S5 & T5 & Ed5 & N5); [lia|done|].
  exists h5. split_and!; try done.
  - intros B K.
    by rewrite E1, ok_bind, E2, ok_bind, E3, ok_bind, E4, ok_bind, E5, ok_bind.
  - repeat (eapply sameShape_trans; [eassumption|]). apply sameShape_refl.
  - intros k Hk. rewrite N5, N4, N3, N2, N1 by done. ring.
  - intros k. rewrite Ed5, Ed4, Ed3, Ed2, Ed1. ring.
Qed.

Lemma addHttpTraffic_ok Id h (tm : TrafficMap) val code
    sourceWlNs sourceWl sourceApp sourceVer sourceSvcName
    destSvcNs destWl destApp destVer destSvcName o :
  structured h tm → typed h →
  ∃ h' tm',
    addHttpTraffic Id h tm val code sourceWlNs sourceWl sourceApp sourceVer
      sourceSvcName destSvcNs destWl destApp destVer destSvcName o
    = Ok (h', tm') ∧
    structured h' tm' ∧ typed h' ∧
    totalN h' "httpOut" = totalN h "httpOut" + val ∧
    totalN h' "httpIn" = totalN h "httpIn" + val ∧
    totalE h' "http" = totalE h "http" + val.
Proof.
  intros Hs Ht. unfold addHttpTraffic.
  destruct (addNode_ok Id h tm sourceWlNs sourceWl sourceApp sourceVer
              sourceSvcName o Hs Ht)
    as (h1 & tm1 & source & sf & E1 & S1 & T1 & R1 & L1 & Ed1 & N1 & Et1).
  rewrite E1.
  destruct (addNode_ok Id h1 tm1 destSvcNs destWl destApp destVer
              destSvcName o S1 T1)
    as (h2 & tm2 & dest & df & E2 & S2 & T2 & R2 & L2 & Ed2 & N2 & Et2).
  rewrite E2.
  assert (Hsrc2 : (source < length (nodes h2))%nat) by lia.
  destruct (destServices_step h2 dest destSvcName T2 R2)
    as (d & md & Ed & Emd & Sh3 & T3 & N3 & Et3).
  rewrite Ed, ok_bind, Emd, ok_bind.
  set (h3 := setNode h2 dest (withMetadata d md)) in *.
  destruct (sameShape_lengths h2 h3 Sh3) as [Ln3 Le3].
  pose proof (structured_sameShape h2 h3 tm2 S2 Sh3) as S3.
  assert (is_Some (nodes h3 !! source)) as [s Hsn]
    by (apply lookup_lt_is_Some; lia).
  assert (is_Some (nodes h3 !! dest)) as [d3 Hdn]
    by (apply lookup_lt_is_Some; lia).
  rewrite (getNode_Ok h3 source s Hsn), ok_bind.
  rewrite (getNode_Ok h3 dest d3 Hdn), ok_bind.
  destruct (findEdge_ok h3 tm2 (Edges s) (ID d3) "protocol" "http" S3)
    as (found & Ef & Hfound).
  { apply list.Forall_forall. intros e He.
    by apply (structured_edge_lt h3 tm2 source s). }
  rewrite Ef, ok_bind.
  destruct (edge_step_ok h3 tm2 source dest "http" found S3 T3)
    as (h4 & edge & E4 & S4 & T4 & Ln4 & He4 & N4 & Et4); [lia|lia|done|].
  rewrite E4, ok_bind.
  destruct (counters_ok h4 tm2 source dest edge sf df sourceApp sourceVer
              destApp destVer val o "httpOut" "httpIn" "http" S4 T4)
    as (h5 & E5 & Sh5 & T5 & N5 & Et5); try done; try lia;
    try (by apply (bool_decide_unpack _)).
  destruct (sameShape_lengths h4 h5 Sh5) as [Ln5 Le5].
  destruct (buckets_ok h5 dest edge code val T5)
    as (h6 & E6 & Sh6 & T6 & No6 & Ni6 & Et6); [lia|lia|].
  exists h6, tm2. split_and!; try done.
  - by rewrite E5, E6, ok_bind.
  - eapply structured_sameShape; [|exact Sh6].
    by eapply structured_sameShape.
  - rewrite No6, N5, N4, N3, N2, N1 by done. simpl. ring.
  - rewrite Ni6, N5, N4, N3, N2, N1 by done. simpl. ring.
  - rewrite Et6, Et5, Et4, Et3, Et2, Et1 by done. simpl. ring.
Qed.

Lemma addTcpTraffic_ok Id h (tm : TrafficMap) val
    sourceWlNs sourceWl sourceApp sourceVer sourceSvcName
    destSvcNs destWl destApp destVer destSvcName o :
  structured h tm → typed h →
  ∃ h' tm',
    addTcpTraffic Id h tm val sourceWlNs sourceWl sourceApp sourceVer
      sourceSvcName destSvcNs destWl destApp destVer destSvcName o
    = Ok (h', tm') ∧
    structured h' tm' ∧ typed h' ∧
    totalN h' "httpOut" = totalN h "httpOut" ∧
    totalN h' "httpIn" = totalN h "httpIn" ∧
    totalE h' "http" = totalE h "http".
Proof.
  intros Hs Ht. unfold addTcpTraffic.
  destruct (addNode_ok Id h tm sourceWlNs sourceWl sourceApp sourceVer
              sourceSvcName o Hs Ht)
    as (h1 & tm1 & source & sf & E1 & S1 & T1 & R1 & L1 & Ed1 & N1 & Et1).
  rewrite E1.
  destruct (addNode_ok Id h1 tm1 destSvcNs destWl destApp destVer
              destSvcName o S1 T1)
    as (h2 & tm2 & dest & df & E2 & S2 & T2 & R2 & L2 & Ed2 & N2 & Et2).
  rewrite E2.
  assert (Hsrc2 : (source < length (nodes h2))%nat) by lia.
  destruct (destServices_step h2 dest destSvcName T2 R2)
    as (d & md & Ed & Emd & Sh3 & T3 & N3 & Et3).
  rewrite Ed, ok_bind, Emd, ok_bind.
  set (h3 := setNode h2 dest (withMetadata d md)) in *.
  destruct (sameShape_lengths h2 h3 Sh3) as [Ln3 Le3].
  pose proof (structured_sameShape h2 h3 tm2 S2 Sh3) as S3.
  assert (is_Some (nodes h3 !! source)) as [s Hsn]
    by (apply lookup_lt_is_Some; lia).
  assert (is_Some (nodes h3 !! dest)) as [d3 Hdn]
    by (apply lookup_lt_is_Some; lia).
  rewrite (getNode_Ok h3 source s Hsn), ok_bind.
  rewrite (getNode_Ok h3 dest d3 Hdn), ok_bind.
  destruct (findEdge_ok h3 tm2 (Edges s) (ID d3) "procotol" "tcp" S3)
    as (found & Ef & Hfound).
  { apply list.Forall_forall. intros e He.
    by apply (structured_edge_lt h3 tm2 source s). }
  rewrite Ef, ok_bind.
  destruct (edge_step_ok h3 tm2 source dest "tcp" found S3 T3)
    as (h4 & edge & E4 & S4 & T4 & Ln4 & He4 & N4 & Et4); [lia|lia|done|].
  rewrite E4, ok_bind.
  destruct (counters_ok h4 tm2 source dest edge sf df sourceApp sourceVer
              destApp destVer val o "tcpOut" "tcpIn" "tcp" S4 T4)
    as (h5 & E5 & Sh5 & T5 & N5 & Et5); try done; try lia;
    try (by apply (bool_decide_unpack _)).
  exists h5, tm2. split_and!; try done.
  - by eapply structured_sameShape.
  - rewrite N5, N4, N3, N2, N1 by done. simpl. ring.
  - rewrite N5, N4, N3, N2, N1 by done. simpl. ring.
  - rewrite Et5, Et4, Et3, Et2, Et1 by done. simpl. ring.
Qed.

(** Each sample keeps the state well formed and the counters
    conserved. *)
Lemma populateHttpSample_ok Id o h (tm : TrafficMap) (s : Sample) :
  structured h tm → typed h → conserved h →
  ∃ h' tm', populateHttpSample Id o (h, tm) s = Ok (h', tm') ∧
    structured h' tm' ∧ typed h' ∧ conserved h'.
Proof.
  intros Hs Ht [Co Ci].
  assert (Hskip : ∃ h' tm', Ok (h, tm) = Ok (h', tm') ∧
            structured h' tm' ∧ typed h' ∧ conserved h').
  { exists h, tm. by split_and!. }
  assert (Hone : ∀ a b c d e f g i j k,
            ∃ h' tm', addHttpTraffic Id h tm (Value s) "200" a b c d e f g i j k o
                      = Ok (h', tm') ∧
              structured h' tm' ∧ typed h' ∧ conserved h').
  { intros. destruct (addHttpTraffic_ok Id h tm (Value s) "200"
                        a b c d e f g i j k o Hs Ht)
      as (h' & tm' & E & S' & T' & No & Ni & Ne).
    exists h', tm'. split_and!; try done. split; congruence. }
  unfold populateHttpSample.
  repeat (match goal with
          | |- context [match ?x !! ?k with _ => _ end] =>
              destruct (x !! k); [|exact Hskip]
          end).
  destruct (InjectServiceNodes o); [|apply Hone].
  destruct (Id _ _ _ _ _ _) as [? destNodeType].
  case_bool_decide; [|apply Hone].
  destruct (addHttpTraffic_ok Id h tm (Value s) "200" s0 s1 "Unknown"
              "Unknown" "" s2 "" "" "" s3 o Hs Ht)
    as (h1 & tm1 & E1 & S1 & T1 & No1 & Ni1 & Ne1).
  rewrite E1, ok_bind.
  destruct (addHttpTraffic_ok Id h1 tm1 (Value s) "200" s2 "" "" "" s3 s2 s4
              "Unknown" "Unknown" s3 o S1 T1)
    as (h2 & tm2 & E2 & S2 & T2 & No2 & Ni2 & Ne2).
  exists h2, tm2. split_and!; try done. split; congruence.
Qed.

Lemma populateTcpSample_ok Id IsOK o h (tm : TrafficMap) (s : Sample) :
  structured h tm → typed h → conserved h →
  ∃ h' tm', populateTcpSample Id IsOK o (h, tm) s = Ok (h', tm') ∧
    structured h' tm' ∧ typed h' ∧ conserved h'.
Proof.
  intros Hs Ht [Co Ci].
  assert (Hskip : ∃ h' tm', Ok (h, tm) = Ok (h', tm') ∧
            structured h' tm' ∧ typed h' ∧ conserved h').
  { exists h, tm. by split_and!. }
  assert (Hone : ∀ a b c d e f g i j k,
            ∃ h' tm', addTcpTraffic Id h tm (Value s) a b c d e f g i j k o
                      = Ok (h', tm') ∧
              structured h' tm' ∧ typed h' ∧ conserved h').
  { intros. destruct (addTcpTraffic_ok Id h tm (Value s)
                        a b c d e f g i j k o Hs Ht)
      as (h' & tm' & E & S' & T' & No & Ni & Ne).
    exists h', tm'. split_and!; try done. split; congruence. }
  unfold populateTcpSample.
  repeat (match goal with
          | |- context [match ?x with Some _ => _ | None => _ end] =>
              destruct x; [|exact Hskip]
          end).
  destruct (InjectServiceNodes o); [|apply Hone].
  destruct (Id _ _ _ _ _ _) as [? destNodeType].
  destruct (_ && _); [|apply Hone].
  edestruct (addTcpTraffic_ok Id h tm)
    as (h1 & tm1 & E1 & S1 & T1 & No1 & Ni1 & Ne1); [exact Hs|exact Ht|].
  rewrite E1, ok_bind.
  edestruct (addTcpTraffic_ok Id h1 tm1)
    as (h2 & tm2 & E2 & S2 & T2 & No2 & Ni2 & Ne2); [exact S1|exact T1|].
  exists h2, tm2. split_and!; [exact E2|done|done|]. split; congruence.
Qed.

Lemma forM_invariant {A S} (P : S → Prop) (body : S → A → result S) xs :
  (∀ s x, P s → ∃ s', body s x = Ok s' ∧ P s') →
  ∀ s, P s → ∃ s', forM body xs s = Ok s' ∧ P s'.
Proof.
  intros Hbody. induction xs as [|x xs IH]; intros s Hs.
  - by exists s.
  - destruct (Hbody s x Hs) as (s1 & E1 & H1).
    destruct (IH s1 H1) as (s' & E' & H').
    exists s'. by rewrite forM_cons, E1.
Qed.

Lemma builderInv_empty : builderInv (emptyHeap, ∅).
Proof.
  split_and!; simpl; [|by split|by split].
  by split_and!.
Qed.

Lemma populateTrafficMapHttp_ok Id h tm vector o :
  builderInv (h, tm) →
  ∃ st, populateTrafficMapHttp Id h tm vector o = Ok st ∧ builderInv st.
Proof.
  apply forM_invariant. intros [h1 tm1] s (Hs & Ht & Hc).
  destruct (populateHttpSample_ok Id o h1 tm1 s Hs Ht Hc)
    as (h' & tm' & E & ? & ? & ?).
  by exists (h', tm').
Qed.

Lemma populateTrafficMapTcp_ok Id IsOK h tm vector o :
  builderInv (h, tm) →
  ∃ st, populateTrafficMapTcp Id IsOK h tm vector o = Ok st ∧ builderInv st.
Proof.
  apply forM_invariant. intros [h1 tm1] s (Hs & Ht & Hc).
  destruct (populateTcpSample_ok Id IsOK o h1 tm1 s Hs Ht Hc)
    as (h' & tm' & E & ? & ? & ?).
  by exists (h', tm').
Qed.

Lemma buildNamespaceTrafficMap_ok Id IsOK httpVectors tcpVectors o :
  ∃ st, buildNamespaceTrafficMap Id IsOK httpVectors tcpVectors o = Ok st ∧
        builderInv st.
Proof.
  unfold buildNamespaceTrafficMap.
  destruct (forM_invariant builderInv
              (fun '(h, tm) v => populateTrafficMapHttp Id h tm v o)
              httpVectors) with (s := (emptyHeap, (∅ : TrafficMap)))
    as (st1 & E1 & H1).
  { intros [h tm] v. apply populateTrafficMapHttp_ok. }
  { apply builderInv_empty. }
  rewrite E1, ok_bind.
  apply forM_invariant; [|done].
  intros [h tm] v. apply populateTrafficMapTcp_ok.
Qed.

(** *** From the objects of the heap to the entries of the map *)

Lemma structured_values h (tm : TrafficMap) :
  structured h tm → (map_to_list tm).*2 ≡ₚ seq 0 (length (nodes h)).
Proof.
  intros (K & S & _ & _). apply NoDup_Permutation.
  - apply NoDup_fmap_2_strong; [|apply NoDup_map_to_list].
    intros [k1 r1] [k2 r2] H1%elem_of_map_to_list H2%elem_of_map_to_list Heq.
    simpl in Heq. subst r2.
    destruct (keyed_lookup h tm k1 r1 K H1) as (n1 & Hn1 & <-).
    destruct (keyed_lookup h tm k2 r1 K H2) as (n2 & Hn2 & <-).
    congruence.
  - apply NoDup_seq.
  - intros r. rewrite elem_of_seq, list_elem_of_fmap. split.
    + intros ([k r'] & -> & Hr%elem_of_map_to_list). simpl.
      destruct (keyed_lookup h tm k r' K Hr) as (n & Hn & _).
      apply lookup_lt_Some in Hn. lia.
    + intros [_ Hr]. simpl in Hr. apply lookup_lt_is_Some in Hr as [n Hn].
      exists (ID n, r). split; [done|]. apply elem_of_map_to_list.
      by apply S.
Qed.

Lemma sumNodes_total h (tm : TrafficMap) k :
  structured h tm → sumNodes h tm k = totalN h k.
Proof.
  intros Hs. unfold sumNodes, totalN.
  rewrite (Qcsum_Permutation _ (nodeCounter h k <$> seq 0 (length (nodes h))))
    by (apply fmap_Permutation; by apply structured_values).
  apply Qcsum_fmap_seq.
Qed.

Lemma concat_fmap_fmap {A B} (f : A → B) (ls : list (list A)) :
  concat ((fun l : list A => f <$> l) <$> ls) = f <$> concat ls.
Proof.
  induction ls as [|l ls IH]; simpl; [done|]. rewrite fmap_app. f_equal.
  exact IH.
Qed.

Lemma sumEdges_total h (tm : TrafficMap) k :
  structured h tm → sumEdges h tm k = totalE h k.
Proof.
  intros Hs. unfold sumEdges, totalE.
  rewrite (Qcsum_Permutation _
             ((fun r => from_option
                          (fun n => Qcsum (edgeCounter h k <$> Edges n)) 0
                          (nodes h !! r))
              <$> seq 0 (length (nodes h))))
    by (apply fmap_Permutation; by apply structured_values).
  rewrite Qcsum_fmap_seq.
  replace ((fun n => Qcsum (edgeCounter h k <$> Edges n)) <$> nodes h)
    with (Qcsum <$> ((fun l : list eref => edgeCounter h k <$> l)
                     <$> (Edges <$> nodes h)))
    by (rewrite <- !list_fmap_compose; done).
  rewrite <- Qcsum_concat, concat_fmap_fmap.
  destruct Hs as (_ & _ & P & _).
  rewrite (Qcsum_Permutation _ (edgeCounter h k <$> seq 0 (length (edges h))))
    by by apply fmap_Permutation.
  apply Qcsum_fmap_seq.
Qed.

(** In exact arithmetic the counters are conserved: whatever the
    telemetry returns and whether or not service nodes are injected, the
    builder ends without a panic and, over the traffic map it returns,
    the [httpOut] of the nodes, the [httpIn] of the nodes and the [http]
    of the edges add up to the same rational number. *)
Lemma exact_counter_conservation
    (Id : string → string → string → string → string → string
          → string * string)
    (IsOK : string → bool) (httpVectors tcpVectors : list (list Sample))
    (o : Options) :
  ∃ h tm,
    buildNamespaceTrafficMap Id IsOK httpVectors tcpVectors o = Ok (h, tm) ∧
    sumNodes h tm "httpOut" = sumNodes h tm "httpIn" ∧
    sumNodes h tm "httpIn" = sumEdges h tm "http".
Proof.
  destruct (buildNamespaceTrafficMap_ok Id IsOK httpVectors tcpVectors o)
    as ([h tm] & E & Hs & _ & Co & Ci).
  exists h, tm. simpl in *. split; [done|].
  rewrite !sumNodes_total, sumEdges_total by done. split; congruence.
Qed.

(** ** Counters summed by the reducer *)

Lemma setEdge_setEdge h (e : eref) E1 E2 :
  setEdge (setEdge h e E1) e E2 = setEdge h e E2.
Proof. unfold setEdge. simpl. by rewrite list_insert_insert_eq. Qed.

Lemma setEdge_lookup_ne h (e e' : eref) E :
  e ≠ e' → edges (setEdge h e E) !! e' = edges h !! e'.
Proof. intros Hne. simpl. by rewrite list_lookup_insert_ne. Qed.

(** One counter of [source] added to [target], when [source] has it. *)
Lemma addServiceCounter h (target source : eref) T S k :
  target ≠ source →
  edges h !! target = Some T → edges h !! source = Some S →
  floatAt (EdgeMetadata T) k → floatAt (EdgeMetadata S) k →
  ∃ T',
    match EdgeMetadata S !! k with
    | Some val => v ← asFloat val; addToEdgeMetadata h target k v
    | None => Ok h
    end = Ok (setEdge h target T') ∧
    Source T' = Source T ∧ Dest T' = Dest T ∧
    (∀ k', floatAt (EdgeMetadata T) k' → floatAt (EdgeMetadata T') k') ∧
    (∀ k', EdgeMetadata T' !! k'
           = if decide (k = k') then
               match EdgeMetadata S !! k with
               | Some _ => Some (VFloat (num (EdgeMetadata T !! k)
                                         + num (EdgeMetadata S !! k)))
               | None => EdgeMetadata T !! k
               end
             else EdgeMetadata T !! k').
Proof.
  intros Hne HT HS HfT HfS. unfold floatAt in HfS.
  destruct (EdgeMetadata S !! k) as [[x| | |]|] eqn:HSk; try done; simpl.
  - unfold addToEdgeMetadata, getEdge. rewrite HT. simpl.
    rewrite addToMetadataValue_ok by done. simpl.
    eexists. split_and!; [done|done|done| |].
    + intros k'. simpl. apply floatAt_insert_float.
    + intros k'. simpl. case_decide as Hk.
      * subst. by rewrite lookup_insert_eq.
      * by rewrite lookup_insert_ne.
  - exists T. split_and!; try done.
    + f_equal. unfold setEdge. destruct h; simpl in *. f_equal.
      by rewrite list_insert_id.
    + intros k'. by case_decide; subst.
Qed.

Lemma edgeTyped_floatAt md k : edgeTyped md → k ∈ edgeCounterKeys → floatAt md k.
Proof.
  unfold edgeTyped. rewrite list.Forall_forall. intros H Hk. by apply H.
Qed.

Lemma num_added (t s : option value) (r : option value) :
  r = match s with
      | Some _ => Some (VFloat (num t + num s))
      | None => t
      end →
  num r = num t + num s.
Proof. intros ->. destruct s; simpl; [done|ring]. Qed.

(** Two edges of protocol ["http"] to one child: the [http], [http3xx],
    [http4xx] and [http5xx] of the second are added to the first. *)
Lemma addServiceGraphTraffic_http_sums h (target source : eref) T S x :
  target ≠ source →
  edges h !! target = Some T → edges h !! source = Some S →
  EdgeMetadata T !! "protocol" = Some (VString "http") →
  edgeTyped (EdgeMetadata T) → edgeTyped (EdgeMetadata S) →
  EdgeMetadata S !! "http" = Some (VFloat x) →
  EdgeMetadata S !! "responseTime" = None →
  ∃ T', addServiceGraphTraffic h target source = Ok (setEdge h target T') ∧
    Source T' = Source T ∧ Dest T' = Dest T ∧
    ∀ k, k ∈ ["http"; "http3xx"; "http4xx"; "http5xx"] →
      num (EdgeMetadata T' !! k)
      = num (EdgeMetadata T !! k) + num (EdgeMetadata S !! k).
Proof.
  intros Hne HT HS Hproto HtT HtS Hhttp Hrt.
  assert (Hlt : (target < length (edges h))%nat) by by eapply lookup_lt_Some.
  assert (Hkeys : ∀ k, k ∈ ["http"; "http3xx"; "http4xx"; "http5xx"] →
            k ∈ edgeCounterKeys).
  { intros k Hk. unfold edgeCounterKeys.
    rewrite !elem_of_cons in Hk. rewrite !elem_of_cons. tauto. }
  assert (HfS : ∀ k, k ∈ ["http"; "http3xx"; "http4xx"; "http5xx"] →
            floatAt (EdgeMetadata S) k)
    by (intros; by apply edgeTyped_floatAt, Hkeys).
  assert (HfT : ∀ k, k ∈ ["http"; "http3xx"; "http4xx"; "http5xx"] →
            floatAt (EdgeMetadata T) k)
    by (intros; by apply edgeTyped_floatAt, Hkeys).
  assert (Hstep : ∀ T0 k, k ∈ ["http"; "http3xx"; "http4xx"; "http5xx"] →
            (∀ k', k' ∈ ["http"; "http3xx"; "http4xx"; "http5xx"] →
                   floatAt (EdgeMetadata T0) k') →
            ∃ T',
              match EdgeMetadata S !! k with
              | Some val => v ← asFloat val;
                            addToEdgeMetadata (setEdge h target T0) target k v
              | None => Ok (setEdge h target T0)
              end = Ok (setEdge h target T') ∧
              Source T' = Source T0 ∧ Dest T' = Dest T0 ∧
              (∀ k', k' ∈ ["http"; "http3xx"; "http4xx"; "http5xx"] →
                     floatAt (EdgeMetadata T') k') ∧
              (∀ k', EdgeMetadata T' !! k'
                     = if decide (k = k') then
                         match EdgeMetadata S !! k with
                         | Some _ =>
                             Some (VFloat (num (EdgeMetadata T0 !! k)
                                           + num (EdgeMetadata S !! k)))
                         | None => EdgeMetadata T0 !! k
                         end
                       else EdgeMetadata T0 !! k')).
  { intros T0 k Hk HfT0.
    destruct (addServiceCounter (setEdge h target T0) target source T0 S k)
      as (T' & E & Hs & Hd & Hf & Hl); try done.
    - simpl. by apply list_lookup_insert_eq.
    - by rewrite setEdge_lookup_ne.
    - by apply HfT0.
    - by apply HfS.
    - exists T'. rewrite setEdge_setEdge in E. split_and!; try done.
      intros k' Hk'. by apply Hf, HfT0. }
  assert (HS' : ∀ T0, getEdge (setEdge h target T0) source = Ok S).
  { intros T0. unfold getEdge. by rewrite setEdge_lookup_ne, HS. }
  assert (HgT : getEdge h target = Ok T) by (unfold getEdge; by rewrite HT).
  assert (HgS : getEdge h source = Ok S) by (unfold getEdge; by rewrite HS).
  unfold addServiceGraphTraffic.
  rewrite HgT, ok_bind. cbv zeta. rewrite Hproto.
  change (ifaceIsString (Some (VString "http")) "http") with true.
  cbv iota.
  rewrite HgS, ok_bind, Hhttp. simpl asFloat. rewrite ok_bind.
  assert (E1 : ∃ T1, addToEdgeMetadata h target "http" x
                     = Ok (setEdge h target T1) ∧
             Source T1 = Source T ∧ Dest T1 = Dest T ∧
             (∀ k', k' ∈ ["http"; "http3xx"; "http4xx"; "http5xx"] →
                    floatAt (EdgeMetadata T1) k') ∧
             (∀ k', EdgeMetadata T1 !! k'
                    = if decide ("http" = k') then
                        Some (VFloat (num (EdgeMetadata T !! "http") + x))
                      else EdgeMetadata T !! k')).
  { unfold addToEdgeMetadata.
    rewrite HgT, ok_bind, addToMetadataValue_ok by (apply HfT; by apply (bool_decide_unpack _)).
    rewrite ok_bind. eexists. split_and!; [done|done|done| |].
    - intros k' Hk'. simpl. by apply floatAt_insert_float, HfT.
    - intros k'. simpl. case_decide as Hk.
      + subst. by rewrite lookup_insert_eq.
      + by rewrite lookup_insert_ne. }
  destruct E1 as (T1 & E1 & S1 & D1 & F1 & L1).
  rewrite E1, ok_bind, HS', ok_bind.
  destruct (Hstep T1 "http3xx") as (T2 & E2 & S2 & D2 & F2 & L2);
    [by apply (bool_decide_unpack _)|done|].
  rewrite E2, ok_bind, HS', ok_bind.
  destruct (Hstep T2 "http4xx") as (T3 & E3 & S3 & D3 & F3 & L3);
    [by apply (bool_decide_unpack _)|done|].
  rewrite E3, ok_bind, HS', ok_bind.
  destruct (Hstep T3 "http5xx") as (T4 & E4 & S4 & D4 & F4 & L4);
    [by apply (bool_decide_unpack _)|done|].
  rewrite E4, ok_bind, HS', ok_bind, Hrt.
  exists T4. split_and!; [done|congruence|congruence|].
  intros k Hk. apply num_added.
  rewrite !elem_of_cons, elem_of_nil in Hk.
  destruct Hk as [->|[->|[->|[->|[]]]]];
    rewrite ?L4; simpl; rewrite ?L3; simpl; rewrite ?L2; simpl;
    rewrite ?L1; simpl.
  - by rewrite Hhttp.
  - by destruct (EdgeMetadata S !! "http3xx").
  - by destruct (EdgeMetadata S !! "http4xx").
  - by destruct (EdgeMetadata S !! "http5xx").
Qed.

(** Two edges of protocol ["tcp"] to one child: the [tcp] of the second
    is added to the first. *)
Lemma addServiceGraphTraffic_tcp_sums h (target source : eref) T S x :
  edges h !! target = Some T → edges h !! source = Some S →
  EdgeMetadata T !! "protocol" = Some (VString "tcp") →
  floatAt (EdgeMetadata T) "tcp" →
  EdgeMetadata S !! "tcp" = Some (VFloat x) →
  EdgeMetadata S !! "responseTime" = None →
  target ≠ source →
  addServiceGraphTraffic h target source
  = Ok (setEdge h target
          (withEdgeMetadata T
             (<["tcp" := VFloat (num (EdgeMetadata T !! "tcp") + x)]>
                (EdgeMetadata T)))).
Proof.
  intros HT HS Hproto HfT Htcp Hrt Hne.
  assert (HgT : getEdge h target = Ok T) by (unfold getEdge; by rewrite HT).
  assert (HgS : getEdge h source = Ok S) by (unfold getEdge; by rewrite HS).
  unfold addServiceGraphTraffic.
  rewrite HgT, ok_bind. cbv zeta. rewrite Hproto.
  change (ifaceIsString (Some (VString "tcp")) "http") with false.
  change (ifaceIsString (Some (VString "tcp")) "tcp") with true.
  cbv iota. rewrite HgS, ok_bind, Htcp. simpl asFloat. rewrite ok_bind.
  unfold addToEdgeMetadata.
  rewrite HgT, ok_bind, (addToMetadataValue_ok _ _ _ HfT), !ok_bind.
  unfold getEdge. rewrite (setEdge_lookup_ne _ _ _ _ Hne), HS.
  by rewrite ok_bind, Hrt.
Qed.

(** ** The aggregation primitives *)

(** X1. [addToMetadataValue] called with [v1..vn] on one
    key leaves the sum of the old value and of [v1..vn] under that key,
    touches no other key, and panics on its first call when the key
    holds anything but a number. *)
Theorem addToMetadataValue_accumulates (md : metadata) (k : string) (v : Qc)
    (vs : list Qc) :
  addAll md k (v :: vs)
  = if floatAt md k
    then Ok (<[k := VFloat (num (md !! k) + Qcsum (v :: vs))]> md)
    else Panic TypeAssertion.
Proof.
  unfold addAll.
  destruct (floatAt md k) eqn:Hf.
  - revert md v Hf. induction vs as [|w vs IH]; intros md v Hf.
    + simpl. rewrite addToMetadataValue_ok by by rewrite Hf.
      simpl. do 3 f_equal. ring.
    + rewrite forM_cons, addToMetadataValue_ok by by rewrite Hf.
      rewrite ok_bind, IH.
      * rewrite lookup_insert_eq, insert_insert_eq. simpl.
        do 3 f_equal. ring.
      * unfold floatAt. by rewrite lookup_insert_eq.
  - simpl. unfold addToMetadataValue, floatAt in *.
    by destruct (md !! k) as [[]|].
Qed.

Lemma addAllDestServices_eq (md : metadata) (s : string) (ss : list string) :
  addAllDestServices md (s :: ss)
  = if destServicesOk md
    then Ok (<["destServices" :=
                 VStringSet (foldl (fun m s => <[s := true]> m)
                               (destServicesOf md) (s :: ss))]> md)
    else Panic TypeAssertion.
Proof.
  unfold addAllDestServices.
  destruct (destServicesOk md) eqn:Hok.
  - revert md s Hok. induction ss as [|t ss IH]; intros md s Hok.
    + simpl. unfold addToDestServices, destServicesOk, destServicesOf in *.
      by destruct (md !! "destServices") as [[]|].
    + rewrite forM_cons.
      assert (addToDestServices md s
              = Ok (<["destServices" :=
                        VStringSet (<[s := true]> (destServicesOf md))]> md))
        as ->.
      { unfold addToDestServices, destServicesOk, destServicesOf in *.
        by destruct (md !! "destServices") as [[]|]. }
      rewrite ok_bind, IH.
      * unfold destServicesOf at 1. rewrite lookup_insert_eq.
        by rewrite insert_insert_eq.
      * unfold destServicesOk. by rewrite lookup_insert_eq.
  - simpl. unfold addToDestServices, destServicesOk in *.
    by destruct (md !! "destServices") as [[]|].
Qed.

Lemma foldl_insert_true_lookup (ss : list string) : ∀ (m : gmap string bool) t,
  foldl (fun m s => <[s := true]> m) m ss !! t
  = if decide (t ∈ ss) then Some true else m !! t.
Proof.
  induction ss as [|s ss IH]; intros m t.
  - simpl. destruct (decide (t ∈ [])) as [H|]; [by apply elem_of_nil in H|done].
  - simpl foldl. rewrite IH. destruct (decide (t ∈ ss)) as [Hin|Hnin].
    + rewrite decide_True; [done|]. by right.
    + destruct (decide (t = s)) as [->|Hne].
      * rewrite decide_True by by left. by rewrite lookup_insert_eq.
      * rewrite decide_False.
        -- by rewrite lookup_insert_ne.
        -- rewrite elem_of_cons. tauto.
Qed.

(** X2. [addToDestServices] called with [s1..sn] leaves under
    [destServices] a set in which exactly [s1..sn] have been switched
    on beside what it held, in whatever order and however often they
    came; no other key is touched; it panics when [destServices] holds
    anything but a set. *)
Theorem addToDestServices_set (md : metadata) (s : string) (ss : list string) :
  match addAllDestServices md (s :: ss) with
  | Ok md' =>
      destServicesOk md ∧ destServicesOk md' ∧
      is_Some (md' !! "destServices") ∧
      (∀ k, k ≠ "destServices" → md' !! k = md !! k) ∧
      ∀ t, destServicesOf md' !! t
           = if decide (t ∈ s :: ss) then Some true
             else destServicesOf md !! t
  | Panic f => f = TypeAssertion ∧ destServicesOk md = false
  end.
Proof.
  rewrite addAllDestServices_eq. destruct (destServicesOk md) eqn:Hok; [|done].
  split_and!; try done.
  - unfold destServicesOk. by rewrite lookup_insert_eq.
  - by rewrite lookup_insert_eq.
  - intros k Hk. by rewrite lookup_insert_ne.
  - intros t. unfold destServicesOf at 1. rewrite lookup_insert_eq.
    apply foldl_insert_true_lookup.
Qed.

(** X3. [handleMisconfiguredLabels] changes nothing unless the
    node is a workload (or an application of a versioned-app graph)
    whose app or version differs from the sample's. It then records
    which labels differ under [isMisconfigured] and, only when the rate
    is positive, takes over the app and version of the sample. The id,
    type, namespace, workload, service and edges of the node are never
    touched. *)
Theorem handleMisconfiguredLabels_spec (h : Heap) (node : nref) (n : Node)
    (app version : string) (rate : Qc) (o : Options) :
  nodes h !! node = Some n →
  ∃ n', handleMisconfiguredLabels h node app version rate o
        = Ok (setNode h node n') ∧
    ID n' = ID n ∧ NodeType n' = NodeType n ∧ Namespace n' = Namespace n ∧
    Workload n' = Workload n ∧ Service n' = Service n ∧ Edges n' = Edges n ∧
    (∀ k, k ≠ "isMisconfigured" → Metadata n' !! k = Metadata n !! k) ∧
    (if decide (labelsChecked n o ∧ (App n ≠ app ∨ Version n ≠ version))
     then
       Metadata n' !! "isMisconfigured"
       = Some (VString
                 (if decide (App n = app) then "labels=[version]"
                  else if decide (Version n = version) then "labels=[app]"
                  else "labels=[app version]")) ∧
       (if decide (0 < rate)
        then App n' = app ∧ Version n' = version
        else App n' = App n ∧ Version n' = Version n)
     else n' = n).
Proof.
  intros Hn. unfold handleMisconfiguredLabels.
  rewrite (getNode_Ok h node n Hn), ok_bind.
  assert (Hnoop : Ok h = Ok (setNode h node n)).
  { f_equal. unfold setNode. destruct h; simpl in *. f_equal.
    by rewrite list_insert_id. }
  destruct (decide (labelsChecked n o ∧ (App n ≠ app ∨ Version n ≠ version)))
    as [[Hc Hm]|Hno].
  - assert ((bool_decide (NodeType n = NodeTypeWorkload)
             || bool_decide (NodeType n = NodeTypeApp)
                && bool_decide (VendorGraphType o = GraphTypeVersionedApp))
            = true) as ->.
    { destruct Hc as [Hw|[Ha Hv]].
      - by rewrite (bool_decide_eq_true_2 _ Hw).
      - rewrite (bool_decide_eq_true_2 _ Ha), (bool_decide_eq_true_2 _ Hv).
        by rewrite orb_true_r. }
    destruct (decide (App n = app)) as [Ha|Ha];
      [|destruct (decide (Version n = version)) as [Hv|Hv]].
    + assert (Hv : Version n ≠ version) by tauto.
      rewrite (bool_decide_eq_false_2 (App n ≠ app)) by tauto.
      rewrite (bool_decide_eq_true_2 (Version n ≠ version)) by done.
      simpl. destruct (decide (0 < rate)) as [Hr|Hr].
      * rewrite (bool_decide_eq_true_2 _ Hr). eexists. split; [done|].
        simpl. split_and!; try done.
        -- intros k Hk. by rewrite lookup_insert_ne.
        -- by rewrite lookup_insert_eq.
      * rewrite (bool_decide_eq_false_2 _ Hr). eexists. split; [done|].
        simpl. split_and!; try done.
        -- intros k Hk. by rewrite lookup_insert_ne.
        -- by rewrite lookup_insert_eq.
    + rewrite (bool_decide_eq_true_2 (App n ≠ app)) by done.
      rewrite (bool_decide_eq_false_2 (Version n ≠ version)) by tauto.
      simpl. destruct (decide (0 < rate)) as [Hr|Hr].
      * rewrite (bool_decide_eq_true_2 _ Hr). eexists. split; [done|].
        simpl. split_and!; try done.
        -- intros k Hk. by rewrite lookup_insert_ne.
        -- by rewrite lookup_insert_eq.
      * rewrite (bool_decide_eq_false_2 _ Hr). eexists. split; [done|].
        simpl. split_and!; try done.
        -- intros k Hk. by rewrite lookup_insert_ne.
        -- by rewrite lookup_insert_eq.
    + rewrite (bool_decide_eq_true_2 (App n ≠ app)) by done.
      rewrite (bool_decide_eq_true_2 (Version n ≠ version)) by done.
      simpl. destruct (decide (0 < rate)) as [Hr|Hr].
      * rewrite (bool_decide_eq_true_2 _ Hr). eexists. split; [done|].
        simpl. split_and!; try done.
        -- intros k Hk. by rewrite lookup_insert_ne.
        -- by rewrite lookup_insert_eq.
      * rewrite (bool_decide_eq_false_2 _ Hr). eexists. split; [done|].
        simpl. split_and!; try done.
        -- intros k Hk. by rewrite lookup_insert_ne.
        -- by rewrite lookup_insert_eq.
  - exists n. split; [|done].
    destruct (bool_decide (NodeType n = NodeTypeWorkload)
              || bool_decide (NodeType n = NodeTypeApp)
                 && bool_decide (VendorGraphType o = GraphTypeVersionedApp))
      eqn:Hc; [|done].
    assert (labelsChecked n o) as Hc'.
    { apply orb_true_iff in Hc as [Hc|Hc].
      - left. by apply bool_decide_eq_true in Hc.
      - apply andb_true_iff in Hc as [H1 H2]. right.
        split; by eapply bool_decide_eq_true. }
    assert (App n = app ∧ Version n = version) as [Ha Hv].
    { split; apply dec_stable; tauto. }
    rewrite (bool_decide_eq_false_2 (App n ≠ app)) by tauto.
    rewrite (bool_decide_eq_false_2 (Version n ≠ version)) by tauto.
    done.
Qed.

Lemma handleMisconfiguredLabels_spec_witness :
  ∃ n', handleMisconfiguredLabels ingressHeap 1%nat "productpage" "v1"
          (Qcnat 5) workloadGraph
        = Ok (setNode ingressHeap 1%nat n') ∧
        App n' = "productpage" ∧ Version n' = "v1".
Proof.
  destruct (handleMisconfiguredLabels_spec ingressHeap 1%nat
              (workloadNode "productpage-v1" []) "productpage" "v1"
              (Qcnat 5) workloadGraph)
    as (n' & E & _ & _ & _ & _ & _ & _ & _ & H).
  - reflexivity.
  - exists n'. split; [exact E|].
    rewrite decide_True in H.
    + destruct H as [_ H]. rewrite decide_True in H; [exact H|].
      by apply (bool_decide_unpack _).
    + split; [by left|]. left. by apply (bool_decide_unpack _).
Defined.

(** ** What the builder reads of its input *)

Section BuilderInput.
Variable Id : string → string → string → string → string → string
              → string * string.
Variable IsOK : string → bool.

(** X4. After [addNode] the traffic map holds the returned node under
    the id [graph.Id] gives; [found] tells whether it was there before;
    a node that was there is returned as it is and nothing changes; a
    new node is allocated with the identity it was asked for, no edge
    and no metadata; no other key changes; and a second [addNode] with
    the same identity finds the first one's node. *)
Theorem addNode_lookup (h : Heap) (tm : TrafficMap)
    (namespace workload app version service : string) (o : Options) :
  let id := (Id namespace workload app version service (GraphType o)).1 in
  let nodeType := (Id namespace workload app version service (GraphType o)).2 in
  ∃ h' tm' r found,
    addNode Id h tm namespace workload app version service o
    = (h', tm', r, found) ∧
    tm' !! id = Some r ∧
    (∀ k, k ≠ id → tm' !! k = tm !! k) ∧
    (if found then tm !! id = Some r ∧ h' = h ∧ tm' = tm
     else tm !! id = None ∧ r = length (nodes h) ∧ edges h' = edges h ∧
          nodes h' = nodes h ++ [mkNode id nodeType namespace workload app
                                   version service [] ∅]) ∧
    addNode Id h' tm' namespace workload app version service o
    = (h', tm', r, true).
Proof.
  intros id nodeType. unfold addNode. subst id nodeType.
  destruct (Id _ _ _ _ _ _) as [id nodeType]. simpl.
  destruct (tm !! id) as [node|] eqn:Hid.
  - exists h, tm, node, true. rewrite Hid. by split_and!.
  - simpl. eexists _, _, _, false. split; [done|].
    rewrite lookup_insert_eq. split_and!; try done.
    intros k Hk. by rewrite lookup_insert_ne.
Qed.

Lemma populateHttpSample_incomplete o st s :
  completeHttp s = false → populateHttpSample Id o st s = Ok st.
Proof.
  intros Hc. unfold populateHttpSample. destruct st as [h tm].
  destruct (Metric s !! "namespace") eqn:E1; [|done].
  destruct (Metric s !! "deployment") eqn:E2; [|done].
  destruct (Metric s !! "dst_namespace") eqn:E3; [|done].
  destruct (Metric s !! "dst_service") eqn:E4; [|done].
  destruct (Metric s !! "dst_deployment") eqn:E5; [|done].
  exfalso. unfold completeHttp in Hc. apply bool_decide_eq_false in Hc.
  apply Hc. repeat constructor; by eexists.
Qed.

(** X5. [populateTrafficMapHttp] skips the samples that lack one of
    its five labels: the vector gives what its complete samples alone
    give. *)
Theorem populateTrafficMapHttp_skips_incomplete (h : Heap) (tm : TrafficMap)
    (vector : list Sample) (o : Options) :
  populateTrafficMapHttp Id h tm vector o
  = populateTrafficMapHttp Id h tm (List.filter completeHttp vector) o.
Proof.
  unfold populateTrafficMapHttp.
  generalize (h, tm). clear h tm.
  induction vector as [|s vector IH]; intros st; [done|].
  simpl List.filter. destruct (completeHttp s) eqn:Hc.
  - rewrite !forM_cons. destruct (populateHttpSample Id o st s); [|done].
    simpl. apply IH.
  - rewrite forM_cons, populateHttpSample_incomplete, ok_bind by done.
    apply IH.
Qed.

Lemma populateHttpSample_reads o st (s1 s2 : Sample) :
  restrictTo ["namespace"; "deployment"; "dst_namespace"; "dst_service";
              "dst_deployment"] (Metric s1)
  = restrictTo ["namespace"; "deployment"; "dst_namespace"; "dst_service";
                "dst_deployment"] (Metric s2) →
  Value s1 = Value s2 →
  populateHttpSample Id o st s1 = populateHttpSample Id o st s2.
Proof.
  intros Hm Hv.
  assert (Hl : ∀ l, l ∈ ["namespace"; "deployment"; "dst_namespace";
                         "dst_service"; "dst_deployment"] →
                 Metric s1 !! l = Metric s2 !! l).
  { intros l Hl.
    assert (restrictTo ["namespace"; "deployment"; "dst_namespace";
                        "dst_service"; "dst_deployment"] (Metric s1) !! l
            = restrictTo ["namespace"; "deployment"; "dst_namespace";
                          "dst_service"; "dst_deployment"] (Metric s2) !! l)
      as H by by rewrite Hm.
    unfold restrictTo in H.
    destruct (Metric s1 !! l) as [v1|] eqn:E1;
      destruct (Metric s2 !! l) as [v2|] eqn:E2; try done.
    - rewrite (map_lookup_filter_Some_2 _ (Metric s1) l v1) in H by done.
      rewrite (map_lookup_filter_Some_2 _ (Metric s2) l v2) in H by done. done.
    - rewrite (map_lookup_filter_Some_2 _ _ l v1) in H by done.
      symmetry in H. apply map_lookup_filter_Some in H as [? _]. congruence.
    - rewrite (map_lookup_filter_Some_2 _ (Metric s2) l v2) in H by done.
      apply map_lookup_filter_Some in H as [? _]. congruence. }
  unfold populateHttpSample. destruct st as [h tm]. cbv zeta.
  rewrite !Hl, Hv by (by apply (bool_decide_unpack _)). done.
Qed.

(** X6. [populateTrafficMapHttp] reads nothing of a sample but its value
    and the labels [namespace], [deployment], [dst_namespace],
    [dst_service] and [dst_deployment]: two vectors that agree on those
    give the same traffic map. The response code in particular is never
    read. *)
Theorem populateTrafficMapHttp_reads_five_labels (h : Heap) (tm : TrafficMap)
    (v1 v2 : list Sample) (o : Options) :
  Forall2 (fun s1 s2 =>
             restrictTo ["namespace"; "deployment"; "dst_namespace";
                         "dst_service"; "dst_deployment"] (Metric s1)
             = restrictTo ["namespace"; "deployment"; "dst_namespace";
                           "dst_service"; "dst_deployment"] (Metric s2)
             ∧ Value s1 = Value s2) v1 v2 →
  populateTrafficMapHttp Id h tm v1 o = populateTrafficMapHttp Id h tm v2 o.
Proof.
  unfold populateTrafficMapHttp. generalize (h, tm). clear h tm.
  intros st H. revert st.
  induction H as [|s1 s2 v1 v2 [Hm Hv] _ IH]; intros st; [done|].
  rewrite !forM_cons, (populateHttpSample_reads o st s1 s2 Hm Hv).
  destruct (populateHttpSample Id o st s2); [|done]. simpl. apply IH.
Qed.

Lemma populateTcpSample_incomplete o st s :
  completeTcp s = false → populateTcpSample Id IsOK o st s = Ok st.
Proof.
  intros Hc. unfold populateTcpSample. destruct st as [h tm]. cbv zeta.
  destruct (Metric s !! "source_workload_namespace") eqn:E1; [|done].
  destruct (Metric s !! "source_workload") eqn:E2; [|done].
  destruct (Metric s !! "source_app") eqn:E3; [|done].
  destruct (Metric s !! "source_version") eqn:E4; [|done].
  destruct (match Metric s !! "destination_service_namespace" with
            | Some l => Some l
            | None => Metric s !! "destination_workload_namespace"
            end) eqn:E5; [|done].
  destruct (Metric s !! "destination_service_name") eqn:E6; [|done].
  destruct (Metric s !! "destination_workload") eqn:E7; [|done].
  destruct (Metric s !! "destination_app") eqn:E8; [|done].
  destruct (Metric s !! "destination_version") eqn:E9; [|done].
  exfalso. unfold completeTcp in Hc. apply andb_false_iff in Hc as [Hc|Hc];
    apply bool_decide_eq_false in Hc; apply Hc.
  - repeat constructor; by eexists.
  - destruct (Metric s !! "destination_service_namespace");
      [left|right]; by eexists.
Qed.

Lemma populateTcpSample_fallback o st s :
  populateTcpSample Id IsOK o st s
  = populateTcpSample Id IsOK o st (withServiceNamespace s).
Proof.
  unfold withServiceNamespace.
  destruct (Metric s !! "destination_service_namespace") eqn:E1; [done|].
  destruct (Metric s !! "destination_workload_namespace") as [ns|] eqn:E2;
    [|done].
  unfold populateTcpSample. destruct st as [h tm]. cbv zeta. simpl.
  rewrite E1, E2, lookup_insert_eq.
  rewrite !lookup_insert_ne by done. done.
Qed.

(** X7. [populateTrafficMapTcp] skips the samples that lack one of its
    labels, and reads [destination_workload_namespace] for a missing
    [destination_service_namespace]: the vector gives what its complete
    samples give once the namespace of the workload is written in for
    the missing one. *)
Theorem populateTrafficMapTcp_skips_incomplete (h : Heap) (tm : TrafficMap)
    (vector : list Sample) (o : Options) :
  populateTrafficMapTcp Id IsOK h tm vector o
  = populateTrafficMapTcp Id IsOK h tm
      (withServiceNamespace <$> List.filter completeTcp vector) o.
Proof.
  unfold populateTrafficMapTcp.
  generalize (h, tm). clear h tm.
  induction vector as [|s vector IH]; intros st; [done|].
  simpl List.filter. destruct (completeTcp s) eqn:Hc.
  - rewrite fmap_cons, !forM_cons, <- populateTcpSample_fallback.
    destruct (populateTcpSample Id IsOK o st s); [|done].
    simpl. apply IH.
  - rewrite forM_cons, populateTcpSample_incomplete, ok_bind by done.
    apply IH.
Qed.

End BuilderInput.

Lemma populateTrafficMapHttp_reads_five_labels_witness :
  populateTrafficMapHttp IdSpec emptyHeap ∅ httpVector500 workloadGraph
  = populateTrafficMapHttp IdSpec emptyHeap ∅
      [mkSample (httpLabels "reviews" "200") (Qcnat 3)] workloadGraph.
Proof.
  apply (populateTrafficMapHttp_reads_five_labels IdSpec emptyHeap ∅
           httpVector500 [mkSample (httpLabels "reviews" "200") (Qcnat 3)]
           workloadGraph).
  constructor; [|constructor]. split; [by_evaluation|reflexivity].
Defined.

(** ** What the builder keeps *)

Ltac inv_ok :=
  repeat match goal with
  | H : (_ ≫= _) = Ok _ |- _ =>
      let x := fresh "x" in
      let E := fresh "E" in
      apply bind_Ok in H as (x & E & H)
  | H : Ok _ = Ok _ |- _ => injection H as H; try subst
  | H : Panic _ = Ok _ |- _ => discriminate H
  end.

Lemma nodeStep_refl h : nodeStep h h.
Proof. split_and!; try done. intros r n Hn. by exists n. Qed.

Lemma nodeStep_trans h1 h2 h3 :
  nodeStep h1 h2 → nodeStep h2 h3 → nodeStep h1 h3.
Proof.
  intros (E1 & L1 & N1) (E2 & L2 & N2). split_and!; [congruence|congruence|].
  intros r n Hn. destruct (N1 r n Hn) as (n1 & Hn1 & I1 & Ed1 & M1).
  destruct (N2 r n1 Hn1) as (n2 & Hn2 & I2 & Ed2 & M2).
  exists n2. split_and!; [done|congruence|congruence|].
  intros k Hk. by rewrite M2, M1.
Qed.

Lemma nodeStep_setNode h (r : nref) n n' :
  nodes h !! r = Some n → ID n' = ID n → Edges n' = Edges n →
  (∀ k, k ∉ nodeKeys → Metadata n' !! k = Metadata n !! k) →
  nodeStep h (setNode h r n').
Proof.
  intros Hn Hid Hes Hmd. split_and!; [done|simpl; by rewrite length_insert|].
  intros r0 n0 Hn0. simpl. destruct (decide (r0 = r)) as [->|Hne].
  - rewrite list_lookup_insert_eq by by eapply lookup_lt_Some.
    exists n'. simplify_eq. by split_and!.
  - rewrite list_lookup_insert_ne by done. by exists n0.
Qed.

Lemma nodeStep_sameShape h h' : nodeStep h h' → sameShape h h'.
Proof.
  intros (E & L & N). split; [|by rewrite E].
  apply list_eq_same_length with (length (nodes h));
    [by rewrite length_fmap|by rewrite length_fmap|].
  intros i x y Hi Hx Hy.
  rewrite list_lookup_fmap in Hx. rewrite list_lookup_fmap in Hy.
  destruct (nodes h !! i) as [n|] eqn:Hn; [|done].
  destruct (N i n Hn) as (n' & Hn' & Hid & Hes & _).
  rewrite Hn' in Hx. simpl in *. simplify_eq. by rewrite Hid, Hes.
Qed.

Lemma nodeStep_wiring h h' : nodeStep h h' → wiring h' = wiring h.
Proof.
  intros Hs. pose proof (nodeStep_sameShape h h' Hs) as Sh.
  destruct Hs as (E & _). unfold wiring.
  by rewrite (sameShape_Edges h h' Sh), E.
Qed.

Lemma nodeStep_builtNode h h' :
  nodeStep h h' →
  Forall (fun n => builtNode (Metadata n)) (nodes h) →
  Forall (fun n => builtNode (Metadata n)) (nodes h').
Proof.
  intros (_ & L & N) H. rewrite list.Forall_forall in H.
  apply list.Forall_forall.
  intros n' [r Hr]%list_elem_of_lookup.
  assert (is_Some (nodes h !! r)) as [n Hn].
  { apply lookup_lt_is_Some. rewrite <- L. by eapply lookup_lt_Some. }
  destruct (N r n Hn) as (n0 & Hn0 & _ & _ & M). simplify_eq.
  intros k Hk. rewrite M by done. apply (H n); [|done].
  by eapply list_elem_of_lookup_2.
Qed.

(** *** Frames of the node updates *)

Lemma addToNodeMetadata_frame h (r : nref) k v h' :
  k ∈ nodeKeys → addToNodeMetadata h r k v = Ok h' → nodeStep h h'.
Proof.
  intros Hk H. unfold addToNodeMetadata in H.
  apply bind_Ok in H as (n & En & H). apply bind_Ok in H as (md & Emd & H).
  injection H as <-. unfold getNode in En.
  destruct (nodes h !! r) as [n0|] eqn:Hn; [|done]. injection En as ->.
  apply (nodeStep_setNode h r n); try done.
  intros k' Hk'. simpl. unfold addToMetadataValue in Emd.
  destruct (Metadata n !! k) as [c|]; inv_ok;
    rewrite lookup_insert_ne; try done; by intros ->.
Qed.

Lemma handleMisconfiguredLabels_frame h (node : nref) app version rate o h' :
  handleMisconfiguredLabels h node app version rate o = Ok h' →
  nodeStep h h'.
Proof.
  intros H. unfold handleMisconfiguredLabels in H.
  apply bind_Ok in H as (n & En & H). unfold getNode in En.
  destruct (nodes h !! node) as [n0|] eqn:Hn; [|done]. injection En as ->.
  destruct (_ || _); [|inv_ok; apply nodeStep_refl].
  destruct (bool_decide (0 < _)%nat); [|inv_ok; apply nodeStep_refl].
  inv_ok. apply (nodeStep_setNode h node n); try done.
  - by destruct (bool_decide (0 < rate)).
  - by destruct (bool_decide (0 < rate)).
  - intros k Hk.
    assert (k ≠ "isMisconfigured").
    { intros ->. apply Hk. by apply (bool_decide_unpack _). }
    destruct (bool_decide (0 < rate)); simpl; by rewrite lookup_insert_ne.
Qed.

Lemma addToDestServices_frame md s md' :
  addToDestServices md s = Ok md' →
  ∀ k, k ≠ "destServices" → md' !! k = md !! k.
Proof.
  intros H k Hk. unfold addToDestServices in H.
  destruct (md !! "destServices") as [v|]; inv_ok;
    by rewrite lookup_insert_ne.
Qed.

(** *** The search for an edge *)

Lemma findEdge_None h es destId pk p :
  findEdge h es destId pk p = Ok None →
  ∀ (e : eref) E d, e ∈ es → edges h !! e = Some E →
    nodes h !! Dest E = Some d → ID d = destId →
    ifaceIsString (EdgeMetadata E !! pk) p = false.
Proof.
  induction es as [|e0 es IH]; intros H e E d He HE Hd Hid.
  - by apply elem_of_nil in He.
  - simpl in H. apply bind_Ok in H as (E0 & HE0 & H).
    apply bind_Ok in H as (i0 & Hi0 & H).
    unfold getEdge in HE0. unfold destID, getNode in Hi0.
    destruct (edges h !! e0) as [E0'|] eqn:HE0'; [|done]. injection HE0 as ->.
    destruct (nodes h !! Dest E0) as [d0|] eqn:Hd0; [|done].
    simpl in Hi0. injection Hi0 as <-.
    destruct (bool_decide (destId = ID d0)
              && ifaceIsString (EdgeMetadata E0 !! pk) p) eqn:Hb; [done|].
    apply elem_of_cons in He as [->|He].
    + simplify_eq. rewrite bool_decide_eq_true_2 in Hb by done. done.
    + by eapply IH.
Qed.

Lemma findEdge_Some h es destId pk p (e : eref) :
  findEdge h es destId pk p = Ok (Some e) →
  e ∈ es ∧ ∃ E d, edges h !! e = Some E ∧ nodes h !! Dest E = Some d ∧
    ID d = destId ∧ ifaceIsString (EdgeMetadata E !! pk) p = true.
Proof.
  induction es as [|e0 es IH]; intros H; [done|].
  simpl in H. apply bind_Ok in H as (E0 & HE0 & H).
  apply bind_Ok in H as (i0 & Hi0 & H).
  unfold getEdge in HE0. unfold destID, getNode in Hi0.
  destruct (edges h !! e0) as [E0'|] eqn:HE0'; [|done]. injection HE0 as ->.
  destruct (nodes h !! Dest E0) as [d0|] eqn:Hd0; [|done].
  simpl in Hi0. injection Hi0 as <-.
  destruct (bool_decide (destId = ID d0)
            && ifaceIsString (EdgeMetadata E0 !! pk) p) eqn:Hb.
  - injection H as <-. apply andb_true_iff in Hb as [Hb1 Hb2].
    apply bool_decide_eq_true in Hb1. split; [by left|].
    by exists E0, d0.
  - destruct (IH H) as [Hin Hrest]. split; [by right|done].
Qed.

(** *** The wiring under the steps of the builder *)

Lemma httpDests_app w t es :
  Forall (fun e : eref => (e < length w)%nat) es →
  httpDests (w ++ [t]) es = httpDests w es.
Proof.
  intros H. unfold httpDests. apply list_omap_ext.
  induction H as [|e es He _ IH]; constructor; [|done].
  by rewrite lookup_app_l.
Qed.

Lemma httpDests_snoc w t es :
  Forall (fun e : eref => (e < length w)%nat) es →
  httpDests (w ++ [t]) (es ++ [length w])
  = httpDests w es ++ (if ifaceIsString t.2 "http" then [t.1.2] else []).
Proof.
  intros H. unfold httpDests at 1. rewrite omap_app.
  fold (httpDests (w ++ [t]) es). rewrite httpDests_app by done.
  f_equal. simpl. rewrite lookup_app_r, Nat.sub_diag by done. simpl.
  by destruct (ifaceIsString t.2 "http").
Qed.

Lemma wired_snoc_node w : wired w → wired (w.1 ++ [[]], w.2).
Proof.
  intros [O U]. split; simpl.
  - intros r es e t Hr He Ht.
    apply lookup_app_Some in Hr as [Hr|[_ Hr]]; [by eapply O|].
    apply list_lookup_singleton_Some in Hr as [_ <-].
    by apply elem_of_nil in He.
  - apply list.Forall_app. split; [done|]. repeat constructor.
Qed.

Lemma wired_snoc_edge w (source dest : nref) es p :
  wired w → w.1 !! source = Some es →
  Forall (fun es => Forall (fun e : eref => (e < length w.2)%nat) es) w.1 →
  (p = "http" → dest ∉ httpDests w.2 es) →
  wired (<[source := es ++ [length w.2]]> w.1,
         w.2 ++ [(source, dest, Some (VString p))]).
Proof.
  intros [O U] Hs B Hd.
  assert (Bs : Forall (fun e : eref => (e < length w.2)%nat) es).
  { rewrite list.Forall_forall in B. apply B. by eapply list_elem_of_lookup_2. }
  split; simpl.
  - intros r es' e t Hr He Ht.
    destruct (decide (r = source)) as [->|Hne].
    + rewrite list_lookup_insert_eq in Hr by by eapply lookup_lt_Some.
      injection Hr as <-. apply elem_of_app in He as [He|He].
      * rewrite list.Forall_forall in Bs.
        rewrite lookup_app_l in Ht by by apply Bs. by eapply O.
      * apply list_elem_of_singleton in He as ->.
        rewrite lookup_app_r, Nat.sub_diag in Ht by done.
        by injection Ht as <-.
    + rewrite list_lookup_insert_ne in Hr by done.
      assert (e < length w.2)%nat.
      { rewrite list.Forall_forall in B.
        pose proof (B es' (list_elem_of_lookup_2 _ _ _ Hr)) as B'.
        rewrite list.Forall_forall in B'. by apply B'. }
      rewrite lookup_app_l in Ht by done. by eapply O.
  - apply Forall_insert.
    + rewrite list.Forall_forall in U, B. apply list.Forall_forall.
      intros es' Hes'. rewrite httpDests_app by by apply B. by apply U.
    + rewrite httpDests_snoc by done. simpl.
      assert (NoDup (httpDests w.2 es)) as Hnd.
      { rewrite list.Forall_forall in U. apply U.
        by eapply list_elem_of_lookup_2. }
      unfold ifaceIsString. case_bool_decide as Hp.
      * apply list.NoDup_app. split_and!; [done| |apply NoDup_singleton].
        intros x Hx Hx'. apply list_elem_of_singleton in Hx' as ->.
        by apply Hd.
      * by rewrite app_nil_r.
Qed.

Lemma structured_bounded h (tm : TrafficMap) :
  structured h tm →
  Forall (fun es => Forall (fun e : eref => (e < length (wiring h).2)%nat) es)
         (wiring h).1.
Proof.
  intros Hs. unfold wiring. simpl. rewrite length_fmap.
  apply list.Forall_forall. intros es [n [-> Hn]]%list_elem_of_fmap.
  apply list_elem_of_lookup in Hn as [r Hr].
  apply list.Forall_forall. intros e He.
  by eapply structured_edge_lt.
Qed.

Lemma wiring_setEdge h (e : eref) E E' :
  edges h !! e = Some E → Source E' = Source E → Dest E' = Dest E →
  EdgeMetadata E' !! "protocol" = EdgeMetadata E !! "protocol" →
  wiring (setEdge h e E') = wiring h.
Proof.
  intros HE Hs Hd Hp. unfold wiring. simpl. f_equal.
  rewrite list_fmap_insert, Hs, Hd, Hp. apply list_insert_id.
  by rewrite list_lookup_fmap, HE.
Qed.

Lemma newEdge_exact h (source dest : nref) s p :
  nodes h !! source = Some s →
  ('(h, e) ← AddEdge h source dest;
   h ← setEdgeMetadata h e "protocol" (VString p);
   Ok (h, e))
  = Ok (mkHeap (<[source := withEdges s (Edges s ++ [length (edges h)])]>
                  (nodes h))
               (edges h ++ [mkEdge source dest (<["protocol" := VString p]> ∅)]),
        length (edges h)).
Proof.
  intros Hs. unfold AddEdge. rewrite (getNode_Ok h source s Hs), ok_bind.
  simpl. unfold setEdgeMetadata, getEdge. simpl.
  rewrite lookup_app_r, Nat.sub_diag by done. simpl.
  unfold setEdge. simpl. do 2 f_equal.
  rewrite insert_app_r_alt, Nat.sub_diag by done. done.
Qed.

Lemma tcpEdges_setEdge h (e : eref) E E' :
  edges h !! e = Some E →
  EdgeMetadata E' !! "protocol" = EdgeMetadata E !! "protocol" →
  tcpEdges (setEdge h e E') = tcpEdges h.
Proof.
  intros HE Hp. unfold tcpEdges. simpl.
  rewrite <- (take_drop_middle (edges h) e E HE) at 2.
  rewrite insert_take_drop by by eapply lookup_lt_Some.
  rewrite !List.filter_app, !length_app. simpl. rewrite Hp.
  by destruct (ifaceIsString _ _).
Qed.

Lemma addToMetadataValue_Ok md k v md' :
  addToMetadataValue md k v = Ok md' → ∃ x, md' = <[k := VFloat x]> md.
Proof.
  unfold addToMetadataValue. destruct (md !! k) as [c|]; intros H; inv_ok;
    by eexists.
Qed.

(** The counter of its protocol is added to an edge that waits for
    it. *)
Lemma finish_edge h hm h' (tm : TrafficMap) (edge : eref) p val :
  wired (wiring h) →
  Forall (fun n => builtNode (Metadata n)) (nodes h) →
  (∀ (e : eref) E, edges h !! e = Some E → e ≠ edge →
     builtEdge (EdgeMetadata E)) →
  (∃ E, edges h !! edge = Some E ∧ pendingEdge p (EdgeMetadata E)) →
  p = "http" ∨ p = "tcp" →
  nodeStep h hm →
  addToEdgeMetadata hm edge p val = Ok h' →
  structured h' tm → typed h' →
  built (h', tm) ∧ tcpEdges h' = tcpEdges h.
Proof.
  intros Hw Hn He (E & HE & Hp & Ho) Hp' Hstep Hadd Hs Ht.
  pose proof Hstep as (Eq & L & N).
  assert (HEm : edges hm !! edge = Some E) by by rewrite Eq.
  assert (Hne : p ≠ "protocol") by by destruct Hp' as [->| ->].
  unfold addToEdgeMetadata, getEdge in Hadd. rewrite HEm, ok_bind in Hadd.
  apply bind_Ok in Hadd as (md & Hmd & Hadd). injection Hadd as <-.
  apply addToMetadataValue_Ok in Hmd as [x ->].
  set (E' := withEdgeMetadata E _) in *.
  assert (Hproto : EdgeMetadata E' !! "protocol" = EdgeMetadata E !! "protocol").
  { unfold E'. simpl. by rewrite lookup_insert_ne. }
  split.
  - split_and!; simpl; [done|done| | |].
    + rewrite (wiring_setEdge hm edge E E') by done.
      by rewrite (nodeStep_wiring h hm).
    + by eapply nodeStep_builtNode.
    + rewrite Eq. apply list.Forall_forall.
      intros E0 [e0 He0]%list_elem_of_lookup.
      destruct (decide (e0 = edge)) as [->|Hne0].
      * rewrite list_lookup_insert_eq in He0 by by eapply lookup_lt_Some.
        injection He0 as <-. unfold E'. simpl.
        exists p, x. split_and!; [done| |].
        -- split; [by rewrite lookup_insert_ne|].
           intros k Hk1 Hk2. rewrite lookup_insert_ne by done. by apply Ho.
        -- by rewrite lookup_insert_eq.
      * rewrite list_lookup_insert_ne in He0 by done. by eapply He.
  - rewrite (tcpEdges_setEdge hm edge E E') by done.
    unfold tcpEdges. by rewrite Eq.
Qed.

Lemma optional_misconfigured_frame (found : bool) h (node : nref) app version
    rate o h' :
  (if found then handleMisconfiguredLabels h node app version rate o
   else Ok h) = Ok h' →
  nodeStep h h'.
Proof.
  destruct found; [apply handleMisconfiguredLabels_frame|].
  intros [= <-]. apply nodeStep_refl.
Qed.

Lemma counters_frame h (source dest : nref) (edge : eref) (sf df : bool)
    sourceApp sourceVer destApp destVer val o kOut kIn kEdge h' :
  kOut ∈ nodeKeys → kIn ∈ nodeKeys →
  (h ← (if sf
        then handleMisconfiguredLabels h source sourceApp sourceVer val o
        else Ok h);
   h ← (if df
        then handleMisconfiguredLabels h dest destApp destVer val o
        else Ok h);
   h ← addToNodeMetadata h source kOut val;
   h ← addToNodeMetadata h dest kIn val;
   h ← addToEdgeMetadata h edge kEdge val;
   Ok h) = Ok h' →
  ∃ hm, nodeStep h hm ∧ addToEdgeMetadata hm edge kEdge val = Ok h'.
Proof.
  intros HkOut HkIn H.
  apply bind_Ok in H as (h1 & E1 & H). apply bind_Ok in H as (h2 & E2 & H).
  apply bind_Ok in H as (h3 & E3 & H). apply bind_Ok in H as (h4 & E4 & H).
  apply bind_Ok in H as (h5 & E5 & H). injection H as <-.
  exists h4. split; [|done].
  apply optional_misconfigured_frame in E1, E2.
  apply addToNodeMetadata_frame in E3, E4; try done.
  repeat (eapply nodeStep_trans; [eassumption|]). apply nodeStep_refl.
Qed.

Lemma elem_of_httpDests w es (x : nref) :
  x ∈ httpDests w es ↔
  ∃ (e : eref) t, e ∈ es ∧ w !! e = Some t ∧
    ifaceIsString t.2 "http" = true ∧ t.1.2 = x.
Proof.
  unfold httpDests. rewrite list_elem_of_omap. split.
  - intros (e & He & Hx). destruct (w !! e) as [t|] eqn:Ht; [|done].
    simpl in Hx. destruct (ifaceIsString t.2 "http") eqn:Hp; [|done].
    injection Hx as <-. by exists e, t.
  - intros (e & t & He & Ht & Hp & <-). exists e. split; [done|].
    rewrite Ht. simpl. by rewrite Hp.
Qed.

Lemma wiring_lookup h (e : eref) t :
  (wiring h).2 !! e = Some t ↔
  ∃ E, edges h !! e = Some E ∧
       t = (Source E, Dest E, EdgeMetadata E !! "protocol").
Proof.
  unfold wiring. simpl. rewrite list_lookup_fmap.
  destruct (edges h !! e) as [E|]; simpl; split.
  - intros [= <-]. by exists E.
  - intros (E' & [= <-] & ->). done.
  - done.
  - by intros (E' & ? & _).
Qed.

Lemma wired_newEdge h (tm : TrafficMap) (source dest : nref) s p :
  structured h tm → wired (wiring h) → nodes h !! source = Some s →
  (p = "http" → dest ∉ httpDests (wiring h).2 (Edges s)) →
  wired (wiring
           (mkHeap (<[source := withEdges s (Edges s ++ [length (edges h)])]>
                      (nodes h))
                   (edges h
                    ++ [mkEdge source dest (<["protocol" := VString p]> ∅)]))).
Proof.
  intros Hs Hw Hsn Hd.
  replace (wiring _)
    with (<[source := Edges s ++ [length (wiring h).2]]> (wiring h).1,
          (wiring h).2 ++ [(source, dest, Some (VString p))]).
  - apply wired_snoc_edge; try done.
    + unfold wiring. simpl. by rewrite list_lookup_fmap, Hsn.
    + by eapply structured_bounded.
  - unfold wiring. simpl. rewrite list_fmap_insert, fmap_app. simpl.
    by rewrite length_fmap, lookup_insert_eq.
Qed.

(** What [addHttpTraffic] and [addTcpTraffic] do once they have their
    two nodes, to a state of the builder. *)
Lemma traffic_tail h (tm : TrafficMap) (source dest : nref) (sf df : bool)
    sourceApp sourceVer destApp destVer destSvcName val o pk p kOut kIn :
  built (h, tm) →
  (source < length (nodes h))%nat → (dest < length (nodes h))%nat →
  (pk = "protocol" ∧ p = "http" ∧ kOut = "httpOut" ∧ kIn = "httpIn")
  ∨ (pk = "procotol" ∧ p = "tcp" ∧ kOut = "tcpOut" ∧ kIn = "tcpIn") →
  ∃ h' edge,
    (∀ B (K : Heap → eref → result B),
       (d ← getNode h dest;
        md ← addToDestServices (Metadata d) destSvcName;
        let h := setNode h dest (withMetadata d md) in
        s ← getNode h source;
        d ← getNode h dest;
        found ← findEdge h (Edges s) (ID d) pk p;
        '(h, edge) ← match found with
                     | Some e => Ok (h, e)
                     | None =>
                         '(h, e) ← AddEdge h source dest;
                         h ← setEdgeMetadata h e "protocol" (VString p);
                         Ok (h, e)
                     end;
        h ← (if sf
             then handleMisconfiguredLabels h source sourceApp sourceVer val o
             else Ok h);
        h ← (if df
             then handleMisconfiguredLabels h dest destApp destVer val o
             else Ok h);
        h ← addToNodeMetadata h source kOut val;
        h ← addToNodeMetadata h dest kIn val;
        h ← addToEdgeMetadata h edge p val;
        K h edge) = K h' edge) ∧
    built (h', tm) ∧
    length (nodes h') = length (nodes h) ∧
    (edge < length (edges h'))%nat ∧
    (∀ k, k ≠ "isMisconfigured" →
       totalN h' k
       = totalN h k + (if decide (kOut = k) then val else 0)
         + (if decide (kIn = k) then val else 0)) ∧
    (∀ k, k ≠ "protocol" →
       totalE h' k = totalE h k + (if decide (p = k) then val else 0)) ∧
    tcpEdges h' = (tcpEdges h + (if decide (p = "tcp") then 1 else 0))%nat.
Proof.
  intros (Hs & Ht & Hw & Hbn & Hbe) Hsrc Hdst Hcase. simpl in *.
  assert (Hp : p = "http" ∨ p = "tcp").
  { destruct Hcase as [(_ & -> & _)|(_ & -> & _)]; [by left|by right]. }
  assert (HkOut : kOut ∈ nodeCounterKeys ∧ kOut ∈ nodeKeys).
  { destruct Hcase as [(_ & _ & -> & _)|(_ & _ & -> & _)];
      split; by apply (bool_decide_unpack _). }
  assert (HkIn : kIn ∈ nodeCounterKeys ∧ kIn ∈ nodeKeys).
  { destruct Hcase as [(_ & _ & _ & ->)|(_ & _ & _ & ->)];
      split; by apply (bool_decide_unpack _). }
  assert (Hpk : p ∈ edgeCounterKeys).
  { destruct Hp as [->| ->]; by apply (bool_decide_unpack _). }
  assert (Hne : kOut ≠ kIn).
  { destruct Hcase as [(_ & _ & -> & ->)|(_ & _ & -> & ->)]; done. }
  destruct (destServices_step h dest destSvcName Ht Hdst)
    as (d & md & Ed & Emd & Sh3 & T3 & N3 & Et3).
  set (h3 := setNode h dest (withMetadata d md)) in *.
  destruct (sameShape_lengths h h3 Sh3) as [Ln3 Le3].
  pose proof (structured_sameShape h h3 tm Hs Sh3) as S3.
  assert (Hd : nodes h !! dest = Some d).
  { unfold getNode in Ed. by destruct (nodes h !! dest); simplify_eq. }
  assert (St3 : nodeStep h h3).
  { apply (nodeStep_setNode h dest d); try done.
    intros k Hk. simpl. apply (addToDestServices_frame _ _ _ Emd).
    intros ->. apply Hk. by apply (bool_decide_unpack _). }
  assert (is_Some (nodes h3 !! source)) as [s Hsn]
    by (apply lookup_lt_is_Some; lia).
  assert (is_Some (nodes h3 !! dest)) as [d3 Hdn]
    by (apply lookup_lt_is_Some; lia).
  destruct (findEdge_ok h3 tm (Edges s) (ID d3) pk p S3)
    as (found & Ef & Hfound).
  { apply list.Forall_forall. intros e He.
    by apply (structured_edge_lt h3 tm source s). }
  destruct (edge_step_ok h3 tm source dest p found S3 T3)
    as (h4 & edge & E4 & S4 & T4 & Ln4 & He4 & N4 & Et4); [lia|lia|done|].
  destruct (counters_ok h4 tm source dest edge sf df sourceApp sourceVer
              destApp destVer val o kOut kIn p S4 T4)
    as (h5 & E5 & Sh5 & T5 & N5 & Et5); try done; try lia;
    try (by destruct HkOut); try (by destruct HkIn).
  destruct (sameShape_lengths h4 h5 Sh5) as [Ln5 Le5].
  destruct (counters_frame h4 source dest edge sf df sourceApp sourceVer
              destApp destVer val o kOut kIn p h5)
    as (hm & Stm & Eadd); [by destruct HkOut|by destruct HkIn| |].
  { exact (E5 Heap (fun h => Ok h)). }
  assert (Hbe3 : Forall (fun E => builtEdge (EdgeMetadata E)) (edges h3))
    by done.
  assert (Hw3 : wired (wiring h3)) by by rewrite (nodeStep_wiring h h3).
  assert (Hbn3 : Forall (fun n => builtNode (Metadata n)) (nodes h3))
    by by eapply nodeStep_builtNode.
  assert (HJ : wired (wiring h4) ∧
               Forall (fun n => builtNode (Metadata n)) (nodes h4) ∧
               (∀ (e : eref) E, edges h4 !! e = Some E → e ≠ edge →
                  builtEdge (EdgeMetadata E)) ∧
               (∃ E, edges h4 !! edge = Some E ∧
                     pendingEdge p (EdgeMetadata E)) ∧
               tcpEdges h4
               = (tcpEdges h3 + (if decide (p = "tcp") then 1 else 0))%nat).
  { destruct found as [e|].
    - injection E4 as <- <-.
      destruct (findEdge_Some _ _ _ _ _ _ Ef)
        as (Hin & E & d' & HE & Hd' & Hid & Hproto).
      assert (builtEdge (EdgeMetadata E)) as (p' & x & Hp' & [Hpr Hoth] & Hx).
      { rewrite list.Forall_forall in Hbe3. apply (Hbe3 E).
        by eapply list_elem_of_lookup_2. }
      destruct Hcase as [(-> & -> & _)|(-> & -> & _)].
      + rewrite Hpr in Hproto. simpl in Hproto.
        apply bool_decide_eq_true in Hproto as ->.
        split_and!; try done.
        * intros e' E' HE' _. rewrite list.Forall_forall in Hbe3.
          apply Hbe3. by eapply list_elem_of_lookup_2.
        * by exists E.
      + rewrite Hoth in Hproto; [done|done|]. by destruct Hp' as [->| ->].
    - rewrite (newEdge_exact h3 source dest s p Hsn) in E4.
      injection E4 as <- <-.
      split_and!.
      + apply (wired_newEdge h3 tm); try done.
        intros -> (e & t & He & Hlk & Hproto & Hdest)%elem_of_httpDests.
        apply wiring_lookup in Hlk as (E & HE & ->). simpl in *.
        destruct Hcase as [(-> & _)|(_ & ? & _)]; [|done].
        rewrite (findEdge_None _ _ _ _ _ Ef e E d3) in Hproto; try done.
        by rewrite Hdest.
      + simpl. apply Forall_insert; [done|]. simpl.
        rewrite list.Forall_forall in Hbn3. apply (Hbn3 s).
        by eapply list_elem_of_lookup_2.
      + simpl. intros e E HE Hne'.
        apply lookup_app_Some in HE as [HE|[Hge HE]].
        * rewrite list.Forall_forall in Hbe3. apply Hbe3.
          by eapply list_elem_of_lookup_2.
        * apply list_lookup_singleton_Some in HE as [Hz _]. lia.
      + simpl. eexists. rewrite lookup_app_r, Nat.sub_diag by done.
        split; [done|]. simpl. split; [by rewrite lookup_insert_eq|].
        intros k Hk _. by rewrite lookup_insert_ne.
      + unfold tcpEdges. simpl. rewrite List.filter_app, length_app. simpl.
        rewrite lookup_insert_eq. simpl.
        destruct Hp as [->| ->]; done. }
  destruct HJ as (Hw4 & Hbn4 & Hbe4 & Hpe4 & Htcp4).
  destruct (finish_edge h4 hm h5 tm edge p val) as [Hb5 Htcp5]; try done.
  { by eapply structured_sameShape. }
  exists h5, edge. split_and!; try done.
  - intros B K. rewrite Ed, ok_bind, Emd, ok_bind.
    fold h3. cbv zeta.
    rewrite (getNode_Ok h3 source s Hsn), ok_bind.
    rewrite (getNode_Ok h3 dest d3 Hdn), ok_bind.
    rewrite Ef, ok_bind, E4, ok_bind.
    exact (E5 B (fun h => K h edge)).
  - lia.
  - lia.
  - intros k Hk. rewrite N5, N4, N3 by done. done.
  - intros k Hk. rewrite Et5, Et4, Et3 by done. done.
  - rewrite Htcp5, Htcp4. unfold tcpEdges. done.
Qed.

(** *** The builder, call by call *)

Lemma adds_refl h : adds h h 0 0 0.
Proof. unfold adds. split_and!; try ring. lia. Qed.

Lemma adds_trans h1 h2 h3 a b n a' b' n' :
  adds h1 h2 a b n → adds h2 h3 a' b' n' →
  adds h1 h3 (a + a') (b + b') (n + n').
Proof.
  unfold adds. intros (A1 & A2 & A3 & A4 & A5 & A6 & A7)
    (B1 & B2 & B3 & B4 & B5 & B6 & B7).
  rewrite B1, B2, B3, B4, B5, B6, B7, A1, A2, A3, A4, A5, A6, A7.
  split_and!; try ring. lia.
Qed.

Lemma addNode_built Id h (tm : TrafficMap) namespace workload app version
    service o :
  built (h, tm) →
  ∃ h' tm' r found,
    addNode Id h tm namespace workload app version service o
    = (h', tm', r, found) ∧
    built (h', tm') ∧ (r < length (nodes h'))%nat ∧
    (length (nodes h) ≤ length (nodes h'))%nat ∧
    (∀ k, totalN h' k = totalN h k) ∧ (∀ k, totalE h' k = totalE h k) ∧
    tcpEdges h' = tcpEdges h.
Proof.
  intros (Hs & Ht & Hw & Hbn & Hbe). simpl in *.
  destruct (addNode_ok Id h tm namespace workload app version service o Hs Ht)
    as (h' & tm' & r & found & E & S' & T' & R & L & Ed & N & Et).
  exists h', tm', r, found. split_and!; try done.
  - unfold addNode in E. destruct (Id _ _ _ _ _ _) as [id nodeType].
    destruct (tm !! id) as [node|]; simpl in E.
    + by simplify_eq.
    + injection E as <- <- <- <-. split_and!; simpl; try done.
      * replace (wiring _) with ((wiring h).1 ++ [[]], (wiring h).2).
        -- by apply wired_snoc_node.
        -- unfold wiring. simpl. by rewrite fmap_app.
      * apply list.Forall_app. split; [done|]. constructor; [|done].
        intros k _. simpl. apply lookup_empty.
  - unfold tcpEdges. by rewrite Ed.
Qed.

Lemma addHttpTraffic_built Id h (tm : TrafficMap) val
    sourceWlNs sourceWl sourceApp sourceVer sourceSvcName
    destSvcNs destWl destApp destVer destSvcName o :
  built (h, tm) →
  ∃ h' tm',
    addHttpTraffic Id h tm val "200" sourceWlNs sourceWl sourceApp sourceVer
      sourceSvcName destSvcNs destWl destApp destVer destSvcName o
    = Ok (h', tm') ∧
    built (h', tm') ∧ adds h h' val 0 0.
Proof.
  intros Hb. unfold addHttpTraffic.
  destruct (addNode_built Id h tm sourceWlNs sourceWl sourceApp sourceVer
              sourceSvcName o Hb)
    as (h1 & tm1 & source & sf & E1 & B1 & R1 & L1 & N1 & Et1 & C1).
  rewrite E1.
  destruct (addNode_built Id h1 tm1 destSvcNs destWl destApp destVer
              destSvcName o B1)
    as (h2 & tm2 & dest & df & E2 & B2 & R2 & L2 & N2 & Et2 & C2).
  rewrite E2.
  destruct (traffic_tail h2 tm2 source dest sf df sourceApp sourceVer destApp
              destVer destSvcName val o "protocol" "http" "httpOut" "httpIn"
              B2)
    as (h3 & edge & E3 & B3 & L3 & He3 & N3 & Et3 & C3); [lia|done| |].
  { by left. }
  exists h3, tm2. split_and!; [|done|].
  - by rewrite E3.
  - unfold adds. rewrite !N3, !Et3, !N2, !Et2, !N1, !Et1, C3, C2, C1 by done.
    simpl. split_and!; try ring. lia.
Qed.

Lemma addTcpTraffic_built Id h (tm : TrafficMap) val
    sourceWlNs sourceWl sourceApp sourceVer sourceSvcName
    destSvcNs destWl destApp destVer destSvcName o :
  built (h, tm) →
  ∃ h' tm',
    addTcpTraffic Id h tm val sourceWlNs sourceWl sourceApp sourceVer
      sourceSvcName destSvcNs destWl destApp destVer destSvcName o
    = Ok (h', tm') ∧
    built (h', tm') ∧ adds h h' 0 val 1.
Proof.
  intros Hb. unfold addTcpTraffic.
  destruct (addNode_built Id h tm sourceWlNs sourceWl sourceApp sourceVer
              sourceSvcName o Hb)
    as (h1 & tm1 & source & sf & E1 & B1 & R1 & L1 & N1 & Et1 & C1).
  rewrite E1.
  destruct (addNode_built Id h1 tm1 destSvcNs destWl destApp destVer
              destSvcName o B1)
    as (h2 & tm2 & dest & df & E2 & B2 & R2 & L2 & N2 & Et2 & C2).
  rewrite E2.
  destruct (traffic_tail h2 tm2 source dest sf df sourceApp sourceVer destApp
              destVer destSvcName val o "procotol" "tcp" "tcpOut" "tcpIn"
              B2)
    as (h3 & edge & E3 & B3 & L3 & He3 & N3 & Et3 & C3); [lia|done| |].
  { by right. }
  exists h3, tm2. split_and!; [|done|].
  - by rewrite E3.
  - unfold adds. rewrite !N3, !Et3, !N2, !Et2, !N1, !Et1, C3, C2, C1 by done.
    simpl. split_and!; try ring. lia.
Qed.

Lemma completeHttp_true s :
  completeHttp s = true ↔
  is_Some (Metric s !! "namespace") ∧ is_Some (Metric s !! "deployment") ∧
  is_Some (Metric s !! "dst_namespace") ∧ is_Some (Metric s !! "dst_service") ∧
  is_Some (Metric s !! "dst_deployment").
Proof.
  unfold completeHttp. rewrite bool_decide_eq_true.
  rewrite !list.Forall_cons, list.Forall_nil. tauto.
Qed.

Lemma Qcnat_1 : Qcnat 1 = 1.
Proof. by apply Qc_is_canon. Qed.

Lemma Qcnat_2 : Qcnat 2 = 1 + 1.
Proof. by apply Qc_is_canon. Qed.

Lemma populateHttpSample_built Id o h (tm : TrafficMap) (s : Sample) :
  built (h, tm) →
  ∃ h' tm', populateHttpSample Id o (h, tm) s = Ok (h', tm') ∧
    built (h', tm') ∧ adds h h' (Qcnat (httpHops Id o s) * Value s) 0 0.
Proof.
  intros Hb.
  assert (Hskip : completeHttp s = false →
            ∃ h' tm', Ok (h, tm) = Ok (h', tm') ∧ built (h', tm') ∧
              adds h h' (Qcnat (httpHops Id o s) * Value s) 0 0).
  { intros Hc. exists h, tm. split_and!; [done|done|].
    unfold httpHops. rewrite Hc, Qcnat_0.
    replace (0 * Value s) with 0 by ring. apply adds_refl. }
  unfold populateHttpSample.
  destruct (Metric s !! "namespace") as [sourceWlNs|] eqn:E1;
    [|apply Hskip, not_true_is_false; rewrite completeHttp_true, E1;
      by intros ([] & _)].
  destruct (Metric s !! "deployment") as [sourceWl|] eqn:E2;
    [|apply Hskip, not_true_is_false; rewrite completeHttp_true, E2;
      by intros (_ & [] & _)].
  destruct (Metric s !! "dst_namespace") as [destSvcNs|] eqn:E3;
    [|apply Hskip, not_true_is_false; rewrite completeHttp_true, E3;
      by intros (_ & _ & [] & _)].
  destruct (Metric s !! "dst_service") as [destSvcName|] eqn:E4;
    [|apply Hskip, not_true_is_false; rewrite completeHttp_true, E4;
      by intros (_ & _ & _ & [] & _)].
  destruct (Metric s !! "dst_deployment") as [destWl|] eqn:E5;
    [|apply Hskip, not_true_is_false; rewrite completeHttp_true, E5;
      by intros (_ & _ & _ & _ & [])].
  assert (Hc : completeHttp s = true).
  { apply completeHttp_true. rewrite E1, E2, E3, E4, E5. by split_and!. }
  unfold httpHops, label. rewrite Hc, E3, E4, E5. simpl default.
  assert (Hone : ∀ a b c d e f g i j k,
            ∃ h' tm', addHttpTraffic Id h tm (Value s) "200" a b c d e f g i j k o
                      = Ok (h', tm') ∧
              built (h', tm') ∧ adds h h' (Qcnat 1 * Value s) 0 0).
  { intros. rewrite Qcnat_1.
    replace (1 * Value s) with (Value s) by ring.
    by apply addHttpTraffic_built. }
  destruct (InjectServiceNodes o); [|apply Hone].
  destruct (Id _ _ _ _ _ _) as [? destNodeType]. simpl.
  case_bool_decide; [|apply Hone].
  destruct (addHttpTraffic_built Id h tm (Value s) sourceWlNs sourceWl
              "Unknown" "Unknown" "" destSvcNs "" "" "" destSvcName o Hb)
    as (h1 & tm1 & Eq1 & B1 & A1).
  rewrite Eq1, ok_bind.
  destruct (addHttpTraffic_built Id h1 tm1 (Value s) destSvcNs "" "" ""
              destSvcName destSvcNs destWl "Unknown" "Unknown" destSvcName o
              B1)
    as (h2 & tm2 & Eq2 & B2 & A2).
  exists h2, tm2. split_and!; [done|done|].
  pose proof (adds_trans _ _ _ _ _ _ _ _ _ A1 A2) as A.
  rewrite Qcnat_2.
  replace ((1 + 1) * Value s) with (Value s + Value s) by ring.
  by replace (0 + 0) with 0 in A by ring.
Qed.

Lemma completeTcp_true s :
  completeTcp s = true ↔
  is_Some (Metric s !! "source_workload_namespace") ∧
  is_Some (Metric s !! "source_workload") ∧
  is_Some (Metric s !! "source_app") ∧
  is_Some (Metric s !! "source_version") ∧
  is_Some (Metric s !! "destination_service_name") ∧
  is_Some (Metric s !! "destination_workload") ∧
  is_Some (Metric s !! "destination_app") ∧
  is_Some (Metric s !! "destination_version") ∧
  is_Some (match Metric s !! "destination_service_namespace" with
           | Some l => Some l
           | None => Metric s !! "destination_workload_namespace"
           end).
Proof.
  unfold completeTcp. rewrite andb_true_iff, !bool_decide_eq_true.
  rewrite !list.Forall_cons, list.Forall_nil.
  destruct (Metric s !! "destination_service_namespace") eqn:E.
  - assert (is_Some (Some s0)) by by eexists. tauto.
  - assert (¬ is_Some (None : option string)) by by intros []. tauto.
Qed.

Lemma withServiceNamespace_label s l :
  l ≠ "destination_service_namespace" →
  label (withServiceNamespace s) l = label s l.
Proof.
  intros Hl. unfold withServiceNamespace, label.
  destruct (Metric s !! "destination_service_namespace"); [done|].
  destruct (Metric s !! "destination_workload_namespace"); [|done].
  simpl. by rewrite lookup_insert_ne.
Qed.

Lemma withServiceNamespace_namespace s :
  Metric (withServiceNamespace s) !! "destination_service_namespace"
  = match Metric s !! "destination_service_namespace" with
    | Some l => Some l
    | None => Metric s !! "destination_workload_namespace"
    end.
Proof.
  unfold withServiceNamespace.
  destruct (Metric s !! "destination_service_namespace") eqn:E1; [done|].
  destruct (Metric s !! "destination_workload_namespace") eqn:E2; [|done].
  simpl. by rewrite lookup_insert_eq.
Qed.

Lemma populateTcpSample_built Id IsOK o h (tm : TrafficMap) (s : Sample) :
  built (h, tm) →
  ∃ h' tm', populateTcpSample Id IsOK o (h, tm) s = Ok (h', tm') ∧
    built (h', tm') ∧
    adds h h' 0 (Qcnat (tcpHops Id IsOK o s) * Value s) (tcpHops Id IsOK o s).
Proof.
  intros Hb.
  assert (Hskip : completeTcp s = false →
            ∃ h' tm', Ok (h, tm) = Ok (h', tm') ∧ built (h', tm') ∧
              adds h h' 0 (Qcnat (tcpHops Id IsOK o s) * Value s)
                   (tcpHops Id IsOK o s)).
  { intros Hc. exists h, tm. split_and!; [done|done|].
    unfold tcpHops. rewrite Hc, Qcnat_0.
    replace (0 * Value s) with 0 by ring. apply adds_refl. }
  unfold populateTcpSample. cbv zeta.
  destruct (Metric s !! "source_workload_namespace") as [sourceWlNs|] eqn:E1;
    [|apply Hskip, not_true_is_false; rewrite completeTcp_true, E1;
      by intros ([] & _)].
  destruct (Metric s !! "source_workload") as [sourceWl|] eqn:E2;
    [|apply Hskip, not_true_is_false; rewrite completeTcp_true, E2;
      by intros (_ & [] & _)].
  destruct (Metric s !! "source_app") as [sourceApp|] eqn:E3;
    [|apply Hskip, not_true_is_false; rewrite completeTcp_true, E3;
      by intros (_ & _ & [] & _)].
  destruct (Metric s !! "source_version") as [sourceVer|] eqn:E4;
    [|apply Hskip, not_true_is_false; rewrite completeTcp_true, E4;
      by intros (_ & _ & _ & [] & _)].
  destruct (match Metric s !! "destination_service_namespace" with
            | Some l => Some l
            | None => Metric s !! "destination_workload_namespace"
            end) as [destSvcNs|] eqn:E5;
    [|apply Hskip, not_true_is_false; rewrite completeTcp_true, E5;
      by intros (_ & _ & _ & _ & _ & _ & _ & _ & [])].
  destruct (Metric s !! "destination_service_name") as [destSvcName|] eqn:E6;
    [|apply Hskip, not_true_is_false; rewrite completeTcp_true, E6;
      by intros (_ & _ & _ & _ & [] & _)].
  destruct (Metric s !! "destination_workload") as [destWl|] eqn:E7;
    [|apply Hskip, not_true_is_false; rewrite completeTcp_true, E7;
      by intros (_ & _ & _ & _ & _ & [] & _)].
  destruct (Metric s !! "destination_app") as [destApp|] eqn:E8;
    [|apply Hskip, not_true_is_false; rewrite completeTcp_true, E8;
      by intros (_ & _ & _ & _ & _ & _ & [] & _)].
  destruct (Metric s !! "destination_version") as [destVer|] eqn:E9;
    [|apply Hskip, not_true_is_false; rewrite completeTcp_true, E9;
      by intros (_ & _ & _ & _ & _ & _ & _ & [] & _)].
  assert (Hc : completeTcp s = true).
  { apply completeTcp_true. rewrite E1, E2, E3, E4, E5, E6, E7, E8, E9.
    by split_and!. }
  unfold tcpHops. rewrite Hc. cbv zeta.
  rewrite (withServiceNamespace_label s "destination_service_name") by done.
  rewrite (withServiceNamespace_label s "destination_workload") by done.
  rewrite (withServiceNamespace_label s "destination_app") by done.
  rewrite (withServiceNamespace_label s "destination_version") by done.
  unfold label. rewrite withServiceNamespace_namespace, E5, E6, E7, E8, E9.
  simpl default.
  assert (Hone : ∀ a b c d e f g i j k,
            ∃ h' tm', addTcpTraffic Id h tm (Value s) a b c d e f g i j k o
                      = Ok (h', tm') ∧
              built (h', tm') ∧ adds h h' 0 (Qcnat 1 * Value s) 1).
  { intros. rewrite Qcnat_1.
    replace (1 * Value s) with (Value s) by ring.
    by apply addTcpTraffic_built. }
  destruct (InjectServiceNodes o); [|apply Hone].
  destruct (Id _ _ _ _ _ _) as [? destNodeType]. simpl.
  destruct (IsOK destSvcName && bool_decide (destNodeType ≠ NodeTypeService));
    [|apply Hone].
  destruct (addTcpTraffic_built Id h tm (Value s) sourceWlNs sourceWl
              sourceApp sourceVer "" destSvcNs "" "" "" destSvcName o Hb)
    as (h1 & tm1 & Eq1 & B1 & A1).
  rewrite Eq1, ok_bind.
  destruct (addTcpTraffic_built Id h1 tm1 (Value s) destSvcNs "" "" ""
              destSvcName destSvcNs destWl destApp destVer destSvcName o B1)
    as (h2 & tm2 & Eq2 & B2 & A2).
  exists h2, tm2. split_and!; [done|done|].
  pose proof (adds_trans _ _ _ _ _ _ _ _ _ A1 A2) as A.
  rewrite Qcnat_2.
  replace ((1 + 1) * Value s) with (Value s + Value s) by ring.
  by replace (0 + 0) with 0 in A by ring.
Qed.

(** *** The builder, vector by vector *)

Lemma forM_adds {A} (body : Heap * TrafficMap → A → result (Heap * TrafficMap))
    (fa fb : A → Qc) (fn : A → nat) xs :
  (∀ st x, built st →
     ∃ st', body st x = Ok st' ∧ built st' ∧
            adds st.1 st'.1 (fa x) (fb x) (fn x)) →
  ∀ st, built st →
    ∃ st', forM body xs st = Ok st' ∧ built st' ∧
      adds st.1 st'.1 (Qcsum (fa <$> xs)) (Qcsum (fb <$> xs))
           (sum_list (fn <$> xs)).
Proof.
  intros Hbody. induction xs as [|x xs IH]; intros st Hst.
  - exists st. split_and!; [done|done|]. apply adds_refl.
  - destruct (Hbody st x Hst) as (st1 & E1 & B1 & A1).
    destruct (IH st1 B1) as (st' & E' & B' & A').
    exists st'. rewrite forM_cons, E1. split_and!; [done|done|].
    simpl. by eapply adds_trans.
Qed.

Lemma Qcsum_zero {A} (xs : list A) : Qcsum ((fun _ => 0) <$> xs) = 0.
Proof.
  induction xs as [|x xs IH]; [done|].
  change (0 + Qcsum ((fun _ : A => 0) <$> xs) = 0). rewrite IH. ring.
Qed.

Lemma sum_list_zero {A} (xs : list A) : sum_list ((fun _ => 0%nat) <$> xs) = 0%nat.
Proof. induction xs as [|x xs IH]; [done|]. exact IH. Qed.

Lemma populateTrafficMapHttp_built Id h (tm : TrafficMap) vector o :
  built (h, tm) →
  ∃ h' tm', populateTrafficMapHttp Id h tm vector o = Ok (h', tm') ∧
    built (h', tm') ∧ adds h h' (traffic (httpHops Id o) vector) 0 0.
Proof.
  intros Hb. unfold populateTrafficMapHttp.
  destruct (forM_adds (populateHttpSample Id o)
              (fun s => Qcnat (httpHops Id o s) * Value s) (fun _ => 0)
              (fun _ => 0%nat) vector) with (st := (h, tm))
    as ([h' tm'] & E & B & A); [|done|].
  - intros [h1 tm1] s B1.
    destruct (populateHttpSample_built Id o h1 tm1 s B1)
      as (h2 & tm2 & E2 & B2 & A2).
    by exists (h2, tm2).
  - exists h', tm'. split_and!; [done|done|].
    by rewrite Qcsum_zero, sum_list_zero in A.
Qed.

Lemma populateTrafficMapTcp_built Id IsOK h (tm : TrafficMap) vector o :
  built (h, tm) →
  ∃ h' tm', populateTrafficMapTcp Id IsOK h tm vector o = Ok (h', tm') ∧
    built (h', tm') ∧
    adds h h' 0 (traffic (tcpHops Id IsOK o) vector)
         (sum_list (tcpHops Id IsOK o <$> vector)).
Proof.
  intros Hb. unfold populateTrafficMapTcp.
  destruct (forM_adds (populateTcpSample Id IsOK o) (fun _ => 0)
              (fun s => Qcnat (tcpHops Id IsOK o s) * Value s)
              (tcpHops Id IsOK o) vector) with (st := (h, tm))
    as ([h' tm'] & E & B & A); [|done|].
  - intros [h1 tm1] s B1.
    destruct (populateTcpSample_built Id IsOK o h1 tm1 s B1)
      as (h2 & tm2 & E2 & B2 & A2).
    by exists (h2, tm2).
  - exists h', tm'. split_and!; [done|done|].
    by rewrite Qcsum_zero in A.
Qed.

Lemma built_empty : built (emptyHeap, ∅).
Proof.
  destruct builderInv_empty as (S & T & _).
  split_and!; simpl; try done.
Qed.

Lemma buildNamespaceTrafficMap_built Id IsOK httpVectors tcpVectors o :
  ∃ h tm,
    buildNamespaceTrafficMap Id IsOK httpVectors tcpVectors o = Ok (h, tm) ∧
    built (h, tm) ∧
    adds emptyHeap h
         (Qcsum (traffic (httpHops Id o) <$> httpVectors))
         (Qcsum (traffic (tcpHops Id IsOK o) <$> tcpVectors))
         (sum_list ((fun v => sum_list (tcpHops Id IsOK o <$> v))
                    <$> tcpVectors)).
Proof.
  unfold buildNamespaceTrafficMap.
  destruct (forM_adds (fun '(h, tm) v => populateTrafficMapHttp Id h tm v o)
              (traffic (httpHops Id o)) (fun _ => 0) (fun _ => 0%nat)
              httpVectors) with (st := (emptyHeap, (∅ : TrafficMap)))
    as ([h1 tm1] & E1 & B1 & A1); [|apply built_empty|].
  { intros [h tm] v B.
    destruct (populateTrafficMapHttp_built Id h tm v o B)
      as (h' & tm' & E & B' & A).
    by exists (h', tm'). }
  rewrite E1, ok_bind.
  destruct (forM_adds (fun '(h, tm) v => populateTrafficMapTcp Id IsOK h tm v o)
              (fun _ => 0) (traffic (tcpHops Id IsOK o))
              (fun v => sum_list (tcpHops Id IsOK o <$> v))
              tcpVectors) with (st := (h1, tm1))
    as ([h2 tm2] & E2 & B2 & A2); [|done|].
  { intros [h tm] v B.
    destruct (populateTrafficMapTcp_built Id IsOK h tm v o B)
      as (h' & tm' & E & B' & A).
    by exists (h', tm'). }
  exists h2, tm2. split_and!; [done|done|].
  rewrite Qcsum_zero, sum_list_zero in A1. rewrite Qcsum_zero in A2.
  pose proof (adds_trans _ _ _ _ _ _ _ _ _ A1 A2) as A. simpl in A.
  replace (Qcsum (traffic (httpHops Id o) <$> httpVectors) + 0)
    with (Qcsum (traffic (httpHops Id o) <$> httpVectors)) in A by ring.
  by replace (0 + Qcsum (traffic (tcpHops Id IsOK o) <$> tcpVectors))
    with (Qcsum (traffic (tcpHops Id IsOK o) <$> tcpVectors)) in A by ring.
Qed.

Lemma NoDup_omap_lookup {A B} (f : A → option B) (l : list A) :
  ∀ (i j : nat) a b x y,
    NoDup (omap f l) → l !! i = Some a → l !! j = Some b → i ≠ j →
    f a = Some x → f b = Some y → x ≠ y.
Proof.
  induction l as [|c l IH]; intros i j a b x y Hnd Hi Hj Hij Hx Hy; [done|].
  assert (Hin : ∀ (k : nat) z w, l !! k = Some z → f z = Some w →
                  w ∈ omap f l).
  { intros k z w Hk Hw. apply list_elem_of_omap. exists z.
    split; [by eapply list_elem_of_lookup_2|done]. }
  destruct i as [|i], j as [|j]; simpl in *; simplify_eq.
  - rewrite Hx in Hnd. apply list.NoDup_cons in Hnd as [Hnin _].
    intros ->. apply Hnin. by eapply Hin.
  - rewrite Hy in Hnd. apply list.NoDup_cons in Hnd as [Hnin _].
    intros ->. apply Hnin. by eapply Hin.
  - apply (IH i j a b x y); try done; [|congruence].
    destruct (f c); [by apply list.NoDup_cons in Hnd as [_ ?]|done].
Qed.

Section BuilderOutput.
Variable Id : string → string → string → string → string → string
              → string * string.
Variable IsOK : string → bool.
Variables httpVectors tcpVectors : list (list Sample).
Variable o : Options.

(** X10. In the traffic map the builder returns every key is the id of
    the node it points to, every outgoing edge of a node has that node
    for its source, and its destination is a node of the map, found
    under its own id. *)
Theorem builder_output_wired :
  ∃ h tm,
    buildNamespaceTrafficMap Id IsOK httpVectors tcpVectors o = Ok (h, tm) ∧
    ∀ id (r : nref), tm !! id = Some r →
      ∃ n, nodes h !! r = Some n ∧ ID n = id ∧
        ∀ e : eref, e ∈ Edges n →
          ∃ E d, edges h !! e = Some E ∧ Source E = r ∧
                 nodes h !! Dest E = Some d ∧ tm !! ID d = Some (Dest E).
Proof.
  destruct (buildNamespaceTrafficMap_built Id IsOK httpVectors tcpVectors o)
    as (h & tm & E & (Hs & _ & [Ho _] & _) & _). simpl in *.
  exists h, tm. split; [done|]. intros id r Hr.
  pose proof Hs as (K & S & P & D).
  destruct (keyed_lookup h tm id r K Hr) as (n & Hn & Hid).
  exists n. split_and!; [done|done|]. intros e He.
  assert (is_Some (edges h !! e)) as [Ee HEe].
  { apply lookup_lt_is_Some. by eapply structured_edge_lt. }
  assert (is_Some (nodes h !! Dest Ee)) as [d Hd].
  { apply lookup_lt_is_Some. rewrite list.Forall_forall in D.
    by apply (D Ee); eapply list_elem_of_lookup_2. }
  exists Ee, d. split_and!; [done| |done|by apply S].
  apply (Ho r (Edges n) e (Source Ee, Dest Ee, EdgeMetadata Ee !! "protocol"));
    [|done|].
  - by rewrite list_lookup_fmap, Hn.
  - by rewrite list_lookup_fmap, HEe.
Qed.

(** X11. Every edge the builder returns carries its protocol, ["http"]
    or ["tcp"], the counter of that name, and nothing else. *)
Theorem builder_edge_metadata :
  ∃ h tm,
    buildNamespaceTrafficMap Id IsOK httpVectors tcpVectors o = Ok (h, tm) ∧
    ∀ id (r : nref) n (e : eref),
      tm !! id = Some r → nodes h !! r = Some n → e ∈ Edges n →
      ∃ E p x, edges h !! e = Some E ∧ (p = "http" ∨ p = "tcp") ∧
        EdgeMetadata E !! "protocol" = Some (VString p) ∧
        EdgeMetadata E !! p = Some (VFloat x) ∧
        ∀ k, k ≠ "protocol" → k ≠ p → EdgeMetadata E !! k = None.
Proof.
  destruct (buildNamespaceTrafficMap_built Id IsOK httpVectors tcpVectors o)
    as (h & tm & E & (Hs & _ & _ & _ & Hbe) & _). simpl in *.
  exists h, tm. split; [done|]. intros id r n e Hr Hn He.
  assert (is_Some (edges h !! e)) as [Ee HEe].
  { apply lookup_lt_is_Some. by eapply structured_edge_lt. }
  rewrite list.Forall_forall in Hbe.
  destruct (Hbe Ee) as (p & x & Hp & [Hpr Ho] & Hx);
    [by eapply list_elem_of_lookup_2|].
  by exists Ee, p, x.
Qed.

(** X12. The builder never writes a response-code bucket: no node of the
    map it returns has [httpIn3xx], [httpIn4xx] or [httpIn5xx], no edge
    has [http3xx], [http4xx] or [http5xx], whatever the telemetry
    returned. *)
Theorem builder_never_buckets :
  ∃ h tm,
    buildNamespaceTrafficMap Id IsOK httpVectors tcpVectors o = Ok (h, tm) ∧
    ∀ id (r : nref) n, tm !! id = Some r → nodes h !! r = Some n →
      (∀ k, k ∈ ["httpIn3xx"; "httpIn4xx"; "httpIn5xx"] →
            Metadata n !! k = None) ∧
      (∀ (e : eref) E k, e ∈ Edges n → edges h !! e = Some E →
         k ∈ ["http3xx"; "http4xx"; "http5xx"] → EdgeMetadata E !! k = None).
Proof.
  destruct (buildNamespaceTrafficMap_built Id IsOK httpVectors tcpVectors o)
    as (h & tm & E & (Hs & _ & _ & Hbn & Hbe) & _). simpl in *.
  exists h, tm. split; [done|]. intros id r n Hr Hn.
  rewrite list.Forall_forall in Hbn. rewrite list.Forall_forall in Hbe.
  split.
  - intros k Hk. apply (Hbn n); [by eapply list_elem_of_lookup_2|].
    rewrite !elem_of_cons, elem_of_nil in Hk.
    destruct Hk as [->|[->|[->|[]]]];
      by apply (bool_decide_eq_false_1 (_ ∈ nodeKeys)).
  - intros e Ee k He HE Hk.
    destruct (Hbe Ee) as (p & x & Hp & [_ Ho] & _);
      [by eapply list_elem_of_lookup_2|].
    rewrite !elem_of_cons, elem_of_nil in Hk.
    destruct Hk as [->|[->|[->|[]]]]; apply Ho; try done;
      by destruct Hp as [->| ->].
Qed.

(** X13. No node of the map the builder returns has two ["http"] edges
    to the same destination id. *)
Theorem builder_http_edges_unique :
  ∃ h tm,
    buildNamespaceTrafficMap Id IsOK httpVectors tcpVectors o = Ok (h, tm) ∧
    ∀ id (r : nref) n (i j : nat) (e1 e2 : eref) E1 E2 d1 d2,
      tm !! id = Some r → nodes h !! r = Some n →
      Edges n !! i = Some e1 → Edges n !! j = Some e2 → i ≠ j →
      edges h !! e1 = Some E1 → edges h !! e2 = Some E2 →
      EdgeMetadata E1 !! "protocol" = Some (VString "http") →
      EdgeMetadata E2 !! "protocol" = Some (VString "http") →
      nodes h !! Dest E1 = Some d1 → nodes h !! Dest E2 = Some d2 →
      ID d1 ≠ ID d2.
Proof.
  destruct (buildNamespaceTrafficMap_built Id IsOK httpVectors tcpVectors o)
    as (h & tm & E & (Hs & _ & [_ Hu] & _) & _). simpl in *.
  exists h, tm. split; [done|].
  intros id r n i j e1 e2 E1 E2 d1 d2 Hr Hn Hi Hj Hij HE1 HE2 Hp1 Hp2 Hd1 Hd2
    Heq.
  rewrite list.Forall_forall in Hu.
  assert (Hnd : NoDup (httpDests (wiring h).2 (Edges n))).
  { apply Hu. apply list_elem_of_fmap. exists n. split; [done|].
    by eapply list_elem_of_lookup_2. }
  destruct Hs as (_ & S & _).
  assert (Dest E1 = Dest E2) as Hdd.
  { pose proof (S _ _ Hd1) as H1. pose proof (S _ _ Hd2) as H2.
    rewrite Heq in H1. congruence. }
  revert Hdd.
  apply (NoDup_omap_lookup _ (Edges n) i j e1 e2 _ _ Hnd Hi Hj Hij).
  - unfold wiring. simpl. rewrite list_lookup_fmap, HE1. simpl.
    by rewrite Hp1.
  - unfold wiring. simpl. rewrite list_lookup_fmap, HE2. simpl.
    by rewrite Hp2.
Qed.

(** X14. [addTcpTraffic] never reuses an edge: the builder returns as
    many ["tcp"] edges as it made calls of [addTcpTraffic], one for each
    complete TCP sample and two when a service node is injected; each
    of them is an outgoing edge of its source, a node of the map. *)
Theorem tcp_edge_for_every_sample :
  ∃ h tm,
    buildNamespaceTrafficMap Id IsOK httpVectors tcpVectors o = Ok (h, tm) ∧
    tcpEdges h
    = sum_list ((fun v => sum_list (tcpHops Id IsOK o <$> v)) <$> tcpVectors) ∧
    ∀ (e : eref) E, edges h !! e = Some E →
      ∃ n, tm !! ID n = Some (Source E) ∧ nodes h !! Source E = Some n ∧
           e ∈ Edges n.
Proof.
  destruct (buildNamespaceTrafficMap_built Id IsOK httpVectors tcpVectors o)
    as (h & tm & E & (Hs & _ & [Ho _] & _) & A). simpl in *.
  exists h, tm. split_and!; [done| |].
  - by destruct A as (_ & _ & _ & _ & _ & _ & ->).
  - intros e Ee HEe. destruct Hs as (K & S & P & D).
    assert (Hin : e ∈ concat (Edges <$> nodes h)).
    { rewrite P. apply elem_of_seq. apply lookup_lt_Some in HEe. lia. }
    apply list_elem_of_In, in_concat in Hin as (es & Hes & He).
    apply list_elem_of_In, list_elem_of_fmap in Hes as (n & -> & Hn).
    apply list_elem_of_In in He.
    apply list_elem_of_lookup in Hn as [r Hr].
    assert (Source Ee = r) as ->.
    { apply (Ho r (Edges n) e
               (Source Ee, Dest Ee, EdgeMetadata Ee !! "protocol"));
        [|done|].
      - by rewrite list_lookup_fmap, Hr.
      - by rewrite list_lookup_fmap, HEe. }
    exists n. split_and!; [by apply S|done|done].
Qed.

End BuilderOutput.

(** ** The merged map *)

Lemma edgesOnly_refl h : edgesOnly h h.
Proof. split; [done|]. intros r n Hn. exists n. split; [done|]. by destruct n. Qed.

Lemma edgesOnly_trans h1 h2 h3 :
  edgesOnly h1 h2 → edgesOnly h2 h3 → edgesOnly h1 h3.
Proof.
  intros [L1 N1] [L2 N2]. split; [congruence|]. intros r n Hn.
  destruct (N1 r n Hn) as (n1 & Hn1 & H1).
  destruct (N2 r _ Hn1) as (n2 & Hn2 & H2).
  exists n2. split; [done|]. etrans; [exact H2|]. by rewrite H1.
Qed.

Lemma edgesOnly_setNode h (r : nref) n es :
  nodes h !! r = Some n → edgesOnly h (setNode h r (withEdges n es)).
Proof.
  intros Hn. split; [simpl; by rewrite length_insert|].
  intros r0 n0 Hn0. simpl. destruct (decide (r0 = r)) as [->|Hne].
  - rewrite list_lookup_insert_eq by by eapply lookup_lt_Some.
    simplify_eq. by eexists.
  - rewrite list_lookup_insert_ne by done. exists n0. split; [done|].
    by destruct n0.
Qed.

Lemma edgesOnly_Namespace h h' (r : nref) :
  edgesOnly h h' →
  Namespace <$> nodes h' !! r = Namespace <$> nodes h !! r.
Proof.
  intros [L N]. destruct (nodes h !! r) as [n|] eqn:Hn.
  - destruct (N r n Hn) as (n' & Hn' & H). rewrite Hn'. simpl. by rewrite H.
  - apply lookup_ge_None in Hn. rewrite <- L in Hn.
    apply lookup_ge_None in Hn. by rewrite Hn.
Qed.

Lemma mergeEdge_edgesOnly node h e h' :
  mergeEdge node h e = Ok h' → edgesOnly h h'.
Proof.
  unfold mergeEdge. intros H.
  apply bind_Ok in H as (n & Hn & H). apply bind_Ok in H as (dup & _ & H).
  unfold getNode in Hn. destruct (nodes h !! node) as [n0|] eqn:Hn0; [|done].
  injection Hn as ->. destruct dup; injection H as <-.
  - apply edgesOnly_refl.
  - by apply edgesOnly_setNode.
Qed.

Lemma forM_edgesOnly {A} (body : Heap → A → result Heap) xs :
  (∀ h x h', body h x = Ok h' → edgesOnly h h') →
  ∀ h h', forM body xs h = Ok h' → edgesOnly h h'.
Proof.
  intros Hbody. induction xs as [|x xs IH]; intros h h' H.
  - injection H as <-. apply edgesOnly_refl.
  - rewrite forM_cons in H. apply bind_Ok in H as (h1 & E1 & H).
    eapply edgesOnly_trans; [by eapply Hbody|by eapply IH].
Qed.

Lemma mergeNode_entry ns h (G : TrafficMap) k p h' G' :
  mergeNode ns (h, G) (k, p) = Ok (h', G') →
  edgesOnly h h' ∧
  G' !! k = mergedEntry h ns (G !! k) (Some p) ∧
  ∀ k', k' ≠ k → G' !! k' = G !! k'.
Proof.
  unfold mergeNode, mergedEntry. intros H.
  destruct (G !! k) as [g|] eqn:Hg.
  - apply bind_Ok in H as (N & HN & H).
    unfold getNode in HN. destruct (nodes h !! p) as [N0|] eqn:HN0; [|done].
    injection HN as ->. simpl.
    destruct (decide (Namespace N = ns)) as [Hns|Hns].
    + rewrite (bool_decide_eq_true_2 _ Hns) in H.
      rewrite (bool_decide_eq_true_2 (Some (Namespace N) = Some ns))
        by by rewrite Hns.
      apply bind_Ok in H as (L & HL & H). apply bind_Ok in H as (h1 & Hm & H).
      injection H as <- <-. split_and!.
      * eapply forM_edgesOnly; [|exact Hm]. intros. by eapply mergeEdge_edgesOnly.
      * by rewrite lookup_insert_eq.
      * intros k' Hk'. by rewrite lookup_insert_ne.
    + rewrite (bool_decide_eq_false_2 _ Hns) in H.
      rewrite (bool_decide_eq_false_2 (Some (Namespace N) = Some ns))
        by congruence.
      apply bind_Ok in H as (L & HL & H). apply bind_Ok in H as (h1 & Hm & H).
      injection H as <- <-. split_and!; [|done|done].
      eapply forM_edgesOnly; [|exact Hm]. intros. by eapply mergeEdge_edgesOnly.
  - injection H as <- <-. split_and!.
    + apply edgesOnly_refl.
    + by rewrite lookup_insert_eq.
    + intros k' Hk'. by rewrite lookup_insert_ne.
Qed.

Lemma mergedEntry_edgesOnly h h' ns g p :
  edgesOnly h h' → mergedEntry h' ns g p = mergedEntry h ns g p.
Proof.
  intros He. unfold mergedEntry. destruct p as [p|], g as [g|]; try done.
  by rewrite (edgesOnly_Namespace h h' p He).
Qed.

Lemma merge_entries ns entries : ∀ h (G : TrafficMap) h' G',
  NoDup entries.*1 →
  forM (mergeNode ns) entries (h, G) = Ok (h', G') →
  edgesOnly h h' ∧
  ∀ k, G' !! k = match (list_to_map entries : TrafficMap) !! k with
                 | Some p => mergedEntry h ns (G !! k) (Some p)
                 | None => G !! k
                 end.
Proof.
  induction entries as [|[k p] entries IH]; intros h G h' G' Hnd H.
  - injection H as <- <-. split; [apply edgesOnly_refl|]. intros k.
    by rewrite list_to_map_nil, lookup_empty.
  - rewrite forM_cons in H. apply bind_Ok in H as ([h1 G1] & E1 & H).
    apply mergeNode_entry in E1 as (Ed1 & Hk & Hother).
    simpl in Hnd. apply list.NoDup_cons in Hnd as [Hnin Hnd].
    destruct (IH h1 G1 h' G' Hnd H) as (Ed2 & HG').
    split; [by eapply edgesOnly_trans|]. intros k'.
    rewrite HG', list_to_map_cons. destruct (decide (k' = k)) as [->|Hne].
    + rewrite lookup_insert_eq.
      rewrite (not_elem_of_list_to_map_1 entries k) by done. done.
    + rewrite lookup_insert_ne by done. rewrite Hother by done.
      destruct (list_to_map entries !! k'); [|done].
      by apply mergedEntry_edgesOnly.
Qed.

Lemma list_to_map_rangeMap {V} (tm : gmap string V) (order : list string) :
  visits tm order → list_to_map (rangeMap tm order) = tm.
Proof.
  intros Hv. apply map_eq. intros k. apply option_eq. intros v.
  rewrite <- elem_of_list_to_map
    by (apply rangeMap_NoDup; by eapply visits_NoDup).
  rewrite elem_of_rangeMap. split; [by intros [_ ?]|].
  intros Hk. split; [|done]. apply (visits_elem_of tm order k Hv). by eexists.
Qed.

Lemma forM_preserves {A S B} (f : S → B) (body : S → A → result S) xs :
  ∀ s s', forM body xs s = Ok s' →
    (∀ s x s', body s x = Ok s' → f s' = f s) → f s' = f s.
Proof.
  induction xs as [|x xs IH]; intros s s' H Hbody.
  - by injection H as <-.
  - rewrite forM_cons in H. apply bind_Ok in H as (s1 & E1 & H).
    rewrite (IH _ _ H Hbody). by eapply Hbody.
Qed.

Lemma mergeEdge_edges node h e h' :
  mergeEdge node h e = Ok h' → edges h' = edges h.
Proof.
  unfold mergeEdge. intros H.
  apply bind_Ok in H as (n & _ & H). apply bind_Ok in H as (dup & _ & H).
  by destruct dup; injection H as <-.
Qed.

Lemma mergeNode_edges ns h (G : TrafficMap) k p h' G' :
  mergeNode ns (h, G) (k, p) = Ok (h', G') → edges h' = edges h.
Proof.
  unfold mergeNode. intros H.
  destruct (G !! k); [|by injection H as <- <-].
  apply bind_Ok in H as (N & _ & H).
  destruct (bool_decide (Namespace N = ns));
    apply bind_Ok in H as (L & _ & H); apply bind_Ok in H as (h1 & Hm & H);
    injection H as <- <-;
    apply (forM_preserves edges _ _ _ _ Hm); intros; by eapply mergeEdge_edges.
Qed.

(** X15. When [mergeTrafficMaps] returns, the global map holds, for
    every key of either map: the node of the namespace map when the
    global map had none for the key or when that node is of the
    namespace being merged; the node the global map had otherwise. No
    key is lost, and of the node objects nothing changed but their
    outgoing edges. *)
Theorem mergeTrafficMaps_entries (order : list string) (h : Heap)
    (trafficMap : TrafficMap) (ns : string) (nsTrafficMap : TrafficMap)
    (h1 : Heap) (tm1 : TrafficMap) :
  visits nsTrafficMap order →
  mergeTrafficMaps order h trafficMap ns nsTrafficMap = Ok (h1, tm1) →
  (∀ k, tm1 !! k = mergedEntry h ns (trafficMap !! k) (nsTrafficMap !! k)) ∧
  (∀ k, is_Some (tm1 !! k)
        ↔ is_Some (trafficMap !! k) ∨ is_Some (nsTrafficMap !! k)) ∧
  edges h1 = edges h ∧ edgesOnly h h1.
Proof.
  intros Hv H. unfold mergeTrafficMaps in H.
  assert (Hed : edges h1 = edges h).
  { apply (forM_preserves (fun st : Heap * TrafficMap => edges st.1)
             (mergeNode ns) (rangeMap nsTrafficMap order) _ _ H).
    intros [h2 G2] [k p] [h3 G3]. apply mergeNode_edges. }
  apply merge_entries in H as (Ed & HG);
    [|apply rangeMap_NoDup; by eapply visits_NoDup].
  rewrite list_to_map_rangeMap in HG by done.
  assert (Hent : ∀ k, tm1 !! k
                      = mergedEntry h ns (trafficMap !! k) (nsTrafficMap !! k)).
  { intros k. rewrite HG. by destruct (nsTrafficMap !! k). }
  split_and!; try done.
  intros k. rewrite Hent. unfold mergedEntry.
  destruct (nsTrafficMap !! k) as [p|], (trafficMap !! k) as [g|].
  - case_bool_decide; (split; intros _; [left|]; by eexists).
  - split; intros _; [right|]; by eexists.
  - split; intros _; [left|]; by eexists.
  - split; [by intros []|by intros [[]|[]]].
Qed.

Lemma mergeTrafficMaps_entries_witness :
  mergedMap !! "wl_ns2_B"
  = mergedEntry twoNamespaces "ns2" (globalMap !! "wl_ns2_B")
      (ns2Map !! "wl_ns2_B").
Proof.
  refine (proj1 (mergeTrafficMaps_entries (map_to_list ns2Map).*1
                   twoNamespaces globalMap "ns2" ns2Map twoNamespaces
                   mergedMap _ _) "wl_ns2_B").
  - unfold visits. reflexivity.
  - by_evaluation.
Defined.

Lemma merge_into_empty (order : list string) (h : Heap) (ns : string)
    (tm : TrafficMap) :
  visits tm order → mergeTrafficMaps order h ∅ ns tm = Ok (h, tm).
Proof.
  intros Hv. unfold mergeTrafficMaps.
  assert (Hloop : ∀ entries (G : TrafficMap),
            NoDup entries.*1 →
            (∀ k p, (k, p) ∈ entries → G !! k = None) →
            forM (mergeNode ns) entries (h, G)
            = Ok (h, list_to_map entries ∪ G)).
  { induction entries as [|[k p] entries IH]; intros G Hnd Hnone.
    - simpl. by rewrite (left_id_L ∅ (∪)).
    - simpl in Hnd. apply list.NoDup_cons in Hnd as [Hnin Hnd].
      rewrite forM_cons.
      assert (mergeNode ns (h, G) (k, p) = Ok (h, <[k := p]> G)) as ->.
      { unfold mergeNode. by rewrite (Hnone k p) by by left. }
      rewrite ok_bind, IH; [|done|].
      + rewrite list_to_map_cons. do 2 f_equal.
        rewrite <- insert_union_l. rewrite insert_union_r; [done|].
        by apply not_elem_of_list_to_map_1.
      + intros k' p' Hin. rewrite lookup_insert_ne.
        * apply (Hnone k' p'). by right.
        * intros <-. apply Hnin. apply list_elem_of_fmap.
          by exists (k, p'). }
  rewrite Hloop.
  - by rewrite list_to_map_rangeMap, (right_id_L ∅ (∪)).
  - apply rangeMap_NoDup. by eapply visits_NoDup.
  - intros. apply lookup_empty.
Qed.

(** X16. Merging a namespace map into the empty global map gives
    that very map and touches no object; merging the empty namespace
    map changes nothing. Neither reads the heap. *)
Theorem mergeTrafficMaps_empty (order : list string) (h : Heap) (ns : string)
    (tm : TrafficMap) :
  visits tm order →
  mergeTrafficMaps order h ∅ ns tm = Ok (h, tm) ∧
  mergeTrafficMaps order h tm ns ∅ = Ok (h, tm).
Proof.
  intros Hv. split; [by apply merge_into_empty|].
  unfold mergeTrafficMaps, rangeMap.
  assert (omap (fun k => pair k <$> (∅ : TrafficMap) !! k) order = []) as ->;
    [|done].
  clear Hv. induction order as [|k order IH]; [done|].
  simpl. by rewrite lookup_empty.
Qed.

Lemma mergeTrafficMaps_empty_witness :
  mergeTrafficMaps (map_to_list ns2Map).*1 emptyHeap ∅ "ns2" ns2Map
  = Ok (emptyHeap, ns2Map).
Proof.
  refine (proj1 (mergeTrafficMaps_empty (map_to_list ns2Map).*1 emptyHeap
                   "ns2" ns2Map _)).
  unfold visits. reflexivity.
Defined.

(** ** The two flags of the classifier *)

Lemma setNode_id h (r : nref) n :
  nodes h !! r = Some n → setNode h r (withMetadata n (Metadata n)) = h.
Proof.
  intros Hn. unfold setNode. destruct h as [ns es]. simpl in *. f_equal.
  replace (withMetadata n (Metadata n)) with n by by destruct n.
  by apply list_insert_id.
Qed.

Lemma markNodeSwitch_exact o h r n :
  nodes h !! r = Some n →
  markNodeSwitch o h r
  = Ok (setNode h r (withMetadata n (classifySwitch o n))).
Proof.
  intros Hn. unfold markNodeSwitch, classifySwitch.
  rewrite (getNode_Ok h r n Hn), ok_bind.
  assert (Hid : Ok h = Ok (setNode h r (withMetadata n (Metadata n))))
    by by rewrite setNode_id.
  repeat case_bool_decide; try (by apply setNodeMetadata_Ok).
  - destruct (Metadata n !! "isServiceEntry");
      [by apply setNodeMetadata_Ok|].
    destruct (isOutside n (Namespaces o)); [by apply setNodeMetadata_Ok|done].
  - destruct (isOutside n (Namespaces o)); [by apply setNodeMetadata_Ok|done].
Qed.

Lemma markNodeOutsider_exact o h r n :
  nodes h !! r = Some n → outsideFlagOk n →
  markNodeOutsider o h r
  = Ok (setNode h r (withMetadata n (classifyOutsider o n))).
Proof.
  intros Hn Hok. unfold markNodeOutsider, classifyOutsider.
  rewrite (getNode_Ok h r n Hn), ok_bind.
  assert (Hid : Ok h = Ok (setNode h r (withMetadata n (Metadata n))))
    by by rewrite setNode_id.
  unfold outsideFlagOk in Hok.
  destruct (Metadata n !! "isOutside") as [[| [] | |]|]; try done; simpl.
  destruct (Metadata n !! "isInaccessible"); [done|].
  destruct (isInaccessible n (AccessibleNamespaces o)); [|done].
  by apply setNodeMetadata_Ok.
Qed.

Lemma classifySwitch_ok o n :
  outsideFlagOk n → outsideFlagOk (withMetadata n (classifySwitch o n)).
Proof.
  intros Hok. unfold classifySwitch, outsideFlagOk in *. simpl.
  repeat case_bool_decide.
  - by rewrite lookup_insert_ne.
  - destruct (Metadata n !! "isServiceEntry"); [by rewrite lookup_insert_ne|].
    destruct (isOutside n (Namespaces o)); [by rewrite lookup_insert_eq|done].
  - destruct (isOutside n (Namespaces o)); [by rewrite lookup_insert_eq|done].
Qed.

Lemma markNode_exact o h k r n :
  nodes h !! r = Some n → outsideFlagOk n →
  markNode o h (k, r) = Ok (setNode h r (withMetadata n (classify o n))).
Proof.
  intros Hn Hok. unfold markNode. simpl.
  rewrite (markNodeSwitch_exact o h r n Hn), ok_bind.
  rewrite (markNodeOutsider_exact o _ r (withMetadata n (classifySwitch o n))).
  - unfold setNode. simpl. by rewrite list_insert_insert_eq.
  - simpl. apply list_lookup_insert_eq. by eapply lookup_lt_Some.
  - by apply classifySwitch_ok.
Qed.

Lemma flagged_refl n : flagged n n.
Proof. split; [by destruct n|]. intros k. split; [done|by left]. Qed.

Lemma flagged_trans n1 n2 n3 : flagged n1 n2 → flagged n2 n3 → flagged n1 n3.
Proof.
  intros [E1 F1] [E2 F2]. split.
  - etrans; [exact E2|]. by rewrite E1.
  - intros k. destruct (F1 k) as [A1 B1]. destruct (F2 k) as [A2 B2]. split.
    + intros H1 H2. by rewrite A2, A1.
    + destruct B2 as [B2|B2]; [|by right]. rewrite B2. exact B1.
Qed.

Lemma flagged_outsideFlagOk n n' :
  flagged n n' → outsideFlagOk n → outsideFlagOk n'.
Proof.
  intros [_ F] Hok. unfold outsideFlagOk in *.
  destruct (F "isOutside") as [_ [->| ->]]; done.
Qed.

Lemma classify_flagged o n : flagged n (withMetadata n (classify o n)).
Proof.
  split; [done|]. intros k. simpl.
  unfold classify, classifyOutsider, classifySwitch. simpl.
  assert (Hins : ∀ (md : metadata) f,
            (f = "isOutside" ∨ f = "isInaccessible") →
            (k ≠ "isOutside" → k ≠ "isInaccessible" →
             <[f := VBool true]> md !! k = md !! k) ∧
            (<[f := VBool true]> md !! k = md !! k
             ∨ <[f := VBool true]> md !! k = Some (VBool true))).
  { intros md f Hf. destruct (decide (k = f)) as [->|Hne].
    - rewrite lookup_insert_eq. split; [|by right].
      by destruct Hf as [->| ->].
    - rewrite lookup_insert_ne by done. split; [done|by left]. }
  assert (Hone : ∀ md : metadata,
            (k ≠ "isOutside" → k ≠ "isInaccessible" →
             md !! k = Metadata n !! k) ∧
            (md !! k = Metadata n !! k ∨ md !! k = Some (VBool true)) →
            (k ≠ "isOutside" → k ≠ "isInaccessible" →
             match md !! "isOutside" with
             | Some (VBool true) =>
                 match md !! "isInaccessible" with
                 | Some _ => md
                 | None =>
                     if isInaccessible (withMetadata n md)
                          (AccessibleNamespaces o)
                     then <["isInaccessible":=VBool true]> md
                     else md
                 end
             | _ => md
             end !! k = Metadata n !! k) ∧
            (match md !! "isOutside" with
             | Some (VBool true) =>
                 match md !! "isInaccessible" with
                 | Some _ => md
                 | None =>
                     if isInaccessible (withMetadata n md)
                          (AccessibleNamespaces o)
                     then <["isInaccessible":=VBool true]> md
                     else md
                 end
             | _ => md
             end !! k = Metadata n !! k
             ∨ match md !! "isOutside" with
               | Some (VBool true) =>
                   match md !! "isInaccessible" with
                   | Some _ => md
                   | None =>
                       if isInaccessible (withMetadata n md)
                            (AccessibleNamespaces o)
                       then <["isInaccessible":=VBool true]> md
                       else md
                   end
               | _ => md
               end !! k = Some (VBool true))).
  { intros md [A B].
    destruct (md !! "isOutside") as [[| [] | |]|]; try done.
    destruct (md !! "isInaccessible"); [done|].
    destruct (isInaccessible _ _); [|done].
    destruct (Hins md "isInaccessible") as [A' B']; [by right|]. split.
    - intros H1 H2. rewrite A' by done. by apply A.
    - destruct B' as [B'|B']; [|by right]. by rewrite B'. }
  repeat case_bool_decide.
  - apply Hone, Hins. by right.
  - destruct (Metadata n !! "isServiceEntry").
    + apply Hone, Hins. by right.
    + destruct (isOutside n (Namespaces o)).
      * apply Hone, Hins. by left.
      * apply Hone. split; [done|by left].
  - destruct (isOutside n (Namespaces o)).
    + apply Hone, Hins. by left.
    + apply Hone. split; [done|by left].
Qed.

Lemma markNodes_flagged o entries : ∀ h,
  (∀ k r, (k, r) ∈ entries →
     ∃ n, nodes h !! r = Some n ∧ outsideFlagOk n) →
  ∃ h', forM (markNode o) entries h = Ok h' ∧ edges h' = edges h ∧
    length (nodes h') = length (nodes h) ∧
    ∀ (r : nref) n, nodes h !! r = Some n →
      ∃ n', nodes h' !! r = Some n' ∧ flagged n n'.
Proof.
  induction entries as [|[k r] entries IH]; intros h Hpre.
  - exists h. split_and!; try done. intros r n Hn. exists n.
    split; [done|apply flagged_refl].
  - destruct (Hpre k r) as (n & Hn & Hok); [by left|].
    assert (Hstep : ∀ (r' : nref) m, nodes h !! r' = Some m →
              ∃ m1, nodes (setNode h r (withMetadata n (classify o n))) !! r'
                    = Some m1 ∧ flagged m m1).
    { intros r' m Hm. simpl. destruct (decide (r' = r)) as [->|Hne].
      - rewrite list_lookup_insert_eq by by eapply lookup_lt_Some.
        eexists. split; [done|]. simplify_eq. apply classify_flagged.
      - rewrite list_lookup_insert_ne by done. exists m.
        split; [done|apply flagged_refl]. }
    destruct (IH (setNode h r (withMetadata n (classify o n))))
      as (h' & E' & Ed' & L' & Hpost).
    { intros k' r' Hin. destruct (Hpre k' r') as (m & Hm & Hmok); [by right|].
      destruct (Hstep r' m Hm) as (m1 & Hm1 & F1).
      exists m1. split; [done|]. by eapply flagged_outsideFlagOk. }
    exists h'. rewrite forM_cons, (markNode_exact o h k r n Hn Hok), ok_bind.
    split_and!; [done|done| |].
    + rewrite L'. simpl. by rewrite length_insert.
    + intros r' m Hm. destruct (Hstep r' m Hm) as (m1 & Hm1 & F1).
      destruct (Hpost r' m1 Hm1) as (m' & Hm' & F').
      exists m'. split; [done|]. by eapply flagged_trans.
Qed.

(** X17. [markOutsideOrInaccessible] changes nothing but the [isOutside]
    and [isInaccessible] entries of the nodes, and it only ever sets
    them to [true]: no edge, no other metadata entry and no field of a
    node is touched, and a flag is never cleared. *)
Theorem classifier_sets_only_flags
    (order : list string) (h : Heap) (tm : TrafficMap) (o : Options) :
  visits tm order → classifiable h tm →
  ∃ h', markOutsideOrInaccessible order h tm o = Ok h' ∧
    edges h' = edges h ∧ length (nodes h') = length (nodes h) ∧
    ∀ (r : nref) n, nodes h !! r = Some n →
      ∃ n', nodes h' !! r = Some n' ∧ n' = withMetadata n (Metadata n') ∧
        ∀ k, (k ≠ "isOutside" → k ≠ "isInaccessible" →
              Metadata n' !! k = Metadata n !! k) ∧
             (Metadata n' !! k = Metadata n !! k
              ∨ Metadata n' !! k = Some (VBool true)).
Proof.
  intros Hord Hcl. unfold markOutsideOrInaccessible.
  apply markNodes_flagged.
  intros k r [_ Hk]%elem_of_rangeMap.
  specialize (Hcl k r Hk). simpl in Hcl.
  destruct (nodes h !! r) as [n|]; [|done]. by exists n.
Qed.

Lemma classifier_sets_only_flags_witness :
  ∃ h', markOutsideOrInaccessible (map_to_list ingressMap).*1 ingressHeap
          ingressMap noNamespaces = Ok h' ∧
        edges h' = edges ingressHeap.
Proof.
  destruct (classifier_sets_only_flags (map_to_list ingressMap).*1 ingressHeap
              ingressMap noNamespaces) as (h' & E & Ed & _).
  - unfold visits. reflexivity.
  - by_evaluation.
  - exists h'. exact (conj E Ed).
Defined.

Lemma markNodes_exact o entries : ∀ h,
  NoDup entries.*2 →
  (∀ k r, (k, r) ∈ entries →
     ∃ n, nodes h !! r = Some n ∧ outsideFlagOk n) →
  ∃ h', forM (markNode o) entries h = Ok h' ∧
    (∀ (r : nref), r ∉ entries.*2 → nodes h' !! r = nodes h !! r) ∧
    ∀ k (r : nref) n, (k, r) ∈ entries → nodes h !! r = Some n →
      nodes h' !! r = Some (withMetadata n (classify o n)).
Proof.
  induction entries as [|[k r] entries IH]; intros h Hnd Hpre.
  - exists h. split_and!; [done|done|]. by intros k r n ?%elem_of_nil.
  - destruct (Hpre k r) as (n & Hn & Hok); [by left|].
    simpl in Hnd. apply list.NoDup_cons in Hnd as [Hnin Hnd].
    assert (Hr : (r < length (nodes h))%nat) by by eapply lookup_lt_Some.
    destruct (IH (setNode h r (withMetadata n (classify o n))) Hnd)
      as (h' & E' & Hout & Hin).
    { intros k' r' Hin'. destruct (Hpre k' r') as (m & Hm & Hmok); [by right|].
      exists m. split; [|done]. simpl. rewrite list_lookup_insert_ne; [done|].
      intros <-. apply Hnin. apply list_elem_of_fmap. by exists (k', r). }
    exists h'. rewrite forM_cons, (markNode_exact o h k r n Hn Hok), ok_bind.
    split_and!; [done| |].
    + intros r' Hr'. rewrite fmap_cons, not_elem_of_cons in Hr'. simpl in Hr'.
      destruct Hr' as [Hne Hr']. rewrite Hout by done. simpl.
      by rewrite list_lookup_insert_ne.
    + intros k' r' m Hin' Hm. apply elem_of_cons in Hin' as [[= -> ->]|Hin'].
      * rewrite Hout by done. simpl. rewrite list_lookup_insert_eq by done.
        congruence.
      * apply (Hin k'); [done|]. simpl. rewrite list_lookup_insert_ne; [done|].
        intros <-. apply Hnin. apply list_elem_of_fmap. by exists (k', r).
Qed.

Lemma keyed_NoDup h (tm : TrafficMap) (order : list string) :
  keyed h tm → NoDup order → NoDup (rangeMap tm order).*2.
Proof.
  intros K Hnd. apply NoDup_fmap_2_strong.
  - intros [k1 r1] [k2 r2] [_ H1]%elem_of_rangeMap [_ H2]%elem_of_rangeMap Heq.
    simpl in Heq. subst r2.
    destruct (keyed_lookup h tm k1 r1 K H1) as (n1 & Hn1 & <-).
    destruct (keyed_lookup h tm k2 r1 K H2) as (n2 & Hn2 & <-).
    congruence.
  - eapply NoDup_fmap_1. by apply rangeMap_NoDup.
Qed.

Lemma classify_flags o n :
  Metadata n !! "isOutside" = None → Metadata n !! "isInaccessible" = None →
  classify o n !! "isOutside"
  = (if outsider o n then Some (VBool true) else None) ∧
  classify o n !! "isInaccessible"
  = (if bool_decide (NodeType n = NodeTypeUnknown) || serviceEntry n
        || outsider o n && isInaccessible n (AccessibleNamespaces o)
     then Some (VBool true) else None).
Proof.
  intros Ho Hi.
  unfold classify, classifyOutsider, classifySwitch, outsider, serviceEntry.
  simpl.
  assert (Hacc : ∀ md, isInaccessible (withMetadata n md) (AccessibleNamespaces o)
                       = isInaccessible n (AccessibleNamespaces o)) by done.
  assert (Hio : <["isInaccessible" := VBool true]> (Metadata n) !! "isOutside"
                = None) by by rewrite lookup_insert_ne.
  assert (Hii : <["isInaccessible" := VBool true]> (Metadata n)
                  !! "isInaccessible" = Some (VBool true))
    by by rewrite lookup_insert_eq.
  assert (Hoo : <["isOutside" := VBool true]> (Metadata n) !! "isOutside"
                = Some (VBool true)) by by rewrite lookup_insert_eq.
  assert (Hoi : <["isOutside" := VBool true]> (Metadata n) !! "isInaccessible"
                = None) by by rewrite lookup_insert_ne.
  assert (Hoio : <["isInaccessible" := VBool true]>
                   (<["isOutside" := VBool true]> (Metadata n)) !! "isOutside"
                 = Some (VBool true)) by by rewrite lookup_insert_ne.
  assert (Hoii : <["isInaccessible" := VBool true]>
                   (<["isOutside" := VBool true]> (Metadata n))
                   !! "isInaccessible" = Some (VBool true))
    by by rewrite lookup_insert_eq.
  destruct (decide (NodeType n = NodeTypeUnknown)) as [HU|HU].
  - rewrite !(bool_decide_eq_true_2 _ HU). simpl. by rewrite Hio, Hii.
  - rewrite !(bool_decide_eq_false_2 _ HU). simpl.
    destruct (decide (NodeType n = NodeTypeService)) as [HS|HS].
    + rewrite !(bool_decide_eq_true_2 _ HS). simpl.
      destruct (Metadata n !! "isServiceEntry") as [v|] eqn:Hse.
      * rewrite (bool_decide_eq_true_2 (is_Some (Some v))) by by eexists.
        simpl. by rewrite Hio, Hii.
      * rewrite (bool_decide_eq_false_2 (is_Some None)) by by intros [].
        simpl. destruct (isOutside n (Namespaces o)); simpl.
        -- rewrite Hoo, Hoi, Hacc.
           destruct (isInaccessible n (AccessibleNamespaces o)).
           ++ by rewrite Hoio, Hoii.
           ++ by rewrite Hoo, Hoi.
        -- by rewrite Ho, Hi.
    + rewrite !(bool_decide_eq_false_2 _ HS). simpl.
      destruct (isOutside n (Namespaces o)); simpl.
      * rewrite Hoo, Hoi, Hacc.
        destruct (isInaccessible n (AccessibleNamespaces o)).
        -- by rewrite Hoio, Hoii.
        -- by rewrite Hoo, Hoi.
      * by rewrite Ho, Hi.
Qed.

(** X18. On a node that carries neither flag yet the classifier sets
    [isOutside] exactly when the node is an outsider: not of kind
    Unknown, not a service entry, and of a namespace that is neither
    ["unknown"] nor requested. It sets [isInaccessible] exactly when
    the node is of kind Unknown, a service entry, or an outsider of a
    namespace that is not accessible. A flag that is not set stays
    absent. *)
Theorem classifier_flags
    (order : list string) (h : Heap) (tm : TrafficMap) (o : Options) :
  visits tm order → classifiable h tm → keyed h tm →
  ∃ h', markOutsideOrInaccessible order h tm o = Ok h' ∧
    ∀ id (r : nref) n, tm !! id = Some r → nodes h !! r = Some n →
      Metadata n !! "isOutside" = None →
      Metadata n !! "isInaccessible" = None →
      ∃ n', nodes h' !! r = Some n' ∧
        Metadata n' !! "isOutside"
        = (if outsider o n then Some (VBool true) else None) ∧
        Metadata n' !! "isInaccessible"
        = (if bool_decide (NodeType n = NodeTypeUnknown) || serviceEntry n
              || outsider o n && isInaccessible n (AccessibleNamespaces o)
           then Some (VBool true) else None).
Proof.
  intros Hord Hcl K. unfold markOutsideOrInaccessible.
  destruct (markNodes_exact o (rangeMap tm order) h) as (h' & E & _ & Hin).
  { apply (keyed_NoDup h); [done|]. by eapply visits_NoDup. }
  { intros k r [_ Hk]%elem_of_rangeMap.
    specialize (Hcl k r Hk). simpl in Hcl.
    destruct (nodes h !! r) as [n|]; [|done]. by exists n. }
  exists h'. split; [done|]. intros id r n Hid Hn Ho Hi.
  exists (withMetadata n (classify o n)). split.
  - apply (Hin id); [|done]. by apply visits_rangeMap.
  - simpl. by apply classify_flags.
Qed.

Lemma classifier_flags_witness :
  ∃ h', markOutsideOrInaccessible (map_to_list ingressMap).*1 ingressHeap
          ingressMap noNamespaces = Ok h' ∧
    ∃ n', nodes h' !! 1%nat = Some n' ∧
      Metadata n' !! "isOutside" = Some (VBool true) ∧
      Metadata n' !! "isInaccessible" = Some (VBool true).
Proof.
  destruct (classifier_flags (map_to_list ingressMap).*1 ingressHeap
              ingressMap noNamespaces) as (h' & E & H).
  - unfold visits. reflexivity.
  - by_evaluation.
  - unfold keyed. by_evaluation.
  - exists h'. split; [exact E|].
    exact (H "wl_bookinfo_productpage-v1" 1%nat
             (workloadNode "productpage-v1" []) eq_refl eq_refl eq_refl
             eq_refl).
Defined.

(** ** Traffic generators *)

Lemma option_list_elem_of {A} (x : A) (mx : option A) :
  x ∈ option_list mx ↔ mx = Some x.
Proof.
  destruct mx as [y|]; simpl.
  - rewrite list_elem_of_singleton. split; congruence.
  - rewrite elem_of_nil. split; [done|discriminate].
Qed.

Lemma elem_of_destIdsOf h rs id :
  id ∈ destIdsOf h rs ↔
  ∃ (r : nref) n (e : eref) E d, r ∈ rs ∧ nodes h !! r = Some n ∧
    e ∈ Edges n ∧ edges h !! e = Some E ∧ nodes h !! Dest E = Some d ∧
    ID d = id.
Proof.
  unfold destIdsOf. rewrite list_elem_of_bind. split.
  - intros (r & Hid & Hr).
    apply list_elem_of_bind in Hid as (n & Hid & Hn%option_list_elem_of).
    apply list_elem_of_bind in Hid as (e & Hid & He).
    apply list_elem_of_bind in Hid as (E & Hid & HE%option_list_elem_of).
    apply list_elem_of_bind in Hid as (d & Hid & Hd%option_list_elem_of).
    apply list_elem_of_singleton in Hid. by exists r, n, e, E, d.
  - intros (r & n & e & E & d & Hr & Hn & He & HE & Hd & <-).
    exists r. split; [|done].
    apply list_elem_of_bind. exists n. split; [|by apply option_list_elem_of].
    apply list_elem_of_bind. exists e. split; [|done].
    apply list_elem_of_bind. exists E. split; [|by apply option_list_elem_of].
    apply list_elem_of_bind. exists d. split; [|by apply option_list_elem_of].
    by apply list_elem_of_singleton.
Qed.

Lemma collectEdges_loop h es : ∀ (destMap : gmap string nref),
  forallb (edgeOk h) es →
  ∃ destMap',
    forM (fun destMap e =>
            E ← getEdge h e; d ← destID h E; Ok (<[d := Dest E]> destMap))
         es destMap = Ok destMap' ∧
    ∀ id, is_Some (destMap' !! id) ↔
          is_Some (destMap !! id)
          ∨ ∃ (e : eref) E d, e ∈ es ∧ edges h !! e = Some E ∧
              nodes h !! Dest E = Some d ∧ ID d = id.
Proof.
  induction es as [|e es IH]; intros destMap Hes.
  - exists destMap. split; [done|]. intros id. split; [by left|].
    intros [H|(e & ? & ? & ?%elem_of_nil & _)]; done.
  - simpl in Hes. apply andb_True in Hes as [He Hes].
    destruct (edgeOk_Some h e He) as (E & s & d & HE & Hs & Hd).
    destruct (IH (<[ID d := Dest E]> destMap) Hes) as (destMap' & E' & Hdom).
    exists destMap'. split.
    + rewrite forM_cons. unfold getEdge, destID. rewrite HE, ok_bind.
      by rewrite (getNode_Ok h _ d Hd), !ok_bind.
    + intros id. rewrite Hdom, lookup_insert_is_Some. split.
      * intros [[<-|[_ H]]|(e' & E1 & d1 & Hin & H1 & H2 & H3)].
        -- right. exists e, E, d. split_and!; try done. by left.
        -- by left.
        -- right. exists e', E1, d1. split_and!; try done. by right.
      * intros [H|(e' & E1 & d1 & Hin & H1 & H2 & H3)].
        -- left. destruct (decide (ID d = id)); [by left|by right].
        -- apply elem_of_cons in Hin as [->|Hin].
           ++ left. left. congruence.
           ++ right. by exists e', E1, d1.
Qed.

Lemma collectDests_loop h entries : ∀ (destMap : gmap string nref),
  (∀ k r, (k, r) ∈ entries →
     ∃ n, nodes h !! r = Some n ∧ forallb (edgeOk h) (Edges n)) →
  ∃ destMap', forM (collectDests h) entries destMap = Ok destMap' ∧
    ∀ id, is_Some (destMap' !! id) ↔
          is_Some (destMap !! id) ∨ id ∈ destIdsOf h entries.*2.
Proof.
  induction entries as [|[k r] entries IH]; intros destMap Hpre.
  - exists destMap. split; [done|]. intros id. split; [by left|].
    intros [H|H%elem_of_nil]; done.
  - destruct (Hpre k r) as (n & Hn & Hes); [by left|].
    destruct (collectEdges_loop h (Edges n) destMap Hes) as (dm1 & E1 & D1).
    destruct (IH dm1) as (dm' & E' & D').
    { intros k' r' Hin. apply (Hpre k'). by right. }
    exists dm'. split.
    + assert (collectDests h destMap (k, r) = Ok dm1) as Hstep.
      { unfold collectDests. cbn [snd].
        by rewrite (getNode_Ok h r n Hn), ok_bind. }
      by rewrite forM_cons, Hstep, ok_bind.
    + intros id. rewrite D', D1, !elem_of_destIdsOf. split.
      * intros [[H|(e & E & d & He & HE & Hd & Hid)]|
                (r' & n' & e & E & d & Hr & H)].
        -- by left.
        -- right. exists r, n, e, E, d. split_and!; try done.
           rewrite fmap_cons. by left.
        -- right. exists r', n', e, E, d. split; [|done].
           rewrite fmap_cons. by right.
      * intros [H|(r' & n' & e & E & d & Hr & Hn' & He & HE & Hd & Hid)].
        -- left. by left.
        -- rewrite fmap_cons in Hr. apply elem_of_cons in Hr as [->|Hr].
           ++ left. right. simpl in Hn'. simplify_eq. by exists e, E, d.
           ++ right. by exists r', n', e, E, d.
Qed.

Lemma markRoot_exact destMap h k (r : nref) n :
  nodes h !! r = Some n →
  markRoot destMap h (k, r)
  = Ok (setNode h r (withMetadata n (rootMetadata destMap n))).
Proof.
  intros Hn. unfold markRoot, rootMetadata. simpl.
  rewrite (getNode_Ok h r n Hn), ok_bind.
  assert (Hid : Ok h = Ok (setNode h r (withMetadata n (Metadata n)))).
  { f_equal. unfold setNode. destruct h as [ns es]. simpl in *. f_equal.
    replace (withMetadata n (Metadata n)) with n by by destruct n.
    symmetry. by apply list_insert_id. }
  case_bool_decide; [done|].
  destruct (destMap !! ID n); [done|].
  unfold setNodeMetadata. by rewrite (getNode_Ok h r n Hn), ok_bind.
Qed.

Lemma rootMetadata_idem destMap n :
  rootMetadata destMap (withMetadata n (rootMetadata destMap n))
  = rootMetadata destMap n.
Proof.
  unfold rootMetadata. simpl. case_bool_decide; [done|].
  destruct (destMap !! ID n); [done|]. simpl. by rewrite insert_insert_eq.
Qed.

Lemma markRoots_loop destMap entries : ∀ h,
  (∀ k r, (k, r) ∈ entries → is_Some (nodes h !! r)) →
  ∃ h', forM (markRoot destMap) entries h = Ok h' ∧ edges h' = edges h ∧
    length (nodes h') = length (nodes h) ∧
    ∀ (r : nref) n, nodes h !! r = Some n →
      nodes h' !! r
      = Some (if bool_decide (r ∈ entries.*2)
              then withMetadata n (rootMetadata destMap n) else n).
Proof.
  induction entries as [|[k r] entries IH]; intros h Hpre.
  - exists h. split_and!; try done.
  - destruct (Hpre k r) as [n Hn]; [by left|].
    assert (Hr : (r < length (nodes h))%nat) by by eapply lookup_lt_Some.
    destruct (IH (setNode h r (withMetadata n (rootMetadata destMap n))))
      as (h' & E' & Ed & L & Hpost).
    { intros k' r' Hin. simpl. apply lookup_lt_is_Some.
      rewrite length_insert. apply lookup_lt_is_Some. apply (Hpre k').
      by right. }
    exists h'. rewrite forM_cons, (markRoot_exact destMap h k r n Hn), ok_bind.
    split_and!; [done|done| |].
    + rewrite L. simpl. by rewrite length_insert.
    + intros r' m Hm. rewrite fmap_cons. simpl.
      destruct (decide (r' = r)) as [->|Hne].
      * rewrite (Hpost r (withMetadata n (rootMetadata destMap n)))
          by (simpl; by rewrite list_lookup_insert_eq).
        simplify_eq. rewrite (bool_decide_eq_true_2 (r ∈ r :: _)) by by left.
        rewrite rootMetadata_idem. by case_bool_decide.
      * rewrite (Hpost r' m) by (simpl; by rewrite list_lookup_insert_ne).
        f_equal.
        destruct (decide (r' ∈ entries.*2)) as [Hin|Hin].
        -- rewrite !bool_decide_eq_true_2; [done|by right|done].
        -- rewrite !bool_decide_eq_false_2; [done| |done].
           rewrite not_elem_of_cons. done.
Qed.

Lemma rangeMap_values {V} (tm : gmap string V) (order : list string) v :
  visits tm order → v ∈ (rangeMap tm order).*2 ↔ v ∈ (map_to_list tm).*2.
Proof.
  intros Hord. rewrite !list_elem_of_fmap. split.
  - intros ([k v'] & -> & [_ H]%elem_of_rangeMap). exists (k, v').
    split; [done|]. by apply elem_of_map_to_list.
  - intros ([k v'] & -> & H%elem_of_map_to_list). exists (k, v').
    split; [done|]. by apply visits_rangeMap.
Qed.

(** X19. [markTrafficGenerators] sets [isRoot] to [true] on exactly the
    nodes of the traffic map that have an outgoing edge and whose id is
    not the id of the destination of any edge of a node of the map, and
    changes nothing else: no other node, no other metadata entry, no
    edge. It never clears [isRoot] or sets it to [false], and a node
    that is the destination of an edge, be it its own, is not
    marked. *)
Theorem markTrafficGenerators_roots
    (order1 order2 : list string) (h : Heap) (tm : TrafficMap) :
  visits tm order1 → visits tm order2 → closed h tm →
  ∃ h', markTrafficGenerators order1 order2 h tm = Ok h' ∧
    edges h' = edges h ∧ length (nodes h') = length (nodes h) ∧
    ∀ (r : nref) n, nodes h !! r = Some n →
      nodes h' !! r
      = Some (if generator h tm r n
              then withMetadata n (<["isRoot" := VBool true]> (Metadata n))
              else n).
Proof.
  intros Hord1 Hord2 Hcl. unfold markTrafficGenerators.
  assert (Hpre : ∀ order k r, (k, r) ∈ rangeMap tm order →
            ∃ n, nodes h !! r = Some n ∧ forallb (edgeOk h) (Edges n)).
  { intros order k r [_ Hk]%elem_of_rangeMap.
    specialize (Hcl k r Hk). simpl in Hcl.
    destruct (nodes h !! r) as [n|]; [|done]. by exists n. }
  destruct (collectDests_loop h (rangeMap tm order1) ∅ (Hpre order1))
    as (destMap & E1 & Hdom).
  rewrite E1, ok_bind.
  destruct (markRoots_loop destMap (rangeMap tm order2) h)
    as (h' & E2 & Ed & L & Hpost).
  { intros k r Hin. destruct (Hpre order2 k r Hin) as (n & -> & _).
    by eexists. }
  exists h'. split_and!; try done.
  intros r n Hn. rewrite (Hpost r n Hn). f_equal.
  unfold generator, rootMetadata.
  rewrite (bool_decide_ext _ _ (rangeMap_values tm order2 r Hord2)).
  destruct (bool_decide (r ∈ (map_to_list tm).*2)); simpl; [|done].
  rewrite (bool_decide_ext (length (Edges n) = 0%nat) (Edges n = []))
    by apply length_zero_iff_nil.
  destruct (bool_decide (Edges n = [])); simpl; [by destruct n|].
  assert (Hd : is_Some (destMap !! ID n) ↔ ID n ∈ destIds h tm).
  { rewrite Hdom. unfold destIds. rewrite !elem_of_destIdsOf. split.
    - intros [[? H%lookup_empty_Some]|(r' & n' & e & E & d & Hr & H)];
        [done|].
      exists r', n', e, E, d. split; [|done].
      by apply (rangeMap_values tm order1).
    - intros (r' & n' & e & E & d & Hr & H). right.
      exists r', n', e, E, d. split; [|done].
      by apply (rangeMap_values tm order1). }
  destruct (destMap !! ID n) as [x|] eqn:Hx.
  - rewrite bool_decide_eq_true_2 by (apply Hd; by eexists).
    simpl. by destruct n.
  - rewrite bool_decide_eq_false_2; [done|].
    intros [? ?]%Hd. done.
Qed.

Lemma markTrafficGenerators_roots_witness :
  ∃ h', markTrafficGenerators (map_to_list ingressMap).*1
          (map_to_list ingressMap).*1 ingressHeap ingressMap = Ok h' ∧
    nodes h' !! 0%nat
    = Some (withMetadata unknownNode (<["isRoot" := VBool true]> ∅)) ∧
    nodes h' !! 1%nat = Some (workloadNode "productpage-v1" []).
Proof.
  destruct (markTrafficGenerators_roots (map_to_list ingressMap).*1
              (map_to_list ingressMap).*1 ingressHeap ingressMap)
    as (h' & E & _ & _ & H).
  - unfold visits. reflexivity.
  - unfold visits. reflexivity.
  - by_evaluation.
  - exists h'. split; [exact E|]. split.
    + exact (H 0%nat unknownNode eq_refl).
    + exact (H 1%nat (workloadNode "productpage-v1" []) eq_refl).
Defined.

(** ** The reduced graph *)

Lemma reduced_refl h : reduced h h.
Proof.
  split_and!; try done.
  - intros r n Hn. exists n. split_and!; [done|by destruct n|done].
  - intros e E HE. exists E. split; [done|by destruct E].
Qed.

Lemma reduced_trans h1 h2 h3 : reduced h1 h2 → reduced h2 h3 → reduced h1 h3.
Proof.
  intros (L1 & N1 & M1 & E1) (L2 & N2 & M2 & E2).
  split_and!; [congruence| |congruence|].
  - intros r n Hn. destruct (N1 r n Hn) as (n1 & Hn1 & H1 & T1).
    destruct (N2 r n1 Hn1) as (n2 & Hn2 & H2 & T2).
    exists n2. split_and!; [done| |].
    + etrans; [exact H2|]. by rewrite H1.
    + intros Hne. rewrite T2; [by apply T1|]. by rewrite (T1 Hne).
  - intros e E HE. destruct (E1 e E HE) as (E' & HE' & H1).
    destruct (E2 e E' HE') as (E'' & HE'' & H2).
    exists E''. split; [done|]. etrans; [exact H2|]. by rewrite H1.
Qed.

Lemma reduced_setEdge h (e : eref) E md :
  edges h !! e = Some E → reduced h (setEdge h e (withEdgeMetadata E md)).
Proof.
  intros HE. split_and!; [done| |simpl; by rewrite length_insert|].
  - intros r n Hn. exists n. split_and!; [done|by destruct n|done].
  - intros e' E' HE'. simpl. destruct (decide (e' = e)) as [->|Hne].
    + rewrite list_lookup_insert_eq by by eapply lookup_lt_Some.
      simplify_eq. by eexists.
    + rewrite list_lookup_insert_ne by done. exists E'.
      split; [done|by destruct E'].
Qed.

Lemma reduced_setNode h (n : nref) N es :
  nodes h !! n = Some N → NodeType N = NodeTypeService →
  reduced h (setNode h n (withEdges N es)).
Proof.
  intros HN HT. split_and!; [simpl; by rewrite length_insert| |done|].
  - intros r m Hm. simpl. destruct (decide (r = n)) as [->|Hne].
    + rewrite list_lookup_insert_eq by by eapply lookup_lt_Some.
      simplify_eq. eexists. split_and!; [done|done|]. by intros [].
    + rewrite list_lookup_insert_ne by done. exists m.
      split_and!; [done|by destruct m|done].
  - intros e E HE. exists E. split; [done|by destruct E].
Qed.

Lemma reduced_node h0 h (r : nref) n :
  reduced h0 h → nodes h !! r = Some n →
  ∃ n0, nodes h0 !! r = Some n0 ∧ n = withEdges n0 (Edges n) ∧
        (NodeType n0 ≠ NodeTypeService → n = n0).
Proof.
  intros (L & N & _ & _) Hn.
  destruct (nodes h0 !! r) as [n0|] eqn:Hn0.
  - destruct (N r n0 Hn0) as (n' & Hn' & H). simplify_eq. by exists n0.
  - apply lookup_ge_None in Hn0. apply lookup_lt_Some in Hn. lia.
Qed.

Lemma reduced_edge h0 h (e : eref) E :
  reduced h0 h → edges h !! e = Some E →
  ∃ E0, edges h0 !! e = Some E0 ∧ E = withEdgeMetadata E0 (EdgeMetadata E).
Proof.
  intros (_ & _ & L & N) HE.
  destruct (edges h0 !! e) as [E0|] eqn:HE0.
  - destruct (N e E0 HE0) as (E' & HE' & H). simplify_eq. by exists E0.
  - apply lookup_ge_None in HE0. apply lookup_lt_Some in HE. lia.
Qed.

Lemma serviceBound_reduced h0 h e :
  reduced h0 h → serviceBound h e → serviceBound h0 e.
Proof.
  intros Hred (E & d & HE & Hd & HT).
  destruct (reduced_edge h0 h e E Hred HE) as (E0 & HE0 & HEq).
  assert (Dest E = Dest E0) as HD by by rewrite HEq.
  rewrite HD in Hd.
  destruct (reduced_node h0 h _ d Hred Hd) as (d0 & Hd0 & Hdq & _).
  exists E0, d0. split_and!; [done|done|]. rewrite <- HT. by rewrite Hdq.
Qed.

Lemma counted_refl t h : counted t h h.
Proof.
  split_and!; try done. intros T HT. exists T.
  split_and!; [done|by destruct T|done].
Qed.

Lemma counted_trans t h1 h2 h3 :
  counted t h1 h2 → counted t h2 h3 → counted t h1 h3.
Proof.
  intros (N1 & L1 & O1 & T1) (N2 & L2 & O2 & T2).
  split_and!; [congruence|congruence| |].
  - intros e He. by rewrite O2, O1.
  - intros T HT. destruct (T1 T HT) as (T' & HT' & Q1 & K1).
    destruct (T2 T' HT') as (T'' & HT'' & Q2 & K2).
    exists T''. split_and!; [done| |].
    + etrans; [exact Q2|]. by rewrite Q1.
    + intros k Hk. by rewrite K2, K1.
Qed.

Lemma counted_reduced t h h' : counted t h h' → reduced h h'.
Proof.
  intros (N & L & O & T). split_and!; [by rewrite N| |done|].
  - intros r n Hn. exists n. rewrite N.
    split_and!; [done|by destruct n|done].
  - intros e E HE. destruct (decide (e = t)) as [->|Hne].
    + destruct (T E HE) as (T' & HT' & Q & _). by exists T'.
    + exists E. rewrite O by done. split; [done|by destruct E].
Qed.

Lemma addToEdgeMetadata_counted h (t : eref) k v h' :
  k ∈ edgeCounterKeys →
  addToEdgeMetadata h t k v = Ok h' → counted t h h'.
Proof.
  intros Hk H. unfold addToEdgeMetadata, getEdge in H.
  destruct (edges h !! t) as [T|] eqn:HT; [|done]. simpl in H.
  apply bind_Ok in H as (md & Emd & H). injection H as <-.
  assert (Hmd : ∀ k', k' ≠ k → md !! k' = EdgeMetadata T !! k').
  { intros k' Hne. unfold addToMetadataValue in Emd.
    destruct (EdgeMetadata T !! k) as [c|].
    - apply bind_Ok in Emd as (x & _ & Emd). injection Emd as <-.
      by rewrite lookup_insert_ne.
    - injection Emd as <-. by rewrite lookup_insert_ne. }
  split_and!; [done|simpl; by rewrite length_insert| |].
  - intros e He. simpl. by rewrite list_lookup_insert_ne.
  - intros T0 HT0. simplify_eq. eexists. simpl. split_and!.
    + apply list_lookup_insert_eq. by eapply lookup_lt_Some.
    + done.
    + intros k' Hk'. simpl. apply Hmd. by intros ->.
Qed.

Lemma optional_counter_counted h (t : eref) (md : metadata) k h' :
  k ∈ edgeCounterKeys →
  match md !! k with
  | Some val => v ← asFloat val; addToEdgeMetadata h t k v
  | None => Ok h
  end = Ok h' →
  counted t h h'.
Proof.
  intros Hk H. destruct (md !! k) as [val|].
  - apply bind_Ok in H as (v & _ & H). by eapply addToEdgeMetadata_counted.
  - injection H as <-. apply counted_refl.
Qed.

(** The two parts of [addServiceGraphTraffic]: the counters of the
    [switch], then the response time. *)
Lemma addServiceGraphTraffic_inv h (target source : eref) h' :
  addServiceGraphTraffic h target source = Ok h' →
  ∃ h1, counted target h h1 ∧
    (S ← getEdge h1 source;
     match EdgeMetadata S !! "responseTime" with
     | Some responseTime =>
         v ← asFloat responseTime;
         T ← getEdge h1 target;
         md ← averageMetadataValue (EdgeMetadata T) "responseTime" v;
         Ok (setEdge h1 target (withEdgeMetadata T md))
     | None => Ok h1
     end) = Ok h'.
Proof.
  intros H. unfold addServiceGraphTraffic in H.
  apply bind_Ok in H as (T & ET & H). cbv zeta in H.
  apply bind_Ok in H as (h1 & E1 & H). exists h1. split; [|exact H].
  clear H.
  assert (Hin : ∀ k, bool_decide (k ∈ edgeCounterKeys) = true →
                     k ∈ edgeCounterKeys)
    by (intros k Hk; by apply bool_decide_eq_true in Hk).
  destruct (ifaceIsString (EdgeMetadata T !! "protocol") "http").
  - apply bind_Ok in E1 as (S1 & _ & E1).
    apply bind_Ok in E1 as (v & _ & E1).
    apply bind_Ok in E1 as (h2 & E2 & E1).
    apply bind_Ok in E1 as (S2 & _ & E1).
    apply bind_Ok in E1 as (h3 & E3 & E1).
    apply bind_Ok in E1 as (S3 & _ & E1).
    apply bind_Ok in E1 as (h4 & E4 & E1).
    apply bind_Ok in E1 as (S4 & _ & E1).
    apply addToEdgeMetadata_counted in E2; [|by apply Hin].
    apply optional_counter_counted in E3; [|by apply Hin].
    apply optional_counter_counted in E4; [|by apply Hin].
    apply optional_counter_counted in E1; [|by apply Hin].
    eapply counted_trans; [exact E2|].
    eapply counted_trans; [exact E3|].
    eapply counted_trans; [exact E4|exact E1].
  - destruct (ifaceIsString (EdgeMetadata T !! "protocol") "tcp"); [|done].
    apply bind_Ok in E1 as (S1 & _ & E1).
    apply bind_Ok in E1 as (v & _ & E1).
    apply addToEdgeMetadata_counted in E1; [done|by apply Hin].
Qed.

Lemma addServiceGraphTraffic_frame h (target source : eref) h' :
  addServiceGraphTraffic h target source = Ok h' →
  nodes h' = nodes h ∧ reduced h h'.
Proof.
  intros (h1 & Hc & H)%addServiceGraphTraffic_inv.
  pose proof (counted_reduced _ _ _ Hc) as Hr.
  destruct Hc as (N1 & _).
  apply bind_Ok in H as (S & _ & H).
  destruct (EdgeMetadata S !! "responseTime") as [rt|].
  - apply bind_Ok in H as (v & _ & H).
    apply bind_Ok in H as (T & ET & H).
    apply bind_Ok in H as (md & _ & H). injection H as <-.
    split; [done|]. eapply reduced_trans; [exact Hr|].
    apply reduced_setEdge. unfold getEdge in ET.
    by destruct (edges h1 !! target); simplify_eq.
  - by injection H as <-.
Qed.

Lemma Qcdiv_1_r (x : Qc) : x / 1 = x.
Proof. unfold Qcdiv. rewrite <- (Qcmult_1_r x) at 2. by f_equal. Qed.

(** X20. When [addServiceGraphTraffic] folds an edge that carries a response
    time into a target, the target's [responseTime] becomes the running
    average of the response times folded into it so far: the target's
    own response time is not part of it. So the first edge folded in
    overwrites the response time of the target with its own. The
    source edge is left as it is. *)
Theorem addServiceGraphTraffic_response_time
    (h : Heap) (target source : eref) (T S : Edge) (rt : Qc) (h' : Heap) :
  target ≠ source →
  edges h !! target = Some T → edges h !! source = Some S →
  EdgeMetadata S !! "responseTime" = Some (VFloat rt) →
  addServiceGraphTraffic h target source = Ok h' →
  edges h' !! source = Some S ∧
  ∃ T', edges h' !! target = Some T' ∧
    averaged "responseTime" (EdgeMetadata T')
      (rt + num (EdgeMetadata T !! "responseTime_total"))
      (1 + num (EdgeMetadata T !! "responseTime_count")) ∧
    (EdgeMetadata T !! "responseTime_total" = None →
     EdgeMetadata T !! "responseTime_count" = None →
     EdgeMetadata T' !! "responseTime" = Some (VFloat rt)).
Proof.
  intros Hne HT HS Hrt (h1 & Hc & H)%addServiceGraphTraffic_inv.
  destruct Hc as (_ & _ & Ho & Ht).
  destruct (Ht T HT) as (T1 & HT1 & HQ & HK).
  assert (HS1 : edges h1 !! source = Some S)
    by (rewrite Ho by (by apply not_eq_sym); done).
  assert (HgS : getEdge h1 source = Ok S) by (unfold getEdge; by rewrite HS1).
  assert (HgT : getEdge h1 target = Ok T1) by (unfold getEdge; by rewrite HT1).
  rewrite HgS, ok_bind, Hrt in H. simpl asFloat in H.
  rewrite ok_bind, HgT, ok_bind in H.
  apply bind_Ok in H as (md & Emd & H). injection H as <-.
  assert (Hlt : (target < length (edges h1))%nat) by by eapply lookup_lt_Some.
  split.
  { simpl. by rewrite list_lookup_insert_ne. }
  exists (withEdgeMetadata T1 md). split.
  { simpl. by apply list_lookup_insert_eq. }
  simpl.
  assert (Hk : ∀ k, bool_decide (k ∉ edgeCounterKeys) = true →
             EdgeMetadata T1 !! k = EdgeMetadata T !! k)
    by (intros k Hk%bool_decide_eq_true; by apply HK).
  unfold averageMetadataValue in Emd. cbv zeta in Emd.
  change ("responseTime" +:+ "_total") with "responseTime_total" in Emd.
  change ("responseTime" +:+ "_count") with "responseTime_count" in Emd.
  rewrite (Hk "responseTime_total"), (Hk "responseTime_count") in Emd by done.
  apply bind_Ok in Emd as (total & Etot & Emd).
  apply bind_Ok in Emd as (count & Ecnt & Emd). injection Emd as <-.
  assert (total = rt + num (EdgeMetadata T !! "responseTime_total")) as ->.
  { destruct (EdgeMetadata T !! "responseTime_total") as [[x| | |]|];
      simpl in *; try done.
    - by injection Etot as <-.
    - injection Etot as <-. ring. }
  assert (count = 1 + num (EdgeMetadata T !! "responseTime_count")) as ->.
  { destruct (EdgeMetadata T !! "responseTime_count") as [[x| | |]|];
      simpl in *; try done.
    - by injection Ecnt as <-.
    - injection Ecnt as <-. ring. }
  split.
  - unfold averaged.
    change ("responseTime" +:+ "_total") with "responseTime_total".
    change ("responseTime" +:+ "_count") with "responseTime_count".
    split_and!.
    + by rewrite lookup_insert_ne, lookup_insert_ne, lookup_insert_eq.
    + by rewrite lookup_insert_ne, lookup_insert_eq.
    + by rewrite lookup_insert_eq.
  - intros -> ->. rewrite lookup_insert_eq. simpl. do 2 f_equal.
    rewrite !Qcplus_0_r. apply Qcdiv_1_r.
Qed.

Lemma addServiceGraphTraffic_response_time_witness :
  ∃ h' T', addServiceGraphTraffic timedPaths 1%nat 3%nat = Ok h' ∧
    edges h' !! 1%nat = Some T' ∧
    EdgeMetadata T' !! "responseTime" = Some (VFloat (Qcnat 30)).
Proof.
  destruct (addServiceGraphTraffic timedPaths 1%nat 3%nat) as [h'|f] eqn:E.
  - destruct (addServiceGraphTraffic_response_time timedPaths 1%nat 3%nat
                (withEdgeMetadata (edgeOf 1 2 "http" "http" (Qcnat 100))
                   (<["responseTime" := VFloat (Qcnat 10)]>
                      (EdgeMetadata (edgeOf 1 2 "http" "http" (Qcnat 100)))))
                (withEdgeMetadata (edgeOf 3 2 "http" "http" (Qcnat 50))
                   (<["responseTime" := VFloat (Qcnat 30)]>
                      (EdgeMetadata (edgeOf 3 2 "http" "http" (Qcnat 50)))))
                (Qcnat 30) h')
      as (_ & T' & HT' & _ & Hfirst); [lia|reflexivity|reflexivity| |exact E|].
    + by_evaluation.
    + exists h', T'. split; [reflexivity|]. split; [exact HT'|].
      apply Hfirst; by_evaluation.
  - exfalso.
    assert (outcome (addServiceGraphTraffic timedPaths 1%nat 3%nat)
              (fun _ => ()) = Some ()) as H by (vm_compute; reflexivity).
    rewrite E in H. discriminate H.
Defined.

Lemma getNode_inv h (r : nref) n : getNode h r = Ok n → nodes h !! r = Some n.
Proof. unfold getNode. destruct (nodes h !! r); by intros [= ->]. Qed.

Lemma getEdge_inv h (e : eref) E : getEdge h e = Ok E → edges h !! e = Some E.
Proof. unfold getEdge. destruct (edges h !! e); by intros [= ->]. Qed.

Lemma checkNodeType_inv h expected (n : nref) u :
  checkNodeType h expected n = Ok u →
  ∃ N, nodes h !! n = Some N ∧ NodeType N = expected.
Proof.
  unfold checkNodeType. intros H. apply bind_Ok in H as (N & HN%getNode_inv & H).
  exists N. split; [done|]. case_bool_decide as Hne; [done|].
  destruct (decide (expected = NodeType N)); [done|]. by destruct Hne.
Qed.

Lemma reduceServiceEdge_inv (n : nref) h (se : eref) h' N :
  nodes h !! n = Some N → NodeType N = NodeTypeService →
  reduceServiceEdge n h se = Ok h' →
  serviceBound h se ∧ reduced h h' ∧
  (∀ r : nref, r ≠ n → nodes h' !! r = nodes h !! r) ∧
  ∃ N', nodes h' !! n = Some N' ∧ ∀ e, e ∈ Edges N' → e ∈ Edges N ∨ e = se.
Proof.
  intros HN HT H. unfold reduceServiceEdge in H.
  apply bind_Ok in H as (SE & HSE%getEdge_inv & H). cbv zeta in H.
  apply bind_Ok in H as (u & (C0 & HC0 & HC0T)%checkNodeType_inv & H).
  apply bind_Ok in H as (C & HC%getNode_inv & H).
  apply bind_Ok in H as (N1 & HN1%getNode_inv & H).
  apply bind_Ok in H as (edge & _ & H).
  assert (serviceBound h se) as Hsb by by exists SE, C0.
  clear HC. simplify_eq. split; [done|].
  destruct edge as [edge|].
  - apply addServiceGraphTraffic_frame in H as [Hn Hr].
    split_and!; [done|by intros; rewrite Hn|].
    exists N. rewrite Hn. split; [done|]. by left.
  - injection H as <-. split_and!.
    + by apply reduced_setNode.
    + intros r Hne. simpl. by rewrite list_lookup_insert_ne.
    + eexists. split.
      * simpl. apply list_lookup_insert_eq. by eapply lookup_lt_Some.
      * simpl. intros e [He|He%list_elem_of_singleton]%elem_of_app;
          [by left|by right].
Qed.

Lemma reduceServiceEdges_loop h0 (n : nref) N0 es : ∀ h h',
  reduced h0 h → nodes h0 !! n = Some N0 → NodeType N0 = NodeTypeService →
  forM (reduceServiceEdge n) es h = Ok h' →
  Forall (serviceBound h0) es ∧ reduced h0 h' ∧
  (∀ r : nref, r ≠ n → nodes h' !! r = nodes h !! r) ∧
  ∃ N N', nodes h !! n = Some N ∧ nodes h' !! n = Some N' ∧
    ∀ e, e ∈ Edges N' → e ∈ Edges N ∨ e ∈ es.
Proof.
  induction es as [|se es IH]; intros h h' Hred HN0 HT H.
  - injection H as <-. split_and!; [done|done|done|].
    destruct Hred as (_ & Nd & _). destruct (Nd n N0 HN0) as (N & HN & _).
    exists N, N. split_and!; [done|done|]. by left.
  - rewrite forM_cons in H. apply bind_Ok in H as (h1 & E1 & H).
    pose proof Hred as (_ & Nd & _).
    destruct (Nd n N0 HN0) as (N & HN & HNq & _).
    assert (NodeType N = NodeTypeService) as HNT by by rewrite HNq.
    destruct (reduceServiceEdge_inv n h se h1 N HN HNT E1)
      as (Hsb & Hr1 & Ho1 & N1 & HN1 & Hsub1).
    assert (reduced h0 h1) as Hred1 by by eapply reduced_trans.
    destruct (IH h1 h' Hred1 HN0 HT H)
      as (Hall & Hred' & Ho' & N1' & N' & HN1' & HN' & Hsub').
    rewrite HN1 in HN1'. injection HN1' as <-. split_and!.
    + constructor; [|done]. exact (serviceBound_reduced h0 h se Hred Hsb).
    + done.
    + intros r Hne. by rewrite Ho', Ho1.
    + exists N, N'. split_and!; [done|done|].
      intros e He. destruct (Hsub' e He) as [H1|H1].
      * destruct (Hsub1 e H1) as [H2| ->]; [by left|right; by left].
      * right. by right.
Qed.

Lemma reduceWorkloadEdge_inv h0 (n : nref) N0 h (we : eref) h' :
  reduced h0 h → nodes h0 !! n = Some N0 → NodeType N0 = NodeTypeService →
  reduceWorkloadEdge n h we = Ok h' →
  reduced h0 h' ∧ (∀ r : nref, r ≠ n → nodes h' !! r = nodes h !! r) ∧
  ∃ WE W N N', edges h0 !! we = Some WE ∧ nodes h0 !! Dest WE = Some W ∧
    NodeType W = NodeTypeWorkload ∧ Forall (serviceBound h0) (Edges W) ∧
    nodes h !! n = Some N ∧ nodes h' !! n = Some N' ∧
    ∀ e, e ∈ Edges N' → e ∈ Edges N ∨ e ∈ Edges W.
Proof.
  intros Hred HN0 HT H. unfold reduceWorkloadEdge in H.
  apply bind_Ok in H as (WE & HWE%getEdge_inv & H). cbv zeta in H.
  apply bind_Ok in H as (u & (W1 & HW1 & HW1T)%checkNodeType_inv & H).
  apply bind_Ok in H as (W & HW%getNode_inv & H).
  rewrite HW1 in HW. injection HW as <-.
  destruct (reduced_edge h0 h we WE Hred HWE) as (WE0 & HWE0 & HWEq).
  assert (Dest WE = Dest WE0) as HD by by rewrite HWEq.
  destruct (reduced_node h0 h _ W1 Hred HW1) as (W0 & HW0 & HWq & HWs).
  assert (NodeType W0 = NodeTypeWorkload) as HW0T.
  { rewrite <- HW1T. by rewrite HWq. }
  assert (W1 = W0) as -> by (apply HWs; by rewrite HW0T).
  destruct (reduceServiceEdges_loop h0 n N0 (Edges W0) h h' Hred HN0 HT H)
    as (Hall & Hred' & Ho & N & N' & HN & HN' & Hsub).
  split_and!; [done|done|].
  exists WE0, W0, N, N'. rewrite <- HD. by split_and!.
Qed.

Lemma reduceWorkloadEdges_loop h0 (n : nref) N0 wes : ∀ h h',
  reduced h0 h → nodes h0 !! n = Some N0 → NodeType N0 = NodeTypeService →
  forM (reduceWorkloadEdge n) wes h = Ok h' →
  reduced h0 h' ∧ (∀ r : nref, r ≠ n → nodes h' !! r = nodes h !! r) ∧
  ∃ N N', nodes h !! n = Some N ∧ nodes h' !! n = Some N' ∧
    ∀ e, e ∈ Edges N' →
      e ∈ Edges N ∨
      (serviceBound h0 e ∧
       ∃ (we : eref) WE W, we ∈ wes ∧ edges h0 !! we = Some WE ∧
         nodes h0 !! Dest WE = Some W ∧ NodeType W = NodeTypeWorkload ∧
         e ∈ Edges W).
Proof.
  induction wes as [|we wes IH]; intros h h' Hred HN0 HT H.
  - injection H as <-. split_and!; [done|done|].
    destruct Hred as (_ & Nd & _). destruct (Nd n N0 HN0) as (N & HN & _).
    exists N, N. split_and!; [done|done|]. by left.
  - rewrite forM_cons in H. apply bind_Ok in H as (h1 & E1 & H).
    destruct (reduceWorkloadEdge_inv h0 n N0 h we h1 Hred HN0 HT E1)
      as (Hred1 & Ho1 & WE & W & N & N1 & HWE & HW & HWT & Hall & HN & HN1
          & Hsub1).
    destruct (IH h1 h' Hred1 HN0 HT H)
      as (Hred' & Ho' & N1' & N' & HN1' & HN' & Hsub').
    simplify_eq. split_and!; [done| |].
    + intros r Hne. by rewrite Ho', Ho1.
    + exists N, N'. split_and!; [done|done|].
      intros e He. destruct (Hsub' e He) as [H1|(Hsb & we' & WE' & W' & Hin & H')].
      * destruct (Hsub1 e H1) as [H2|H2]; [by left|]. right. split.
        -- rewrite list.Forall_forall in Hall. by apply Hall.
        -- exists we, WE, W. split_and!; try done. by left.
      * right. split; [done|]. exists we', WE', W'.
        split; [by right|done].
Qed.

Lemma kept_withEdges n es : kept (withEdges n es) = kept n.
Proof. done. Qed.

Lemma reduceNode_inv h0 h (red : TrafficMap) id (n : nref) h' red' :
  reduced h0 h →
  reduceNode (h, red) (id, n) = Ok (h', red') →
  ∃ N0 N, nodes h0 !! n = Some N0 ∧ nodes h !! n = Some N ∧
    red' = (if kept N0 then <[id := n]> red else red) ∧
    reduced h0 h' ∧
    (∀ r : nref, r ≠ n → nodes h' !! r = nodes h !! r) ∧
    (NodeType N0 = NodeTypeService →
     ∃ N', nodes h' !! n = Some N' ∧
       ∀ e, e ∈ Edges N' → serviceBound h0 e ∧ viaWorkload h0 N e).
Proof.
  intros Hred H. unfold reduceNode in H.
  apply bind_Ok in H as (N & HN%getNode_inv & H).
  destruct (reduced_node h0 h n N Hred HN) as (N0 & HN0 & HNq & _).
  assert (NodeType N = NodeType N0) as HTq by by rewrite HNq.
  assert (Metadata N = Metadata N0) as HMq by by rewrite HNq.
  exists N0, N. split; [done|]. split; [done|].
  unfold kept. rewrite <- HTq, <- HMq.
  case_bool_decide as Hne.
  - rewrite bool_decide_eq_false_2 by done. simpl.
    assert (h' = h ∧
            red' = if bool_decide (Metadata N !! "isRoot" = Some (VBool true))
                   then <[id := n]> red else red) as [-> ->].
    { destruct (Metadata N !! "isRoot") as [[| [] | |]|]; simpl in H;
        try done; injection H as <- <-; (split; [done|]);
        by case_bool_decide. }
    split_and!; [done|done|done|]. by intros HS.
  - assert (NodeType N = NodeTypeService) as HT
      by (destruct (decide (NodeType N = NodeTypeService)); [done|by destruct Hne]).
    rewrite bool_decide_eq_true_2 by done. simpl. cbv zeta in H.
    apply bind_Ok in H as (h2 & E2 & H). injection H as <- <-.
    assert (reduced h0 (setNode h n (withEdges N []))) as Hred1.
    { eapply reduced_trans; [exact Hred|]. by apply reduced_setNode. }
    destruct (reduceWorkloadEdges_loop h0 n N0 (Edges N) _ h2 Hred1 HN0)
      as (Hred2 & Ho & N1 & N' & HN1 & HN' & Hsub); [congruence|exact E2|].
    split_and!; [done|done| |].
    + intros r Hr. rewrite Ho by done. simpl.
      by rewrite list_lookup_insert_ne.
    + intros _. exists N'. split; [done|]. intros e He.
      simpl in HN1. rewrite list_lookup_insert_eq in HN1
        by by eapply lookup_lt_Some.
      injection HN1 as <-. simpl in Hsub.
      destruct (Hsub e He) as [[]%elem_of_nil|(Hsb & we & WE & W & H')].
      split; [done|]. by exists we, WE, W.
Qed.

Lemma reduceNodes_keys h0 (tm : TrafficMap) entries : ∀ h (red : TrafficMap) h' red',
  reduced h0 h →
  (∀ k r, (k, r) ∈ entries → tm !! k = Some r) →
  (∀ id r, red !! id = Some r →
     tm !! id = Some r ∧ ∃ n, nodes h0 !! r = Some n ∧ kept n) →
  forM reduceNode entries (h, red) = Ok (h', red') →
  reduced h0 h' ∧
  (∀ id r, red' !! id = Some r →
     tm !! id = Some r ∧ ∃ n, nodes h0 !! r = Some n ∧ kept n) ∧
  (∀ id r, red !! id = Some r → red' !! id = Some r) ∧
  (∀ id r n, (id, r) ∈ entries → nodes h0 !! r = Some n → kept n →
     red' !! id = Some r).
Proof.
  induction entries as [|[k p] entries IH]; intros h red h' red' Hred Htm Hs H.
  - injection H as <- <-. split_and!; [done|done|done|].
    by intros id r n ?%elem_of_nil.
  - rewrite forM_cons in H. apply bind_Ok in H as ([h1 red1] & E1 & H).
    destruct (reduceNode_inv h0 h red k p h1 red1 Hred E1)
      as (N0 & N & HN0 & HN & Hred1q & Hred1 & _).
    assert (Hkp : tm !! k = Some p) by (apply Htm; by left).
    assert (Hs1 : ∀ id r, red1 !! id = Some r →
              tm !! id = Some r ∧ ∃ n, nodes h0 !! r = Some n ∧ kept n).
    { intros id r. rewrite Hred1q. destruct (kept N0) eqn:HK; [|by apply Hs].
      destruct (decide (id = k)) as [->|Hne].
      - rewrite lookup_insert_eq. intros [= <-]. split; [done|].
        exists N0. by rewrite HK.
      - rewrite lookup_insert_ne by done. apply Hs. }
    assert (Hm1 : ∀ id r, red !! id = Some r → red1 !! id = Some r).
    { intros id r Hid. rewrite Hred1q. destruct (kept N0); [|done].
      destruct (decide (id = k)) as [->|Hne].
      - rewrite lookup_insert_eq. destruct (Hs k r Hid) as [Hr _]. congruence.
      - by rewrite lookup_insert_ne. }
    destruct (IH h1 red1 h' red' Hred1) as (Hred' & Hs' & Hm' & Hc'); try done.
    { intros k' r' Hin. apply Htm. by right. }
    split_and!; [done|done| |].
    + intros id r Hid. by apply Hm', Hm1.
    + intros id r n [[= -> ->]|Hin]%elem_of_cons Hn HK.
      * apply Hm'. rewrite Hred1q. simplify_eq.
        destruct (kept N0); [|done]. by rewrite lookup_insert_eq.
      * by eapply Hc'.
Qed.

(** X21. Whenever [reduceToServiceGraph] returns, the map it returns holds
    exactly the entries of the traffic map whose node is a service or
    carries [isRoot = true], each with the node object it had. Of the
    objects it changes nothing but the outgoing edges of service nodes
    and the metadata of edges: every other field of a node, every
    node that is no service, and the two ends of every edge are as
    before. *)
Theorem reduceToServiceGraph_keeps
    (order : list string) (h : Heap) (tm : TrafficMap)
    (h' : Heap) (tm' : TrafficMap) :
  visits tm order →
  reduceToServiceGraph order h tm = Ok (h', tm') →
  reduced h h' ∧
  ∀ id r, tm' !! id = Some r ↔
          tm !! id = Some r ∧ ∃ n, nodes h !! r = Some n ∧ kept n.
Proof.
  intros Hord H. unfold reduceToServiceGraph in H.
  destruct (reduceNodes_keys h tm (rangeMap tm order) h ∅ h' tm')
    as (Hred & Hs & _ & Hc); try done.
  - apply reduced_refl.
  - by intros k r [_ ?]%elem_of_rangeMap.
  - split; [done|]. intros id r. split; [apply Hs|].
    intros (Hid & n & Hn & HK). apply (Hc id r n); [|done|done].
    by apply visits_rangeMap.
Qed.

Lemma reduceToServiceGraph_keeps_witness :
  ∃ h' tm', reduceToServiceGraph (map_to_list onePathMap).*1 (onePath "http")
              onePathMap = Ok (h', tm') ∧
    reduced (onePath "http") h' ∧
    tm' !! "svc_bookinfo_s1" = Some 0%nat ∧ tm' !! "wl_bookinfo_w" = None.
Proof.
  destruct (reduceToServiceGraph (map_to_list onePathMap).*1 (onePath "http")
              onePathMap) as [[h' tm']|f] eqn:E.
  - exists h', tm'. split; [reflexivity|].
    destruct (reduceToServiceGraph_keeps (map_to_list onePathMap).*1
                (onePath "http") onePathMap h' tm') as (Hred & Hk);
      [unfold visits; reflexivity|exact E|].
    split; [exact Hred|]. split.
    + apply Hk. split; [reflexivity|].
      exists (serviceNode "s1" [0%nat]). split; reflexivity.
    + destruct (tm' !! "wl_bookinfo_w") as [r|] eqn:Hr; [|reflexivity].
      exfalso. apply Hk in Hr as (Hr & n & Hn & HK).
      assert (onePathMap !! "wl_bookinfo_w" = Some 1%nat) as Hw
        by reflexivity.
      rewrite Hw in Hr. injection Hr as <-.
      injection Hn as <-. exact HK.
  - exfalso.
    assert (outcome (reduceToServiceGraph (map_to_list onePathMap).*1
                       (onePath "http") onePathMap) (fun _ => ()) = Some ())
      as H by (vm_compute; reflexivity).
    rewrite E in H. discriminate H.
Defined.

Lemma reduceNodes_shape h0 entries : ∀ h (red : TrafficMap) h' red',
  NoDup entries.*2 →
  reduced h0 h →
  (∀ r : nref, r ∈ entries.*2 → nodes h !! r = nodes h0 !! r) →
  forM reduceNode entries (h, red) = Ok (h', red') →
  reduced h0 h' ∧
  (∀ r : nref, r ∉ entries.*2 → nodes h' !! r = nodes h !! r) ∧
  ∀ id (r : nref) N, (id, r) ∈ entries → nodes h0 !! r = Some N →
    NodeType N = NodeTypeService →
    ∃ N', nodes h' !! r = Some N' ∧
      ∀ e, e ∈ Edges N' → serviceBound h0 e ∧ viaWorkload h0 N e.
Proof.
  induction entries as [|[k p] entries IH];
    intros h red h' red' Hnd Hred Hun H.
  - injection H as <- <-. split_and!; [done|done|].
    by intros id r N ?%elem_of_nil.
  - rewrite forM_cons in H. apply bind_Ok in H as ([h1 red1] & E1 & H).
    rewrite fmap_cons in Hnd. apply list.NoDup_cons in Hnd as [Hnin Hnd].
    destruct (reduceNode_inv h0 h red k p h1 red1 Hred E1)
      as (N0 & N & HN0 & HN & _ & Hred1 & Ho1 & Hsvc).
    assert (N = N0) as ->.
    { rewrite Hun in HN by (rewrite fmap_cons; by left). congruence. }
    destruct (IH h1 red1 h' red' Hnd Hred1) as (Hred' & Ho' & Hsh'); [|done|].
    { intros r Hr. rewrite Ho1 by (intros ->; done).
      apply Hun. rewrite fmap_cons. by right. }
    split_and!; [done| |].
    + intros r Hr. rewrite fmap_cons, not_elem_of_cons in Hr.
      destruct Hr as [Hne Hr]. by rewrite Ho', Ho1.
    + intros id r M [[= -> ->]|Hin]%elem_of_cons HM HMT.
      * simplify_eq. destruct (Hsvc HMT) as (N' & HN' & Hall).
        exists N'. split; [|done]. by rewrite Ho'.
      * by eapply Hsh'.
Qed.

(** X22. Whenever [reduceToServiceGraph] returns, every outgoing edge of a
    service node of the traffic map leads to a service, and it is an
    edge object of the input graph: an outgoing edge of a workload
    that an outgoing edge of the service node led to. *)
Theorem reduceToServiceGraph_shape
    (order : list string) (h : Heap) (tm : TrafficMap)
    (h' : Heap) (tm' : TrafficMap) :
  visits tm order → keyed h tm →
  reduceToServiceGraph order h tm = Ok (h', tm') →
  ∀ id (r : nref) N, tm !! id = Some r → nodes h !! r = Some N →
    NodeType N = NodeTypeService →
    ∃ N', nodes h' !! r = Some N' ∧
      ∀ e, e ∈ Edges N' → serviceBound h e ∧ viaWorkload h N e.
Proof.
  intros Hord K H id r N Hid HN HT. unfold reduceToServiceGraph in H.
  destruct (reduceNodes_shape h (rangeMap tm order) h ∅ h' tm')
    as (_ & _ & Hsh); try done.
  - apply (keyed_NoDup h); [done|]. by eapply visits_NoDup.
  - apply reduced_refl.
  - apply (Hsh id); [|done|done]. by apply visits_rangeMap.
Qed.

Lemma reduceToServiceGraph_shape_witness :
  ∃ h' tm' N', reduceToServiceGraph (map_to_list twoPathsMap).*1
                 (twoPaths "http") twoPathsMap = Ok (h', tm') ∧
    nodes h' !! 0%nat = Some N' ∧
    ∀ e, e ∈ Edges N' → serviceBound (twoPaths "http") e.
Proof.
  destruct (reduceToServiceGraph (map_to_list twoPathsMap).*1
              (twoPaths "http") twoPathsMap) as [[h' tm']|f] eqn:E.
  - destruct (reduceToServiceGraph_shape (map_to_list twoPathsMap).*1
                (twoPaths "http") twoPathsMap h' tm') with
      (id := "svc_bookinfo_s1") (r := 0%nat)
      (N := serviceNode "s1" [0%nat; 2%nat]) as (N' & HN' & Hall);
      [unfold visits; reflexivity|unfold keyed; by_evaluation|exact E
      |reflexivity|reflexivity|reflexivity|].
    exists h', tm', N'. split; [reflexivity|]. split; [exact HN'|].
    intros e He. exact (proj1 (Hall e He)).
  - exfalso.
    assert (outcome (reduceToServiceGraph (map_to_list twoPathsMap).*1
                       (twoPaths "http") twoPathsMap) (fun _ => ()) = Some ())
      as H by (vm_compute; reflexivity).
    rewrite E in H. discriminate H.
Defined.

(** ** What the response-time appender keeps *)

Lemma forM_closure {A S} (R : S → S → Prop) (body : S → A → result S) xs :
  (∀ s, R s s) → (∀ a b c, R a b → R b c → R a c) →
  (∀ s x s', body s x = Ok s' → R s s') →
  ∀ s s', forM body xs s = Ok s' → R s s'.
Proof.
  intros Hrefl Htrans Hbody. induction xs as [|x xs IH]; intros s s' H.
  - injection H as <-. apply Hrefl.
  - rewrite forM_cons in H. apply bind_Ok in H as (s1 & E1 & H).
    eapply Htrans; [by eapply Hbody|by apply IH].
Qed.

Lemma timed_refl h : timed h h.
Proof. split_and!; try done. intros e E HE. by exists E. Qed.

Lemma timed_trans h1 h2 h3 : timed h1 h2 → timed h2 h3 → timed h1 h3.
Proof.
  intros (N1 & L1 & E1) (N2 & L2 & E2). split_and!; [congruence|congruence|].
  intros e E HE. destruct (E1 e E HE) as (E' & HE' & S1 & D1 & K1).
  destruct (E2 e E' HE') as (E'' & HE'' & S2 & D2 & K2).
  exists E''. split_and!; [done|congruence|congruence|].
  intros k Hk. by rewrite K2, K1.
Qed.

Lemma applyResponseTimeEdge_timed rtm h (e : eref) h' :
  appender.applyResponseTimeEdge rtm h e = Ok h' → timed h h'.
Proof.
  intros H. unfold appender.applyResponseTimeEdge in H.
  apply bind_Ok in H as (E & HE & H).
  apply bind_Ok in H as (s & _ & H). apply bind_Ok in H as (d & _ & H).
  injection H as <-. unfold getEdge in HE.
  destruct (edges h !! e) as [E0|] eqn:HE0; [|done]. injection HE as ->.
  split_and!; [done|simpl; by rewrite length_insert|].
  intros e' E' HE'. simpl. destruct (decide (e' = e)) as [->|Hne].
  - rewrite list_lookup_insert_eq by by eapply lookup_lt_Some.
    simplify_eq. eexists. split_and!; [done|done|done|].
    intros k Hk. simpl. by rewrite lookup_insert_ne.
  - rewrite list_lookup_insert_ne by done. by exists E'.
Qed.

Lemma applyResponseTime_timed rtm entries h h' :
  forM (appender.applyResponseTimeNode rtm) entries h = Ok h' → timed h h'.
Proof.
  apply (forM_closure timed); [apply timed_refl|apply timed_trans|].
  intros s [k r] s' H. unfold appender.applyResponseTimeNode in H.
  apply bind_Ok in H as (n & _ & H). revert H.
  apply (forM_closure timed); [apply timed_refl|apply timed_trans|].
  intros s0 e s0'. apply applyResponseTimeEdge_timed.
Qed.

Lemma timed_totalE h h' k :
  timed h h' → k ≠ "responseTime" → totalE h' k = totalE h k.
Proof.
  intros (_ & L & HE) Hk. unfold totalE. f_equal.
  apply list_eq. intros i. rewrite !list_lookup_fmap.
  destruct (edges h !! i) as [E|] eqn:Hi.
  - destruct (HE i E Hi) as (E' & -> & _ & _ & HK). simpl. by rewrite HK.
  - apply lookup_ge_None in Hi. rewrite <- L in Hi.
    apply lookup_ge_None in Hi. by rewrite Hi.
Qed.

Lemma AppendGraph_timed
    (Id : string → string → string → string → string → string
          → string * string)
    (istioNamespace : string) (promQuery : appender.Query → list Sample)
    (a : appender.ResponseTimeAppender) (order : list string) (h : Heap)
    (tm : TrafficMap) (namespace : string) :
  closed h tm →
  ∃ h', appender.AppendGraph Id istioNamespace promQuery a order h tm
          namespace = Ok h' ∧ timed h h'.
Proof.
  intros Hcl. unfold appender.AppendGraph. case_bool_decide as Hsz.
  { exists h. split; [done|apply timed_refl]. }
  unfold appender.appendGraph, appender.applyResponseTime.
  destruct (applyResponseTimeNodes_loop
              (appender.responseTimes Id istioNamespace promQuery a namespace)
              (rangeMap tm order) h) as (h' & Eq & _).
  { intros k r [_ Hk]%elem_of_rangeMap. specialize (Hcl k r Hk).
    simpl in Hcl. destruct (nodes h !! r) as [n|]; [|done].
    exists n. split; [done|]. simpl in Hcl.
    apply list.Forall_forall. intros e He.
    apply Is_true_true, forallb_forall with (x := e) in Hcl;
      [by apply Is_true_true|by apply list_elem_of_In]. }
  exists h'. split; [done|]. by eapply applyResponseTime_timed.
Qed.

(** X23. The response-time appender writes nothing but the [responseTime]
    entry of edges: the nodes, the two ends of every edge and every
    other entry of every edge are as before, so the traffic counters
    and their sums are what the builder left. *)
Theorem appender_only_response_time
    (Id : string → string → string → string → string → string
          → string * string)
    (istioNamespace : string) (promQuery : appender.Query → list Sample)
    (a : appender.ResponseTimeAppender) (order : list string) (h : Heap)
    (tm : TrafficMap) (namespace : string) :
  closed h tm →
  ∃ h', appender.AppendGraph Id istioNamespace promQuery a order h tm
          namespace = Ok h' ∧
    nodes h' = nodes h ∧ length (edges h') = length (edges h) ∧
    (∀ (e : eref) E, edges h !! e = Some E →
       ∃ E', edges h' !! e = Some E' ∧ Source E' = Source E ∧
         Dest E' = Dest E ∧
         ∀ k, k ≠ "responseTime" →
              EdgeMetadata E' !! k = EdgeMetadata E !! k) ∧
    ∀ k, k ≠ "responseTime" → totalE h' k = totalE h k.
Proof.
  intros Hcl.
  destruct (AppendGraph_timed Id istioNamespace promQuery a order h tm
              namespace Hcl) as (h' & E & Ht).
  exists h'. pose proof Ht as (N & L & HE). split_and!; try done.
  intros k Hk. by apply timed_totalE.
Qed.

Lemma appender_only_response_time_witness :
  ∃ h', appender.AppendGraph IdSpec "istio-system" (fun _ => httpVector)
          quantile50 (map_to_list ingressMap).*1 ingressHeap ingressMap
          "bookinfo" = Ok h' ∧
    totalE h' "http" = totalE ingressHeap "http".
Proof.
  destruct (appender_only_response_time IdSpec "istio-system"
              (fun _ => httpVector) quantile50 (map_to_list ingressMap).*1
              ingressHeap ingressMap "bookinfo")
    as (h' & E & _ & _ & _ & Hsum).
  - by_evaluation.
  - exists h'. split; [exact E|]. apply Hsum. discriminate.
Defined.

(** ** One namespace, from the telemetry to the marked graph *)

Lemma sameShape_pointwise h h' :
  length (nodes h') = length (nodes h) →
  (∀ (r : nref) n, nodes h !! r = Some n →
     ∃ n', nodes h' !! r = Some n' ∧ ID n' = ID n ∧ Edges n' = Edges n) →
  length (edges h') = length (edges h) →
  (∀ (e : eref) E, edges h !! e = Some E →
     ∃ E', edges h' !! e = Some E' ∧ Source E' = Source E ∧
           Dest E' = Dest E) →
  sameShape h h'.
Proof.
  intros Ln Hn Le He. split; apply list_eq; intros i;
    rewrite !list_lookup_fmap.
  - destruct (nodes h !! i) as [n|] eqn:Hi.
    + destruct (Hn i n Hi) as (n' & -> & Hid & Hes). simpl. by rewrite Hid, Hes.
    + apply lookup_ge_None in Hi. rewrite <- Ln in Hi.
      apply lookup_ge_None in Hi. by rewrite Hi.
  - destruct (edges h !! i) as [E|] eqn:Hi.
    + destruct (He i E Hi) as (E' & -> & Hs & Hd). simpl. by rewrite Hs, Hd.
    + apply lookup_ge_None in Hi. rewrite <- Le in Hi.
      apply lookup_ge_None in Hi. by rewrite Hi.
Qed.

Lemma structured_closed h (tm : TrafficMap) : structured h tm → closed h tm.
Proof.
  intros Hs k r Hk. pose proof Hs as (K & _ & _ & Hends).
  destruct (keyed_lookup h tm k r K Hk) as (n & Hn & _).
  simpl. rewrite Hn. simpl. apply forallb_True, list.Forall_forall.
  intros e He.
  pose proof (structured_edge_lt h tm r n e Hs Hn He) as Hlt.
  apply lookup_lt_is_Some in Hlt as [E HE].
  rewrite list.Forall_forall in Hends.
  destruct (Hends E) as [Hsrc Hdst]; [by eapply list_elem_of_lookup_2|].
  unfold edgeOk. rewrite HE. simpl.
  apply andb_True. split; apply bool_decide_pack; by apply lookup_lt_is_Some.
Qed.

Lemma timed_sameShape h h' : timed h h' → sameShape h h'.
Proof.
  intros (N & L & HE). apply sameShape_pointwise; [by rewrite N| |done|].
  - intros r n Hn. exists n. by rewrite N.
  - intros e E Hlk. destruct (HE e E Hlk) as (E' & HE' & Hs & Hd & _).
    by exists E'.
Qed.

Section Pipeline.
Variable Id : string → string → string → string → string → string
              → string * string.
Variable IsOK : string → bool.
Variable istioNamespace : string.
Variable promQuery : appender.Query → list Sample.

(** X25. For one namespace the stages of [buildNamespacesTrafficMap]
    compose without a panic, whatever the telemetry holds and in
    whatever order the maps are ranged over: the builder, the
    response-time appender, the merge into the empty global map, the
    classifier and the marking of the traffic generators all return.
    The merge returns the map of the namespace itself, and the graph
    that comes out has the nodes, the edges and the wiring the builder
    made: the later stages only write metadata. *)
Theorem single_namespace_pipeline
    (httpVectors tcpVectors : list (list Sample)) (o : Options)
    (a : appender.ResponseTimeAppender) (namespace : string) :
  ∃ h1 tm,
    buildNamespaceTrafficMap Id IsOK httpVectors tcpVectors o = Ok (h1, tm) ∧
    ∀ order1 order2 order3 order4 order5,
      visits tm order1 → visits tm order2 → visits tm order3 →
      visits tm order4 → visits tm order5 →
      ∃ h2 h3 h4,
        appender.AppendGraph Id istioNamespace promQuery a order1 h1 tm
          namespace = Ok h2 ∧
        mergeTrafficMaps order2 h2 ∅ namespace tm = Ok (h2, tm) ∧
        markOutsideOrInaccessible order3 h2 tm o = Ok h3 ∧
        markTrafficGenerators order4 order5 h3 tm = Ok h4 ∧
        sameShape h1 h4 ∧ structured h4 tm.
Proof.
  destruct (buildNamespaceTrafficMap_built Id IsOK httpVectors tcpVectors o)
    as (h1 & tm & E1 & (S1 & _ & _ & BN & _) & _).
  simpl in S1, BN. exists h1, tm. split; [done|].
  intros order1 order2 order3 order4 order5 V1 V2 V3 V4 V5.
  (* the appender *)
  destruct (AppendGraph_timed Id istioNamespace promQuery a order1 h1 tm
              namespace (structured_closed h1 tm S1)) as (h2 & E2 & T2).
  pose proof (timed_sameShape _ _ T2) as Sh2.
  pose proof (structured_sameShape _ _ _ S1 Sh2) as S2.
  (* the classifier *)
  destruct (markNodes_flagged o (rangeMap tm order3) h2)
    as (h3 & E3 & Ed3 & L3 & N3).
  { intros k r [_ Hk]%elem_of_rangeMap.
    destruct S1 as (K & _).
    destruct (keyed_lookup h1 tm k r K Hk) as (n & Hn & _).
    exists n. destruct T2 as (-> & _). split; [done|].
    rewrite list.Forall_forall in BN.
    unfold outsideFlagOk. rewrite (BN n); [done|by eapply list_elem_of_lookup_2|].
    by apply (bool_decide_unpack _). }
  assert (sameShape h2 h3) as Sh3.
  { apply sameShape_pointwise; [done| |by rewrite Ed3|].
    - intros r n Hn. destruct (N3 r n Hn) as (n' & Hn' & Hq & _).
      exists n'. split; [done|]. by rewrite Hq.
    - intros e E HE. exists E. by rewrite Ed3. }
  pose proof (structured_sameShape _ _ _ S2 Sh3) as S3.
  (* the traffic generators *)
  pose proof (structured_closed h3 tm S3) as C3.
  assert (Hpre : ∀ order k r, (k, r) ∈ rangeMap tm order →
            ∃ n, nodes h3 !! r = Some n ∧ forallb (edgeOk h3) (Edges n)).
  { intros order k r [_ Hk]%elem_of_rangeMap.
    specialize (C3 k r Hk). simpl in C3.
    destruct (nodes h3 !! r) as [n|]; [|done]. by exists n. }
  destruct (collectDests_loop h3 (rangeMap tm order4) ∅ (Hpre order4))
    as (destMap & E4 & _).
  destruct (markRoots_loop destMap (rangeMap tm order5) h3)
    as (h4 & E5 & Ed4 & L4 & N4).
  { intros k r Hin. destruct (Hpre order5 k r Hin) as (n & -> & _).
    by eexists. }
  assert (sameShape h3 h4) as Sh4.
  { apply sameShape_pointwise; [done| |by rewrite Ed4|].
    - intros r n Hn. rewrite (N4 r n Hn). eexists. split; [done|].
      by case_bool_decide.
    - intros e E HE. exists E. by rewrite Ed4. }
  exists h2, h3, h4. split_and!.
  - done.
  - by apply merge_into_empty.
  - done.
  - unfold markTrafficGenerators. by rewrite E4, ok_bind.
  - eapply sameShape_trans; [exact Sh2|].
    eapply sameShape_trans; [exact Sh3|exact Sh4].
  - by eapply structured_sameShape.
Qed.

End Pipeline.

(** ** The generic graph service *)

Section GenericGraph.
Import business.
Variable k8sGetGraphAdapter : string → string → fallible GraphAdapter.
Variable k8sGetGraphAdapters : string → fallible (list GraphAdapter).
Variable IstioNamespace : string.
Variable Rate : string.
Variable FetchRatePoint : string → string → string → Z → Z
                          → fallible (list Sample).
Variable rangeEdges : gmap string business.Edge → list string.

Lemma addGlobal_loop (globals : list GraphAdapter) : ∀ adapters,
  ∃ extra, foldl addGlobal adapters globals = adapters ++ extra ∧
    sublist extra globals ∧
    NoDup (AdapterName <$> extra) ∧
    (∀ a, a ∈ extra → AdapterName a ∉ AdapterName <$> adapters) ∧
    ∀ a, a ∈ globals →
         AdapterName a ∈ AdapterName <$> (adapters ++ extra).
Proof.
  induction globals as [|g globals IH]; intros adapters.
  - exists []. rewrite (right_id_L [] (++)). split_and!; try done.
    + constructor.
    + by intros a ?%elem_of_nil.
    + by intros a ?%elem_of_nil.
  - simpl foldl. unfold addGlobal at 2.
    destruct (existsb _ adapters) eqn:Hex.
    + destruct (IH adapters) as (extra & E & Hsub & Hnd & Hnew & Hall).
      exists extra. split_and!; [done|by apply sublist_cons|done|done|].
      intros a [Ha|Hin]%elem_of_cons; [|by apply Hall]. subst a.
      apply existsb_exists in Hex as (a2 & Hin2 & Heq).
      apply bool_decide_eq_true in Heq. rewrite fmap_app.
      apply elem_of_app. left. apply list_elem_of_fmap. exists a2.
      split; [done|by apply list_elem_of_In].
    + destruct (IH (adapters ++ [g])) as (extra & E & Hsub & Hnd & Hnew & Hall).
      assert (Hg : AdapterName g ∉ AdapterName <$> adapters).
      { intros (a2 & Heq & Hin2)%list_elem_of_fmap.
        assert (existsb (fun a2 => bool_decide (AdapterName g = AdapterName a2))
                  adapters = true) as Hex'; [|congruence].
        apply existsb_exists. exists a2.
        split; [by apply list_elem_of_In|by apply bool_decide_eq_true]. }
      exists (g :: extra). split_and!.
      * by rewrite E, <- app_assoc.
      * by apply sublist_skip.
      * rewrite fmap_cons. apply list.NoDup_cons. split; [|done].
        intros (a & Heq & Hin)%list_elem_of_fmap.
        apply (Hnew a Hin). rewrite fmap_app. apply elem_of_app. right.
        rewrite <- Heq. by left.
      * intros a [Ha|Hin]%elem_of_cons; [by subst a|].
        intros Ha. apply (Hnew a Hin). rewrite fmap_app.
        apply elem_of_app. by left.
      * intros a [Ha|Hin]%elem_of_cons.
        -- subst a. rewrite fmap_app, fmap_cons. apply elem_of_app. right.
           by left.
        -- specialize (Hall a Hin). by rewrite <- app_assoc in Hall.
Qed.

(** X26. [loadAllGraphAdapters] returns the adapters of the namespace as
    they are, followed by those adapters of the global namespace whose
    name is not taken yet, in their order. So every name of either
    list is in the result, an adapter of the namespace shadows a global
    one of its name, and names that are unique in the namespace are
    unique in the result. *)
Theorem loadAllGraphAdapters_names
    (namespace : string) (locals globals : list GraphAdapter) :
  k8sGetGraphAdapters namespace = Success locals →
  k8sGetGraphAdapters IstioNamespace = Success globals →
  IstioNamespace ≠ EmptyString → namespace ≠ IstioNamespace →
  ∃ extra,
    loadAllGraphAdapters k8sGetGraphAdapters IstioNamespace namespace
    = Success (locals ++ extra) ∧
    sublist extra globals ∧
    NoDup (AdapterName <$> extra) ∧
    (∀ a, a ∈ extra → AdapterName a ∉ AdapterName <$> locals) ∧
    (∀ a, a ∈ globals → AdapterName a ∈ AdapterName <$> (locals ++ extra)) ∧
    (NoDup (AdapterName <$> locals) →
     NoDup (AdapterName <$> (locals ++ extra))).
Proof.
  intros Hl Hg Hne1 Hne2.
  destruct (addGlobal_loop globals locals) as (extra & E & Hsub & Hnd & Hnew & Hall).
  exists extra. split_and!; try done.
  - unfold loadAllGraphAdapters. rewrite Hl.
    rewrite !bool_decide_eq_false_2 by done. simpl. by rewrite Hg, E.
  - intros Hndl. rewrite fmap_app. apply list.NoDup_app. split_and!; [done| |done].
    intros x Hx (a & -> & Hin)%list_elem_of_fmap. by apply (Hnew a Hin).
Qed.

Lemma foldl_processPromItem metric agg (v : list Sample) st :
  foldl (processPromItem metric agg) st v
  = foldl (fun st (mi : GraphAdapterMetric * Sample) =>
             processPromItem mi.1 agg st mi.2) st (pair metric <$> v).
Proof.
  revert st. induction v as [|s v IH]; intros st; [done|].
  simpl. apply IH.
Qed.

Lemma generate_loop q agg (metrics : list GraphAdapterMetric) : ∀ st st',
  forF (generateMetric Rate FetchRatePoint q agg) metrics st = Success st' →
  st' = foldl (fun st (mi : GraphAdapterMetric * Sample) =>
                 processPromItem mi.1 agg st mi.2) st
              (metrics ≫= fetchedFor Rate FetchRatePoint q agg).
Proof.
  induction metrics as [|metric metrics IH]; intros st st' H.
  - by injection H as <-.
  - simpl in H.
    destruct (generateMetric Rate FetchRatePoint q agg st metric)
      as [st1|err] eqn:E1; [|done].
    apply IH in H. rewrite H, bind_cons, foldl_app. f_equal.
    unfold generateMetric, fetchedFor in *.
    destruct (bool_decide (Function metric = Rate)); [|by injection E1 as <-].
    destruct (FetchRatePoint (Query metric)
                (concatFilters (filterFromInside q agg) (Filters metric))
                (groupBy agg) (Time q) (Duration q)) as [inside|]; [|done].
    destruct (FetchRatePoint (Query metric)
                (concatFilters (filterFromOutside q agg) (Filters metric))
                (groupBy agg) (Time q) (Duration q)) as [outside|]; [|done].
    injection E1 as <-. unfold processPromResult.
    by rewrite fmap_app, foldl_app, !foldl_processPromItem.
Qed.

Lemma processed_edges agg (l : list (GraphAdapterMetric * Sample)) : ∀ st,
  let st' := foldl (fun st (mi : GraphAdapterMetric * Sample) =>
                      processPromItem mi.1 agg st mi.2) st l in
  (∀ id E, st'.1 !! id = Some E →
     st.1 !! id = Some E ∨
     ∃ mi, mi ∈ l ∧ GeneratesGraph mi.1 = true ∧
       id = edgeKeyOf (sourceOf agg mi.2) (destOf agg mi.2) ∧
       E = mkEdge (sourceOf agg mi.2) (destOf agg mi.2) []) ∧
  (∀ id, is_Some (st.1 !! id) → is_Some (st'.1 !! id)) ∧
  (∀ mi, mi ∈ l → GeneratesGraph mi.1 = true →
     is_Some (st'.1 !! edgeKeyOf (sourceOf agg mi.2) (destOf agg mi.2))) ∧
  ∀ id, default [] (st'.2 !! id)
        = default [] (st.2 !! id) ++ labelsOf agg id l.
Proof.
  induction l as [|[m i] l IH]; intros [E0 L0]; cbv zeta.
  - cbn [foldl fst snd].
    split_and!; [by left; done|done|by intros mi ?%elem_of_nil|].
    intros id. unfold labelsOf. simpl. by rewrite (right_id_L [] (++)).
  - cbn [foldl fst snd].
    specialize (IH (processPromItem m agg (E0, L0) i)). cbv zeta in IH.
    destruct IH as (Hb & Hm & Ha & Hc).
    assert (Hstep1 : (processPromItem m agg (E0, L0) i).1
                     = if GeneratesGraph m
                       then <[edgeKeyOf (sourceOf agg i) (destOf agg i)
                              := mkEdge (sourceOf agg i) (destOf agg i) []]> E0
                       else E0) by done.
    assert (Hstep2 : (processPromItem m agg (E0, L0) i).2
                     = if EdgeLabels m
                       then <[edgeKeyOf (sourceOf agg i) (destOf agg i)
                              := default [] (L0 !! edgeKeyOf (sourceOf agg i)
                                                     (destOf agg i))
                                 ++ [labelOf (m, i)]]> L0
                       else L0) by done.
    rewrite Hstep1 in Hb, Hm. rewrite Hstep2 in Hc. split_and!.
    + intros id E HE. destruct (Hb id E HE) as [H0|(mi & Hin & H')].
      * destruct (GeneratesGraph m) eqn:HG; [|by left].
        destruct (decide (id = edgeKeyOf (sourceOf agg i) (destOf agg i)))
          as [->|Hne].
        -- rewrite lookup_insert_eq in H0. injection H0 as <-. right.
           exists (m, i). split_and!; [by left|done|done|done].
        -- rewrite lookup_insert_ne in H0 by done. by left.
      * right. exists mi. split; [by right|done].
    + intros id Hid. apply Hm. destruct (GeneratesGraph m); [|done].
      rewrite lookup_insert_is_Some.
      destruct (decide (edgeKeyOf (sourceOf agg i) (destOf agg i) = id));
        [by left|by right].
    + intros mi [->|Hin]%elem_of_cons HG; [|by apply Ha].
      apply Hm. simpl in *. rewrite HG. by rewrite lookup_insert_eq.
    + intros id. rewrite Hc. unfold labelsOf. simpl List.filter.
      destruct (EdgeLabels m) eqn:HL; simpl; [|done].
      case_bool_decide as Hid.
      * subst id. rewrite lookup_insert_eq. simpl.
        by rewrite <- app_assoc.
      * by rewrite lookup_insert_ne.
Qed.

(** X27. When [generateGraph] succeeds it returns the adapter it was given
    and one edge for each edge key among the samples fetched for the
    rate metrics that generate the graph, so no two edges have the same
    two ends. Each edge has the two ends [buildID] gives for such a
    sample. Its labels are those of all the samples of its key fetched
    for the edge-labelling rate metrics, in the order they were
    fetched, whether or not those metrics generate the graph: the
    value of the sample times the unit scale of the metric, and times 1
    when the unit scale is 0. *)
Theorem generateGraph_edges
    (q : GraphQuery) (adapter : GraphAdapterSpec)
    (agg : GraphAdapterAggregation) (resp : GraphResponse) :
  (∀ m, visits m (rangeEdges m)) →
  generateGraph Rate FetchRatePoint rangeEdges q adapter agg = Success resp →
  let samples := fetched Rate FetchRatePoint q adapter agg in
  Adapter resp = adapter ∧
  NoDup ((fun E => (SourceID E, DestID E)) <$> Edges resp) ∧
  (∀ E, E ∈ Edges resp →
     (∃ mi, mi ∈ samples ∧ GeneratesGraph mi.1 = true ∧
        SourceID E = sourceOf agg mi.2 ∧ DestID E = destOf agg mi.2) ∧
     Labels E = labelsOf agg (edgeKeyOf (SourceID E) (DestID E)) samples) ∧
  (∀ mi, mi ∈ samples → GeneratesGraph mi.1 = true →
     ∃ E, E ∈ Edges resp ∧
       edgeKeyOf (SourceID E) (DestID E)
       = edgeKeyOf (sourceOf agg mi.2) (destOf agg mi.2)).
Proof.
  intros Hrange H samples. unfold generateGraph in H.
  destruct (forF _ (Metrics adapter) (∅, ∅)) as [[allEdges allEdgeLabels]|]
    eqn:Hloop; [|done].
  injection H as <-. simpl.
  apply generate_loop in Hloop.
  change (Metrics adapter ≫= fetchedFor Rate FetchRatePoint q agg)
    with samples in Hloop.
  pose proof (processed_edges agg samples (∅, ∅)) as Hp. cbv zeta in Hp.
  rewrite <- Hloop in Hp. cbn [fst snd] in Hp.
  destruct Hp as (Hb & _ & Ha & Hc).
  assert (Hentry : ∀ id E, allEdges !! id = Some E →
            ∃ mi, mi ∈ samples ∧ GeneratesGraph mi.1 = true ∧
              id = edgeKeyOf (sourceOf agg mi.2) (destOf agg mi.2) ∧
              E = mkEdge (sourceOf agg mi.2) (destOf agg mi.2) []).
  { intros id E HE. destruct (Hb id E HE) as [H0|H0]; [|done].
    by rewrite lookup_empty in H0. }
  split_and!; [done| | |].
  - rewrite <- list_fmap_compose. apply NoDup_fmap_2_strong.
    + intros [id1 E1] [id2 E2] [_ H1]%elem_of_rangeMap [_ H2]%elem_of_rangeMap.
      simpl. intros [= Hs Hd].
      destruct (Hentry id1 E1 H1) as (mi1 & _ & _ & -> & ->).
      destruct (Hentry id2 E2 H2) as (mi2 & _ & _ & -> & ->).
      simpl in Hs, Hd. by rewrite Hs, Hd.
    + eapply NoDup_fmap_1. apply rangeMap_NoDup. eapply visits_NoDup, Hrange.
  - intros E ([id E0] & -> & [_ Hin]%elem_of_rangeMap)%list_elem_of_fmap.
    destruct (Hentry id E0 Hin) as (mi & Hmi & HG & -> & ->). simpl. split.
    + by exists mi.
    + by rewrite Hc.
  - intros mi Hmi HG. destruct (Ha mi Hmi HG) as [E HE].
    destruct (Hentry _ E HE) as (mi' & _ & _ & Hkey & ->).
    eexists. split.
    + apply list_elem_of_fmap. eexists (_, _). split; [done|].
      apply visits_rangeMap; [apply Hrange|exact HE].
    + simpl. by rewrite Hkey.
Qed.

(** X28. Asked for an aggregation level the adapter does not have,
    [GetGraph] returns the adapter with no edge: it is no error, and
    nothing is computed from the telemetry. Of several aggregations
    of the name asked for, the first one is used. *)
Theorem GetGraph_aggregation
    (q : GraphQuery) (adapter : GraphAdapter) :
  loadGraphAdapter k8sGetGraphAdapter IstioNamespace (Namespace q)
    (QueryGraphAdapter q) = Success adapter →
  (Forall (fun agg => AggregationName agg ≠ AggregationLevel q)
          (Aggregations (Spec adapter)) →
   GetGraph k8sGetGraphAdapter IstioNamespace Rate FetchRatePoint rangeEdges q
   = Success (mkGraphResponse (Spec adapter) [])) ∧
  ∀ before agg after,
    Aggregations (Spec adapter) = before ++ agg :: after →
    Forall (fun agg => AggregationName agg ≠ AggregationLevel q) before →
    AggregationName agg = AggregationLevel q →
    GetGraph k8sGetGraphAdapter IstioNamespace Rate FetchRatePoint rangeEdges q
    = generateGraph Rate FetchRatePoint rangeEdges q (Spec adapter) agg.
Proof.
  intros Hload.
  assert (Hfind : ∀ before rest,
            Forall (fun agg => AggregationName agg ≠ AggregationLevel q) before →
            List.find (fun agg => bool_decide (AggregationName agg
                                               = AggregationLevel q))
                      (before ++ rest)
            = List.find (fun agg => bool_decide (AggregationName agg
                                                 = AggregationLevel q)) rest).
  { intros before rest Hb. induction Hb as [|a before Ha _ IH]; [done|].
    simpl. by rewrite bool_decide_eq_false_2. }
  split.
  - intros Hnone. unfold GetGraph. rewrite Hload.
    case_bool_decide; [done|].
    rewrite <- (right_id_L [] (++) (Aggregations (Spec adapter))).
    by rewrite Hfind.
  - intros before agg after Heq Hb Hname. unfold GetGraph. rewrite Hload, Heq.
    rewrite bool_decide_eq_false_2
      by (rewrite length_app; simpl; lia).
    rewrite Hfind by done. simpl. by rewrite bool_decide_eq_true_2.
Qed.

End GenericGraph.

Lemma loadAllGraphAdapters_names_witness :
  ∃ extra,
    business.loadAllGraphAdapters clusterAdapters "istio-system" "bookinfo"
    = business.Success ([adapterOf "tcp" "TCP of bookinfo"] ++ extra) ∧
    NoDup (business.AdapterName
             <$> ([adapterOf "tcp" "TCP of bookinfo"] ++ extra)).
Proof.
  destruct (loadAllGraphAdapters_names clusterAdapters "istio-system"
              "bookinfo" [adapterOf "tcp" "TCP of bookinfo"]
              [adapterOf "tcp" "TCP"; adapterOf "http" "HTTP"])
    as (extra & E & _ & _ & _ & _ & Hnd);
    [reflexivity|reflexivity|discriminate|discriminate|].
  exists extra. split; [exact E|]. apply Hnd.
  apply NoDup_singleton.
Defined.

Lemma generateGraph_edges_witness :
  ∃ resp,
    business.generateGraph "rate" clusterRate keysOf (bookinfoQuery "workload")
      (business.Spec (adapterOf "tcp" "TCP")) (workloadAggregation "workload")
    = business.Success resp ∧
    NoDup ((fun E => (business.SourceID E, business.DestID E))
             <$> business.Edges resp).
Proof.
  destruct (business.generateGraph "rate" clusterRate keysOf
              (bookinfoQuery "workload") (business.Spec (adapterOf "tcp" "TCP"))
              (workloadAggregation "workload")) as [resp|err] eqn:E.
  - exists resp. split; [reflexivity|].
    refine (proj1 (proj2 (generateGraph_edges "rate" clusterRate keysOf
                            (bookinfoQuery "workload")
                            (business.Spec (adapterOf "tcp" "TCP"))
                            (workloadAggregation "workload") resp _ E))).
    intros m. unfold visits, keysOf. reflexivity.
  - exfalso. revert E. vm_compute. discriminate.
Defined.

Lemma GetGraph_aggregation_witness :
  business.GetGraph clusterAdapter "istio-system" "rate" clusterRate keysOf
    (bookinfoQuery "service")
  = business.Success
      (business.mkGraphResponse
         (business.Spec (adapterOf "tcp" "TCP of bookinfo")) []).
Proof.
  refine (proj1 (GetGraph_aggregation clusterAdapter "istio-system" "rate"
                   clusterRate keysOf (bookinfoQuery "service")
                   (adapterOf "tcp" "TCP of bookinfo") _) _).
  - reflexivity.
  - repeat constructor; discriminate.
Defined.

(** C5. Reduction conservation: it fails when a service reaches a
    workload over two edges. From the HTTP vector [reviewsHttp] and the
    TCP vectors, of which the in-namespace one is [reviewsTcp], the
    builder of a service graph makes [reviewsHeap], in which the path
    from the service [reviews] over the workload [reviews-v1] to the
    service [ratings] carries [http] = 100. Whatever the order the nodes
    are visited in, [reduceToServiceGraph] leaves [reviews] with exactly
    one outgoing edge, to [ratings], and that edge reads [http] = 200:
    it walks the edge of [reviews-v1] once for the ["http"] edge and
    once for the ["tcp"] edge of [reviews], adopts it the first time and
    adds it to itself the second time. *)
Theorem reduction_counts_twice :
  buildNamespaceTrafficMap IdSpec IsOKSpec [reviewsHttp]
    [[]; []; reviewsTcp] serviceGraph = Ok (reviewsHeap, reviewsMap) ∧
  ∀ order, visits reviewsMap order →
    outcome (reduceToServiceGraph order reviewsHeap reviewsMap)
      (fun '(h, reduced) =>
         (reduced, ID <$> nodes h !! 3%nat, Edges <$> nodes h !! 1%nat,
          edges h !! 2%nat))
    = Some (list_to_map [("svc_bookinfo_reviews", 1%nat);
                         ("svc_bookinfo_ratings", 3%nat)],
            Some "svc_bookinfo_ratings", Some [2%nat],
            Some (edgeOf 2 3 "http" "http" (Qcnat 200))).
Proof.
  split; [by_evaluation|].
  unshelve eapply for_all_orders. by vm_compute.
Qed.

(** ** Response-code classes in [addHttpTraffic] *)

Lemma sameEntries_refl nk ek h : sameEntries nk ek h h.
Proof. by split. Qed.

Lemma sameEntries_trans nk ek h1 h2 h3 :
  sameEntries nk ek h1 h2 → sameEntries nk ek h2 h3 → sameEntries nk ek h1 h3.
Proof.
  intros [N1 E1] [N2 E2]. split.
  - intros r k Hk. by rewrite N2, N1.
  - intros e k Hk. by rewrite E2, E1.
Qed.

Lemma addNode_sameEntries Id nk ek h (tm : TrafficMap) namespace workload app
    version service o h' tm' (r : nref) found :
  addNode Id h tm namespace workload app version service o
  = (h', tm', r, found) →
  sameEntries nk ek h h' ∧ edges h' = edges h ∧
  tm' !! (Id namespace workload app version service (GraphType o)).1 = Some r ∧
  ∀ k r0, tm !! k = Some r0 → tm' !! k = Some r0.
Proof.
  unfold addNode.
  destruct (Id namespace workload app version service (GraphType o))
    as [id nodeType]. simpl.
  destruct (tm !! id) as [node|] eqn:Hid.
  - intros [= <- <- <- <-]. split_and!; by try apply sameEntries_refl.
  - intros [= <- <- <- <-]. split_and!; try done.
    + split; [|done]. intros r k _. unfold nodeEntry. simpl.
      destruct (decide (r < length (nodes h))%nat) as [Hlt|Hge].
      * by rewrite lookup_app_l.
      * rewrite (proj2 (lookup_ge_None (nodes h) r)) by lia.
        rewrite lookup_app_r by lia.
        destruct (r - length (nodes h))%nat as [|i]; [done|].
        by destruct i.
    + by rewrite lookup_insert_eq.
    + intros k r0 Hk. rewrite lookup_insert_ne; [done|]. by intros ->; simplify_eq.
Qed.

Lemma addToMetadataValue_inv md k v md' :
  addToMetadataValue md k v = Ok md' →
  md' = <[k := VFloat (num (md !! k) + v)]> md.
Proof.
  unfold addToMetadataValue. destruct (md !! k) as [[x| | |]|]; simpl;
    intros [= <-]; try done.
  do 2 f_equal. ring.
Qed.

Lemma addToNodeMetadata_inv h (r : nref) k v h' :
  addToNodeMetadata h r k v = Ok h' →
  ∃ n, nodes h !! r = Some n ∧
    h' = setNode h r
           (withMetadata n
              (<[k := VFloat (num (Metadata n !! k) + v)]> (Metadata n))).
Proof.
  unfold addToNodeMetadata. intros H.
  apply bind_Ok in H as (n & Hn%getNode_inv & H).
  apply bind_Ok in H as (md & Hmd%addToMetadataValue_inv & [= <-]).
  exists n. by subst md.
Qed.

Lemma addToEdgeMetadata_inv h (e : eref) k v h' :
  addToEdgeMetadata h e k v = Ok h' →
  ∃ E, edges h !! e = Some E ∧
    h' = setEdge h e
           (withEdgeMetadata E
              (<[k := VFloat (num (EdgeMetadata E !! k) + v)]>
                 (EdgeMetadata E))).
Proof.
  unfold addToEdgeMetadata. intros H.
  apply bind_Ok in H as (E & HE%getEdge_inv & H).
  apply bind_Ok in H as (md & Hmd%addToMetadataValue_inv & [= <-]).
  exists E. by subst md.
Qed.

Lemma nodeEntry_setNode h (r r' : nref) n md k :
  nodes h !! r = Some n →
  nodeEntry (setNode h r (withMetadata n md)) r' k
  = if decide (r' = r) then md !! k else nodeEntry h r' k.
Proof.
  intros Hn. unfold nodeEntry. simpl. destruct (decide (r' = r)) as [->|Hne].
  - rewrite list_lookup_insert_eq by by eapply lookup_lt_Some. done.
  - by rewrite list_lookup_insert_ne.
Qed.


Lemma sameEntries_weaken nk ek nk' ek' h h' :
  nk ⊆ nk' → ek ⊆ ek' → sameEntries nk ek h h' → sameEntries nk' ek' h h'.
Proof.
  intros Hn He [N E]. split.
  - intros r k Hk. apply N. intros Hin. by apply Hk, Hn.
  - intros e k Hk. apply E. intros Hin. by apply Hk, He.
Qed.

Lemma sameShape_sym h h' : sameShape h h' → sameShape h' h.
Proof. intros [A B]. by split. Qed.

Lemma sameShape_node_fwd h h' (r : nref) n :
  sameShape h h' → nodes h !! r = Some n →
  ∃ n', nodes h' !! r = Some n' ∧ ID n' = ID n ∧ Edges n' = Edges n.
Proof. intros Hs%sameShape_sym. by apply sameShape_node. Qed.

Lemma sameShape_edge_fwd h h' (e : eref) E :
  sameShape h h' → edges h !! e = Some E →
  ∃ E', edges h' !! e = Some E' ∧ Source E' = Source E ∧ Dest E' = Dest E.
Proof. intros Hs%sameShape_sym. by apply sameShape_edge. Qed.

Lemma handleMisconfiguredLabels_entries h (node : nref) app version rate o h' :
  handleMisconfiguredLabels h node app version rate o = Ok h' →
  edges h' = edges h ∧ sameShape h h' ∧ sameEntries ["isMisconfigured"] [] h h'.
Proof.
  unfold handleMisconfiguredLabels. intros H.
  apply bind_Ok in H as (n & Hn%getNode_inv & H). cbv zeta in H.
  destruct (_ || _); [|injection H as <-; by split_and!].
  case_bool_decide; [|injection H as <-; by split_and!].
  injection H as <-. split; [done|]. split.
  - apply (sameShape_setNode h node n); [done|..];
      by destruct (bool_decide (0 < rate)).
  - split; [|done]. intros r k Hk. unfold nodeEntry. simpl.
    destruct (decide (r = node)) as [->|Hne].
    + rewrite list_lookup_insert_eq by by eapply lookup_lt_Some.
      rewrite Hn. simpl.
      assert (k ≠ "isMisconfigured") by (intros ->; apply Hk; by left).
      destruct (bool_decide (0 < rate)); simpl; by rewrite lookup_insert_ne.
    + by rewrite list_lookup_insert_ne.
Qed.

Lemma optional_misconfigured_entries (found : bool) h (node : nref) app
    version rate o h' :
  (if found then handleMisconfiguredLabels h node app version rate o
   else Ok h) = Ok h' →
  edges h' = edges h ∧ sameShape h h' ∧ sameEntries ["isMisconfigured"] [] h h'.
Proof.
  destruct found; [apply handleMisconfiguredLabels_entries|].
  intros [= <-]. by split_and!.
Qed.

(** [addHttpTraffic] and [addTcpTraffic] up to their counters: the two
    nodes, the entry of the destination service, the edge, which is
    found under the key [pk] or made, and the labels. *)
Lemma traffic_head_inv {B} Id h (tm : TrafficMap) val
    sourceWlNs sourceWl sourceApp sourceVer sourceSvcName
    destSvcNs destWl destApp destVer destSvcName o pk p
    (K : Heap → TrafficMap → nref → nref → eref → result B) (res : B) :
  (let '(h, trafficMap, source, sourceFound) :=
     addNode Id h tm sourceWlNs sourceWl sourceApp sourceVer
             sourceSvcName o in
   let '(h, trafficMap, dest, destFound) :=
     addNode Id h trafficMap destSvcNs destWl destApp destVer
             destSvcName o in
   d ← getNode h dest;
   md ← addToDestServices (Metadata d) destSvcName;
   let h := setNode h dest (withMetadata d md) in
   s ← getNode h source;
   d ← getNode h dest;
   found ← findEdge h (Edges s) (ID d) pk p;
   '(h, edge) ← match found with
                | Some e => Ok (h, e)
                | None =>
                    '(h, e) ← AddEdge h source dest;
                    h ← setEdgeMetadata h e "protocol" (VString p);
                    Ok (h, e)
                end;
   h ← (if sourceFound
        then handleMisconfiguredLabels h source sourceApp sourceVer val o
        else Ok h);
   h ← (if destFound
        then handleMisconfiguredLabels h dest destApp destVer val o
        else Ok h);
   K h trafficMap source dest edge) = Ok res →
  ∃ (source dest : nref) (edge : eref) h6 tm',
    tm' !! (Id sourceWlNs sourceWl sourceApp sourceVer sourceSvcName
               (GraphType o)).1 = Some source ∧
    tm' !! (Id destSvcNs destWl destApp destVer destSvcName
               (GraphType o)).1 = Some dest ∧
    sameEntries ["destServices"; "isMisconfigured"] ["protocol"] h h6 ∧
    (∃ S, nodes h6 !! source = Some S ∧ edge ∈ Edges S) ∧
    (edgeEntry h6 edge pk = Some (VString p) ∧
       (edge < length (edges h))%nat
     ∨ edge = length (edges h) ∧
       edges h6
       = edges h ++ [mkEdge source dest (<["protocol" := VString p]> ∅)]) ∧
    (∃ E D d, edges h6 !! edge = Some E ∧ nodes h6 !! Dest E = Some D ∧
              nodes h6 !! dest = Some d ∧ ID D = ID d) ∧
    K h6 tm' source dest edge = Ok res.
Proof.
  destruct (addNode Id h tm sourceWlNs sourceWl sourceApp sourceVer
              sourceSvcName o) as [[[h1 tm1] source] sf] eqn:E1.
  destruct (addNode Id h1 tm1 destSvcNs destWl destApp destVer
              destSvcName o) as [[[h2 tm2] dest] df] eqn:E2.
  apply (addNode_sameEntries Id ["destServices"; "isMisconfigured"]
           ["protocol"]) in E1 as (F1 & Ed1 & K1 & M1).
  apply (addNode_sameEntries Id ["destServices"; "isMisconfigured"]
           ["protocol"]) in E2 as (F2 & Ed2 & K2 & M2).
  intros H.
  apply bind_Ok in H as (d & Hd & H).
  apply bind_Ok in H as (md & Hmd & H).
  cbv zeta in H.
  apply bind_Ok in H as (s & Hs & H).
  apply bind_Ok in H as (d3 & Hd3 & H).
  apply bind_Ok in H as (found & Hf & H).
  apply bind_Ok in H as ([h4 edge] & H4 & H).
  apply getNode_inv in Hd, Hs, Hd3.
  set (h3 := setNode h2 dest (withMetadata d md)) in *.
  assert (F3 : sameEntries ["destServices"; "isMisconfigured"] ["protocol"]
                 h2 h3).
  { split; [|done]. intros r k Hk. unfold h3.
    rewrite (nodeEntry_setNode _ _ _ _ _ _ Hd).
    destruct (decide (r = dest)) as [->|]; [|done].
    unfold nodeEntry. rewrite Hd. simpl.
    apply (addToDestServices_frame _ _ _ Hmd). intros ->. apply Hk.
    by left. }
  (* the edge *)
  assert (Ed3 : edges h3 = edges h) by (unfold h3; simpl; congruence).
  clearbody h3.
  assert (F4 : sameEntries ["destServices"; "isMisconfigured"] ["protocol"]
                 h3 h4 ∧
               (∃ S, nodes h4 !! source = Some S ∧ edge ∈ Edges S) ∧
               (edgeEntry h4 edge pk = Some (VString p) ∧
                  (edge < length (edges h))%nat
                ∨ edge = length (edges h) ∧
                  edges h4
                  = edges h
                    ++ [mkEdge source dest (<["protocol" := VString p]> ∅)]) ∧
               ∃ E D d, edges h4 !! edge = Some E ∧
                 nodes h4 !! Dest E = Some D ∧ nodes h4 !! dest = Some d ∧
                 ID D = ID d).
  { destruct found as [e|].
    - injection H4 as <- <-.
      apply findEdge_Some in Hf as (Hin & E & D & HE & HD & HID & Hp).
      split_and!.
      + apply sameEntries_refl.
      + by exists s.
      + left. split.
        * unfold edgeEntry. rewrite HE. simpl.
          destruct (EdgeMetadata E !! pk) as [[| |x|]|]; try done.
          simpl in Hp. by apply bool_decide_eq_true in Hp as ->.
        * rewrite <- Ed3. by eapply lookup_lt_Some.
      + by exists E, D, d3.
    - rewrite (newEdge_exact h3 source dest s p Hs) in H4.
      injection H4 as <- <-.
      assert (Hlt : (source < length (nodes h3))%nat)
        by by eapply lookup_lt_Some.
      split_and!.
      + split.
        * intros r k _. unfold nodeEntry. simpl.
          destruct (decide (r = source)) as [->|Hne].
          -- rewrite list_lookup_insert_eq by done. by rewrite Hs.
          -- by rewrite list_lookup_insert_ne.
        * intros e k Hk. unfold edgeEntry. simpl.
          destruct (decide (e < length (edges h3))%nat) as [Hl|Hge].
          -- by rewrite lookup_app_l.
          -- rewrite (proj2 (lookup_ge_None (edges h3) e)) by lia.
             rewrite lookup_app_r by lia.
             destruct (e - length (edges h3))%nat as [|i]; [|by destruct i].
             simpl. rewrite lookup_insert_ne; [done|].
             intros <-. apply Hk. by left.
      + eexists. simpl. rewrite list_lookup_insert_eq by done.
        split; [done|]. simpl. apply elem_of_app. right. by left.
      + right. simpl. by rewrite Ed3.
      + assert (HE : (edges h3 ++ [mkEdge source dest
                                     (<["protocol" := VString p]> ∅)])
                     !! length (edges h3)
                     = Some (mkEdge source dest
                               (<["protocol" := VString p]> ∅))).
        { rewrite lookup_app_r by lia. by rewrite Nat.sub_diag. }
        destruct (decide (dest = source)) as [->|Hne].
        * eexists _, _, _. simpl. split; [exact HE|]. simpl.
          rewrite list_lookup_insert_eq by done. done.
        * eexists _, d3, d3. simpl. split; [exact HE|]. simpl.
          rewrite list_lookup_insert_ne by done. done. }
  destruct F4 as (F4 & (S4 & HS4 & Hin4) & Hp4
                  & (E4 & D4 & d4 & HE4 & HD4 & Hd4 & HID4)).
  (* the labels *)
  apply bind_Ok in H as (h5 & (Ed5 & Sh5 & F5)%optional_misconfigured_entries & H).
  apply bind_Ok in H as (h6 & (Ed6 & Sh6 & F6)%optional_misconfigured_entries & H).
  pose proof (sameShape_trans _ _ _ Sh5 Sh6) as Sh.
  assert (F56 : sameEntries ["destServices"; "isMisconfigured"] ["protocol"]
                  h4 h6).
  { apply (sameEntries_weaken ["isMisconfigured"] []).
    - intros x Hx%list_elem_of_singleton. subst x. right. by left.
    - intros x Hx. by apply elem_of_nil in Hx.
    - by eapply sameEntries_trans. }
  exists source, dest, edge, h6, tm2. split_and!.
  - by apply M2.
  - done.
  - do 3 (eapply sameEntries_trans; [eassumption|]).
    by eapply sameEntries_trans.
  - destruct (sameShape_node_fwd _ _ _ _ Sh HS4) as (S6 & HS6 & _ & HEs).
    exists S6. split; [done|]. by rewrite HEs.
  - destruct F6 as [_ FE6], F5 as [_ FE5].
    destruct Hp4 as [[Hp4 Hlt]|[-> Hp4]]; [left|right].
    + split; [|done].
      rewrite FE6, FE5; [done|..]; intros Hin; by apply elem_of_nil in Hin.
    + split; [done|]. by rewrite Ed6, Ed5.
  - destruct (sameShape_edge_fwd _ _ _ _ Sh HE4) as (E6 & HE6 & _ & HDst).
    destruct (sameShape_node_fwd _ _ _ _ Sh HD4) as (D6 & HD6 & HID6 & _).
    destruct (sameShape_node_fwd _ _ _ _ Sh Hd4) as (d6 & Hd6 & Hid6 & _).
    exists E6, D6, d6. rewrite HDst. split_and!; [done|done|done|congruence].
  - done.
Qed.



Lemma addToNodeMetadata_entries h (r : nref) k v h' :
  addToNodeMetadata h r k v = Ok h' →
  sameShape h h' ∧
  nodeEntry h' r k = Some (VFloat (num (nodeEntry h r k) + v)) ∧
  (∀ (r' : nref) k', r' ≠ r ∨ k' ≠ k →
     nodeEntry h' r' k' = nodeEntry h r' k') ∧
  ∀ (e : eref) k', edgeEntry h' e k' = edgeEntry h e k'.
Proof.
  intros (n & Hn & ->)%addToNodeMetadata_inv. split_and!.
  - by apply (sameShape_setNode h r n).
  - rewrite (nodeEntry_setNode _ _ _ _ _ _ Hn), decide_True by done.
    rewrite lookup_insert_eq. unfold nodeEntry. by rewrite Hn.
  - intros r' k' Hne. rewrite (nodeEntry_setNode _ _ _ _ _ _ Hn).
    destruct (decide (r' = r)) as [->|]; [|done].
    destruct Hne as [|Hne]; [done|]. rewrite lookup_insert_ne by done.
    unfold nodeEntry. by rewrite Hn.
  - done.
Qed.










(** ** The TCP counters, call by call *)

Lemma addTcpTraffic_inv Id h (tm : TrafficMap) val
    sourceWlNs sourceWl sourceApp sourceVer sourceSvcName
    destSvcNs destWl destApp destVer destSvcName o h' tm' :
  Forall (fun E => builtEdge (EdgeMetadata E)) (edges h) →
  addTcpTraffic Id h tm val sourceWlNs sourceWl sourceApp sourceVer
    sourceSvcName destSvcNs destWl destApp destVer destSvcName o
  = Ok (h', tm') →
  ∃ (source dest : nref) h6,
    tm' !! (Id sourceWlNs sourceWl sourceApp sourceVer sourceSvcName
               (GraphType o)).1 = Some source ∧
    tm' !! (Id destSvcNs destWl destApp destVer destSvcName
               (GraphType o)).1 = Some dest ∧
    sameEntries ["destServices"; "isMisconfigured"] ["protocol"] h h6 ∧
    (∃ S, nodes h6 !! source = Some S ∧ length (edges h) ∈ Edges S) ∧
    edges h6
    = edges h ++ [mkEdge source dest (<["protocol" := VString "tcp"]> ∅)] ∧
    (h7 ← addToNodeMetadata h6 source "tcpOut" val;
     h8 ← addToNodeMetadata h7 dest "tcpIn" val;
     addToEdgeMetadata h8 (length (edges h)) "tcp" val) = Ok h'.
Proof.
  intros Hb H. unfold addTcpTraffic in H.
  apply (traffic_head_inv Id h tm val sourceWlNs sourceWl sourceApp sourceVer
           sourceSvcName destSvcNs destWl destApp destVer destSvcName o
           "procotol" "tcp"
           (fun h trafficMap source dest edge =>
              h ← addToNodeMetadata h source "tcpOut" val;
              h ← addToNodeMetadata h dest "tcpIn" val;
              h ← addToEdgeMetadata h edge "tcp" val;
              Ok (h, trafficMap))) in H
    as (source & dest & edge & h6 & tm2 & Ks & Kd & F & HS & Hp & HE & H).
  apply bind_Ok in H as (h7 & H7 & H).
  apply bind_Ok in H as (h8 & H8 & H).
  apply bind_Ok in H as (h9 & H9 & [= <- <-]).
  destruct Hp as [[Hp Hlt]|[-> Hp]].
  - exfalso. destruct F as [_ FE]. rewrite FE in Hp.
    + unfold edgeEntry in Hp. apply lookup_lt_is_Some in Hlt as [E HE0].
      rewrite HE0 in Hp. simpl in Hp.
      rewrite list.Forall_forall in Hb.
      destruct (Hb E) as (q & x & Hq & [_ Hnone] & _);
        [by eapply list_elem_of_lookup_2|].
      rewrite Hnone in Hp; [done|done|]. by destruct Hq as [-> | ->].
    + by apply (bool_decide_unpack _).
  - exists source, dest, h6. split_and!; try done.
    by rewrite H7, ok_bind, H8, ok_bind, H9.
Qed.

(** X8. The TCP counters, call by call. Called on a state the builder
    has made with the value [val], [addTcpTraffic] returns; it has
    appended one edge from the source to the destination, of protocol
    ["tcp"] and with [tcp] = [val], to the outgoing edges of the source,
    and has changed no other edge; it has added [val] once to the
    [tcpOut] of the source node and once to the [tcpIn] of the
    destination node, an absent counter counting as 0, and has changed
    no other [tcpOut] or [tcpIn]. *)
Theorem addTcpTraffic_counts_once Id h (tm : TrafficMap) val
    sourceWlNs sourceWl sourceApp sourceVer sourceSvcName
    destSvcNs destWl destApp destVer destSvcName o :
  built (h, tm) →
  ∃ h' tm' (source dest : nref) S,
    addTcpTraffic Id h tm val sourceWlNs sourceWl sourceApp sourceVer
      sourceSvcName destSvcNs destWl destApp destVer destSvcName o
    = Ok (h', tm') ∧
    tm' !! (Id sourceWlNs sourceWl sourceApp sourceVer sourceSvcName
               (GraphType o)).1 = Some source ∧
    tm' !! (Id destSvcNs destWl destApp destVer destSvcName
               (GraphType o)).1 = Some dest ∧
    edges h' = edges h ++ [edgeOf source dest "tcp" "tcp" val] ∧
    nodes h' !! source = Some S ∧ length (edges h) ∈ Edges S ∧
    nodeEntry h' source "tcpOut"
    = Some (VFloat (num (nodeEntry h source "tcpOut") + val)) ∧
    nodeEntry h' dest "tcpIn"
    = Some (VFloat (num (nodeEntry h dest "tcpIn") + val)) ∧
    (∀ r : nref, r ≠ source →
       nodeEntry h' r "tcpOut" = nodeEntry h r "tcpOut") ∧
    (∀ r : nref, r ≠ dest → nodeEntry h' r "tcpIn" = nodeEntry h r "tcpIn").
Proof.
  intros Hb.
  destruct (addTcpTraffic_built Id h tm val sourceWlNs sourceWl sourceApp
              sourceVer sourceSvcName destSvcNs destWl destApp destVer
              destSvcName o Hb) as (h' & tm' & HOk & _).
  destruct Hb as (_ & _ & _ & _ & Hedges). simpl in Hedges.
  destruct (addTcpTraffic_inv _ _ _ _ _ _ _ _ _ _ _ _ _ _ _ _ _ Hedges HOk)
    as (source & dest & h6 & Ks & Kd & [FN _] & (S6 & HS6 & Hin) & He6 & Ht).
  apply bind_Ok in Ht as (h7 & H7 & Ht).
  apply bind_Ok in Ht as (h8 & H8 & H9).
  pose proof H7 as (n7 & _ & E7)%addToNodeMetadata_inv.
  pose proof H8 as (n8 & _ & E8)%addToNodeMetadata_inv.
  apply addToNodeMetadata_entries in H7 as (Sh7 & N7 & NF7 & _).
  apply addToNodeMetadata_entries in H8 as (Sh8 & N8 & NF8 & _).
  apply addToEdgeMetadata_inv in H9 as (E9 & HE9 & ->).
  assert (edges h8 = edges h6) as Ed8 by (subst h8 h7; done).
  rewrite Ed8, He6 in HE9. rewrite lookup_app_r in HE9 by lia.
  rewrite Nat.sub_diag in HE9. injection HE9 as <-.
  destruct (sameShape_node_fwd _ _ _ _ (sameShape_trans _ _ _ Sh7 Sh8) HS6)
    as (S & HS & _ & HEs).
  assert (Hkeys : ∀ k, k ∈ ["tcpOut"; "tcpIn"] →
            k ∉ ["destServices"; "isMisconfigured"]).
  { intros k Hk. repeat (apply elem_of_cons in Hk as [->|Hk]);
      try (by apply elem_of_nil in Hk); by apply (bool_decide_unpack _). }
  assert (Ko := Hkeys "tcpOut" ltac:(by left)).
  assert (Ki := Hkeys "tcpIn" ltac:(right; by left)).
  eexists _, tm', source, dest, S.
  split; [exact HOk|].
  split_and!; try done.
  - simpl. rewrite Ed8, He6.
    rewrite insert_app_r_alt by lia. rewrite Nat.sub_diag. simpl.
    unfold edgeOf. do 3 f_equal.
    assert (H0 : num ((∅ : metadata) !! "tcp") + val = val).
    { rewrite lookup_empty. simpl. ring. }
    rewrite lookup_insert_ne by done. by rewrite H0.
  - by rewrite HEs.
  - unfold nodeEntry at 1. simpl. fold (nodeEntry h8 source "tcpOut").
    destruct (decide (source = dest)) as [<-|Hne].
    + rewrite NF8 by (right; done). by rewrite N7, (FN source "tcpOut" Ko).
    + rewrite NF8 by (left; done). by rewrite N7, (FN source "tcpOut" Ko).
  - unfold nodeEntry at 1. simpl. fold (nodeEntry h8 dest "tcpIn").
    rewrite N8. rewrite NF7 by (right; done).
    by rewrite (FN dest "tcpIn" Ki).
  - intros r Hr. unfold nodeEntry at 1. simpl. fold (nodeEntry h8 r "tcpOut").
    rewrite NF8 by (right; done). rewrite NF7 by (left; done).
    by rewrite (FN r "tcpOut" Ko).
  - intros r Hr. unfold nodeEntry at 1. simpl. fold (nodeEntry h8 r "tcpIn").
    rewrite NF8 by (left; done). rewrite NF7 by (right; done).
    by rewrite (FN r "tcpIn" Ki).
Qed.

Lemma addTcpTraffic_counts_once_witness :
  ∃ h' tm' (source dest : nref),
    addTcpTraffic IdSpec emptyHeap ∅ (Qcnat 5)
      "bookinfo" "productpage-v1" "productpage" "v1" ""
      "bookinfo" "mongodb-v1" "mongodb" "v1" "mongodb" workloadGraph
    = Ok (h', tm') ∧
    tm' !! "wl_bookinfo_productpage-v1" = Some source ∧
    tm' !! "wl_bookinfo_mongodb-v1" = Some dest ∧
    edges h' = [edgeOf source dest "tcp" "tcp" (Qcnat 5)] ∧
    nodeEntry h' source "tcpOut" = Some (VFloat (Qcnat 5)) ∧
    nodeEntry h' dest "tcpIn" = Some (VFloat (Qcnat 5)).
Proof.
  destruct (addTcpTraffic_counts_once IdSpec emptyHeap ∅ (Qcnat 5)
              "bookinfo" "productpage-v1" "productpage" "v1" ""
              "bookinfo" "mongodb-v1" "mongodb" "v1" "mongodb"
              workloadGraph)
    as (h' & tm' & source & dest & S & HOk & Hs & Hd & He & _ & _ & Ho & Hi
        & _).
  - apply built_empty.
  - exists h', tm', source, dest.
    split; [exact HOk|]. split; [exact Hs|]. split; [exact Hd|].
    split; [exact He|].
    rewrite Ho, Hi. unfold nodeEntry, emptyHeap. simpl.
    assert (H0 : 0 + Qcnat 5 = Qcnat 5) by by apply Qc_is_canon.
    by rewrite H0.
Defined.

(** ** Counter conservation and rounding *)

